(** * Mudbrick: the in-place text and image editing engine (js/text-edit.js)

    A shallow embedding of the layout reconstructor, the raster colour
    sampler, the single-block editing session and the commit engine, with the
    properties of the specification stated over it.

    Modelling conventions.
    - A JavaScript number is a rational ([Q]) or, where the code only ever
      holds an integer (bucket indices, band numbers, colour channels, block
      indices), an integer ([Z]).  [Math.floor] and [Math.round] are the
      exact functions.  Where a rounded result decides a test (the buckets
      and the threshold of the column detection, the luminances of the
      colour samplers, the cursor of the run loop), the arithmetic is that
      of IEEE doubles: [Js.add], [Js.sub], [Js.mul] and [Js.div] round the
      exact result to the nearest double.  The geometry of lines and
      rectangles is kept exact.
    - A JavaScript string is a [string] of 8-bit code units (the Latin-1
      range of UTF-16); U+00A0 is the code unit 160.
    - Module-level [let] variables of the source are the fields of one
      [Session] record that every operation takes and returns.
    - Calls into the mutable PDF document (pdf-lib) are recorded as a list of
      draw operations, in call order. *)

From Stdlib Require Import ZArith QArith Qround Qabs Qminmax Qpower List Bool String Ascii Lia Lqa.
Import ListNotations.

Set Implicit Arguments.

(** ** JavaScript primitives *)

Module Js.

Definition Math_floor (q : Q) : Z := Qfloor q.

(** [Math.round] rounds half-way cases towards plus infinity. *)
Definition Math_round (q : Q) : Z := Qfloor (q + (1 # 2)).

(** *** Doubles

    The value of a finite double is a rational.  An arithmetic operation
    gives the double nearest to the exact result, ties to the one with an
    even mantissa (53 bits); overflow and subnormal numbers, out of reach
    of page coordinates and colour channels, are left out. *)

(** The integer nearest to a rational, ties to the even one. *)
Definition round_half_even (q : Q) : Z :=
  let f := Qfloor q in
  match Qcompare (q - inject_Z f) (1 # 2) with
  | Lt => f
  | Gt => (f + 1)%Z
  | Eq => if Z.even f then f else (f + 1)%Z
  end.

(** The binary exponent of a positive rational [a]: the [k] with
    [2^k <= a < 2^(k+1)]. *)
Definition exponent (a : Q) : Z :=
  let k := (Z.log2 (Qnum a) - Z.log2 (Zpos (Qden a)))%Z in
  if Qlt_le_dec a (2 ^ k) then (k - 1)%Z else k.

(** The double nearest to a rational: a mantissa of 53 bits times a power
    of two. *)
Definition double (q : Q) : Q :=
  match Qnum q with
  | Z0 => 0
  | Zpos _ =>
      let e := (exponent q - 52)%Z in
      Qred (inject_Z (round_half_even (q / 2 ^ e)) * 2 ^ e)
  | Zneg _ =>
      let e := (exponent (- q) - 52)%Z in
      Qred (- (inject_Z (round_half_even (- q / 2 ^ e)) * 2 ^ e))
  end.

(** [a + b], [a - b], [a * b] and [a / b] on doubles. *)
Definition add (a b : Q) : Q := double (a + b).
Definition sub (a b : Q) : Q := double (a - b).
Definition mul (a b : Q) : Q := double (a * b).
Definition div (a b : Q) : Q := double (a / b).

(** [a || b] on numbers: zero is falsy. *)
Definition or_num (a b : Q) : Q := if Qeq_bool a 0 then b else a.

(** [a || b] on strings: the empty string is falsy. *)
Definition or_str (a b : string) : string :=
  match a with EmptyString => b | _ => a end.

Definition truthy_str (a : string) : bool :=
  match a with EmptyString => false | _ => true end.

(** White space of [String.prototype.trim], within the 8-bit range. *)
Definition is_space (c : ascii) : bool :=
  let n := nat_of_ascii c in
  (Nat.eqb n 9 || Nat.eqb n 10 || Nat.eqb n 11 || Nat.eqb n 12 ||
   Nat.eqb n 13 || Nat.eqb n 32 || Nat.eqb n 160)%bool.

Fixpoint trim_start (s : string) : string :=
  match s with
  | EmptyString => EmptyString
  | String c s' => if is_space c then trim_start s' else s
  end.

(** [trim_end s]: the result, and whether it is empty (so that a white-space
    tail is dropped on the way back). *)
Fixpoint trim_end (s : string) : string :=
  match s with
  | EmptyString => EmptyString
  | String c s' =>
      match trim_end s' with
      | EmptyString => if is_space c then EmptyString else String c EmptyString
      | t => String c t
      end
  end.

Definition trim (s : string) : string := trim_end (trim_start s).

(** [for (let b = lo; b <= hi; b++) s = body(b, s)] *)
Fixpoint for_steps {S : Type} (n : nat) (b : Z) (body : Z -> S -> S) (s : S) : S :=
  match n with
  | O => s
  | Datatypes.S n' => for_steps n' (b + 1)%Z body (body b s)
  end.

Definition for_range {S : Type} (lo hi : Z) (body : Z -> S -> S) (s : S) : S :=
  for_steps (Z.to_nat (hi - lo + 1)) lo body s.

(** [arr[i] = f(arr[i])] for an index inside the array. *)
Fixpoint update_nth {A : Type} (i : nat) (f : A -> A) (l : list A) : list A :=
  match l, i with
  | [], _ => []
  | x :: l', O => f x :: l'
  | x :: l', Datatypes.S i' => x :: update_nth i' f l'
  end.

(** A [Set] of numbers: insertion ordered, no duplicates. *)
Definition set_add (y : Z) (s : list Z) : list Z :=
  if existsb (Z.eqb y) s then s else s ++ [y].

(** [Math.max(...l)] for a non-empty list of non-negative integers. *)
Definition max_list (l : list Z) : Z := fold_left Z.max l 0%Z.

Definition sum_list (l : list Z) : Z := fold_left Z.add l 0%Z.

(** [arr.slice(a)] and [arr.slice(0, b)] for indices inside the array. *)
Definition slice_to {A : Type} (b : Z) (l : list A) : list A := firstn (Z.to_nat b) l.
Definition slice_from {A : Type} (a : Z) (l : list A) : list A := skipn (Z.to_nat a) l.

End Js.

(** ** Layout reconstruction *)

(** Style metadata of a font, as pdf.js reports it ([textContent.styles]). *)
Record StyleInfo := mkStyleInfo {
  fontWeight : string;
  fontStyle : string;
  fontFamily : string
}.

(** An element of [mapped] in [groupIntoLines]: a run in screen space. *)
Record Item := mkItem {
  str : string;
  fontName : string;
  styleInfo : option StyleInfo;
  left : Q;
  top : Q;
  width : Q;
  height : Q;
  fontSize : Q;
  pdfX : Q;
  pdfY : Q;
  pdfFontSize : Q
}.

(** [!item.str.trim()] *)
Definition blank (it : Item) : bool :=
  match Js.trim (str it) with EmptyString => true | _ => false end.

(** The items with visible text, the ones the loops do not skip. *)
Definition visible (mapped : list Item) : list Item :=
  filter (fun it => negb (blank it)) mapped.

Module ColumnSplit.

Definition NUM_BUCKETS : Z := 100.

(** [pageWidth / NUM_BUCKETS] *)
Definition bucketWidth (pageWidth : Q) : Q := Js.div pageWidth (inject_Z NUM_BUCKETS).

(** [Math.round(item.top / 5) * 5]: an integer, also after the rounding of
    the product. *)
Definition yBand (it : Item) : Z :=
  Qfloor (Js.mul (inject_Z (Js.Math_round (Js.div (top it) 5))) 5).

(** [Math.max(0, Math.floor(item.left / bucketWidth))] *)
Definition startBucket (bw : Q) (it : Item) : Z :=
  Z.max 0 (Js.Math_floor (Js.div (left it) bw)).

(** [Math.min(NUM_BUCKETS - 1, Math.floor((item.left + item.width) / bucketWidth))] *)
Definition endBucket (bw : Q) (it : Item) : Z :=
  Z.min (NUM_BUCKETS - 1) (Js.Math_floor (Js.div (Js.add (left it) (width it)) bw)).

(** One iteration of [for (const item of mapped)]. *)
Definition addItem (bw : Q) (sets : list (list Z)) (it : Item) : list (list Z) :=
  if blank it then sets
  else
    Js.for_range (startBucket bw it) (endBucket bw it)
      (fun b s => Js.update_nth (Z.to_nat b) (Js.set_add (yBand it)) s) sets.

Definition bucketYSets (mapped : list Item) (pageWidth : Q) : list (list Z) :=
  fold_left (addItem (bucketWidth pageWidth)) mapped
            (repeat [] (Z.to_nat NUM_BUCKETS)).

Definition histogram (mapped : list Item) (pageWidth : Q) : list Z :=
  map (fun s => Z.of_nat (List.length s)) (bucketYSets mapped pageWidth).

Definition minB : Z := 30.   (* Math.floor(0.30 * NUM_BUCKETS) *)
Definition maxB : Z := 70.   (* Math.floor(0.70 * NUM_BUCKETS) *)

(** [Math.max(2, Math.floor(maxCount * 0.15))], with the double that the
    literal [0.15] denotes. *)
Definition emptyThreshold (maxCount : Z) : Z :=
  Z.max 2 (Js.Math_floor (Js.mul (inject_Z maxCount) (Js.double (15 # 100)))).

(** The loop variables of the gap search. *)
Record Gap := mkGap {
  bestStart : Z;
  bestEnd : Z;
  bestWidth : Z;
  gapStart : Z
}.

Definition gap0 : Gap := mkGap (-1) (-1) 0 (-1).

Definition hist_at (hist : list Z) (b : Z) : Z := nth (Z.to_nat b) hist 0%Z.

(** Body of [for (let b = minB; b <= maxB; b++)]. *)
Definition gapStep (hist : list Z) (thr : Z) (b : Z) (g : Gap) : Gap :=
  if (hist_at hist b <=? thr)%Z then
    if (gapStart g =? -1)%Z then mkGap (bestStart g) (bestEnd g) (bestWidth g) b else g
  else
    if negb (gapStart g =? -1)%Z then
      let w := (b - gapStart g)%Z in
      if (w >? bestWidth g)%Z then mkGap (gapStart g) b w (-1)
      else mkGap (bestStart g) (bestEnd g) (bestWidth g) (-1)
    else g.

(** The [if (gapStart !== -1)] after the loop. *)
Definition gapClose (g : Gap) : Gap :=
  if negb (gapStart g =? -1)%Z then
    let w := (maxB - gapStart g)%Z in
    if (w >? bestWidth g)%Z then mkGap (gapStart g) maxB w (gapStart g) else g
  else g.

Definition searchGap (hist : list Z) (thr : Z) : Gap :=
  gapClose (Js.for_range minB maxB (gapStep hist thr) gap0).

(** [detectColumnSplit(mapped, pageWidth)]; [None] is [null]. *)
Definition detectColumnSplit (mapped : list Item) (pageWidth : Q) : option Q :=
  let bw := bucketWidth pageWidth in
  let hist := histogram mapped pageWidth in
  let maxCount := Js.max_list hist in
  if (maxCount =? 0)%Z then None
  else
    let g := searchGap hist (emptyThreshold maxCount) in
    if (bestWidth g <? 3)%Z then None
    else
      let leftContent := Js.sum_list (Js.slice_to (bestStart g) hist) in
      let rightContent := Js.sum_list (Js.slice_from (bestEnd g) hist) in
      if ((leftContent <? 5) || (rightContent <? 5))%Z%bool then None
      else Some (Js.mul (Js.div (inject_Z (bestStart g + bestEnd g)) 2) bw).


End ColumnSplit.

(** The de-duplication loop of [groupIntoLines] (its first pass over
    [mapped]). *)
Module Dedup.

(** The [seen] key of an item.  The source builds the string
    [`${Math.round(item.left)},${Math.round(item.top)}`]; two such strings are
    equal exactly when both rounded coordinates are, so the key is kept as the
    pair. *)
Definition posKey (it : Item) : Z * Z :=
  (Js.Math_round (left it), Js.Math_round (top it)).

Definition key_eqb (a b : Z * Z) : bool :=
  ((fst a =? fst b) && (snd a =? snd b))%Z%bool.

(** [seen.get(key)] on the insertion-ordered [Map]; [None] when
    [seen.has(key)] is false. *)
Fixpoint seen_get (seen : list ((Z * Z) * nat)) (k : Z * Z) : option nat :=
  match seen with
  | [] => None
  | (k', n) :: rest => if key_eqb k' k then Some n else seen_get rest k
  end.

(** [deduped[i] = item] for an index inside the array. *)
Definition assign {A : Type} (i : nat) (x : A) (l : list A) : list A :=
  Js.update_nth i (fun _ => x) l.

(** One iteration of [for (const item of mapped)]; the state is
    [(deduped, seen)]. *)
Definition step (st : list Item * list ((Z * Z) * nat)) (it : Item)
  : list Item * list ((Z * Z) * nat) :=
  let (deduped, seen) := st in
  if blank it then st
  else
    match seen_get seen (posKey it) with
    | Some i => (assign i it deduped, seen)
    | None => (deduped ++ [it], seen ++ [(posKey it, List.length deduped)])
    end.

Definition dedupe (mapped : list Item) : list Item :=
  fst (fold_left step mapped ([], [])).

(** The state of the loop after the visible items [p]: [seen] indexes
    [deduped] by position key, and every entry of [deduped] is the last item
    of [p] at its position. *)
Record dedup_inv (p : list Item) (st : list Item * list ((Z * Z) * nat)) : Prop := {
  inv_seen : forall k n, seen_get (snd st) k = Some n ->
               exists y, nth_error (fst st) n = Some y /\ posKey y = k;
  inv_index : forall n y, nth_error (fst st) n = Some y ->
                seen_get (snd st) (posKey y) = Some n;
  inv_last : forall n y, nth_error (fst st) n = Some y ->
               exists l1 l2, p = l1 ++ y :: l2 /\
                             forall z, In z l2 -> posKey z <> posKey y;
  inv_cover : forall z, In z p ->
                exists n y, nth_error (fst st) n = Some y /\ posKey y = posKey z
}.

End Dedup.

(** ** Pages of the column-detection property *)

Module Fixture.

Import ColumnSplit.

Local Open Scope string_scope.

(** A visible run lies over bucket [b] of the page: [b] is one of the
    buckets from [start] to [end] that the function computes for the
    run. *)
Definition overBucket (pageWidth : Q) (b : Z) (it : Item) : bool :=
  (negb (blank it) &&
   ((startBucket (bucketWidth pageWidth) it <=? b)%Z &&
    (b <=? endBucket (bucketWidth pageWidth) it)%Z))%bool.

(** The distinct vertical bands with a visible run over bucket [b]. *)
Definition bandsOver (mapped : list Item) (pageWidth : Q) (b : Z) : list Z :=
  nodup Z.eq_dec (map yBand (filter (overBucket pageWidth b) mapped)).

Definition bandCount (mapped : list Item) (pageWidth : Q) (b : Z) : Z :=
  Z.of_nat (List.length (bandsOver mapped pageWidth b)).

(** A visible run lies over the left edge x = 6 b of bucket [b] of the page
    600 wide. *)
Definition overEdge (b : Z) (it : Item) : bool :=
  (negb (blank it) && Qle_bool (left it) (inject_Z (6 * b)) &&
   Qle_bool (inject_Z (6 * b)) (left it + width it))%bool.

(** The number of distinct vertical bands with a visible run over the
    left edge of bucket [b], and the number of distinct bands of the page. *)
Definition edgeBands (mapped : list Item) (b : Z) : Z :=
  Z.of_nat (List.length (nodup Z.eq_dec (map yBand (filter (overEdge b) mapped)))).

Definition pageBands (mapped : list Item) : Z :=
  Z.of_nat (List.length (nodup Z.eq_dec (map yBand (visible mapped)))).

(** The horizontal extent of a run lies within [lo, hi]. *)
Definition within (lo hi : Q) (it : Item) : Prop :=
  lo <= left it /\ left it + width it <= hi.

(** The page of the column-detection property, 600 wide (buckets of width
    6: buckets 0 to 46 meet [0,280], buckets 60 to 99 meet [360,600]): every
    visible run lies within [0,280] or within [360,600], and over every
    bucket of either column the function counts visible runs in at least 5
    distinct vertical bands. *)
Definition twoColumnPage (mapped : list Item) : Prop :=
  (forall it, In it mapped -> blank it = false -> within 0 280 it \/ within 360 600 it) /\
  (forall b, (0 <= b <= 46 \/ 60 <= b <= 99)%Z -> (5 <= bandCount mapped 600 b)%Z).

(** Runs spanning the page uniformly: the function counts the same number
    of bands over every bucket. *)
Definition uniformPage (mapped : list Item) (n : Z) : Prop :=
  forall b, (0 <= b <= 99)%Z -> bandCount mapped 600 b = n.

(** A run of the fixtures: text "x" at the given left edge, band and width. *)
Definition run (x : Q) (band : nat) (w : Q) : Item :=
  mkItem "x" "Helvetica" None x (inject_Z (Z.of_nat band * 20)) w 10 10 0 0 10.

(** [n] bands of one run each, from [x] over width [w]. *)
Definition column (x w : Q) (n : nat) : list Item :=
  map (fun band => run x band w) (seq 0 n).

(** Boolean forms of the fixture conditions, for concrete pages. *)
Definition withinb (lo hi : Q) (it : Item) : bool :=
  (Qle_bool lo (left it) && Qle_bool (left it + width it) hi)%bool.

Definition zrange (lo : Z) (n : nat) : list Z := map (fun i => (lo + Z.of_nat i)%Z) (seq 0 n).

Definition twoColumnPageb (mapped : list Item) : bool :=
  (forallb (fun it => blank it || withinb 0 280 it || withinb 360 600 it) mapped &&
   forallb (fun b => (5 <=? bandCount mapped 600 b)%Z) (zrange 0 47 ++ zrange 60 40))%bool.

(** Five bands on the left, thirty-four on the right. *)
Definition unevenPage : list Item := column 0 280 5 ++ column 360 240 34.

(** Five bands in both columns. *)
Definition evenPage : list Item := column 0 280 5 ++ column 360 240 5.

(** Five bands of runs spanning the whole page. *)
Definition fullWidthPage : list Item := column 0 600 5.

(** Two bands of runs spanning the whole page. *)
Definition twoBandPage : list Item := column 0 600 2.

End Fixture.

(** ** Strings *)

Module Str.

Local Open Scope string_scope.

Definition chr (n : nat) : ascii := ascii_of_nat n.
Definition of_char (c : ascii) : string := String c EmptyString.

(** The characters the code and the HTML serialiser single out. *)
Definition c_amp : ascii := chr 38.
Definition c_lt : ascii := chr 60.
Definition c_gt : ascii := chr 62.
Definition c_quot : ascii := chr 34.
Definition c_nbsp : ascii := chr 160.
Definition c_space : ascii := chr 32.
Definition c_newline : ascii := chr 10.

Definition eqb (a b : string) : bool := String.eqb a b.

(** [s.includes(sub)] *)
Definition includes (s sub : string) : bool :=
  match index 0 sub s with Some _ => true | None => false end.

Definition lower_char (c : ascii) : ascii :=
  let n := nat_of_ascii c in
  if ((Nat.leb 65 n && Nat.leb n 90) ||
      (Nat.leb 192 n && Nat.leb n 222 && negb (Nat.eqb n 215)))%bool
  then chr (n + 32) else c.

(** [s.toLowerCase()] *)
Fixpoint toLowerCase (s : string) : string :=
  match s with
  | EmptyString => EmptyString
  | String c s' => String (lower_char c) (toLowerCase s')
  end.

(** [s.replace(/c/g, rep)] for a one-character pattern. *)
Fixpoint replace_char (c : ascii) (rep : string) (s : string) : string :=
  match s with
  | EmptyString => EmptyString
  | String d s' =>
      if Ascii.eqb d c then rep ++ replace_char c rep s'
      else String d (replace_char c rep s')
  end.

(** Does [s] start with [pat], ignoring case?  Returns what follows. *)
Fixpoint strip_prefix_ci (pat s : string) : option string :=
  match pat, s with
  | EmptyString, _ => Some s
  | String p pat', String c s' =>
      if Ascii.eqb (lower_char p) (lower_char c) then strip_prefix_ci pat' s' else None
  | String _ _, EmptyString => None
  end.

(** [s.replace(/pat/gi, '')] for a literal, non-empty pattern: one left to
    right pass; [skip] counts the characters of a match still to drop. *)
Fixpoint remove_ci_from (pat : string) (skip : nat) (s : string) : string :=
  match s with
  | EmptyString => EmptyString
  | String c s' =>
      match skip with
      | Datatypes.S k => remove_ci_from pat k s'
      | O =>
          match strip_prefix_ci pat s with
          | Some _ => remove_ci_from pat (String.length pat - 1) s'
          | None => String c (remove_ci_from pat 0 s')
          end
      end
  end.

Definition remove_ci (pat s : string) : string := remove_ci_from pat 0 s.

(** [s.slice(a, b)] for [0 <= a <= b]. *)
Definition slice (a b : nat) (s : string) : string := substring a (b - a) s.

Definition hex_digit (n : Z) : ascii :=
  if (n <? 10)%Z then chr (48 + Z.to_nat n) else chr (87 + Z.to_nat n).

(** [c.toString(16).padStart(2, '0')] for a colour channel [0 <= c < 256]. *)
Definition hex2 (c : Z) : string :=
  String (hex_digit (c / 16)) (String (hex_digit (c mod 16)) EmptyString).

Definition hex_value (c : ascii) : option Z :=
  let n := nat_of_ascii c in
  if (Nat.leb 48 n && Nat.leb n 57)%bool then Some (Z.of_nat n - 48)%Z
  else if (Nat.leb 97 n && Nat.leb n 102)%bool then Some (Z.of_nat n - 87)%Z
  else if (Nat.leb 65 n && Nat.leb n 70)%bool then Some (Z.of_nat n - 55)%Z
  else None.

(** The digits of [parseInt(s, 16)]: the longest prefix of hexadecimal
    digits, [None] (NaN) when there is none. *)
Fixpoint hex_prefix (acc : option Z) (s : string) : option Z :=
  match s with
  | EmptyString => acc
  | String c s' =>
      match hex_value c with
      | Some d => hex_prefix (Some (match acc with Some a => a * 16 + d | None => d end)%Z) s'
      | None => acc
      end
  end.

Definition strip_0x (s : string) : string :=
  match s with
  | String a (String b s') =>
      if (Ascii.eqb a (chr 48) && (Ascii.eqb b (chr 120) || Ascii.eqb b (chr 88)))%bool
      then s' else s
  | _ => s
  end.

(** [parseInt(s, 16)]: leading white space, a sign and a [0x] prefix are
    accepted; [None] is NaN. *)
Definition parseInt16 (s : string) : option Z :=
  match Js.trim_start s with
  | String c s' =>
      if Ascii.eqb c (chr 45) then option_map Z.opp (hex_prefix None (strip_0x s'))
      else if Ascii.eqb c (chr 43) then hex_prefix None (strip_0x s')
      else hex_prefix None (strip_0x (String c s'))
  | EmptyString => None
  end.

End Str.

(** ** The editable overlay's content (DOM)

    The content of a [contenteditable] line is a list of DOM nodes.  The
    editor's own markup is attribute-free ([<b>], [<i>], [<br>]), so an
    element is a tag name and its children; [el.style.fontWeight] and
    [el.style.fontStyle] of such an element are the empty string.

    [innerHTML] and [textContent] are browser behaviour, not code of this
    repository; they are modelled after the HTML Standard: the fragment
    serialisation algorithm escapes, in a text node, [&], U+00A0, [<] and [>]
    (a double quote is escaped in attribute values only), and the fragment
    parser decodes the named character references and builds the tree. *)

Module Dom.

Local Open Scope string_scope.

#[warnings="-register-all"]
Inductive Node :=
| Text (data : string)
| Elem (tag : string) (children : list Node).

(** "Escaping a string" of the serialisation algorithm, outside attribute
    mode. *)
Definition escape_text (s : string) : string :=
  Str.replace_char Str.c_gt "&gt;"
    (Str.replace_char Str.c_lt "&lt;"
       (Str.replace_char Str.c_nbsp "&nbsp;"
          (Str.replace_char Str.c_amp "&amp;" s))).

(** The [innerHTML] getter of a node list. *)
Fixpoint serialize (n : Node) : string :=
  match n with
  | Text s => escape_text s
  | Elem tag children =>
      if Str.eqb tag "br" then "<br>"
      else "<" ++ tag ++ ">"
           ++ (fix all (l : list Node) : string :=
                 match l with [] => "" | c :: l' => serialize c ++ all l' end) children
           ++ "</" ++ tag ++ ">"
  end.

Definition innerHTML (nodes : list Node) : string :=
  fold_right (fun n acc => serialize n ++ acc) "" nodes.

(** The [textContent] getter. *)
Fixpoint text_of (n : Node) : string :=
  match n with
  | Text s => s
  | Elem _ children =>
      (fix all (l : list Node) : string :=
         match l with [] => "" | c :: l' => text_of c ++ all l' end) children
  end.

Definition textContent (nodes : list Node) : string :=
  fold_right (fun n acc => text_of n ++ acc) "" nodes.

(** The [textContent] setter. *)
Definition set_textContent (s : string) : list Node :=
  match s with EmptyString => [] | _ => [Text s] end.

(** *** Fragment parsing (the [innerHTML] setter) *)

Inductive Token :=
| TChar (c : ascii)
| TOpen (tag : string)
| TClose (tag : string).

Inductive Mode :=
| MText
| MTag (closing : bool) (name : string)
| MEnt (name : string).

Definition is_letter (c : ascii) : bool :=
  let n := nat_of_ascii c in
  ((Nat.leb 65 n && Nat.leb n 90) || (Nat.leb 97 n && Nat.leb n 122))%bool.

Definition chars (s : string) : list Token := map TChar (list_ascii_of_string s).

(** Characters consumed in a mode that did not complete: they are text. *)
Definition flush (m : Mode) : list Token :=
  match m with
  | MText => []
  | MTag closing name => chars ("<" ++ (if closing then "/" else "") ++ name)
  | MEnt name => chars ("&" ++ name)
  end.

Definition entity (name : string) : list Token :=
  if Str.eqb name "amp" then [TChar Str.c_amp]
  else if Str.eqb name "lt" then [TChar Str.c_lt]
  else if Str.eqb name "gt" then [TChar Str.c_gt]
  else if Str.eqb name "quot" then [TChar Str.c_quot]
  else if Str.eqb name "nbsp" then [TChar Str.c_nbsp]
  else chars ("&" ++ name ++ ";").

Definition text_step (c : ascii) : Mode * list Token :=
  if Ascii.eqb c Str.c_lt then (MTag false "", [])
  else if Ascii.eqb c Str.c_amp then (MEnt "", [])
  else (MText, [TChar c]).

Definition token_step (m : Mode) (c : ascii) : Mode * list Token :=
  match m with
  | MText => text_step c
  | MTag closing name =>
      if is_letter c then (MTag closing (name ++ Str.of_char c), [])
      else if (Ascii.eqb c (Str.chr 47) && negb closing && Str.eqb name "")%bool
      then (MTag true "", [])
      else if (Ascii.eqb c Str.c_gt && negb (Str.eqb name ""))%bool
      then (MText, [if closing then TClose (Str.toLowerCase name)
                    else TOpen (Str.toLowerCase name)])
      else let (m', ts) := text_step c in (m', (flush m ++ ts)%list)
  | MEnt name =>
      if is_letter c then (MEnt (name ++ Str.of_char c), [])
      else if Ascii.eqb c (Str.chr 59) then (MText, entity name)
      else let (m', ts) := text_step c in (m', (flush m ++ ts)%list)
  end.

Fixpoint tokens_from (m : Mode) (s : string) : list Token :=
  match s with
  | EmptyString => flush m
  | String c s' => let (m', ts) := token_step m c in (ts ++ tokens_from m' s')%list
  end.

Definition tokenize (s : string) : list Token := tokens_from MText s.

(** Children are collected in order; a character extends a trailing text
    node. *)
Definition add_char (c : ascii) (nodes : list Node) : list Node :=
  match rev nodes with
  | Text s :: before => (rev before ++ [Text (s ++ Str.of_char c)%string])%list
  | _ => (nodes ++ [Text (Str.of_char c)])%list
  end.

(** The stack of open elements: the innermost first, each with the children
    read so far; [top] are the children of the fragment itself. *)
Fixpoint close_all (open : list (string * list Node)) (cur : list Node) : list Node :=
  match open with
  | [] => cur
  | (tag, siblings) :: rest => close_all rest (siblings ++ [Elem tag cur])%list
  end.

Fixpoint build (ts : list Token) (open : list (string * list Node)) (cur : list Node)
  : list Node :=
  match ts with
  | [] => close_all open cur
  | TChar c :: ts' => build ts' open (add_char c cur)
  | TOpen tag :: ts' =>
      if Str.eqb tag "br" then build ts' open (cur ++ [Elem "br" []])%list
      else build ts' ((tag, cur) :: open) []
  | TClose tag :: ts' =>
      match open with
      | (tag', siblings) :: rest =>
          if Str.eqb tag tag' then build ts' rest (siblings ++ [Elem tag' cur])%list
          else build ts' open cur
      | [] => build ts' open cur
      end
  end.

(** The [innerHTML] setter: the nodes the fragment parses to, for the
    markup of the editor: well nested tags without attributes, and text
    without a carriage return or NUL (the setter reads a carriage return
    as a line feed and drops NUL; this is not modelled, and the properties
    that parse the text of a page exclude the two characters). *)
Definition parse (html : string) : list Node := build (tokenize html) [] [].

End Dom.

(** ** Helpers of the text editor *)

Module Edit.

Local Open Scope string_scope.

(** [escapeHtml(str)] *)
Definition escapeHtml (s : string) : string :=
  Str.replace_char Str.c_quot "&quot;"
    (Str.replace_char Str.c_gt "&gt;"
       (Str.replace_char Str.c_lt "&lt;"
          (Str.replace_char Str.c_amp "&amp;" s))).

(** The literal of the second [replace] of [normalizeInlineHtml]. *)
Definition empty_span : string :=
  "<span style=" ++ Str.of_char Str.c_quot ++ Str.of_char Str.c_quot ++ "></span>".

(** [normalizeInlineHtml(html)] *)
Definition normalizeInlineHtml (html : string) : string :=
  Js.trim (Str.remove_ci empty_span (Str.replace_char Str.c_nbsp " " html)).

(** A rich run [{ text, bold, italic }]. *)
Record Run := mkRun {
  r_text : string;
  r_bold : bool;
  r_italic : bool
}.

(** The [state] argument of [collectTextRuns]. *)
Record RunState := mkRunState {
  st_bold : bool;
  st_italic : bool
}.

(** [last.text += text] on the last element of [out], or a [push]. *)
Definition emit (text : string) (st : RunState) (out : list Run) : list Run :=
  match rev out with
  | last :: before =>
      if (Bool.eqb (r_bold last) (st_bold st) && Bool.eqb (r_italic last) (st_italic st))%bool
      then (rev before ++ [mkRun (r_text last ++ text) (r_bold last) (r_italic last)])%list
      else (out ++ [mkRun text (st_bold st) (st_italic st)])%list
  | [] => [mkRun text (st_bold st) (st_italic st)]
  end.

(** [collectTextRuns(node, state, out)]; the result is [out] afterwards.
    The tests on [el.style.fontWeight] and [el.style.fontStyle] read the empty
    string on the attribute-free elements of [Dom.Node] and change nothing. *)
Fixpoint collectTextRuns (node : Dom.Node) (state : RunState) (out : list Run) : list Run :=
  match node with
  | Dom.Text text =>
      match text with
      | EmptyString => out
      | _ => emit text state out
      end
  | Dom.Elem tag children =>
      let bold1 := if (Str.eqb tag "b" || Str.eqb tag "strong")%bool then true else st_bold state in
      let italic1 := if (Str.eqb tag "i" || Str.eqb tag "em")%bool then true else st_italic state in
      let next := mkRunState bold1 italic1 in
      if Str.eqb tag "br" then emit (Str.of_char Str.c_newline) next out
      else
        (fix each (l : list Dom.Node) (out : list Run) : list Run :=
           match l with
           | [] => out
           | child :: l' => each l' (collectTextRuns child next out)
           end) children out
  end.

(** [extractRunsFromDiv(div)], from the div's [dataset.bold],
    [dataset.italic] and child nodes. *)
Definition extractRunsFromDiv (bold italic : bool) (childNodes : list Dom.Node) : list Run :=
  let base := mkRunState bold italic in
  let runs := fold_left (fun out child => collectTextRuns child base out) childNodes [] in
  filter (fun r => Nat.ltb 0 (String.length (r_text r))) runs.

(** [detectFontStyle(fontName)] *)
Definition detectFontStyle (fontName : string) : RunState :=
  let lower := Str.toLowerCase fontName in
  mkRunState
    (Str.includes lower "bold" || Str.includes lower "heavy" || Str.includes lower "black")
    (Str.includes lower "italic" || Str.includes lower "oblique").

(** [detectFontStyleWithMeta(fontName, styleInfo)] *)
Definition detectFontStyleWithMeta (fontName : string) (styleInfo : option StyleInfo) : RunState :=
  let field (f : StyleInfo -> string) :=
    Str.toLowerCase (match styleInfo with Some si => f si | None => "" end) in
  let lowerWeight := field fontWeight in
  let lowerStyle := field fontStyle in
  let lowerFamily := field fontFamily in
  let fromMeta := mkRunState
    (Str.eqb lowerWeight "bold" || Str.eqb lowerWeight "700" || Str.eqb lowerWeight "800" ||
     Str.eqb lowerWeight "900" || Str.includes lowerFamily "bold")
    (Str.eqb lowerStyle "italic" || Str.eqb lowerStyle "oblique" ||
     Str.includes lowerFamily "italic" || Str.includes lowerFamily "oblique") in
  if (st_bold fromMeta || st_italic fromMeta)%bool then fromMeta
  else detectFontStyle fontName.

(** [buildInitialHtmlFromItems(items)] *)
Definition buildInitialHtmlFromItems (items : list Item) : string :=
  fold_right
    (fun it acc =>
       let style := detectFontStyleWithMeta (fontName it) (styleInfo it) in
       let (open, close) :=
         if (st_bold style && st_italic style)%bool then ("<b><i>", "</i></b>")
         else if st_bold style then ("<b>", "</b>")
         else if st_italic style then ("<i>", "</i>")
         else ("", "") in
       open ++ escapeHtml (str it) ++ close ++ acc)
    "" items.

(** [mapToStandardFont(fontName)] *)
Definition mapToStandardFont (fontName : string) : string :=
  let lower := Str.toLowerCase fontName in
  let has := Str.includes lower in
  if (has "courier" || has "mono")%bool then
    if (has "bold" && (has "oblique" || has "italic"))%bool then "CourierBoldOblique"
    else if has "bold" then "CourierBold"
    else if (has "oblique" || has "italic")%bool then "CourierOblique"
    else "Courier"
  else if (has "times" || has "roman" || (has "serif" && negb (has "sans")))%bool then
    if (has "bold" && has "italic")%bool then "TimesRomanBoldItalic"
    else if has "bold" then "TimesRomanBold"
    else if has "italic" then "TimesRomanItalic"
    else "TimesRoman"
  else if (has "bold" && (has "oblique" || has "italic"))%bool then "HelveticaBoldOblique"
  else if has "bold" then "HelveticaBold"
  else if (has "oblique" || has "italic")%bool then "HelveticaOblique"
  else "Helvetica".

(** [mapToCSSFont(fontName)] *)
Definition mapToCSSFont (fontName : string) : string :=
  let lower := Str.toLowerCase fontName in
  let has := Str.includes lower in
  let q := Str.of_char Str.c_quot in
  if (has "courier" || has "mono")%bool then q ++ "Courier New" ++ q ++ ", Courier, monospace"
  else if (has "times" || has "roman" || (has "serif" && negb (has "sans")))%bool
  then q ++ "Times New Roman" ++ q ++ ", Times, serif"
  else if (has "arial" || has "helvetica" || has "sans")%bool then "Arial, Helvetica, sans-serif"
  else if has "georgia" then "Georgia, serif"
  else if has "verdana" then "Verdana, sans-serif"
  else if has "trebuchet" then q ++ "Trebuchet MS" ++ q ++ ", sans-serif"
  else if has "tahoma" then "Tahoma, sans-serif"
  else if has "palatino"
  then q ++ "Palatino Linotype" ++ q ++ ", " ++ q ++ "Book Antiqua" ++ q ++ ", Palatino, serif"
  else if has "garamond" then "Garamond, serif"
  else "Arial, Helvetica, sans-serif".

End Edit.

(** ** Raster colour sampler *)

Module Sampler.

Local Open Scope string_scope.

(** The rendered page canvas, as far as the samplers read it.
    [cv_cssWidth] is [parseFloat(canvas.style.width) || canvas.offsetWidth],
    not zero for a canvas that is laid out; [cv_context] tells whether
    [getReadbackContext] returns a context; [cv_getImageData sx sy sw sh] is
    the [data] array of [ctx.getImageData(sx, sy, sw, sh)] (four entries per
    pixel), [None] when the call throws. *)
Record Canvas := mkCanvas {
  cv_width : Z;
  cv_height : Z;
  cv_cssWidth : Q;
  cv_context : bool;
  cv_getImageData : Z -> Z -> Z -> Z -> option (list Z)
}.

(** [canvas.width / (parseFloat(canvas.style.width) || canvas.offsetWidth) || 1] *)
Definition dpr (cv : Canvas) : Q :=
  Js.or_num (Js.div (inject_Z (cv_width cv)) (cv_cssWidth cv)) 1.

(** The clamped read-back of both samplers, from the context test to
    [getImageData]; [None] stands for every early [return] of the default
    colour. *)
Definition readRegion (canvas : option Canvas) (x y width height : Q) : option (list Z) :=
  match canvas with
  | None => None
  | Some cv =>
      if negb (cv_context cv) then None
      else
        let d := dpr cv in
        let sx := Z.max 0 (Js.Math_round (Js.mul x d)) in
        let sy := Z.max 0 (Js.Math_round (Js.mul y d)) in
        let sw := Z.min (Js.Math_round (Js.mul width d)) (cv_width cv - sx) in
        let sh := Z.min (Js.Math_round (Js.mul height d)) (cv_height cv - sy) in
        if ((sw <=? 0) || (sh <=? 0))%Z%bool then None
        else cv_getImageData cv sx sy sw sh
  end.

Record Pixel := mkPixel { px_r : Z; px_g : Z; px_b : Z; px_a : Z }.

(** The [i += 4] walk over [data]. *)
Fixpoint pixels (data : list Z) : list Pixel :=
  match data with
  | r :: g :: b :: a :: rest => mkPixel r g b a :: pixels rest
  | _ => []
  end.

(** [r * 0.299 + g * 0.587 + b * 0.114], in doubles: the three literals
    are the doubles nearest to them, and each product and each sum is
    rounded. *)
Definition luminance (r g b : Z) : Q :=
  Js.add
    (Js.add (Js.mul (inject_Z r) (Js.double (299 # 1000)))
            (Js.mul (inject_Z g) (Js.double (587 # 1000))))
    (Js.mul (inject_Z b) (Js.double (114 # 1000))).

(** [(c >> 2) << 2] *)
Definition quantize (c : Z) : Z := Z.shiftl (Z.shiftr c 2) 2.

Definition Color : Type := (Z * Z * Z)%type.

Definition color_eqb (a b : Color) : bool :=
  let '(r1, g1, b1) := a in
  let '(r2, g2, b2) := b in
  ((r1 =? r2) && (g1 =? g2) && (b1 =? b2))%Z%bool.

(** The key [`${qr},${qg},${qb}`] of a pixel, kept as the triple. *)
Definition colorKey (p : Pixel) : Color :=
  (quantize (px_r p), quantize (px_g p), quantize (px_b p)).

(** [counts[key] = (counts[key] || 0) + 1] on an object whose entries are
    enumerated in insertion order. *)
Fixpoint bump (key : Color) (counts : list (Color * Z)) : list (Color * Z) :=
  match counts with
  | [] => [(key, 1%Z)]
  | (k, n) :: rest =>
      if color_eqb k key then (k, (n + 1)%Z) :: rest else (k, n) :: bump key rest
  end.

(** The scan for the most frequent entry: [(maxCount, best)]. *)
Definition mostFrequent (counts : list (Color * Z)) : option Color :=
  snd (fold_left
         (fun (acc : Z * option Color) (e : Color * Z) =>
            if (snd e >? fst acc)%Z then (snd e, Some (fst e)) else acc)
         counts (0%Z, None)).

(** ['#' + [r, g, b].map(c => c.toString(16).padStart(2, '0')).join('')] *)
Definition toHex (c : Color) : string :=
  let '(r, g, b) := c in "#" ++ Str.hex2 r ++ Str.hex2 g ++ Str.hex2 b.

(** The histogram loop of [sampleBackgroundColor]. *)
Definition lightCounts (data : list Z) : list (Color * Z) :=
  fold_left
    (fun counts p =>
       if Qlt_le_dec (luminance (px_r p) (px_g p) (px_b p)) 150 then counts
       else bump (colorKey p) counts)
    (pixels data) [].

(** [sampleBackgroundColor(canvas, x, y, width, height)] *)
Definition sampleBackgroundColor (canvas : option Canvas) (x y width height : Q) : string :=
  match readRegion canvas x y width height with
  | None => "#ffffff"
  | Some data =>
      match mostFrequent (lightCounts data) with
      | None => "#ffffff"
      | Some best => toHex best
      end
  end.

(** [bgLum]: 230 unless [bgHex] has seven characters; [None] is NaN. *)
Definition bgLum (bgHex : string) : option Q :=
  if Nat.eqb (String.length bgHex) 7 then
    match Str.parseInt16 (Str.slice 1 3 bgHex),
          Str.parseInt16 (Str.slice 3 5 bgHex),
          Str.parseInt16 (Str.slice 5 7 bgHex) with
    | Some bgR, Some bgG, Some bgB => Some (luminance bgR bgG bgB)
    | _, _, _ => None
    end
  else Some 230.

(** [skipThreshold = bgLum - 40] *)
Definition skipThreshold (bgHex : string) : option Q :=
  option_map (fun l => Js.sub l 40) (bgLum bgHex).

(** [lum > skipThreshold]; a comparison with NaN is false. *)
Definition above (lum : Q) (threshold : option Q) : bool :=
  match threshold with
  | Some t => if Qlt_le_dec t lum then true else false
  | None => false
  end.

(** The two [continue] tests of the loop of [sampleTextColor]. *)
Definition skipped (threshold : option Q) (p : Pixel) : bool :=
  ((px_a p <? 128)%Z || above (luminance (px_r p) (px_g p) (px_b p)) threshold)%bool.

(** The histogram loop of [sampleTextColor]: [colorCounts]. *)
Definition colorCounts (threshold : option Q) (data : list Z) : list (Color * Z) :=
  fold_left
    (fun counts p => if skipped threshold p then counts else bump (colorKey p) counts)
    (pixels data) [].

(** [sampleTextColor(canvas, x, y, width, height, bgHex)] *)
Definition sampleTextColor (canvas : option Canvas) (x y width height : Q) (bgHex : string)
  : string :=
  match readRegion canvas x y width height with
  | None => "#000000"
  | Some data =>
      match mostFrequent (colorCounts (skipThreshold bgHex) data) with
      | None => "#000000"
      | Some bestColor => toHex bestColor
      end
  end.

End Sampler.

(** ** The text editing session *)

Module Session.

Local Open Scope string_scope.

(** A line of a paragraph: what [groupIntoLines] returns (or what
    [enterTextEditMode] builds from an OCR line, which has no [initialHtml],
    [pdfLineWidth] or [pdfItems]: the empty string, zero and the empty
    list here). *)
Record Line := mkLine {
  l_text : string;
  l_initialHtml : string;
  l_left : Q;
  l_top : Q;
  l_width : Q;
  l_height : Q;
  l_fontSize : Q;
  l_fontName : string;
  l_pdfX : Q;
  l_pdfY : Q;
  l_pdfFontSize : Q;
  l_pdfLineWidth : Q;
  l_pdfItems : list Item
}.

(** An entry of a [savedLines] array of [_editedBlocks]. *)
Record SavedLine := mkSavedLine {
  sv_text : string;
  sv_matchedColor : string;
  sv_cssFont : string;
  sv_bold : bool;
  sv_italic : bool;
  sv_fontSizeOverride : Q;
  sv_colorOverride : string;
  sv_fontFamilyOverride : string;
  sv_fontNameOverride : string;
  sv_dirty : bool;
  sv_html : string;
  sv_originalHtml : string;
  sv_runs : list Edit.Run;
  sv_pdfX : Q;
  sv_pdfY : Q;
  sv_pdfFontSize : Q;
  sv_pdfLineWidth : Q;
  sv_fontName : string;
  sv_screenWidth : Q;
  sv_screenHeight : Q;
  sv_bgColor : string
}.

(** A [.text-edit-line] overlay.  [dataset] entries that hold ['true'] or
    [''] are booleans; those that hold a number or [''] are numbers, zero for
    [''] (the toolbar offers no zero size).  [snapshotTaken] is the variable
    the [focus] and [input] listeners of the div close over. *)
Record LineDiv := mkLineDiv {
  childNodes : list Dom.Node;
  dirtyClass : bool;
  style_fontSize : Q;
  style_fontFamily : string;
  style_fontWeight : string;
  style_fontStyle : string;
  style_color : string;
  d_matchedColor : string;
  d_bgColor : string;
  d_original : string;
  d_originalHtml : string;
  d_pdfX : Q;
  d_pdfY : Q;
  d_pdfFontSize : Q;
  d_pdfLineWidth : Q;
  d_fontName : string;
  d_baseBold : bool;
  d_baseItalic : bool;
  d_cssFont : string;
  d_width : Q;
  d_height : Q;
  d_blockIdx : Z;
  d_lineIdx : nat;
  d_fontSizeOverride : Q;
  d_colorOverride : string;
  d_fontFamilyOverride : string;
  d_fontNameOverride : string;
  d_bold : bool;
  d_italic : bool;
  d_initialBold : bool;
  d_initialItalic : bool;
  d_lastText : option string;
  snapshotTaken : bool
}.

(** A click zone of [_blockZones]. *)
Record Zone := mkZone {
  z_display : string;
  z_pointerEvents : string;
  z_dirty : bool
}.

(** The engine's children of [editContainer], in document order.  A zone is
    the same object as an entry of [_blockZones]: the child holds its
    index. *)
Inductive Child :=
| CZone (i : nat)
| CShield
| CLine (div : LineDiv).

(** What [captureSnapshot(div)] records; the div is referred to by its block
    and line index. *)
Record Snapshot := mkSnapshot {
  sn_block : Z;
  sn_line : nat;
  sn_text : string;
  sn_html : string;
  sn_bold : bool;
  sn_italic : bool;
  sn_fontSizeOverride : Q;
  sn_colorOverride : string;
  sn_fontFamilyOverride : string;
  sn_fontNameOverride : string;
  sn_fontWeight : string;
  sn_fontStyle : string;
  sn_fontSize : Q;
  sn_fontFamily : string;
  sn_color : string
}.

(** [_canvasSnapshot] *)
Record CanvasSnapshot := mkCanvasSnapshot {
  cs_imageData : list Z;
  cs_x : Z;
  cs_y : Z
}.

Record Viewport := mkViewport {
  vp_scale : Q;
  vp_width : Q
}.

(** An observable effect on the overlay or the dirty store, logged in the
    order in which the code performs it (bookkeeping of the model, not a
    variable of the source). *)
Inductive Effect :=
| LineRemoved (block : Z) (line : nat)
| StoreSet (block : Z)
| LineAppended (block : Z) (line : nat).

(** The module-level variables of the text editor. *)
Record State := mkState {
  active : bool;
  editContainer : option (list Child);
  toolbar : bool;
  currentViewport : option Viewport;
  currentPageNum : Z;
  _pdfCanvas : option Sampler.Canvas;
  _focusedLine : option (Z * nat);
  _paragraphData : list (list Line);
  _activeBlockIdx : Z;
  _blockZones : list Zone;
  _editedBlocks : list (Z * list SavedLine);
  _canvasSnapshot : option CanvasSnapshot;
  undoStack : list Snapshot;
  redoStack : list Snapshot;
  customFont : bool;
  effects : list Effect
}.

Definition MAX_UNDO : nat := 50.

(** [_editedBlocks.get(k)] and [_editedBlocks.set(k, v)] on the
    insertion-ordered [Map]. *)
Fixpoint map_get {V : Type} (m : list (Z * V)) (k : Z) : option V :=
  match m with
  | [] => None
  | (k', v) :: rest => if (k' =? k)%Z then Some v else map_get rest k
  end.

Fixpoint map_set {V : Type} (k : Z) (v : V) (m : list (Z * V)) : list (Z * V) :=
  match m with
  | [] => [(k, v)]
  | (k', v') :: rest =>
      if (k' =? k)%Z then (k, v) :: rest else (k', v') :: map_set k v rest
  end.

(** [arr[i]] for a number [i]; [None] is [undefined]. *)
Definition at_index {A : Type} (l : list A) (i : Z) : option A :=
  if (i <? 0)%Z then None else nth_error l (Z.to_nat i).

Definition is_line (c : Child) : bool :=
  match c with CLine _ => true | _ => false end.

Definition is_shield (c : Child) : bool :=
  match c with CShield => true | _ => false end.

(** [querySelectorAll(`.text-edit-line[data-block-idx="${idx}"]`)] *)
Definition linesOfBlock (idx : Z) (children : list Child) : list LineDiv :=
  flat_map (fun c => match c with
                     | CLine d => if (d_blockIdx d =? idx)%Z then [d] else []
                     | _ => []
                     end) children.

(** [querySelectorAll('.text-edit-line')] *)
Definition allLines (children : list Child) : list LineDiv :=
  flat_map (fun c => match c with CLine d => [d] | _ => [] end) children.

Definition in_block (idx : Z) (c : Child) : bool :=
  match c with CLine d => (d_blockIdx d =? idx)%Z | _ => false end.

(** The comparisons shared by [markDirty], [deactivateBlock] and
    [commitTextEdits]. *)
Definition hasTextChange (d : LineDiv) : bool :=
  negb (Str.eqb (Dom.textContent (childNodes d)) (d_original d)).

Definition hasInlineFormatChange (d : LineDiv) : bool :=
  negb (Str.eqb (Edit.normalizeInlineHtml (Dom.innerHTML (childNodes d))) (d_originalHtml d)).

Definition hasFormatChange (d : LineDiv) : bool :=
  (negb (Qeq_bool (d_fontSizeOverride d) 0) || Js.truthy_str (d_colorOverride d) ||
   Js.truthy_str (d_fontFamilyOverride d) ||
   negb (Bool.eqb (d_bold d) (d_initialBold d)) ||
   negb (Bool.eqb (d_italic d) (d_initialItalic d)) ||
   hasInlineFormatChange d)%bool.

(** The div [d] with new values for the parts the listeners change. *)
Definition rebuild (d : LineDiv) (nodes : list Dom.Node) (dirty : bool)
    (color colorOverride : string) (lastText : option string) (taken : bool) : LineDiv :=
  mkLineDiv nodes dirty (style_fontSize d) (style_fontFamily d)
    (style_fontWeight d) (style_fontStyle d) color (d_matchedColor d)
    (d_bgColor d) (d_original d) (d_originalHtml d) (d_pdfX d) (d_pdfY d)
    (d_pdfFontSize d) (d_pdfLineWidth d) (d_fontName d) (d_baseBold d)
    (d_baseItalic d) (d_cssFont d) (d_width d) (d_height d) (d_blockIdx d)
    (d_lineIdx d) (d_fontSizeOverride d) colorOverride
    (d_fontFamilyOverride d) (d_fontNameOverride d) (d_bold d) (d_italic d)
    (d_initialBold d) (d_initialItalic d) lastText taken.

Definition with_dirtyClass (v : bool) (d : LineDiv) : LineDiv :=
  rebuild d (childNodes d) v (style_color d) (d_colorOverride d) (d_lastText d)
    (snapshotTaken d).

Definition with_childNodes (nodes : list Dom.Node) (d : LineDiv) : LineDiv :=
  rebuild d nodes (dirtyClass d) (style_color d) (d_colorOverride d) (d_lastText d)
    (snapshotTaken d).

Definition with_color (v : string) (d : LineDiv) : LineDiv :=
  rebuild d (childNodes d) (dirtyClass d) v v (d_lastText d) (snapshotTaken d).

Definition with_lastText (t : string) (taken : bool) (d : LineDiv) : LineDiv :=
  rebuild d (childNodes d) (dirtyClass d) (style_color d) (d_colorOverride d) (Some t)
    taken.

(** [markDirty(div)], as far as the div goes (the edit count shown in the
    toolbar is not modelled). *)
Definition markDirty (d : LineDiv) : LineDiv :=
  with_dirtyClass (hasTextChange d || hasFormatChange d) d.

(** [captureSnapshot(div)] *)
Definition captureSnapshot (d : LineDiv) : Snapshot :=
  mkSnapshot (d_blockIdx d) (d_lineIdx d)
    (Dom.textContent (childNodes d)) (Dom.innerHTML (childNodes d))
    (d_bold d) (d_italic d) (d_fontSizeOverride d) (d_colorOverride d)
    (d_fontFamilyOverride d) (d_fontNameOverride d)
    (style_fontWeight d) (style_fontStyle d) (style_fontSize d)
    (style_fontFamily d) (style_color d).

(** *** Deactivation *)

(** [hasTextChange || hasFormatChange || isDirty] of [deactivateBlock]. *)
Definition lineDirty (d : LineDiv) : bool :=
  (hasTextChange d || hasFormatChange d || dirtyClass d)%bool.

(** The object [deactivateBlock] pushes on [savedLines] for a div. *)
Definition saveLine (d : LineDiv) : SavedLine :=
  let userChangedBold := negb (Bool.eqb (d_bold d) (d_initialBold d)) in
  let userChangedItalic := negb (Bool.eqb (d_italic d) (d_initialItalic d)) in
  mkSavedLine
    (Dom.textContent (childNodes d))
    (d_matchedColor d)
    (d_cssFont d)
    (if userChangedBold then d_bold d else d_baseBold d)
    (if userChangedItalic then d_italic d else d_baseItalic d)
    (d_fontSizeOverride d)
    (d_colorOverride d)
    (d_fontFamilyOverride d)
    (d_fontNameOverride d)
    (lineDirty d)
    (Dom.innerHTML (childNodes d))
    (Js.or_str (d_originalHtml d) (Edit.normalizeInlineHtml (Edit.escapeHtml (d_original d))))
    (Edit.extractRunsFromDiv (d_bold d) (d_italic d) (childNodes d))
    (d_pdfX d) (d_pdfY d) (d_pdfFontSize d) (d_pdfLineWidth d)
    (Js.or_str (d_fontNameOverride d) (d_fontName d))
    (d_width d) (d_height d)
    (Js.or_str (d_bgColor d) "#ffffff").

(** [z.style.pointerEvents = v] *)
Definition zone_pointer (v : string) (z : Zone) : Zone :=
  mkZone (z_display z) v (z_dirty z).

(** The zone of the block shown again, flagged when the block has edits. *)
Definition zone_show (hasDirty : bool) (z : Zone) : Zone :=
  mkZone "" (z_pointerEvents z) (z_dirty z || hasDirty).

Definition update_zone (i : Z) (f : Zone -> Zone) (zones : list Zone) : list Zone :=
  if (i <? 0)%Z then zones else Js.update_nth (Z.to_nat i) f zones.

(** [deactivateBlock()] *)
Definition deactivateBlock (s : State) : State :=
  match editContainer s with
  | None => s
  | Some children =>
      if (_activeBlockIdx s <? 0)%Z then s
      else
        let idx := _activeBlockIdx s in
        let children1 := filter (fun c => negb (is_shield c)) children in
        let zones1 := map (zone_pointer "") (_blockZones s) in
        let blockLines := linesOfBlock idx children1 in
        let savedLines := map saveLine blockLines in
        let hasDirty := existsb lineDirty blockLines in
        let children2 := filter (fun c => negb (in_block idx c)) children1 in
        let removed := map (fun d => LineRemoved (d_blockIdx d) (d_lineIdx d)) blockLines in
        mkState (active s) (Some children2) (toolbar s) (currentViewport s)
          (currentPageNum s) (_pdfCanvas s) None (_paragraphData s) (-1)
          (update_zone idx (zone_show hasDirty) zones1)
          (if hasDirty then map_set idx savedLines (_editedBlocks s) else _editedBlocks s)
          None (undoStack s) (redoStack s) (customFont s)
          (effects s ++ removed ++ (if hasDirty then [StoreSet idx] else []))%list
  end.

(** *** Activation *)

Definition min_of (l : list Q) : Q :=
  match l with [] => 0 | x :: r => fold_left Qmin r x end.

Definition max_of (l : list Q) : Q :=
  match l with [] => 0 | x :: r => fold_left Qmax r x end.

(** The [preSampled] entry of a line. *)
Definition preSample (canvas : option Sampler.Canvas) (line : Line) (saved : option SavedLine)
  : string * string :=
  let bgColor :=
    Js.or_str (match saved with Some sv => sv_bgColor sv | None => "" end)
      (Sampler.sampleBackgroundColor canvas (l_left line) (l_top line) (l_width line)
         (l_height line)) in
  let textColor :=
    Js.or_str (match saved with Some sv => sv_matchedColor sv | None => "" end)
      (Sampler.sampleTextColor canvas (l_left line) (l_top line) (l_width line)
         (l_height line) bgColor) in
  (textColor, bgColor).

(** The snapshot [activateBlock] takes of the block area.  The erasure of
    the text that follows and the [putImageData] of [deactivateBlock] cancel
    out; the samplers only run between the two, so the raster they read is
    the rendered page and the canvas is not changed in this model. *)
Definition takeSnapshot (canvas : option Sampler.Canvas) (para : list Line)
  : option CanvasSnapshot :=
  match canvas with
  | None => None
  | Some cv =>
      let paraTop := min_of (map l_top para) in
      let paraBottom := max_of (map (fun l => l_top l + l_height l) para) in
      let paraLeft := min_of (map l_left para) in
      let paraRight := max_of (map (fun l => l_left l + l_width l) para) in
      let d := Sampler.dpr cv in
      let snapX := Z.max 0 (Js.Math_floor ((paraLeft - 6) * d)) in
      let snapY := Z.max 0 (Js.Math_floor ((paraTop - 6) * d)) in
      let snapW := Z.min (Qceiling ((paraRight - paraLeft + 12) * d))
                         (Sampler.cv_width cv - snapX) in
      let snapH := Z.min (Qceiling ((paraBottom - paraTop + 12) * d))
                         (Sampler.cv_height cv - snapY) in
      if ((snapW >? 0) && (snapH >? 0))%Z%bool then
        if Sampler.cv_context cv then
          match Sampler.cv_getImageData cv snapX snapY snapW snapH with
          | Some data => Some (mkCanvasSnapshot data snapX snapY)
          | None => None
          end
        else None
      else None
  end.

(** The overlay [activateBlock] creates for line [li] of block [paraIdx]. *)
Definition createLine (paraIdx : Z) (li : nat) (line : Line) (saved : option SavedLine)
    (sampled : string * string) : LineDiv :=
  let nodes :=
    match saved with
    | Some sv =>
        if Js.truthy_str (sv_html sv) then Dom.parse (sv_html sv)
        else if Js.truthy_str (l_initialHtml line) then Dom.parse (l_initialHtml line)
        else Dom.set_textContent (sv_text sv)
    | None =>
        if Js.truthy_str (l_initialHtml line) then Dom.parse (l_initialHtml line)
        else Dom.set_textContent (l_text line)
    end in
  let cssFont :=
    Js.or_str (match saved with Some sv => sv_cssFont sv | None => "" end)
      (Edit.mapToCSSFont (l_fontName line)) in
  let nameStyle := Edit.detectFontStyleWithMeta (l_fontName line) None in
  let bold := match saved with Some sv => sv_bold sv | None => Edit.st_bold nameStyle end in
  let italic := match saved with Some sv => sv_italic sv | None => Edit.st_italic nameStyle end in
  let colorOverride := match saved with Some sv => sv_colorOverride sv | None => "" end in
  let matchedColor := fst sampled in
  let div :=
    mkLineDiv nodes false
      (Js.or_num (match saved with Some sv => sv_fontSizeOverride sv | None => 0 end)
         (l_fontSize line))
      cssFont
      (if bold then "bold" else "")
      (if italic then "italic" else "")
      (Js.or_str colorOverride matchedColor)
      matchedColor
      (snd sampled)
      (l_text line)
      (Js.or_str (match saved with Some sv => sv_originalHtml sv | None => "" end)
         (Edit.normalizeInlineHtml
            (Js.or_str (l_initialHtml line) (Edit.escapeHtml (l_text line)))))
      (l_pdfX line) (l_pdfY line) (l_pdfFontSize line) (l_pdfLineWidth line)
      (l_fontName line)
      bold italic cssFont (l_width line) (l_height line) paraIdx li
      (match saved with Some sv => sv_fontSizeOverride sv | None => 0 end)
      colorOverride
      (match saved with Some sv => sv_fontFamilyOverride sv | None => "" end)
      (match saved with Some sv => sv_fontNameOverride sv | None => "" end)
      bold italic bold italic None false in
  if match saved with Some sv => sv_dirty sv | None => false end then markDirty div else div.

(** The [for (let li = 0; li < para.length; li++)] loop: the divs in
    creation order. *)
Fixpoint createLines (canvas : option Sampler.Canvas) (paraIdx : Z) (li : nat)
    (para : list Line) (savedEdits : option (list SavedLine)) : list LineDiv :=
  match para with
  | [] => []
  | line :: rest =>
      let saved := match savedEdits with Some l => nth_error l li | None => None end in
      createLine paraIdx li line saved (preSample canvas line saved)
        :: createLines canvas paraIdx (Datatypes.S li) rest savedEdits
  end.

(** The zones after the block's own zone is hidden and all others stop
    taking clicks. *)
Fixpoint activate_zones (paraIdx : Z) (i : Z) (zones : list Zone) : list Zone :=
  match zones with
  | [] => []
  | z :: rest =>
      (if (i =? paraIdx)%Z then mkZone "none" (z_pointerEvents z) (z_dirty z)
       else zone_pointer "none" z) :: activate_zones paraIdx (i + 1)%Z rest
  end.

(** [querySelector(`.text-edit-line[data-block-idx="${paraIdx}"]`)] and the
    [focus] listener of the div found. *)
Definition focusFirst (paraIdx : Z) (children : list Child) : option (Z * nat) :=
  match linesOfBlock paraIdx children with
  | d :: _ => Some (d_blockIdx d, d_lineIdx d)
  | [] => None
  end.

(** The body of [activateBlock] after the previous block is deactivated. *)
Definition openBlock (paraIdx : Z) (s1 : State) : State :=
  let s2 :=
    mkState (active s1) (editContainer s1) (toolbar s1) (currentViewport s1)
      (currentPageNum s1) (_pdfCanvas s1) (_focusedLine s1) (_paragraphData s1) paraIdx
      (_blockZones s1) (_editedBlocks s1) (_canvasSnapshot s1) (undoStack s1)
      (redoStack s1) (customFont s1) (effects s1) in
  match at_index (_paragraphData s1) paraIdx, editContainer s1 with
  | Some para, Some children =>
      let savedEdits := map_get (_editedBlocks s1) paraIdx in
      let divs := createLines (_pdfCanvas s1) paraIdx 0 para savedEdits in
      let children' := (children ++ [CShield] ++ map CLine divs)%list in
      let focused :=
        match focusFirst paraIdx children' with
        | Some f => Some f
        | None => _focusedLine s1
        end in
      mkState (active s1) (Some children') (toolbar s1) (currentViewport s1)
        (currentPageNum s1) (_pdfCanvas s1) focused (_paragraphData s1) paraIdx
        (activate_zones paraIdx 0 (_blockZones s1)) (_editedBlocks s1)
        (takeSnapshot (_pdfCanvas s1) para) (undoStack s1) (redoStack s1) (customFont s1)
        (effects s1 ++ map (fun d => LineAppended (d_blockIdx d) (d_lineIdx d)) divs)%list
  | _, _ => s2
  end.

(** [activateBlock(paraIdx)] *)
Definition activateBlock (paraIdx : Z) (s : State) : State :=
  if (paraIdx =? _activeBlockIdx s)%Z then s
  else
    let s1 := if (_activeBlockIdx s >=? 0)%Z then deactivateBlock s else s in
    openBlock paraIdx s1.

(** What the store holds for an overlay line that is deactivated, field
    by field: the text, the markup and the runs the line shows, the
    formatting overrides of the user, the bold and italic to commit (the
    toggled value, else the one of the font), the sampled colours, the
    original markup, and the geometry of the line in the document.  The
    record is dirty when the text differs from the original one, a
    formatting override is set, bold or italic was toggled, the markup
    differs from the original markup, or the line was already marked. *)
Definition persisted (d : LineDiv) (sv : SavedLine) : Prop :=
  sv_text sv = Dom.textContent (childNodes d) /\
  sv_html sv = Dom.innerHTML (childNodes d) /\
  sv_runs sv = Edit.extractRunsFromDiv (d_bold d) (d_italic d) (childNodes d) /\
  (sv_dirty sv = true <->
   Dom.textContent (childNodes d) <> d_original d \/
   ~ d_fontSizeOverride d == 0 \/
   d_colorOverride d <> "" \/
   d_fontFamilyOverride d <> "" \/
   d_bold d <> d_initialBold d \/
   d_italic d <> d_initialItalic d \/
   Edit.normalizeInlineHtml (Dom.innerHTML (childNodes d)) <> d_originalHtml d \/
   dirtyClass d = true) /\
  sv_fontSizeOverride sv = d_fontSizeOverride d /\
  sv_colorOverride sv = d_colorOverride d /\
  sv_fontFamilyOverride sv = d_fontFamilyOverride d /\
  sv_fontNameOverride sv = d_fontNameOverride d /\
  sv_bold sv = (if Bool.eqb (d_bold d) (d_initialBold d) then d_baseBold d else d_bold d) /\
  sv_italic sv
  = (if Bool.eqb (d_italic d) (d_initialItalic d) then d_baseItalic d else d_italic d) /\
  sv_matchedColor sv = d_matchedColor d /\
  sv_bgColor sv = Js.or_str (d_bgColor d) "#ffffff" /\
  sv_cssFont sv = d_cssFont d /\
  sv_originalHtml sv
  = Js.or_str (d_originalHtml d) (Edit.normalizeInlineHtml (Edit.escapeHtml (d_original d))) /\
  sv_pdfX sv = d_pdfX d /\ sv_pdfY sv = d_pdfY d /\
  sv_pdfFontSize sv = d_pdfFontSize d /\ sv_pdfLineWidth sv = d_pdfLineWidth d /\
  sv_fontName sv = Js.or_str (d_fontNameOverride d) (d_fontName d) /\
  sv_screenWidth sv = d_width d /\ sv_screenHeight sv = d_height d.

(** The overlay of line [k] of block [B]: it carries the indices, the
    original text and the geometry of the line, and shows the saved markup
    of the line when the block was edited before, else the markup (or the
    text) of the line; a line not saved before is not marked dirty. *)
Definition overlayOf (B : Z) (k : nat) (line : Line) (saved : option SavedLine)
    (d : LineDiv) : Prop :=
  d_blockIdx d = B /\ d_lineIdx d = k /\ d_original d = l_text line /\
  d_pdfX d = l_pdfX line /\ d_pdfY d = l_pdfY line /\
  d_pdfFontSize d = l_pdfFontSize line /\ d_pdfLineWidth d = l_pdfLineWidth line /\
  d_fontName d = l_fontName line /\ d_width d = l_width line /\ d_height d = l_height line /\
  childNodes d
  = match saved with
    | Some sv =>
        if Js.truthy_str (sv_html sv) then Dom.parse (sv_html sv)
        else if Js.truthy_str (l_initialHtml line) then Dom.parse (l_initialHtml line)
        else Dom.set_textContent (sv_text sv)
    | None =>
        if Js.truthy_str (l_initialHtml line) then Dom.parse (l_initialHtml line)
        else Dom.set_textContent (l_text line)
    end /\
  (saved = None -> dirtyClass d = false).

(** *** Leaving and entering the mode *)

Definition is_zone (c : Child) : bool :=
  match c with CZone _ => true | _ => false end.

(** [exitTextEditMode()] *)
Definition exitTextEditMode (s : State) : State :=
  if negb (active s) then s
  else
    let s1 := if (_activeBlockIdx s >=? 0)%Z then deactivateBlock s else s in
    let removed :=
      match editContainer s1 with
      | Some children =>
          map (fun d => LineRemoved (d_blockIdx d) (d_lineIdx d)) (allLines children)
      | None => []
      end in
    mkState false None false None 0 None None [] (-1) [] [] None [] [] (customFont s1)
      (effects s1 ++ removed)%list.

(** [groupIntoParagraphs(lines)]: the loop state is the finished paragraphs,
    the current one and the previous line. *)
Definition sameParagraph (prev curr : Line) : bool :=
  let verticalGap := l_top curr - (l_top prev + l_height prev) in
  let lineSpacing := l_height prev * (15 # 10) in
  let leftAligned :=
    if Qlt_le_dec (Qabs (l_left curr - l_left prev)) (l_height prev * (15 # 10))
    then true else false in
  let widthSimilar :=
    if Qlt_le_dec (Qabs (l_width curr - l_width prev))
         (Qmax (l_width curr) (l_width prev) * (5 # 10))
    then true else false in
  let sameFont := Str.eqb (l_fontName curr) (l_fontName prev) in
  let sameSize :=
    if Qlt_le_dec (Qabs (l_fontSize curr - l_fontSize prev)) 2 then true else false in
  ((if Qlt_le_dec verticalGap lineSpacing then true else false) &&
   leftAligned && widthSimilar && sameFont && sameSize)%bool.

Fixpoint paragraphLoop (prev : Line) (currentPara : list Line) (rest : list Line)
  : list (list Line) :=
  match rest with
  | [] => [currentPara]
  | curr :: rest' =>
      if sameParagraph prev curr then paragraphLoop curr (currentPara ++ [curr]) rest'
      else currentPara :: paragraphLoop curr [curr] rest'
  end.

Definition groupIntoParagraphs (lines : list Line) : list (list Line) :=
  match lines with
  | [] => []
  | first :: rest => paragraphLoop first [first] rest
  end.

(** [enterTextEditMode(pageNum, pdfDoc, viewport, container, pdfCanvas)]
    from the point where [lines] is known (the result of [groupIntoLines] on
    the extracted items or, when that is empty, the OCR lines).  [container]
    lists the engine's elements already in the text layer. *)
Definition enterTextEditMode (pageNum : Z) (viewport : Viewport) (container : list Child)
    (pdfCanvas : option Sampler.Canvas) (lines : list Line) (s : State) : bool * State :=
  let s0 := if active s then exitTextEditMode s else s in
  match lines with
  | [] =>
      (false,
       mkState (active s0) (editContainer s0) (toolbar s0) (currentViewport s0)
         (currentPageNum s0) pdfCanvas (_focusedLine s0) (_paragraphData s0)
         (_activeBlockIdx s0) (_blockZones s0) (_editedBlocks s0) (_canvasSnapshot s0)
         (undoStack s0) (redoStack s0) (customFont s0) (effects s0))
  | _ =>
      let paragraphs := groupIntoParagraphs lines in
      let zones := map (fun _ => mkZone "" "" false) paragraphs in
      (true,
       mkState true (Some (container ++ map CZone (seq 0 (List.length paragraphs)))%list)
         true (Some viewport) pageNum pdfCanvas None paragraphs (-1) zones [] None [] []
         (customFont s0) (effects s0))
  end.

(** *** Listeners *)

Definition is_div (b : Z) (li : nat) (d : LineDiv) : bool :=
  ((d_blockIdx d =? b)%Z && Nat.eqb (d_lineIdx d) li)%bool.

Fixpoint find_div (b : Z) (li : nat) (children : list Child) : option LineDiv :=
  match children with
  | [] => None
  | CLine d :: rest => if is_div b li d then Some d else find_div b li rest
  | _ :: rest => find_div b li rest
  end.

Fixpoint replace_div (b : Z) (li : nat) (d' : LineDiv) (children : list Child) : list Child :=
  match children with
  | [] => []
  | CLine d :: rest =>
      if is_div b li d then CLine d' :: rest else CLine d :: replace_div b li d' rest
  | c :: rest => c :: replace_div b li d' rest
  end.

(** [undoStack.push(snap); if (undoStack.length > MAX_UNDO) undoStack.shift()] *)
Definition push_capped (snap : Snapshot) (stack : list Snapshot) : list Snapshot :=
  let stack' := (stack ++ [snap])%list in
  if Nat.ltb MAX_UNDO (List.length stack') then tl stack' else stack'.

Definition with_text (t : string) (sn : Snapshot) : Snapshot :=
  mkSnapshot (sn_block sn) (sn_line sn) t (sn_html sn) (sn_bold sn) (sn_italic sn)
    (sn_fontSizeOverride sn) (sn_colorOverride sn) (sn_fontFamilyOverride sn)
    (sn_fontNameOverride sn) (sn_fontWeight sn) (sn_fontStyle sn) (sn_fontSize sn)
    (sn_fontFamily sn) (sn_color sn).

Definition set_overlay (children : list Child) (undo redo : list Snapshot) (s : State) : State :=
  mkState (active s) (Some children) (toolbar s) (currentViewport s) (currentPageNum s)
    (_pdfCanvas s) (_focusedLine s) (_paragraphData s) (_activeBlockIdx s) (_blockZones s)
    (_editedBlocks s) (_canvasSnapshot s) undo redo (customFont s) (effects s).

(** The [input] listener of the div of line [li] of block [b], after the
    browser has replaced the div's content by [nodes]. *)
Definition onInput (b : Z) (li : nat) (nodes : list Dom.Node) (s : State) : State :=
  match editContainer s with
  | None => s
  | Some children =>
      match find_div b li children with
      | None => s
      | Some d =>
          let d1 := with_childNodes nodes d in
          let lastOrOriginal :=
            Js.or_str (match d_lastText d with Some t => t | None => "" end) (d_original d) in
          let snap := with_text lastOrOriginal (captureSnapshot d1) in
          let undo := if snapshotTaken d then undoStack s else push_capped snap (undoStack s) in
          let redo := if snapshotTaken d then redoStack s else [] in
          let d2 := markDirty (with_lastText (Dom.textContent nodes) true d1) in
          set_overlay (replace_div b li d2 children) undo redo s
      end
  end.

(** The [input] listener of the toolbar's colour field:
    [applyToFocused(div => { pushUndo(div); ... })]. *)
Definition onColor (value : string) (s : State) : State :=
  match editContainer s, _focusedLine s with
  | Some children, Some (b, li) =>
      match find_div b li children with
      | None => s
      | Some d =>
          let undo := push_capped (captureSnapshot d) (undoStack s) in
          let d1 := markDirty (with_color value d) in
          set_overlay (replace_div b li d1 children) undo [] s
      end
  | _, _ => s
  end.

(** *** Commit *)

Inductive Font :=
| StandardFont (name : string)
| EmbeddedCustomFont.

Definition Rgb : Type := (Q * Q * Q)%type.

(** A call on the page of the mutable document. *)
Inductive DrawOp :=
| DrawRectangle (x y w h : Q) (color : Rgb)
| DrawText (text : string) (x y size : Q) (font : Font) (color : Rgb).

(** What the commit needs from pdf-lib: whether [window.PDFLib] is there,
    whether the document loads and has the page, whether the uploaded font
    embeds, whether [page.drawText] accepts a text in a font, and the
    metrics of an embedded font.  [page.drawText] and
    [font.widthOfTextAtSize] throw for a text the font cannot encode (for a
    standard font a character outside WinAnsi; for the width also a line
    feed or a tab): [drawText_ok] is then false and [widthOfTextAtSize] is
    [None]. *)
Record PdfLib := mkPdfLib {
  PDFLib_present : bool;
  load_ok : bool;
  embedCustom_ok : bool;
  drawText_ok : Font -> string -> bool;
  widthOfTextAtSize : Font -> string -> Q -> option Q
}.

(** The keys of [PDFLib.StandardFonts] (pdf-lib 1.17). *)
Definition StandardFonts : list string :=
  ["Courier"; "CourierBold"; "CourierOblique"; "CourierBoldOblique";
   "Helvetica"; "HelveticaBold"; "HelveticaOblique"; "HelveticaBoldOblique";
   "TimesRoman"; "TimesRomanBold"; "TimesRomanItalic"; "TimesRomanBoldItalic";
   "Symbol"; "ZapfDingbats"].

(** [getFont(fontName, bold, italic)]; [None] when embedding throws.
    [fontCache] only saves repeated embedding: the font returned for a name
    is the same with or without it. *)
Definition getFont (lib : PdfLib) (custom : bool) (fontName : string) (bold italic : bool)
  : option Font :=
  if (Str.eqb fontName "custom" && custom)%bool then
    if embedCustom_ok lib then Some EmbeddedCustomFont else None
  else
    let variant := fontName ++ (if bold then "-Bold" else "") ++ (if italic then "-Italic" else "") in
    let stdName := Edit.mapToStandardFont variant in
    Some (StandardFont (if existsb (Str.eqb stdName) StandardFonts then stdName else "Helvetica")).

(** [PDFLib.rgb(r, g, b)] throws unless every channel is in the unit
    interval. *)
Definition unit_range (q : Q) : bool :=
  ((if Qlt_le_dec q 0 then false else true) && (if Qlt_le_dec 1 q then false else true))%bool.

Definition rgb (r g b : Q) : option Rgb :=
  if (unit_range r && unit_range g && unit_range b)%bool then Some (r, g, b) else None.

(** [rgb(parseInt(hex.slice(1, 3), 16) / 255, ...)]; NaN makes [rgb]
    throw. *)
Definition hexColor (hex : string) : option Rgb :=
  match Str.parseInt16 (Str.slice 1 3 hex), Str.parseInt16 (Str.slice 3 5 hex),
        Str.parseInt16 (Str.slice 5 7 hex) with
  | Some r, Some g, Some b => rgb (inject_Z r / 255) (inject_Z g / 255) (inject_Z b / 255)
  | _, _, _ => None
  end.

(** An element of [changes]. *)
Record Change := mkChange {
  newText : string;
  c_pdfX : Q;
  c_pdfY : Q;
  c_pdfFontSize : Q;
  c_pdfLineWidth : Q;
  c_fontName : string;
  c_screenWidth : Q;
  c_screenHeight : Q;
  c_fontSizeOverride : Q;
  c_colorOverride : string;
  c_bold : bool;
  c_italic : bool;
  c_runs : list Edit.Run;
  c_bgColor : string
}.

(** The change collected from a div still in the overlay, if any. *)
Definition changeOfDiv (d : LineDiv) : list Change :=
  if (negb (hasTextChange d) && negb (hasFormatChange d))%bool then []
  else
    let sv := saveLine d in
    [mkChange (Dom.textContent (childNodes d)) (d_pdfX d) (d_pdfY d) (d_pdfFontSize d)
       (d_pdfLineWidth d) (Js.or_str (d_fontNameOverride d) (d_fontName d))
       (d_width d) (d_height d) (d_fontSizeOverride d)
       (Js.or_str (d_colorOverride d) (d_matchedColor d))
       (sv_bold sv) (sv_italic sv)
       (Edit.extractRunsFromDiv (d_bold d) (d_italic d) (childNodes d))
       (Js.or_str (d_bgColor d) "#ffffff")].

(** The change collected from a saved line of a deactivated block. *)
Definition changeOfSaved (sv : SavedLine) : list Change :=
  if negb (sv_dirty sv) then []
  else
    [mkChange (sv_text sv) (sv_pdfX sv) (sv_pdfY sv) (sv_pdfFontSize sv) (sv_pdfLineWidth sv)
       (sv_fontName sv) (sv_screenWidth sv) (sv_screenHeight sv) (sv_fontSizeOverride sv)
       (Js.or_str (sv_colorOverride sv) (sv_matchedColor sv))
       (sv_bold sv) (sv_italic sv) (sv_runs sv) (Js.or_str (sv_bgColor sv) "#ffffff")].

Definition collectChanges (children : list Child) (edited : list (Z * list SavedLine))
  : list Change :=
  (flat_map changeOfDiv (allLines children)
   ++ flat_map (fun e => flat_map changeOfSaved (snd e)) edited)%list.

(** The [for (const run of runs)] loop: the text draws, [None] when a font
    fails to embed, a text is not drawn or a width is not measured (the
    width of every run drawn is measured, also that of the last). *)
Fixpoint drawRuns (lib : PdfLib) (custom : bool) (c : Change) (fontSize : Q) (color : Rgb)
    (runs : list Edit.Run) (cursorX : Q) : option (list DrawOp) :=
  match runs with
  | [] => Some []
  | run :: rest =>
      if negb (Js.truthy_str (Edit.r_text run)) then
        drawRuns lib custom c fontSize color rest cursorX
      else
        match getFont lib custom (c_fontName c) (Edit.r_bold run) (Edit.r_italic run) with
        | None => None
        | Some runFont =>
            if negb (drawText_ok lib runFont (Edit.r_text run)) then None
            else
              match widthOfTextAtSize lib runFont (Edit.r_text run) fontSize with
              | None => None
              | Some w =>
                  option_map
                    (cons (DrawText (Edit.r_text run) cursorX (c_pdfY c) fontSize runFont
                             color))
                    (drawRuns lib custom c fontSize color rest (Js.add cursorX w))
              end
        end
  end.

(** The cover rectangle of a change. *)
Definition coverRectangle (scale : Q) (c : Change) (coverColor : Rgb) : DrawOp :=
  let rectWidth :=
    (if Qlt_le_dec 0 (c_pdfLineWidth c) then c_pdfLineWidth c else c_screenWidth c / scale) + 4 in
  let pdfLineHeight := Qmax (c_screenHeight c / scale) (c_pdfFontSize c) in
  let rectHeight := Qmax (c_pdfFontSize c * (108 # 100)) (pdfLineHeight * (112 # 100)) in
  let rectY := c_pdfY c - Qmax (c_pdfFontSize c * (18 # 100)) (pdfLineHeight * (18 # 100)) in
  DrawRectangle (c_pdfX c - 1) rectY rectWidth rectHeight coverColor.

(** One iteration of [for (const change of changes)]. *)
Definition drawChange (lib : PdfLib) (custom : bool) (scale : Q) (c : Change)
  : option (list DrawOp) :=
  match getFont lib custom (c_fontName c) (c_bold c) (c_italic c) with
  | None => None
  | Some font =>
      let fontSize := Js.or_num (c_fontSizeOverride c) (c_pdfFontSize c) in
      match (if (Js.truthy_str (c_bgColor c) && negb (Str.eqb (c_bgColor c) "#ffffff"))%bool
             then hexColor (c_bgColor c) else Some (1, 1, 1)) with
      | None => None
      | Some coverColor =>
          match (if Js.truthy_str (c_colorOverride c) then hexColor (c_colorOverride c)
                 else Some (0, 0, 0)) with
          | None => None
          | Some color =>
              option_map (cons (coverRectangle scale c coverColor))
                (match c_runs c with
                 | [] =>
                     if drawText_ok lib font (newText c)
                     then Some [DrawText (newText c) (c_pdfX c) (c_pdfY c) fontSize font color]
                     else None
                 | runs => drawRuns lib custom c fontSize color runs (c_pdfX c)
                 end)
          end
      end
  end.

Fixpoint drawChanges (lib : PdfLib) (custom : bool) (scale : Q) (changes : list Change)
  : option (list DrawOp) :=
  match changes with
  | [] => Some []
  | c :: rest =>
      match drawChange lib custom scale c with
      | None => None
      | Some ops => option_map (app ops) (drawChanges lib custom scale rest)
      end
  end.










(** The result of a commit: [null], the saved document (given by the calls
    made on its page), or a rejected promise. *)
Inductive Outcome :=
| Null
| Saved (ops : list DrawOp)
| Thrown.

(** [commitTextEdits(pdfBytes, pageNum)] *)
Definition commitTextEdits (lib : PdfLib) (s : State) : State * Outcome :=
  match editContainer s with
  | None => (s, Null)
  | Some _ =>
      let s1 := if (_activeBlockIdx s >=? 0)%Z then deactivateBlock s else s in
      let children := match editContainer s1 with Some c => c | None => [] end in
      match collectChanges children (_editedBlocks s1) with
      | [] => (s1, Null)
      | changes =>
          if negb (PDFLib_present lib) then (s1, Null)
          else if negb (load_ok lib) then (s1, Thrown)
          else
            let scale := match currentViewport s1 with Some v => vp_scale v | None => 1 end in
            match drawChanges lib (customFont s1) scale changes with
            | Some ops => (s1, Saved ops)
            | None => (s1, Thrown)
            end
      end
  end.





(** [handleCommitTextEdits()] of js/app.js: the commit, then, in the
    [finally] clause, [exitTextEditMode()]. *)
Definition handleCommitTextEdits (lib : PdfLib) (s : State) : State * Outcome :=
  if negb (active s) then (s, Null)
  else
    let (s1, out) := commitTextEdits lib s in
    (exitTextEditMode s1, out).

(** At most one block is being edited: every overlay line belongs to the
    block [_activeBlockIdx] names, and there is none when it names no
    block. *)
Definition single_active (s : State) : Prop :=
  match editContainer s with
  | Some children =>
      forall d, In d (allLines children) ->
                d_blockIdx d = _activeBlockIdx s /\ (0 <= _activeBlockIdx s)%Z
  | None => True
  end.

(** The markup of an untouched line survives the DOM: parsed into the
    overlay and read back, it gives the line's text and, normalised, the
    normalised original markup. *)
Definition round_trips (line : Line) : Prop :=
  let nodes :=
    if Js.truthy_str (l_initialHtml line) then Dom.parse (l_initialHtml line)
    else Dom.set_textContent (l_text line) in
  Dom.textContent nodes = l_text line /\
  Edit.normalizeInlineHtml (Dom.innerHTML nodes)
  = Edit.normalizeInlineHtml (Js.or_str (l_initialHtml line) (Edit.escapeHtml (l_text line))).

(** The variables as the module initialises them. *)
Definition initial : State :=
  mkState false None false None 0 None None [] (-1) [] [] None [] [] false [].

(** What happens to a session: calls of the host and events of the user. *)
Inductive Event :=
| EnterMode (pageNum : Z) (viewport : Viewport) (pdfCanvas : option Sampler.Canvas)
    (lines : list Line)
| ZoneClick (paraIdx : Z)
| Escape
| Input (b : Z) (li : nat) (nodes : list Dom.Node)
| PickColor (value : string)
| ApplyEdits (lib : PdfLib)
| CancelEdits.

(** The listener or host function an event runs.  [EnterMode] is
    [enterTextEditMode] on a text layer that holds no element of the engine
    (it removes them all on exit); [ZoneClick] is the click listener of a
    zone, [activateBlock(pi)], for a zone that exists; [Escape] is the
    Escape branch of [handleTextEditKeydown]; [ApplyEdits] and [CancelEdits]
    are the host's [handleCommitTextEdits] and [handleCancelTextEdits]. *)
Definition handle (s : State) (e : Event) : State :=
  match e with
  | EnterMode pageNum viewport pdfCanvas lines =>
      snd (enterTextEditMode pageNum viewport [] pdfCanvas lines s)
  | ZoneClick paraIdx =>
      match at_index (_blockZones s) paraIdx with
      | Some _ => activateBlock paraIdx s
      | None => s
      end
  | Escape =>
      if negb (active s) then s
      else if (_activeBlockIdx s >=? 0)%Z then deactivateBlock s
      else exitTextEditMode s
  | Input b li nodes => onInput b li nodes s
  | PickColor value => onColor value s
  | ApplyEdits lib => fst (handleCommitTextEdits lib s)
  | CancelEdits => exitTextEditMode s
  end.

(** The session after a sequence of events. *)
Definition run (events : list Event) : State := fold_left handle events initial.

End Session.

(** ** Line reconstruction: [groupIntoLines] *)

Module Layout.

Local Open Scope string_scope.

(** A text item of pdf.js [getTextContent()], as far as it is read. *)
Record TextItem := mkTextItem {
  ti_str : string;
  ti_fontName : string;
  ti_transform : Q * Q * Q * Q * Q * Q;
  ti_width : Q
}.

(** The viewport of the page. *)
Record PageViewport := mkPageViewport {
  pv_transform : Q * Q * Q * Q * Q * Q;
  pv_scale : Q;
  pv_width : Q
}.

(** [transformFallback(viewport, t)]; [pdfjsLib.Util.transform] computes the
    same product. *)
Definition transformFallback (vt t : Q * Q * Q * Q * Q * Q) : Q * Q * Q * Q * Q * Q :=
  let '(vt0, vt1, vt2, vt3, vt4, vt5) := vt in
  let '(t0, t1, t2, t3, t4, t5) := t in
  (vt0 * t0 + vt2 * t1,
   vt1 * t0 + vt3 * t1,
   vt0 * t2 + vt2 * t3,
   vt1 * t2 + vt3 * t3,
   vt0 * t4 + vt2 * t5 + vt4,
   vt1 * t4 + vt3 * t5 + vt5).

(** The two regular expressions of the font name resolution, on the lower
    case name. *)
Definition hasStyleInfo (n : string) : bool :=
  existsb (Str.includes (Str.toLowerCase n))
    ["bold"; "italic"; "oblique"; "heavy"; "black"; "light"; "medium"].

Definition hasRecognizableFont (n : string) : bool :=
  existsb (Str.includes (Str.toLowerCase n))
    ["times"; "arial"; "helvetica"; "courier"; "roman"; "georgia"; "verdana"; "tahoma";
     "trebuchet"; "palatino"; "garamond"; "mono"; "sans"; "serif"].

(** [styles[item.fontName]] *)
Fixpoint style_of (styles : list (string * StyleInfo)) (name : string) : option StyleInfo :=
  match styles with
  | [] => None
  | (n, si) :: rest => if Str.eqb n name then Some si else style_of rest name
  end.

(** The callback of [items.map] that builds [mapped]. *)
Definition mapItem (viewport : PageViewport) (styles : list (string * StyleInfo))
    (item : TextItem) : Item :=
  let '(_, _, _, tx3, tx4, tx5) := transformFallback (pv_transform viewport) (ti_transform item) in
  let '(_, _, _, t3, t4, t5) := ti_transform item in
  let fontSize := Qabs tx3 in
  let styleInfo := style_of styles (ti_fontName item) in
  let familyName := match styleInfo with Some si => fontFamily si | None => "" end in
  let rawName := ti_fontName item in
  let resolvedFontName :=
    if hasStyleInfo rawName then rawName
    else if hasStyleInfo familyName then familyName
    else if hasRecognizableFont rawName then rawName
    else Js.or_str familyName (Js.or_str rawName "Helvetica") in
  mkItem (ti_str item) resolvedFontName styleInfo tx4 (tx5 - fontSize)
    (ti_width item * pv_scale viewport) fontSize fontSize t4 t5 (Qabs t3).

(** The partition of the de-duplicated items at [splitX]. *)
Definition columns (splitX : option Q) (deduped : list Item) : list (list Item) :=
  match splitX with
  | None => [deduped]
  | Some x =>
      let isLeft (it : Item) :=
        if Qlt_le_dec (left it + width it / 2) x then true else false in
      let leftItems := filter (fun it => negb (blank it) && isLeft it)%bool deduped in
      let rightItems := filter (fun it => negb (blank it) && negb (isLeft it))%bool deduped in
      filter (fun c => match c with [] => false | _ => true end) [leftItems; rightItems]
  end.

(** [arr.sort((a, b) => a.top - b.top || a.left - b.left)]: the sort is
    stable, an element goes behind those that do not compare greater. *)
Definition before {A : Type} (top left : A -> Q) (a b : A) : bool :=
  if Qlt_le_dec (top a) (top b) then true
  else if Qlt_le_dec (top b) (top a) then false
  else if Qlt_le_dec (left a) (left b) then true else false.

Fixpoint insert {A : Type} (top left : A -> Q) (x : A) (sorted : list A) : list A :=
  match sorted with
  | [] => [x]
  | y :: rest =>
      if before top left x y then x :: y :: rest else y :: insert top left x rest
  end.

Definition sort {A : Type} (top left : A -> Q) (l : list A) : list A :=
  fold_left (fun sorted x => insert top left x sorted) l [].

(** A line being collected: [{ top, left, items }]. *)
Record GroupLine := mkGroupLine {
  g_top : Q;
  g_left : Q;
  g_items : list Item
}.

(** One iteration of [for (const item of colItems)]; [currentLine] is the
    last line pushed on [allLines], kept apart until the next one starts. *)
Definition groupStep (st : list GroupLine * option GroupLine) (item : Item)
  : list GroupLine * option GroupLine :=
  let (done, currentLine) := st in
  if blank item then st
  else
    match currentLine with
    | None => (done, Some (mkGroupLine (top item) (left item) [item]))
    | Some cur =>
        if Qlt_le_dec 3 (Qabs (top item - g_top cur)) then
          ((done ++ [cur])%list, Some (mkGroupLine (top item) (left item) [item]))
        else
          let lastItem := last (g_items cur) item in
          let gap := left item - (left lastItem + width lastItem) in
          let gapThreshold := Qmax (fontSize lastItem * (5 # 10)) 5 in
          if Qlt_le_dec gapThreshold gap then
            ((done ++ [cur])%list, Some (mkGroupLine (top item) (left item) [item]))
          else
            (done,
             Some (mkGroupLine (g_top cur)
                     (if Qlt_le_dec (left item) (g_left cur) then left item else g_left cur)
                     (g_items cur ++ [item])%list))
    end.

(** The runs collected so far by the grouping loop. *)
Definition collected (st : list GroupLine * option GroupLine) : list Item :=
  (List.concat (map g_items (fst st)) ++
   match snd st with Some cur => g_items cur | None => [] end)%list.

(** Every line under construction holds at least one run. *)
Definition lines_filled (st : list GroupLine * option GroupLine) : Prop :=
  Forall (fun g => g_items g <> []) (fst st) /\
  match snd st with Some cur => g_items cur <> [] | None => True end.

(** The lines of one column, appended to [allLines]. *)
Definition groupColumn (allLines : list GroupLine) (colItems : list Item) : list GroupLine :=
  let (done, currentLine) :=
    fold_left groupStep (sort top left colItems) (allLines, None) in
  match currentLine with
  | Some cur => (done ++ [cur])%list
  | None => done
  end.

(** The callback of the final [allLines.map]. *)
Definition toLine (viewport : PageViewport) (line : GroupLine) : Session.Line :=
  let items := g_items line in
  let scale := Js.or_num (pv_scale viewport) 1 in
  let first (f : Item -> Q) := match items with it :: _ => f it | [] => 0 end in
  let minLeft := Session.min_of (map left items) in
  let maxRight := Session.max_of (map (fun i => left i + width i) items) in
  let pdfMinX := Session.min_of (map pdfX items) in
  let pdfMaxX := Session.max_of (map (fun i => pdfX i + width i / scale) items) in
  Session.mkLine
    (fold_right (fun i acc => str i ++ acc) "" items)
    (Edit.buildInitialHtmlFromItems items)
    minLeft (g_top line) (maxRight - minLeft)
    (Session.max_of (map height items) + 2)
    (first fontSize)
    (match items with it :: _ => fontName it | [] => "" end)
    pdfMinX (Session.min_of (map pdfY items)) (first pdfFontSize)
    (pdfMaxX - pdfMinX) items.

(** [groupIntoLines(items, viewport, styles)] *)
Definition groupIntoLines (items : list TextItem) (viewport : PageViewport)
    (styles : list (string * StyleInfo)) : list Session.Line :=
  match items with
  | [] => []
  | _ =>
      let mapped := map (mapItem viewport styles) items in
      let deduped := Dedup.dedupe mapped in
      let splitX := ColumnSplit.detectColumnSplit deduped (pv_width viewport) in
      let allLines := fold_left groupColumn (columns splitX deduped) [] in
      map (toLine viewport) (sort g_top g_left allLines)
  end.

End Layout.

(** ** Sessions of the properties *)

Module Scenario.

Import Session.

Local Open Scope string_scope.

(** A line of one run of plain Helvetica text at the given top. *)
Definition textLine (text : string) (top : Q) : Line :=
  let item := mkItem text "Helvetica" None 72 top 100 12 12 72 (700 - top) 12 in
  mkLine text (Edit.buildInitialHtmlFromItems [item]) 72 top 100 14 12 "Helvetica"
    72 (700 - top) 12 100 [item].

Definition viewport : Viewport := mkViewport 1 612.

(** Edit mode entered on a page of two paragraphs, without a canvas (as
    js/app.js calls [enterTextEditMode]). *)
Definition twoBlocks : State :=
  snd (enterTextEditMode 1 viewport [] None
         [textLine "Hello World" 100; textLine "Second paragraph" 300] initial).

(** Block 0 active and its line edited to "Goodbye World". *)
Definition editing : State :=
  onInput 0 0 [Dom.Text "Goodbye World"] (activateBlock 0 twoBlocks).

(** Block 0 active and its line edited to a bold run and a plain one. *)
Definition editingRich : State :=
  onInput 0 0 [Dom.Elem "b" [Dom.Text "Hello "]; Dom.Text "World"] (activateBlock 0 twoBlocks).

(** A page whose only line contains a double quote. *)
Definition quoted : State :=
  snd (enterTextEditMode 1 viewport [] None
         [textLine ("Say " ++ Str.of_char Str.c_quot ++ "hi" ++ Str.of_char Str.c_quot) 100]
         initial).

(** pdf-lib with fonts in which every character is half the size wide. *)
Definition lib : PdfLib :=
  mkPdfLib true true true (fun _ _ => true)
    (fun _ text size => Some (inject_Z (Z.of_nat (String.length text)) * size / 2)).

(** The viewport of a 612 x 792 page at scale 1. *)
Definition pageViewport : Layout.PageViewport :=
  Layout.mkPageViewport (1, 0, 0, -(1), 0, 792) 1 612.

(** A run of 12 point text at a position of the page. *)
Definition textItem (text : string) (x y : Q) : Layout.TextItem :=
  Layout.mkTextItem text "g_d0_f1" (12, 0, 0, 12, x, y) 60.

(** The text content of a page saved after an edit: the covered run and
    its replacement at the same position, and a second line below. *)
Definition editedPage : list Layout.TextItem :=
  [textItem "Hello" 72 700; textItem "World" 72 680; textItem "Goodbye" 72 700].

End Scenario.

(** ** The image editing session *)

Module ImageEdit.

Local Open Scope string_scope.

(** ['none' | 'delete' | 'replace'] *)
Inductive Action := ActNone | ActDelete | ActReplace.

(** [{ bytes, type }] of an uploaded file. *)
Record ReplaceSrc := mkReplaceSrc {
  src_bytes : list Z;
  src_type : string
}.

(** An entry of [imageOverlays]. *)
Record Overlay := mkOverlay {
  pdfX : Q;
  pdfY : Q;
  pdfW : Q;
  pdfH : Q;
  action : Action;
  replaceSrc : option ReplaceSrc
}.

Inductive Codec := Png | Jpg.

(** A call on the mutable document or its page, in call order: the draws and
    the embedding attempts ([doc.embedPng], [doc.embedJpg]). *)
Inductive Call :=
| DrawRectangle (x y w h : Q)
| DrawImage (codec : Codec) (bytes : list Z) (x y w h : Q)
| Embed (codec : Codec) (bytes : list Z).

(** What the commit needs from pdf-lib; an embedding that fails throws. *)
Record PdfLib := mkPdfLib {
  PDFLib_present : bool;
  load_ok : bool;
  embeds : Codec -> list Z -> bool
}.

(** The click listener of the Delete button of overlay [i]. *)
Definition toggleDelete (entry : Overlay) : Overlay :=
  match action entry with
  | ActDelete => mkOverlay (pdfX entry) (pdfY entry) (pdfW entry) (pdfH entry) ActNone
                   (replaceSrc entry)
  | _ => mkOverlay (pdfX entry) (pdfY entry) (pdfW entry) (pdfH entry) ActDelete None
  end.

(** The [onchange] listener of the file input of the Replace button. *)
Definition chooseReplacement (src : ReplaceSrc) (entry : Overlay) : Overlay :=
  mkOverlay (pdfX entry) (pdfY entry) (pdfW entry) (pdfH entry) ActReplace (Some src).

Definition is_none (a : Action) : bool :=
  match a with ActNone => true | _ => false end.

Definition cover (change : Overlay) : Call :=
  DrawRectangle (pdfX change) (pdfY change) (pdfW change) (pdfH change).

(** The [try]/[catch] that embeds the replacement: the attempts in order,
    and the image when one of them succeeded. *)
Definition embedReplacement (lib : PdfLib) (src : ReplaceSrc)
  : list Call * option Codec :=
  let first := if Str.includes (src_type src) "png" then Png else Jpg in
  if embeds lib first (src_bytes src) then ([Embed first (src_bytes src)], Some first)
  else if embeds lib Jpg (src_bytes src)
  then ([Embed first (src_bytes src); Embed Jpg (src_bytes src)], Some Jpg)
  else ([Embed first (src_bytes src); Embed Jpg (src_bytes src)], None).

(** One iteration of [for (const change of changes)]. *)
Definition commitChange (lib : PdfLib) (change : Overlay) : list Call :=
  match action change, replaceSrc change with
  | ActDelete, _ => [cover change]
  | ActReplace, Some src =>
      let (attempts, image) := embedReplacement lib src in
      (cover change :: attempts ++
       match image with
       | Some codec =>
           [DrawImage codec (src_bytes src) (pdfX change) (pdfY change) (pdfW change)
              (pdfH change)]
       | None => []
       end)%list
  | _, _ => []
  end.

Inductive Outcome :=
| Null
| Saved (calls : list Call)
| Thrown.

(** [commitImageEdits(pdfBytes, pageNum)] *)
Definition commitImageEdits (lib : PdfLib) (imageOverlays : list Overlay) : Outcome :=
  let changes := filter (fun o => negb (is_none (action o))) imageOverlays in
  match changes with
  | [] => Null
  | _ =>
      if negb (PDFLib_present lib) then Null
      else if negb (load_ok lib) then Thrown
      else Saved (flat_map (commitChange lib) changes)
  end.

(** The codecs of the embedding attempts among the calls, in order. *)
Definition attempts (calls : list Call) : list Codec :=
  flat_map (fun c => match c with Embed codec _ => [codec] | _ => [] end) calls.

(** What the listeners maintain: a region to replace has its replacement. *)
Definition well_formed (o : Overlay) : Prop :=
  action o = ActReplace -> replaceSrc o <> None.

End ImageEdit.


(** ** Markup of the editor and the DOM

    Notions for the properties of the markup the editor writes and reads
    back. *)

Module Markup.

Local Open Scope string_scope.

(** A character that the [innerHTML] setter keeps as it is: not a carriage
    return, which it reads as a line feed, and not NUL, which it drops.
    The parser of the model covers strings of such characters. *)
Definition kept_char (c : ascii) : bool :=
  (negb (Nat.eqb (nat_of_ascii c) 13) && negb (Nat.eqb (nat_of_ascii c) 0))%bool.

Definition kept (s : string) : bool := forallb kept_char (list_ascii_of_string s).

(** A tag name as the editor's markup has them: letters, in lower case. *)
Definition plain_tag (tag : string) : bool :=
  (negb (Str.eqb tag "") && forallb Dom.is_letter (list_ascii_of_string tag)
   && Str.eqb (Str.toLowerCase tag) tag)%bool.

(** Attribute-free markup: elements with plain tags, [br] without
    children. *)
Fixpoint plain (n : Dom.Node) : bool :=
  match n with
  | Dom.Text _ => true
  | Dom.Elem tag children =>
      (plain_tag tag &&
       if Str.eqb tag "br" then match children with [] => true | _ => false end
       else (fix all (l : list Dom.Node) : bool :=
               match l with [] => true | c :: l' => plain c && all l' end) children)%bool
  end.

(** The tokens of the serialisation of a node. *)
Fixpoint tokens (n : Dom.Node) : list Dom.Token :=
  match n with
  | Dom.Text s => Dom.chars s
  | Dom.Elem tag children =>
      if Str.eqb tag "br" then [Dom.TOpen "br"]
      else (Dom.TOpen tag ::
            (fix all (l : list Dom.Node) : list Dom.Token :=
               match l with [] => [] | c :: l' => tokens c ++ all l' end) children
            ++ [Dom.TClose tag])%list
  end.

(** The children of an element or of a line after [nodes]. *)
Definition tokens_of (nodes : list Dom.Node) : list Dom.Token := flat_map tokens nodes.

Definition all_plain (nodes : list Dom.Node) : bool := forallb plain nodes.

(** The children after the characters of [s] are added, one by one. *)
Definition append_text (cur : list Dom.Node) (s : string) : list Dom.Node :=
  fold_left (fun cur c => Dom.add_char c cur) (list_ascii_of_string s) cur.

(** The runs [collectTextRuns] adds to [out] for a list of siblings. *)
Definition runs_of (state : Edit.RunState) (nodes : list Dom.Node) (out : list Edit.Run)
  : list Edit.Run :=
  fold_left (fun out child => Edit.collectTextRuns child state out) nodes out.


(** What the serialiser writes for one character of a text node. *)
Definition escape_char (c : ascii) : string :=
  if Ascii.eqb c "&" then "&amp;"
  else if Ascii.eqb c Str.c_nbsp then "&nbsp;"
  else if Ascii.eqb c "<" then "&lt;"
  else if Ascii.eqb c ">" then "&gt;"
  else Str.of_char c.

(** What [escapeHtml] writes for one character. *)
Definition html_char (c : ascii) : string :=
  if Ascii.eqb c "&" then "&amp;"
  else if Ascii.eqb c "<" then "&lt;"
  else if Ascii.eqb c ">" then "&gt;"
  else if Ascii.eqb c Str.c_quot then "&quot;"
  else Str.of_char c.

(** What the tree builder makes of the tokens of [nodes] after the
    children [cur]: the children [cur'], which serialise, read and split
    into runs as [cur] followed by [nodes]. *)
Definition built (nodes cur cur' : list Dom.Node) : Prop :=
  (forall ts open, Dom.build (tokens_of nodes ++ ts) open cur = Dom.build ts open cur') /\
  Dom.innerHTML cur' = Dom.innerHTML cur ++ Dom.innerHTML nodes /\
  Dom.textContent cur' = Dom.textContent cur ++ Dom.textContent nodes /\
  (forall st out, runs_of st cur' out = runs_of st nodes (runs_of st cur out)) /\
  all_plain cur' = all_plain cur.

End Markup.

(** ** Paragraphs *)

Module Paragraphs.

Import Session.

(** Consecutive lines of [p] pass the test of [groupIntoParagraphs]. *)
Fixpoint chained (p : list Line) : Prop :=
  match p with
  | a :: (b :: _) as rest => sameParagraph a b = true /\ chained rest
  | _ => True
  end.

(** The last line of [p] and the first of [q] fail the test. *)
Definition boundary (p q : list Line) : Prop :=
  match rev p, q with
  | a :: _, b :: _ => sameParagraph a b = false
  | _, _ => True
  end.

Fixpoint separated (ps : list (list Line)) : Prop :=
  match ps with
  | p :: (q :: _) as rest => boundary p q /\ separated rest
  | _ => True
  end.

End Paragraphs.

(** ** Lines as reconstructed from the page *)

Module Clean.

Local Open Scope string_scope.

(** A character that [escapeHtml], the [innerHTML] setter and the
    serialiser of the DOM all leave the same: not the double quote and not
    U+00A0, which the serialiser writes differently from [escapeHtml], and
    not a carriage return or NUL, which the setter does not keep. *)
Definition clean_char (c : ascii) : bool :=
  (negb (Ascii.eqb c Str.c_quot) && negb (Ascii.eqb c Str.c_nbsp) && Markup.kept_char c)%bool.

Definition clean (s : string) : bool := forallb clean_char (list_ascii_of_string s).

(** The node [buildInitialHtmlFromItems] writes for a run. *)
Definition item_node (it : Item) : Dom.Node :=
  let style := Edit.detectFontStyleWithMeta (fontName it) (styleInfo it) in
  if (Edit.st_bold style && Edit.st_italic style)%bool
  then Dom.Elem "b" [Dom.Elem "i" [Dom.Text (str it)]]
  else if Edit.st_bold style then Dom.Elem "b" [Dom.Text (str it)]
  else if Edit.st_italic style then Dom.Elem "i" [Dom.Text (str it)]
  else Dom.Text (str it).

(** The text of a line of runs: [items.map(i => i.str).join('')]. *)
Definition joined (items : list Item) : string :=
  fold_right (fun i acc => str i ++ acc) "" items.

End Clean.

(** ** Formatting runs *)

Module Runs.

Import Edit.
Local Open Scope string_scope.

(** Two runs of the same style. *)
Definition same_style (a b : Run) : bool :=
  (Bool.eqb (r_bold a) (r_bold b) && Bool.eqb (r_italic a) (r_italic b))%bool.

(** No two neighbours of the list have the same style. *)
Fixpoint alternating (runs : list Run) : Prop :=
  match runs with
  | a :: (b :: _) as rest => same_style a b = false /\ alternating rest
  | _ => True
  end.

(** The texts of the runs, one after the other. *)
Definition texts (runs : list Run) : string :=
  fold_right (fun r acc => r_text r ++ acc) "" runs.

(** The text of a node as the runs have it: a [br] element is a line
    feed. *)
Fixpoint break_text (n : Dom.Node) : string :=
  match n with
  | Dom.Text s => s
  | Dom.Elem tag children =>
      if Str.eqb tag "br" then Str.of_char Str.c_newline
      else (fix all (l : list Dom.Node) : string :=
              match l with [] => "" | c :: l' => break_text c ++ all l' end) children
  end.

Definition break_texts (nodes : list Dom.Node) : string :=
  fold_right (fun n acc => break_text n ++ acc) "" nodes.

(** What [collectTextRuns] keeps of [out]: runs with text, neighbours of
    different styles. *)
Definition maximal (runs : list Run) : Prop :=
  Forall (fun r => r_text r <> "") runs /\ alternating runs.

End Runs.

(** ** The gap search of the column detection *)

Module GapSearch.

Import ColumnSplit.

(** Bucket [b] counts as empty. *)
Definition low (hist : list Z) (thr : Z) (b : Z) : Prop := (hist_at hist b <= thr)%Z.

(** Buckets [a] up to [c - 1] are all empty. *)
Definition low_run (hist : list Z) (thr : Z) (a c : Z) : Prop :=
  forall k, (a <= k < c)%Z -> low hist thr k.

(** What the search has established before it looks at bucket [b]: the
    open run, if any, starts where the empty buckets before [b] start; the
    best gap is a run of empty buckets; and every run of empty buckets
    before [b] is no wider than the best gap, or lies in the open run. *)
Definition search_inv (hist : list Z) (thr : Z) (b : Z) (g : Gap) : Prop :=
  (match (gapStart g =? -1)%Z with
   | true => b = minB \/ ~ low hist thr (b - 1)
   | false => (minB <= gapStart g < b)%Z /\ low_run hist thr (gapStart g) b /\
              (gapStart g = minB \/ ~ low hist thr (gapStart g - 1))
   end) /\
  (bestWidth g = 0 \/
   (bestWidth g = bestEnd g - bestStart g /\ minB <= bestStart g /\
    bestStart g < bestEnd g /\ bestEnd g < b /\
    low_run hist thr (bestStart g) (bestEnd g)))%Z /\
  (0 <= bestWidth g)%Z /\
  (forall a c, (minB <= a)%Z -> (a < c)%Z -> (c <= b)%Z -> low_run hist thr a c ->
               (c - a <= bestWidth g)%Z \/ (gapStart g <> -1 /\ gapStart g <= a)%Z).

(** Two columns of five bands on a page 540 wide, the right one starting
    at x = 324: in doubles 324 / 5.4 is just below 60, and the column
    starts in bucket 59. *)
Definition offsetPage : list Item :=
  (Fixture.column 0 250 5 ++ Fixture.column 324 200 5)%list.

End GapSearch.

(** ** Lines in reading order *)

Module LineOrder.

Import Layout.






End LineOrder.

(** ** The colour the samplers pick *)

Module Frequency.

Import Sampler.
Local Open Scope string_scope.

(** How often [key] occurs among [keys]. *)
Definition occurrences (key : Color) (keys : list Color) : Z :=
  Z.of_nat (List.length (filter (fun k => color_eqb k key) keys)).

(** [counts[key] || 0] *)
Fixpoint count_of (counts : list (Color * Z)) (key : Color) : Z :=
  match counts with
  | [] => 0
  | (k, n) :: rest => if color_eqb k key then n else count_of rest key
  end.

(** The histogram of a list of keys. *)
Definition histogram_of (keys : list Color) : list (Color * Z) :=
  fold_left (fun counts k => bump k counts) keys [].

(** A dark pixel for the threshold [t]: opaque, and of a luminance that
    does not exceed [t]. *)
Definition qualifies (t : Q) (p : Pixel) : bool :=
  ((128 <=? px_a p)%Z && Qle_bool (luminance (px_r p) (px_g p) (px_b p)) t)%bool.

(** The pixels [sampleBackgroundColor] counts. *)
Definition is_light (p : Pixel) : bool :=
  if Qlt_le_dec (luminance (px_r p) (px_g p) (px_b p)) 150 then false else true.

(** [result] is the colour picked from [keys]: the default when there is
    none, otherwise a key that no other key outnumbers. *)
Definition picked (keys : list Color) (default result : string) : Prop :=
  match keys with
  | [] => result = default
  | _ => exists best, In best keys /\ result = toHex best /\
                      forall k, (occurrences k keys <= occurrences best keys)%Z
  end.

(** The state of the scan for the most frequent entry. *)
Definition scan_step (acc : Z * option Color) (e : Color * Z) : Z * option Color :=
  if (snd e >? fst acc)%Z then (snd e, Some (fst e)) else acc.

Definition scan_inv (seen : list (Color * Z)) (acc : Z * option Color) : Prop :=
  (0 <= fst acc)%Z /\
  (forall k m, In (k, m) seen -> (m <= fst acc)%Z) /\
  match snd acc with
  | Some best => In (best, fst acc) seen
  | None => seen = [] /\ fst acc = 0%Z
  end.

(** A mid-grey cell, six pixels wide: three pixels of the background
    (luminance 150), two of an anti-aliased edge (luminance 130) and one
    of nearly black text. *)
Definition greyCell : Canvas :=
  mkCanvas 6 1 6 true
    (fun _ _ _ _ => Some [150; 150; 150; 255; 150; 150; 150; 255; 150; 150; 150; 255;
                          130; 130; 130; 255; 130; 130; 130; 255; 10; 10; 10; 255]%Z).

(** A canvas of one pixel whose luminance is 150 in exact arithmetic and
    just below 150 in doubles. *)
Definition nearLight : Canvas :=
  mkCanvas 1 1 1 true (fun _ _ _ _ => Some [7; 251; 5; 255]%Z).

(** A canvas of two pixels, one grey and one nearly black. *)
Definition twoPixels : Canvas :=
  mkCanvas 2 1 2 true (fun _ _ _ _ => Some [200; 200; 200; 255; 10; 10; 10; 255]%Z).

End Frequency.

(** ** The states a session reaches *)

Module Reach.

Import Session.

(** The editor is off: the variables are as the module initialises them,
    but for the canvas and the uploaded font. *)
Definition idle (s : State) : Prop :=
  active s = false /\ editContainer s = None /\ toolbar s = false /\
  currentViewport s = None /\ currentPageNum s = 0%Z /\ _focusedLine s = None /\
  _paragraphData s = [] /\ _activeBlockIdx s = (-1)%Z /\ _blockZones s = [] /\
  _editedBlocks s = [] /\ _canvasSnapshot s = None /\ undoStack s = [] /\ redoStack s = [].

(** The editor is on: it has its container, its toolbar and its viewport,
    and one click zone for each paragraph of the page. *)
Definition editing (s : State) : Prop :=
  active s = true /\ (exists children, editContainer s = Some children) /\
  toolbar s = true /\ (exists v, currentViewport s = Some v) /\
  List.length (_blockZones s) = List.length (_paragraphData s) /\
  _paragraphData s <> [] /\ (-1 <= _activeBlockIdx s)%Z.

Definition shape (s : State) : Prop :=
  (idle s \/ editing s) /\
  (List.length (undoStack s) <= MAX_UNDO)%nat /\
  (List.length (undoStack s) + List.length (redoStack s) <= MAX_UNDO)%nat /\
  NoDup (map fst (_editedBlocks s)).

(** [hasTextEditChanges()] *)
Definition hasTextEditChanges (s : State) : bool :=
  match editContainer s with
  | None => false
  | Some children => Nat.ltb 0 (List.length (filter dirtyClass (allLines children)))
  end.

End Reach.

(** ** Image regions: [extractImagePositions] *)

Module Images.

Local Open Scope Q_scope.

(** A matrix [[a, b, c, d, e, f]]. *)
Definition Matrix : Type := (Q * Q * Q * Q * Q * Q)%type.

(** The operators the scan tells apart.  [paintImage] is
    [paintImageXObject] or [paintImageXObjectRepeat], with [args[0]]; every
    other operator is [other]. *)
Inductive Op :=
| save
| restore
| transform (m : Matrix)
| paintImage (name : string)
| other.

Record Image := mkImage {
  left : Q;
  top : Q;
  width : Q;
  height : Q;
  pdfX : Q;
  pdfY : Q;
  pdfW : Q;
  pdfH : Q;
  imgName : string
}.

Definition identity : Matrix := (1, 0, 0, 1, 0, 0).

(** [newCtm] of the [OPS.transform] case. *)
Definition newCtm (ctm m : Matrix) : Matrix :=
  let '(c0, c1, c2, c3, c4, c5) := ctm in
  let '(m0, m1, m2, m3, m4, m5) := m in
  (c0 * m0 + c2 * m1,
   c1 * m0 + c3 * m1,
   c0 * m2 + c2 * m3,
   c1 * m2 + c3 * m3,
   c0 * m4 + c2 * m5 + c4,
   c1 * m4 + c3 * m5 + c5).

Definition below (a b : Q) : bool := if Qlt_le_dec a b then true else false.

(** The paint case: what it pushes on [images]. *)
Definition paint (vt ctm : Matrix) (name : string) : list Image :=
  let '(c0, c1, c2, c3, c4, c5) := ctm in
  let '(vt0, vt1, vt2, vt3, vt4, vt5) := vt in
  let pdfX := c4 in
  let pdfY := c5 in
  let pdfW := Js.or_num (Qabs c0) (Qabs c2) in
  let pdfH := Js.or_num (Qabs c3) (Qabs c1) in
  if (below pdfW 10 || below pdfH 10)%bool then []
  else
    let screenX := vt0 * pdfX + vt2 * pdfY + vt4 in
    let screenY := vt1 * pdfX + vt3 * pdfY + vt5 in
    let screenW := pdfW * Qabs vt0 in
    let screenH := pdfH * Qabs vt3 in
    [mkImage screenX (screenY - screenH) screenW screenH pdfX pdfY pdfW pdfH
       (Js.or_str name "")].

(** The variables of the loop: [ctm], [ctmStack] (its top first) and
    [images]. *)
Record Scan := mkScan {
  ctm : Matrix;
  ctmStack : list Matrix;
  images : list Image
}.

(** One iteration of the loop over the operator list. *)
Definition step (vt : Matrix) (st : Scan) (op : Op) : Scan :=
  match op with
  | save => mkScan (ctm st) (ctm st :: ctmStack st) (images st)
  | restore =>
      match ctmStack st with
      | [] => st
      | m :: rest => mkScan m rest (images st)
      end
  | transform m => mkScan (newCtm (ctm st) m) (ctmStack st) (images st)
  | paintImage name => mkScan (ctm st) (ctmStack st) (images st ++ paint vt (ctm st) name)
  | other => st
  end.

Definition scan (vt : Matrix) (ops : list Op) (st : Scan) : Scan :=
  fold_left (step vt) ops st.

(** [extractImagePositions(page, viewport)], given whether
    [window.pdfjsLib] is there, the viewport's transform and the operator
    list of the page. *)
Definition extractImagePositions (pdfjsLib : bool) (vt : Matrix) (ops : list Op)
  : list Image :=
  if negb pdfjsLib then [] else images (scan vt ops (mkScan identity [] [])).

(** The nesting depth after [ops], started at [depth]; [None] when a
    [restore] has no [save] to match among them. *)
Fixpoint depth_after (depth : nat) (ops : list Op) : option nat :=
  match ops with
  | [] => Some depth
  | save :: rest => depth_after (Datatypes.S depth) rest
  | restore :: rest =>
      match depth with
      | O => None
      | Datatypes.S d => depth_after d rest
      end
  | _ :: rest => depth_after depth rest
  end.

(** Every [restore] of [ops] matches a [save] of [ops], and none is left
    open. *)
Definition balanced (ops : list Op) : bool :=
  match depth_after 0 ops with
  | Some O => true
  | _ => false
  end.

Definition paints (ops : list Op) : nat :=
  List.length (filter (fun op => match op with paintImage _ => true | _ => false end) ops).

(** What holds of every image the paint case pushes. *)
Definition region_ok (vt : Matrix) (img : Image) : Prop :=
  let '(vt0, vt1, vt2, vt3, vt4, vt5) := vt in
  10 <= pdfW img /\ 10 <= pdfH img /\
  width img = pdfW img * Qabs vt0 /\
  height img = pdfH img * Qabs vt3 /\
  left img = vt0 * pdfX img + vt2 * pdfY img + vt4 /\
  top img = vt1 * pdfX img + vt3 * pdfY img + vt5 - height img.

End Images.

(** ** The image mode *)

Module ImageMode.

Import ImageEdit.

(** The variables of the image mode, with the three it shares with the
    text mode ([toolbar], [currentViewport], [currentPageNum]);
    [currentPdfDoc] is written and never read, and is left out. *)
Record State := mkState {
  imageActive : bool;
  imageContainer : bool;
  imageOverlays : list Overlay;
  toolbar : bool;
  currentViewport : option Layout.PageViewport;
  currentPageNum : Z
}.

Definition initial : State := mkState false false [] false None 0.

(** [isImageEditActive()] *)
Definition isImageEditActive (s : State) : bool := imageActive s.

(** [hasImageEditChanges()] *)
Definition hasImageEditChanges (s : State) : bool :=
  existsb (fun o => negb (is_none (action o))) (imageOverlays s).

(** [exitImageEditMode()] *)
Definition exitImageEditMode (s : State) : State :=
  if negb (imageActive s) then s
  else mkState false false [] false (currentViewport s) (currentPageNum s).

(** The [entry] made for an image. *)
Definition entry (img : Images.Image) : Overlay :=
  mkOverlay (Images.pdfX img) (Images.pdfY img) (Images.pdfW img) (Images.pdfH img)
    ActNone None.

(** [enterImageEditMode(pageNum, pdfDoc, viewport, container)], given the
    operator list of the page. *)
Definition enterImageEditMode (pageNum : Z) (viewport : Layout.PageViewport)
    (pdfjsLib : bool) (ops : list Images.Op) (s : State) : bool * State :=
  let s0 := if imageActive s then exitImageEditMode s else s in
  match Images.extractImagePositions pdfjsLib (Layout.pv_transform viewport) ops with
  | [] => (false, s0)
  | images => (true, mkState true true (map entry images) true (Some viewport) pageNum)
  end.

(** What happens in the image mode: the host enters or leaves it, the user
    clicks the Delete button of overlay [i], or picks a file with its
    Replace button. *)
Inductive Event :=
| Enter (pageNum : Z) (viewport : Layout.PageViewport) (pdfjsLib : bool)
    (ops : list Images.Op)
| ClickDelete (i : nat)
| ChooseFile (i : nat) (src : ReplaceSrc)
| Exit.

Definition with_overlays (overlays : list Overlay) (s : State) : State :=
  mkState (imageActive s) (imageContainer s) overlays (toolbar s) (currentViewport s)
    (currentPageNum s).

Definition handle (s : State) (e : Event) : State :=
  match e with
  | Enter pageNum viewport pdfjsLib ops =>
      snd (enterImageEditMode pageNum viewport pdfjsLib ops s)
  | ClickDelete i => with_overlays (Js.update_nth i toggleDelete (imageOverlays s)) s
  | ChooseFile i src =>
      with_overlays (Js.update_nth i (chooseReplacement src) (imageOverlays s)) s
  | Exit => exitImageEditMode s
  end.

Definition run (events : list Event) : State := fold_left handle events initial.

(** [handleCommitImageEdits()] of js/app.js, as far as the image mode goes:
    the commit, then, in the [finally] clause, [exitImageEditMode()];
    [None] when it returns at once. *)
Definition handleCommitImageEdits (lib : PdfLib) (s : State) : State * option Outcome :=
  if negb (isImageEditActive s) then (s, None)
  else (exitImageEditMode s, Some (commitImageEdits lib (imageOverlays s))).

(** The geometry and bookkeeping every overlay of a session has. *)
Definition overlay_ok (o : Overlay) : Prop :=
  (10 <= pdfW o)%Q /\ (10 <= pdfH o)%Q /\
  (action o = ActReplace <-> replaceSrc o <> None).

(** The condition of a session: off with nothing left, or on with at least
    one overlay; every overlay well kept. *)
Definition mode_ok (s : State) : Prop :=
  (if imageActive s
   then imageContainer s = true /\ toolbar s = true /\ imageOverlays s <> [] /\
        currentViewport s <> None
   else imageContainer s = false /\ imageOverlays s = []) /\
  Forall overlay_ok (imageOverlays s).

End ImageMode.

(** ** The toolbar clicks of js/app.js *)

Module Host.

Local Open Scope string_scope.

(** ASCII white space: tab, line feed, form feed, carriage return, space. *)
Definition is_ascii_whitespace (c : ascii) : bool :=
  let n := nat_of_ascii c in
  (Nat.eqb n 9 || Nat.eqb n 10 || Nat.eqb n 12 || Nat.eqb n 13 || Nat.eqb n 32)%bool.

(** [classList] of an element with the given [class] attribute: the
    attribute split on ASCII white space. *)
Fixpoint classTokens (current : string) (s : string) : list string :=
  match s with
  | EmptyString => match current with EmptyString => [] | _ => [current] end
  | String c rest =>
      if is_ascii_whitespace c then
        match current with
        | EmptyString => classTokens EmptyString rest
        | _ => current :: classTokens EmptyString rest
        end
      else classTokens (current ++ String c EmptyString) rest
  end.

Definition classList (attr : string) : list string := classTokens EmptyString attr.

Definition contains (classes : list string) (name : string) : bool :=
  existsb (Str.eqb name) classes.

Inductive Handler :=
| HandleCommitTextEdits
| HandleCancelTextEdits
| HandleCommitImageEdits
| HandleCancelImageEdits.

(** The click listener on [DOM.pageContainer], for a click whose target has
    the given classes. *)
Definition onPageContainerClick (classes : list string) : option Handler :=
  if contains classes "text-edit-commit" then Some HandleCommitTextEdits
  else if contains classes "text-edit-cancel" then Some HandleCancelTextEdits
  else if contains classes "image-edit-commit-btn" then Some HandleCommitImageEdits
  else if contains classes "image-edit-cancel-btn" then Some HandleCancelImageEdits
  else None.

(** The [class] attributes of the buttons [createImageToolbar] makes. *)
Definition imageToolbarButtons : list string :=
  ["image-edit-commit-btn text-edit-commit"; "image-edit-cancel-btn text-edit-cancel"].

(** What a handler does to the two modes, as far as it goes when the mode
    it belongs to is off: the text handlers are
    [Session.handleCommitTextEdits] and [Session.exitTextEditMode]. *)
Definition runTextHandler (h : Handler) (lib : Session.PdfLib) (s : Session.State)
  : option Session.State :=
  match h with
  | HandleCommitTextEdits => Some (fst (Session.handleCommitTextEdits lib s))
  | HandleCancelTextEdits => Some (Session.exitTextEditMode s)
  | _ => None
  end.

End Host.

(** ** Undo and redo *)

Module Undo.

Import Session.

(** A line div as an object: its place among the divs created so far. *)
Definition Ref : Type := nat.

(** A snapshot on a stack: the div it was taken of ([snap.div]) and the
    values captured. *)
Record Entry := mkEntry {
  div : Ref;
  captured : Snapshot
}.

(** The line divs created so far (a div removed from the overlay is still
    the object its snapshots refer to) and the two stacks, their top
    last. *)
Record State := mkState {
  divs : list LineDiv;
  undoStack : list Entry;
  redoStack : list Entry
}.

(** [stack.push(x); if (stack.length > MAX_UNDO) stack.shift()] *)
Definition push_capped (x : Entry) (stack : list Entry) : list Entry :=
  let stack' := (stack ++ [x])%list in
  if Nat.ltb MAX_UNDO (List.length stack') then tl stack' else stack'.

(** [stack.pop()] *)
Definition pop (stack : list Entry) : option (Entry * list Entry) :=
  match rev stack with
  | [] => None
  | x :: r => Some (x, rev r)
  end.

(** [restoreSnapshot(snap)] on the div of the snapshot.  [snap.html] is
    always a string, so the [??] never takes its right side. *)
Definition restoreSnapshot (sn : Snapshot) (d : LineDiv) : LineDiv :=
  markDirty
    (mkLineDiv (Dom.parse (sn_html sn)) (dirtyClass d) (sn_fontSize sn) (sn_fontFamily sn)
       (sn_fontWeight sn) (sn_fontStyle sn) (sn_color sn) (d_matchedColor d)
       (d_bgColor d) (d_original d) (d_originalHtml d) (d_pdfX d) (d_pdfY d)
       (d_pdfFontSize d) (d_pdfLineWidth d) (d_fontName d) (d_baseBold d)
       (d_baseItalic d) (d_cssFont d) (d_width d) (d_height d) (d_blockIdx d)
       (d_lineIdx d) (sn_fontSizeOverride sn) (sn_colorOverride sn)
       (sn_fontFamilyOverride sn) (sn_fontNameOverride sn) (sn_bold sn) (sn_italic sn)
       (d_initialBold d) (d_initialItalic d) (d_lastText d) (snapshotTaken d)).

(** [pushUndo(div)] *)
Definition pushUndo (r : Ref) (st : State) : State :=
  match nth_error (divs st) r with
  | None => st
  | Some d => mkState (divs st) (push_capped (mkEntry r (captureSnapshot d)) (undoStack st)) []
  end.

(** [performUndo()] *)
Definition performUndo (st : State) : State :=
  match pop (undoStack st) with
  | None => st
  | Some (e, rest) =>
      match nth_error (divs st) (div e) with
      | None => st
      | Some d =>
          mkState (Js.update_nth (div e) (restoreSnapshot (captured e)) (divs st)) rest
            (redoStack st ++ [mkEntry (div e) (captureSnapshot d)])
      end
  end.

(** [performRedo()] *)
Definition performRedo (st : State) : State :=
  match pop (redoStack st) with
  | None => st
  | Some (e, rest) =>
      match nth_error (divs st) (div e) with
      | None => st
      | Some d =>
          mkState (Js.update_nth (div e) (restoreSnapshot (captured e)) (divs st))
            (undoStack st ++ [mkEntry (div e) (captureSnapshot d)]) rest
      end
  end.

(** The [input] listener of div [r], after the browser has replaced the
    div's content by [nodes]. *)
Definition onInput (r : Ref) (nodes : list Dom.Node) (st : State) : State :=
  match nth_error (divs st) r with
  | None => st
  | Some d =>
      let d1 := with_childNodes nodes d in
      let lastOrOriginal :=
        Js.or_str (match d_lastText d with Some t => t | None => "" end) (d_original d) in
      let e := mkEntry r (with_text lastOrOriginal (captureSnapshot d1)) in
      let undo := if snapshotTaken d then undoStack st else push_capped e (undoStack st) in
      let redo := if snapshotTaken d then redoStack st else [] in
      let d2 := markDirty (with_lastText (Dom.textContent nodes) true d1) in
      mkState (Js.update_nth r (fun _ => d2) (divs st)) undo redo
  end.

(** The [focus] listener of div [r], as far as the snapshot flag goes. *)
Definition onFocus (r : Ref) (st : State) : State :=
  mkState
    (Js.update_nth r
       (fun d => rebuild d (childNodes d) (dirtyClass d) (style_color d) (d_colorOverride d)
                   (d_lastText d) false)
       (divs st))
    (undoStack st) (redoStack st).

(** A toolbar handler run through [applyToFocused] on div [r]:
    [pushUndo(div)], then the handler's change, which leaves the div as
    [d'], then [markDirty]. *)
Definition onFormat (r : Ref) (d' : LineDiv) (st : State) : State :=
  let st1 := pushUndo r st in
  mkState (Js.update_nth r (fun _ => markDirty d') (divs st1)) (undoStack st1) (redoStack st1).

(** What happens to the stacks in a session. *)
Inductive Event :=
| NewDiv (d : LineDiv)
| Focus (r : Ref)
| TypeInto (r : Ref) (nodes : list Dom.Node)
| Format (r : Ref) (d' : LineDiv)
| UndoClick
| RedoClick.

Definition handle (st : State) (e : Event) : State :=
  match e with
  | NewDiv d => mkState (divs st ++ [d]) (undoStack st) (redoStack st)
  | Focus r => onFocus r st
  | TypeInto r nodes => onInput r nodes st
  | Format r d' => onFormat r d' st
  | UndoClick => performUndo st
  | RedoClick => performRedo st
  end.

Definition run (events : list Event) : State :=
  fold_left handle events (mkState [] [] []).

(** What the undo machinery sees of a div. *)
Definition same_look (a b : LineDiv) : Prop :=
  captureSnapshot a = captureSnapshot b.

End Undo.

(** ** The eyedropper: [samplePixelColor] *)

Module Eyedropper.

Import Sampler.
Local Open Scope string_scope.

(** [samplePixelColor(canvas, x, y)]; [None] is [null]. *)
Definition samplePixelColor (canvas : option Canvas) (x y : Q) : option string :=
  match canvas with
  | None => None
  | Some cv =>
      if negb (cv_context cv) then None
      else
        let px := Js.Math_round x in
        let py := Js.Math_round y in
        if ((px <? 0) || (py <? 0) || (px >=? cv_width cv) || (py >=? cv_height cv))%Z%bool
        then None
        else
          match cv_getImageData cv px py 1 1 with
          | Some (r :: g :: b :: _) => Some (toHex (r, g, b))
          | _ => None
          end
  end.

End Eyedropper.
(** * Properties *)

Unset Implicit Arguments.

From Stdlib Require Import Permutation.

(** ** Loops *)

Section Loops.

Context {S : Type}.
Variable body : Z -> S -> S.

(** An invariant of a counting loop holds when the loop ends. *)
Lemma for_steps_invariant (P : Z -> S -> Prop) :
  forall n b s,
    P b s ->
    (forall b' s', (b <= b' < b + Z.of_nat n)%Z -> P b' s' -> P (b' + 1)%Z (body b' s')) ->
    P (b + Z.of_nat n)%Z (Js.for_steps n b body s).
Proof.
  induction n as [|n IH]; intros b s H0 Hstep.
  - simpl. now rewrite Z.add_0_r.
  - cbn [Js.for_steps].
    replace (b + Z.of_nat (Datatypes.S n))%Z with ((b + 1) + Z.of_nat n)%Z by lia.
    apply IH.
    + apply Hstep; [lia | exact H0].
    + intros b' s' Hb HP. apply Hstep; [lia | exact HP].
Qed.

Lemma for_range_invariant (P : Z -> S -> Prop) lo hi s :
  (lo <= hi + 1)%Z ->
  P lo s ->
  (forall b' s', (lo <= b' <= hi)%Z -> P b' s' -> P (b' + 1)%Z (body b' s')) ->
  P (hi + 1)%Z (Js.for_range lo hi body s).
Proof.
  intros Hle H0 Hstep. unfold Js.for_range.
  replace (hi + 1)%Z with (lo + Z.of_nat (Z.to_nat (hi - lo + 1)))%Z by lia.
  apply for_steps_invariant; [exact H0|].
  intros b' s' Hb HP. apply Hstep; [lia | exact HP].
Qed.

End Loops.

(** ** Doubles

    The rounding of [Js.double]: its relative error is at most [2^-53], it
    keeps the sign, and it never crosses an integer below [2^53]. *)

Section Doubles.

Import Js.

Lemma pow2_pos (k : Z) : 0 < 2 ^ k.
Proof. apply Qpower_0_lt. reflexivity. Qed.

Lemma pow2_succ (k : Z) : 2 ^ (k + 1) == 2 * 2 ^ k.
Proof. rewrite Qpower_plus by discriminate. change (2 ^ 1) with 2. ring. Qed.

Lemma pow2_nat (k : Z) : (0 <= k)%Z -> 2 ^ k == inject_Z (2 ^ k).
Proof. intros H. symmetry. apply (Zpower_Qpower 2 k H). Qed.

Lemma pow2_lt (a b : Z) : 2 ^ a < 2 ^ b -> (a < b)%Z.
Proof.
  intros H. destruct (Z_lt_le_dec a b) as [L|L]; [exact L|]. exfalso.
  apply (Qlt_irrefl (2 ^ a)). apply (Qlt_le_trans _ _ _ H).
  apply Qpower_le_compat_l; [exact L | discriminate].
Qed.

Lemma pow2_le (a b : Z) : (a <= b)%Z -> 2 ^ a <= 2 ^ b.
Proof. intros H. apply Qpower_le_compat_l; [exact H | discriminate]. Qed.

Lemma log2_bounds (n : Z) : (0 < n)%Z ->
  inject_Z (2 ^ Z.log2 n) <= inject_Z n /\ inject_Z n < inject_Z (2 ^ (Z.log2 n + 1)).
Proof.
  intros H. destruct (Z.log2_spec n H) as [L U]. split.
  - rewrite <- Zle_Qle. exact L.
  - rewrite <- Zlt_Qlt. replace (Z.log2 n + 1)%Z with (Z.succ (Z.log2 n)) by lia. exact U.
Qed.

(** The exponent brackets its argument. *)
Lemma exponent_spec (a : Q) : 0 < a -> 2 ^ exponent a <= a /\ a < 2 ^ (exponent a + 1).
Proof.
  intros Ha. destruct a as [n d]. assert (Hn : (0 < n)%Z).
  { unfold Qlt in Ha. cbn in Ha. lia. }
  unfold exponent. cbn [Qnum Qden].
  set (ln := Z.log2 n). set (ld := Z.log2 (Z.pos d)).
  assert (Hln : (0 <= ln)%Z) by apply Z.log2_nonneg.
  assert (Hld : (0 <= ld)%Z) by apply Z.log2_nonneg.
  destruct (log2_bounds n Hn) as [N1 N2]. fold ln in N1, N2.
  destruct (log2_bounds (Z.pos d) eq_refl) as [D1 D2]. fold ld in D1, D2.
  rewrite <- pow2_nat in N1, N2, D1, D2 by lia.
  assert (E : n # d == inject_Z n / inject_Z (Z.pos d)) by apply Qmake_Qdiv.
  assert (Hd : 0 < inject_Z (Z.pos d)) by reflexivity.
  assert (K : 2 ^ (ln - ld) == 2 ^ ln / 2 ^ ld) by (apply Qpower_minus; discriminate).
  pose proof (pow2_pos ln) as Pn. pose proof (pow2_pos ld) as Pd.
  rewrite pow2_succ in N2, D2.
  set (x := inject_Z n) in *. set (y := inject_Z (Z.pos d)) in *.
  set (pn := 2 ^ ln) in *. set (pd := 2 ^ ld) in *.
  assert (Lo : pn / (2 * pd) < x / y).
  { apply Qlt_shift_div_l; [exact Hd|].
    assert (Q1 : pn / (2 * pd) * y == (pn * y) / (2 * pd)) by (field; lra).
    rewrite Q1. apply Qlt_shift_div_r; [lra|]. nra. }
  assert (Hi : x / y < (2 * pn) / pd).
  { apply Qlt_shift_div_r; [exact Hd|].
    assert (Q1 : 2 * pn / pd * y == (2 * pn * y) / pd) by (field; lra).
    rewrite Q1. apply Qlt_shift_div_l; [lra|]. nra. }
  destruct (Qlt_le_dec (n # d) (2 ^ (ln - ld))) as [L|L].
  - split.
    + replace (ln - ld - 1)%Z with (ln - (ld + 1))%Z by lia.
      rewrite Qpower_minus by discriminate. rewrite pow2_succ. fold pn pd.
      rewrite E. apply Qlt_le_weak. exact Lo.
    + replace (ln - ld - 1 + 1)%Z with (ln - ld)%Z by lia. exact L.
  - split; [exact L|].
    replace (ln - ld + 1)%Z with ((ln + 1) - ld)%Z by lia.
    rewrite Qpower_minus by discriminate. rewrite pow2_succ. fold pn pd.
    rewrite E. exact Hi.
Qed.

Lemma round_half_even_near (x : Q) :
  x - (1 # 2) <= inject_Z (round_half_even x) /\ inject_Z (round_half_even x) <= x + (1 # 2).
Proof.
  unfold round_half_even.
  pose proof (Qfloor_le x) as F1. pose proof (Qlt_floor x) as F2.
  set (f := Qfloor x) in *.
  assert (F3 : inject_Z (f + 1) == inject_Z f + 1) by (rewrite inject_Z_plus; reflexivity).
  destruct (Qcompare (x - inject_Z f) (1 # 2)) eqn:C.
  - apply Qeq_alt in C. destruct (Z.even f); [lra | rewrite F3; lra].
  - apply Qlt_alt in C. lra.
  - apply Qgt_alt in C. rewrite F3. lra.
Qed.

Lemma round_half_even_ge (x : Q) (k : Z) : inject_Z k <= x -> (k <= round_half_even x)%Z.
Proof.
  intros H. assert (Hf : (k <= Qfloor x)%Z).
  { apply Qfloor_resp_le in H. now rewrite Qfloor_Z in H. }
  unfold round_half_even. destruct (Qcompare _ _); [destruct (Z.even _)| |]; lia.
Qed.

Lemma round_half_even_le (x : Q) (k : Z) : x <= inject_Z k -> (round_half_even x <= k)%Z.
Proof.
  intros H. pose proof (Qfloor_le x) as F1.
  assert (Hf : (Qfloor x <= k)%Z).
  { apply Qfloor_resp_le in H. now rewrite Qfloor_Z in H. }
  assert (Hs : inject_Z (Qfloor x) < x -> (Qfloor x + 1 <= k)%Z).
  { intros L. assert (L' : inject_Z (Qfloor x) < inject_Z k) by lra.
    rewrite <- Zlt_Qlt in L'. lia. }
  unfold round_half_even. destruct (Qcompare (x - inject_Z (Qfloor x)) (1 # 2)) eqn:C.
  - apply Qeq_alt in C. destruct (Z.even _); [lia|]. apply Hs. lra.
  - lia.
  - apply Qgt_alt in C. apply Hs. lra.
Qed.

(** The double of a positive rational, by its exponent. *)
Lemma double_pos (q : Q) : 0 < q ->
  double q == inject_Z (round_half_even (q / 2 ^ (exponent q - 52))) * 2 ^ (exponent q - 52).
Proof.
  intros H. unfold double. destruct q as [n d]. destruct n as [|p|p];
    [discriminate H | | discriminate H].
  cbn [Qnum]. apply Qred_correct.
Qed.

Lemma double_opp (q : Q) : double (- q) == - double q.
Proof.
  destruct q as [n d]. destruct n as [|p|p]; unfold double; cbn [Qnum Qopp Z.opp].
  - reflexivity.
  - rewrite !Qred_correct. reflexivity.
  - rewrite !Qred_correct.
    assert (E : - (Z.neg p # d) = (Z.pos p # d)) by reflexivity. rewrite E. ring.
Qed.

Lemma double_0 (q : Q) : q == 0 -> double q == 0.
Proof.
  intros H. destruct q as [n d]. unfold Qeq in H. cbn in H.
  assert (n = 0%Z) by lia. subst n. reflexivity.
Qed.

(** The relative error of a rounding is at most [2^-53]. *)
Lemma double_near_pos (q : Q) : 0 < q ->
  q - q * (1 # 9007199254740992) <= double q /\ double q <= q + q * (1 # 9007199254740992).
Proof.
  intros H. rewrite (double_pos q H).
  destruct (exponent_spec q H) as [E1 _].
  set (e := (exponent q - 52)%Z).
  assert (P : 2 ^ exponent q == 4503599627370496 * 2 ^ e).
  { unfold e. replace (exponent q) with ((exponent q - 52) + 52)%Z at 1 by lia.
    rewrite Qpower_plus by discriminate. change (2 ^ 52) with 4503599627370496. ring. }
  rewrite P in E1. pose proof (pow2_pos e) as Pe.
  destruct (round_half_even_near (q / 2 ^ e)) as [R1 R2].
  set (m := inject_Z (round_half_even (q / 2 ^ e))) in *.
  assert (Q1 : q / 2 ^ e * 2 ^ e == q) by (field; lra).
  set (t := q / 2 ^ e) in *. set (p := 2 ^ e) in *.
  split; nra.
Qed.

Lemma double_near (q : Q) : Qabs (double q - q) <= Qabs q * (1 # 9007199254740992).
Proof.
  destruct (Q_dec q 0) as [[L|G]|E].
  - assert (Hn : 0 < - q) by lra. destruct (double_near_pos (- q) Hn) as [A B].
    rewrite double_opp in A, B. rewrite (Qabs_neg q) by lra.
    apply Qabs_Qle_condition. split; lra.
  - destruct (double_near_pos q G) as [A B]. rewrite (Qabs_pos q) by lra.
    apply Qabs_Qle_condition. split; lra.
  - rewrite (double_0 q E), E. discriminate.
Qed.

(** Rounding keeps the sign. *)
Lemma double_nonneg (q : Q) : 0 <= q -> 0 <= double q.
Proof.
  intros H. destruct (Qle_lt_or_eq _ _ H) as [L|E].
  - destruct (double_near_pos q L) as [A _]. nra.
  - rewrite (double_0 q); [discriminate | symmetry; exact E].
Qed.

Lemma double_positive (q : Q) : 0 < q -> 0 < double q.
Proof. intros H. destruct (double_near_pos q H) as [A _]. nra. Qed.

Lemma double_nonpos (q : Q) : q <= 0 -> double q <= 0.
Proof.
  intros H. assert (Hn : 0 <= - q) by lra. pose proof (double_nonneg _ Hn) as P.
  rewrite double_opp in P. lra.
Qed.

(** Rounding does not cross an integer below [2^53]. *)
Lemma double_ge_int (q : Q) (k : Z) :
  0 < q -> (k <= 9007199254740992)%Z -> inject_Z k <= q -> inject_Z k <= double q.
Proof.
  intros Hq Hk H. rewrite (double_pos q Hq).
  destruct (exponent_spec q Hq) as [E1 E2].
  set (e := (exponent q - 52)%Z).
  pose proof (pow2_pos e) as Pe.
  assert (P : 2 ^ exponent q == 4503599627370496 * 2 ^ e).
  { unfold e. replace (exponent q) with ((exponent q - 52) + 52)%Z at 1 by lia.
    rewrite Qpower_plus by discriminate. change (2 ^ 52) with 4503599627370496. ring. }
  assert (Q1 : q / 2 ^ e * 2 ^ e == q) by (field; lra).
  destruct (Z_le_gt_dec e 0) as [L|G].
  - assert (N : 2 ^ (- e) == inject_Z (2 ^ (- e))) by (apply pow2_nat; lia).
    assert (I : / 2 ^ e == inject_Z (2 ^ (- e))) by (rewrite <- N; symmetry; apply Qpower_opp).
    assert (Hm : inject_Z (k * 2 ^ (- e)) <= q / 2 ^ e).
    { rewrite inject_Z_mult, <- I. unfold Qdiv.
      apply Qmult_le_compat_r; [exact H|]. apply Qlt_le_weak, Qinv_lt_0_compat. exact Pe. }
    apply round_half_even_ge in Hm. rewrite Zle_Qle, inject_Z_mult, <- I in Hm.
    set (m := inject_Z (round_half_even (q / 2 ^ e))) in *.
    assert (Hinv : 0 < / 2 ^ e) by (apply Qinv_lt_0_compat; exact Pe).
    assert (Q2 : / 2 ^ e * 2 ^ e == 1) by (field; lra).
    set (p := 2 ^ e) in *. set (ip := / p) in *. nra.
  - assert (Hm : inject_Z 4503599627370496 <= q / 2 ^ e).
    { apply Qle_shift_div_l; [exact Pe|]. rewrite <- P. exact E1. }
    apply round_half_even_ge in Hm. rewrite Zle_Qle in Hm.
    set (m := inject_Z (round_half_even (q / 2 ^ e))) in *.
    assert (P2 : 2 <= 2 ^ e).
    { change 2 with (2 ^ 1) at 1. apply pow2_le. lia. }
    assert (Hk' : inject_Z k <= 9007199254740992) by (rewrite Zle_Qle in Hk; exact Hk).
    change (inject_Z 4503599627370496) with 4503599627370496 in Hm.
    set (p := 2 ^ e) in *. nra.
Qed.

Lemma double_le_int (q : Q) (k : Z) :
  0 < q -> (k < 9007199254740992)%Z -> q <= inject_Z k -> double q <= inject_Z k.
Proof.
  intros Hq Hk H. rewrite (double_pos q Hq).
  destruct (exponent_spec q Hq) as [E1 E2].
  set (e := (exponent q - 52)%Z).
  pose proof (pow2_pos e) as Pe.
  assert (P : 2 ^ exponent q == 4503599627370496 * 2 ^ e).
  { unfold e. replace (exponent q) with ((exponent q - 52) + 52)%Z at 1 by lia.
    rewrite Qpower_plus by discriminate. change (2 ^ 52) with 4503599627370496. ring. }
  assert (Q1 : q / 2 ^ e * 2 ^ e == q) by (field; lra).
  assert (Hk' : inject_Z k < 9007199254740992) by (rewrite Zlt_Qlt in Hk; exact Hk).
  assert (L : (e <= 0)%Z).
  { destruct (Z_le_gt_dec e 0) as [L|G]; [exact L|]. exfalso.
    assert (P2 : 2 <= 2 ^ e) by (change 2 with (2 ^ 1) at 1; apply pow2_le; lia).
    set (p := 2 ^ e) in *. nra. }
  assert (N : 2 ^ (- e) == inject_Z (2 ^ (- e))) by (apply pow2_nat; lia).
  assert (I : / 2 ^ e == inject_Z (2 ^ (- e))) by (rewrite <- N; symmetry; apply Qpower_opp).
  assert (Hm : q / 2 ^ e <= inject_Z (k * 2 ^ (- e))).
  { rewrite inject_Z_mult, <- I. unfold Qdiv.
    apply Qmult_le_compat_r; [exact H|]. apply Qlt_le_weak, Qinv_lt_0_compat. exact Pe. }
  apply round_half_even_le in Hm. rewrite Zle_Qle, inject_Z_mult, <- I in Hm.
  set (m := inject_Z (round_half_even (q / 2 ^ e))) in *.
  assert (Hinv : 0 < / 2 ^ e) by (apply Qinv_lt_0_compat; exact Pe).
  assert (Q2 : / 2 ^ e * 2 ^ e == 1) by (field; lra).
  set (p := 2 ^ e) in *. set (ip := / p) in *. nra.
Qed.

End Doubles.

(** ** Column split: the result lies in the central band *)

Section CentralBand.

Import ColumnSplit.









End CentralBand.



(** ** De-duplication keeps the later run *)

Section DedupProofs.

Import Dedup.


Lemma key_eqb_eq a b : key_eqb a b = true <-> a = b.
Proof.
  destruct a as [a1 a2], b as [b1 b2]. unfold key_eqb. cbn [fst snd].
  rewrite andb_true_iff, !Z.eqb_eq. split.
  - intros [-> ->]. reflexivity.
  - intros E. injection E as -> ->. split; reflexivity.
Qed.

Lemma key_eqb_refl a : key_eqb a a = true.
Proof. apply key_eqb_eq. reflexivity. Qed.

Lemma key_eqb_neq a b : key_eqb a b = false <-> a <> b.
Proof.
  split.
  - intros H E. apply key_eqb_eq in E. congruence.
  - intros H. destruct (key_eqb a b) eqn:E; [|reflexivity].
    apply key_eqb_eq in E. contradiction.
Qed.

(** Blank items do not reach the loop body. *)
Lemma fold_step_visible mapped st :
  fold_left step mapped st = fold_left step (visible mapped) st.
Proof.
  revert st. induction mapped as [|it rest IH]; intros st; [reflexivity|].
  cbn [fold_left visible filter]. destruct (blank it) eqn:B; cbn [negb].
  - fold (visible rest). rewrite <- IH. unfold step. destruct st. now rewrite B.
  - fold (visible rest). cbn [fold_left]. apply IH.
Qed.

Lemma seen_get_app seen k n k' :
  seen_get (seen ++ [(k, n)]) k' =
  match seen_get seen k' with
  | Some i => Some i
  | None => if key_eqb k k' then Some n else None
  end.
Proof.
  induction seen as [|[k0 n0] rest IH]; cbn [seen_get app].
  - reflexivity.
  - destruct (key_eqb k0 k'); [reflexivity | exact IH].
Qed.

Lemma nth_error_assign {A : Type} (l : list A) i x n :
  nth_error (assign i x l) n =
  if Nat.eqb n i then (match nth_error l n with Some _ => Some x | None => None end)
  else nth_error l n.
Proof.
  unfold assign. revert i n. induction l as [|y l IH]; intros i n.
  - destruct i, n; cbn [Js.update_nth nth_error Nat.eqb]; try reflexivity.
    destruct (Nat.eqb n i); reflexivity.
  - destruct i as [|i]; destruct n as [|n]; cbn [Js.update_nth nth_error Nat.eqb];
      try reflexivity.
    apply IH.
Qed.


Lemma dedup_inv_init : dedup_inv [] ([], []).
Proof.
  constructor; cbn [fst snd].
  - intros k n H. discriminate.
  - intros n y H. destruct n; discriminate.
  - intros n y H. destruct n; discriminate.
  - intros z [].
Qed.

Lemma dedup_inv_step p st x :
  blank x = false -> dedup_inv p st -> dedup_inv (p ++ [x]) (step st x).
Proof.
  intros B [Hseen Hidx Hlast Hcov]. destruct st as [d seen]. cbn [fst snd] in *.
  unfold step. rewrite B.
  destruct (seen_get seen (posKey x)) as [i|] eqn:G.
  - (* the position was seen: the entry is overwritten *)
    destruct (Hseen _ _ G) as (y0 & Hy0 & Ky0).
    constructor; cbn [fst snd].
    + intros k n H. rewrite nth_error_assign.
      destruct (Nat.eqb_spec n i) as [->|Hn].
      * rewrite Hy0. exists x. split; [reflexivity|].
        destruct (Hseen _ _ H) as (y & Hy & Ky). congruence.
      * apply Hseen. exact H.
    + intros n y. rewrite nth_error_assign.
      destruct (Nat.eqb_spec n i) as [->|Hn].
      * rewrite Hy0. intros E. injection E as <-. exact G.
      * apply Hidx.
    + intros n y. rewrite nth_error_assign.
      destruct (Nat.eqb_spec n i) as [->|Hn].
      * rewrite Hy0. intros E. injection E as <-.
        exists p, []. split; [reflexivity|]. intros z [].
      * intros H. destruct (Hlast _ _ H) as (l1 & l2 & -> & Hl2).
        exists l1, (l2 ++ [x]). split; [now rewrite <- app_assoc|].
        intros z Hz. apply in_app_or in Hz as [Hz|[<-|[]]]; [now apply Hl2|].
        intros E. apply Hidx in H. rewrite <- E, G in H. congruence.
    + intros z Hz. apply in_app_or in Hz as [Hz|[<-|[]]].
      * destruct (Hcov _ Hz) as (n & y & Hn & Ky).
        destruct (Nat.eqb_spec n i) as [->|Hni].
        -- exists i, x. rewrite nth_error_assign, Nat.eqb_refl, Hy0.
           split; [reflexivity|]. congruence.
        -- exists n, y. rewrite nth_error_assign.
           destruct (Nat.eqb_spec n i); [contradiction|]. now split.
      * exists i, x. rewrite nth_error_assign, Nat.eqb_refl, Hy0. now split.
  - (* a new position: the item is pushed *)
    assert (Hfresh : forall n y, nth_error d n = Some y -> posKey y <> posKey x).
    { intros n y H E. apply Hidx in H. rewrite E, G in H. discriminate. }
    constructor; cbn [fst snd].
    + intros k n. rewrite seen_get_app.
      destruct (seen_get seen k) as [i|] eqn:G'.
      * intros E. injection E as <-. destruct (Hseen _ _ G') as (y & Hy & Ky).
        exists y. split; [|exact Ky]. rewrite nth_error_app1; [exact Hy|].
        apply nth_error_Some. congruence.
      * destruct (key_eqb (posKey x) k) eqn:K; [|discriminate].
        intros E. injection E as <-. apply key_eqb_eq in K.
        exists x. split; [|exact K].
        rewrite nth_error_app2 by apply Nat.le_refl. now rewrite Nat.sub_diag.
    + intros n y H. rewrite seen_get_app.
      destruct (Nat.lt_ge_cases n (List.length d)) as [Hn|Hn].
      * rewrite nth_error_app1 in H by exact Hn. now rewrite (Hidx _ _ H).
      * rewrite nth_error_app2 in H by exact Hn.
        destruct (n - List.length d)%nat as [|m] eqn:M; cbn [nth_error] in H;
          [|destruct m; discriminate].
        injection H as <-. rewrite G, key_eqb_refl. f_equal. lia.
    + intros n y H.
      destruct (Nat.lt_ge_cases n (List.length d)) as [Hn|Hn].
      * rewrite nth_error_app1 in H by exact Hn.
        destruct (Hlast _ _ H) as (l1 & l2 & -> & Hl2).
        exists l1, (l2 ++ [x]). split; [now rewrite <- app_assoc|].
        intros z Hz. apply in_app_or in Hz as [Hz|[<-|[]]]; [now apply Hl2|].
        intros E. now apply (Hfresh _ _ H).
      * rewrite nth_error_app2 in H by exact Hn.
        destruct (n - List.length d)%nat as [|m] eqn:M; cbn [nth_error] in H;
          [|destruct m; discriminate].
        injection H as <-. exists p, []. split; [reflexivity|]. intros z [].
    + intros z Hz. apply in_app_or in Hz as [Hz|[<-|[]]].
      * destruct (Hcov _ Hz) as (n & y & Hn & Ky). exists n, y. split; [|exact Ky].
        rewrite nth_error_app1; [exact Hn|]. apply nth_error_Some. congruence.
      * exists (List.length d), x. split; [|reflexivity].
        rewrite nth_error_app2 by apply Nat.le_refl. now rewrite Nat.sub_diag.
Qed.

Lemma dedup_inv_fold q :
  forall p st, Forall (fun it => blank it = false) q ->
    dedup_inv p st -> dedup_inv (p ++ q) (fold_left step q st).
Proof.
  induction q as [|x q IH]; intros p st Hq Hinv; cbn [fold_left].
  - now rewrite app_nil_r.
  - inversion Hq as [|? ? Bx Hq']; subst.
    replace (p ++ x :: q) with ((p ++ [x]) ++ q) by now rewrite <- app_assoc.
    apply IH; [exact Hq'|]. now apply dedup_inv_step.
Qed.

Lemma visible_all mapped : Forall (fun it => blank it = false) (visible mapped).
Proof.
  apply Forall_forall. intros x Hx. apply filter_In in Hx as [_ Hx].
  now apply negb_true_iff.
Qed.

Lemma dedupe_inv mapped :
  dedup_inv (visible mapped) (fold_left step mapped ([], [])).
Proof.
  rewrite fold_step_visible.
  apply (dedup_inv_fold (visible mapped) [] ([], [])); [apply visible_all | apply dedup_inv_init].
Qed.

(** The last element of a list that satisfies a test is unique. *)
Lemma last_occurrence_unique {A : Type} (P : A -> Prop) :
  forall (l1 l1' l2 l2' : list A) (x y : A),
    l1 ++ x :: l2 = l1' ++ y :: l2' ->
    P x -> P y ->
    (forall z, In z l2 -> ~ P z) -> (forall z, In z l2' -> ~ P z) ->
    l1 = l1' /\ x = y /\ l2 = l2'.
Proof.
  induction l1 as [|a l1 IH]; intros l1' l2 l2' x y E Px Py H2 H2'.
  - destruct l1' as [|a' l1']; cbn [app] in E.
    + injection E as -> ->. repeat split.
    + injection E as -> ->. exfalso. apply (H2 y); [|exact Py].
      apply in_or_app. right. left. reflexivity.
  - destruct l1' as [|a' l1']; cbn [app] in E.
    + injection E as -> <-. exfalso. apply (H2' x); [|exact Px].
      apply in_or_app. right. left. reflexivity.
    + injection E as -> E. destruct (IH _ _ _ _ _ E Px Py H2 H2') as (-> & -> & ->).
      repeat split.
Qed.

Lemma filter_none {A : Type} (f : A -> bool) (d : list A) :
  (forall y, In y d -> f y = false) -> filter f d = [].
Proof.
  induction d as [|a d IH]; intros H; [reflexivity|].
  cbn [filter]. rewrite (H a) by (left; reflexivity).
  apply IH. intros y Hy. apply H. right. exact Hy.
Qed.

(** An entry that is alone at its index is alone in the filter. *)
Lemma filter_single {A : Type} (f : A -> bool) :
  forall (d : list A) (n : nat) (x : A),
    nth_error d n = Some x -> f x = true ->
    (forall m y, nth_error d m = Some y -> f y = true -> m = n) ->
    filter f d = [x].
Proof.
  induction d as [|a d IH]; intros n x Hn Fx Huniq.
  - destruct n; discriminate.
  - destruct n as [|n]; cbn [nth_error] in Hn.
    + injection Hn as ->. cbn [filter]. rewrite Fx. f_equal.
      apply filter_none. intros y Hy.
      destruct (f y) eqn:Fy; [|reflexivity].
      apply In_nth_error in Hy as [m Hm].
      specialize (Huniq (Datatypes.S m) y Hm Fy). discriminate.
    + cbn [filter]. destruct (f a) eqn:Fa.
      * specialize (Huniq 0%nat a eq_refl Fa). discriminate.
      * apply (IH n x Hn Fx). intros m y Hm Fy.
        specialize (Huniq (Datatypes.S m) y Hm Fy). lia.
Qed.

(** Of the visible runs at one rounded position, exactly the last one is
    in the result. *)
Lemma dedupe_last mapped l1 x l2 :
  mapped = l1 ++ x :: l2 ->
  blank x = false ->
  (forall y, In y l2 -> blank y = false -> posKey y <> posKey x) ->
  filter (fun y => key_eqb (posKey y) (posKey x)) (dedupe mapped) = [x].
Proof.
  intros -> B Hl2. unfold dedupe.
  destruct (dedupe_inv (l1 ++ x :: l2)) as [Hseen Hidx Hlast Hcov].
  set (st := fold_left step (l1 ++ x :: l2) ([], [])) in *.
  assert (Hvis : visible (l1 ++ x :: l2) = visible l1 ++ x :: visible l2).
  { unfold visible. rewrite filter_app. cbn [filter]. now rewrite B. }
  rewrite Hvis in *.
  destruct (Hcov x) as (n & y & Hn & Ky).
  { apply in_or_app. right. left. reflexivity. }
  destruct (Hlast _ _ Hn) as (l1' & l2' & E & Hl2').
  assert (y = x) as ->.
  { destruct (last_occurrence_unique (fun z => posKey z = posKey x)
                (visible l1) l1' (visible l2) l2' x y E eq_refl Ky) as (_ & <- & _).
    - intros z Hz. apply filter_In in Hz as [Hz Bz]. apply Hl2; [exact Hz|].
      now apply negb_true_iff.
    - intros z Hz. rewrite <- Ky. now apply Hl2'.
    - reflexivity. }
  apply (filter_single _ _ n x Hn (key_eqb_refl _)).
  intros m z Hm Kz. apply key_eqb_eq in Kz.
  apply Hidx in Hm. apply Hidx in Hn. rewrite Kz in Hm. congruence.
Qed.

(** A list with an element that passes a test splits at the last one. *)
Lemma split_at_last {A : Type} (f : A -> bool) :
  forall l : list A, existsb f l = true ->
    exists l1 x l2, l = l1 ++ x :: l2 /\ f x = true /\ forallb (fun y => negb (f y)) l2 = true.
Proof.
  induction l as [|a l IH]; cbn [existsb]; intros H; [discriminate|].
  destruct (existsb f l) eqn:E.
  - destruct (IH eq_refl) as (l1 & x & l2 & -> & Fx & F2).
    exists (a :: l1), x, l2. now repeat split.
  - rewrite orb_false_r in H. exists [], a, l. repeat split; [exact H|].
    apply forallb_forall. intros y Hy. apply negb_true_iff.
    destruct (f y) eqn:Fy; [|reflexivity].
    assert (existsb f l = true) by (apply existsb_exists; now exists y). congruence.
Qed.

End DedupProofs.

(** C3. For any two runs with visible text whose screen positions round to
    the same (left, top) pixel, the earlier at index [i] and the later at
    index [j]: after the de-duplication pass of [groupIntoLines] exactly one
    run remains at that position; it is the last visible run of the
    extraction list at that position, so it comes from an index [m >= j] and
    never from the earlier index [i]; when no run after [j] lies at the
    position, the run kept is the later of the two. *)
Theorem dedupe_keeps_later :
  forall (mapped : list Item) (i j : nat) (a b : Item),
    (i < j)%nat ->
    nth_error mapped i = Some a -> nth_error mapped j = Some b ->
    blank a = false -> blank b = false ->
    Dedup.posKey a = Dedup.posKey b ->
    exists (m : nat) (x : Item),
      (j <= m)%nat /\ nth_error mapped m = Some x /\ blank x = false /\
      Dedup.posKey x = Dedup.posKey a /\
      (forall m' y, (m < m')%nat -> nth_error mapped m' = Some y -> blank y = false ->
                    Dedup.posKey y <> Dedup.posKey a) /\
      filter (fun y => Dedup.key_eqb (Dedup.posKey y) (Dedup.posKey a)) (Dedup.dedupe mapped)
        = [x] /\
      ((forall m' y, (j < m')%nat -> nth_error mapped m' = Some y -> blank y = false ->
                     Dedup.posKey y <> Dedup.posKey a) -> x = b).
Proof.
  intros mapped i j a b Hij Ha Hb Ba Bb K.
  set (f := fun y : Item => (negb (blank y) && Dedup.key_eqb (Dedup.posKey y) (Dedup.posKey a))%bool).
  assert (Hex : existsb f mapped = true).
  { apply existsb_exists. exists b. split; [eapply nth_error_In; exact Hb|].
    unfold f. rewrite Bb, <- K. cbn [negb andb]. apply key_eqb_refl. }
  destruct (split_at_last f mapped Hex) as (l1 & x & l2 & E & Fx & F2).
  unfold f in Fx. apply andb_true_iff in Fx as [Bx Kx].
  apply negb_true_iff in Bx. apply key_eqb_eq in Kx.
  assert (Hl2 : forall y, In y l2 -> blank y = false -> Dedup.posKey y <> Dedup.posKey a).
  { intros y Hy By Ky. rewrite forallb_forall in F2. specialize (F2 y Hy).
    unfold f in F2. rewrite By, Ky, key_eqb_refl in F2. discriminate. }
  assert (Hafter : forall m' y, (List.length l1 < m')%nat -> nth_error mapped m' = Some y ->
                                blank y = false -> Dedup.posKey y <> Dedup.posKey a).
  { intros m' y Hm Hy By. apply Hl2; [|exact By].
    rewrite E in Hy. rewrite nth_error_app2 in Hy by lia.
    destruct (m' - List.length l1)%nat as [|r] eqn:R; [lia|]. cbn [nth_error] in Hy.
    eapply nth_error_In. exact Hy. }
  assert (Hx : nth_error mapped (List.length l1) = Some x).
  { rewrite E, nth_error_app2 by apply Nat.le_refl. now rewrite Nat.sub_diag. }
  assert (Hjm : (j <= List.length l1)%nat).
  { destruct (Nat.le_gt_cases j (List.length l1)) as [H|H]; [exact H|].
    exfalso. apply (Hafter j b H Hb Bb). now symmetry. }
  exists (List.length l1), x. repeat split; try assumption.
  - rewrite <- Kx. apply (dedupe_last mapped l1 x l2 E Bx).
    intros y Hy By. rewrite Kx. now apply Hl2.
  - intros Hnone. destruct (Nat.eq_dec (List.length l1) j) as [Ej|Ej].
    + rewrite Ej in Hx. congruence.
    + exfalso. apply (Hnone (List.length l1) x); [lia | exact Hx | exact Bx | exact Kx].
Qed.

(** ** Column split on the two-column page *)

Section HistogramSpec.

Import ColumnSplit Fixture.

Lemma Qfloor_le_iff (x : Q) (k : Z) : (Qfloor x <= k)%Z <-> x < inject_Z (k + 1).
Proof.
  split.
  - intros H. eapply Qlt_le_trans; [apply Qlt_floor|]. rewrite <- Zle_Qle. lia.
  - intros H. destruct (Z.le_gt_cases (Qfloor x) k) as [L|G]; [exact L|]. exfalso.
    assert (inject_Z (k + 1) <= x).
    { eapply Qle_trans; [|apply Qfloor_le]. rewrite <- Zle_Qle. lia. }
    apply (Qlt_not_le _ _ H). assumption.
Qed.

Lemma Qfloor_ge_iff (x : Q) (k : Z) : (k <= Qfloor x)%Z <-> inject_Z k <= x.
Proof.
  split.
  - intros H. eapply Qle_trans; [|apply Qfloor_le]. now rewrite <- Zle_Qle.
  - intros H. rewrite <- (Qfloor_Z k). now apply Qfloor_resp_le.
Qed.

Lemma bucketWidth_pos pageWidth : 0 < pageWidth -> 0 < bucketWidth pageWidth.
Proof.
  intros Hp. unfold bucketWidth, NUM_BUCKETS, Js.div. apply double_positive.
  apply Qlt_shift_div_l; [reflexivity|]. lra.
Qed.

Lemma update_nth_length {A : Type} (f : A -> A) :
  forall (l : list A) (j : nat), List.length (Js.update_nth j f l) = List.length l.
Proof.
  induction l as [|x l IH]; intros [|j]; cbn [Js.update_nth List.length]; auto.
Qed.

Lemma nth_update_nth {A : Type} (f : A -> A) (d : A) :
  forall (l : list A) (j i : nat),
    (i < List.length l)%nat ->
    nth i (Js.update_nth j f l) d = if Nat.eqb i j then f (nth i l d) else nth i l d.
Proof.
  induction l as [|x l IH]; intros j i Hi; cbn [List.length] in Hi; [lia|].
  destruct j as [|j], i as [|i]; cbn [Js.update_nth nth Nat.eqb]; try reflexivity.
  apply IH. lia.
Qed.

Lemma for_steps_length {A : Type} (f : A -> A) :
  forall (n : nat) (lo : Z) (sets : list A),
    List.length (Js.for_steps n lo (fun b s => Js.update_nth (Z.to_nat b) f s) sets)
    = List.length sets.
Proof.
  induction n as [|n IH]; intros lo sets; cbn [Js.for_steps]; [reflexivity|].
  rewrite IH. apply update_nth_length.
Qed.

(** A run of updates touches exactly the indices of the range. *)
Lemma nth_for_steps {A : Type} (f : A -> A) (d : A) :
  forall (n : nat) (lo : Z) (sets : list A) (i : nat),
    (0 <= lo)%Z -> (i < List.length sets)%nat ->
    nth i (Js.for_steps n lo (fun b s => Js.update_nth (Z.to_nat b) f s) sets) d =
    if ((lo <=? Z.of_nat i) && (Z.of_nat i <? lo + Z.of_nat n))%Z%bool
    then f (nth i sets d) else nth i sets d.
Proof.
  induction n as [|n IH]; intros lo sets i Hlo Hi.
  - cbn [Js.for_steps].
    destruct (lo <=? Z.of_nat i)%Z eqn:E1; destruct (Z.of_nat i <? lo + Z.of_nat 0)%Z eqn:E2;
      cbn [andb]; try reflexivity.
    apply Z.leb_le in E1. apply Z.ltb_lt in E2. lia.
  - cbn [Js.for_steps]. rewrite IH by (try lia; now rewrite update_nth_length).
    rewrite nth_update_nth by exact Hi.
    destruct (Nat.eqb_spec i (Z.to_nat lo)) as [E|E].
    + replace ((lo + 1 <=? Z.of_nat i)%Z) with false by (symmetry; apply Z.leb_gt; lia).
      replace ((lo <=? Z.of_nat i)%Z) with true by (symmetry; apply Z.leb_le; lia).
      replace ((Z.of_nat i <? lo + Z.of_nat (S n))%Z) with true
        by (symmetry; apply Z.ltb_lt; lia).
      reflexivity.
    + destruct (lo + 1 <=? Z.of_nat i)%Z eqn:E1.
      * apply Z.leb_le in E1.
        replace ((lo <=? Z.of_nat i)%Z) with true by (symmetry; apply Z.leb_le; lia).
        replace (lo + 1 + Z.of_nat n)%Z with (lo + Z.of_nat (S n))%Z by lia.
        reflexivity.
      * apply Z.leb_gt in E1.
        replace ((lo <=? Z.of_nat i)%Z) with false by (symmetry; apply Z.leb_gt; lia).
        reflexivity.
Qed.

Lemma addItem_length bw sets it : List.length (addItem bw sets it) = List.length sets.
Proof.
  unfold addItem. destruct (blank it); [reflexivity|]. apply for_steps_length.
Qed.

(** What one item does to the set of bucket [i]. *)
Lemma nth_addItem bw sets it (i : nat) :
  (i < List.length sets)%nat ->
  nth i (addItem bw sets it) [] =
  if (negb (blank it) && ((startBucket bw it <=? Z.of_nat i)%Z &&
                          (Z.of_nat i <=? endBucket bw it)%Z))%bool
  then Js.set_add (yBand it) (nth i sets []) else nth i sets [].
Proof.
  intros Hi. unfold addItem. destruct (blank it); cbn [negb andb]; [reflexivity|].
  unfold Js.for_range. rewrite nth_for_steps; [|unfold startBucket; lia | exact Hi].
  destruct (startBucket bw it <=? Z.of_nat i)%Z eqn:E1; cbn [andb]; [|reflexivity].
  destruct (Z.of_nat i <=? endBucket bw it)%Z eqn:E2.
  - apply Z.leb_le in E1, E2.
    replace (Z.of_nat i <? _)%Z with true by (symmetry; apply Z.ltb_lt; lia). reflexivity.
  - apply Z.leb_gt in E2.
    replace (Z.of_nat i <? _)%Z with false by (symmetry; apply Z.ltb_ge; lia). reflexivity.
Qed.

Lemma nth_bucket_fold bw (cover : Item -> bool) (i : nat) :
  (forall it, (negb (blank it) && ((startBucket bw it <=? Z.of_nat i)%Z &&
                                   (Z.of_nat i <=? endBucket bw it)%Z))%bool = cover it) ->
  forall mapped sets,
    (i < List.length sets)%nat ->
    nth i (fold_left (addItem bw) mapped sets) [] =
    fold_left (fun s y => Js.set_add y s) (map yBand (filter cover mapped)) (nth i sets []).
Proof.
  intros Hc. induction mapped as [|it rest IH]; intros sets Hi; cbn [fold_left filter map].
  - reflexivity.
  - rewrite IH by now rewrite addItem_length.
    rewrite nth_addItem by exact Hi. rewrite Hc.
    destruct (cover it); reflexivity.
Qed.

Lemma set_add_spec y s :
  NoDup s -> NoDup (Js.set_add y s) /\ (forall z, In z (Js.set_add y s) <-> z = y \/ In z s).
Proof.
  intros Hs. unfold Js.set_add. destruct (existsb (Z.eqb y) s) eqn:E.
  - split; [exact Hs|]. intros z. split; [auto|]. intros [->|H]; [|exact H].
    apply existsb_exists in E as (x & Hx & Exy). apply Z.eqb_eq in Exy. now subst.
  - split.
    + apply NoDup_app; [exact Hs | constructor; [intros [] | constructor] |].
      intros a Ha [<-|[]].
      assert (existsb (Z.eqb y) s = true)
        by (apply existsb_exists; exists y; split; [exact Ha | apply Z.eqb_refl]).
      congruence.
    + intros z. rewrite in_app_iff. cbn [In]. intuition.
Qed.

Lemma set_fold_spec ys :
  forall acc, NoDup acc ->
    NoDup (fold_left (fun s y => Js.set_add y s) ys acc) /\
    (forall z, In z (fold_left (fun s y => Js.set_add y s) ys acc) <-> In z acc \/ In z ys).
Proof.
  induction ys as [|y ys IH]; intros acc Hacc; cbn [fold_left].
  - split; [exact Hacc|]. intros z. cbn [In]. intuition.
  - destruct (set_add_spec y acc Hacc) as [Hnd Hin].
    destruct (IH _ Hnd) as [Hnd' Hin']. split; [exact Hnd'|].
    intros z. rewrite Hin', Hin. cbn [In]. intuition.
Qed.

Lemma set_fold_length ys :
  List.length (fold_left (fun s y => Js.set_add y s) ys []) = List.length (nodup Z.eq_dec ys).
Proof.
  destruct (set_fold_spec ys [] (NoDup_nil _)) as [Hnd Hin].
  apply Permutation_length. apply NoDup_Permutation; [exact Hnd | apply NoDup_nodup |].
  intros z. rewrite Hin, nodup_In. cbn [In]. intuition.
Qed.

Lemma bucketYSets_length mapped pageWidth :
  List.length (bucketYSets mapped pageWidth) = 100%nat.
Proof.
  unfold bucketYSets.
  assert (H : forall sets, List.length (fold_left (addItem (bucketWidth pageWidth)) mapped sets)
                           = List.length sets).
  { induction mapped as [|it rest IH]; intros sets; cbn [fold_left]; [reflexivity|].
    now rewrite IH, addItem_length. }
  rewrite H. apply repeat_length.
Qed.

Lemma histogram_length mapped pageWidth :
  List.length (histogram mapped pageWidth) = 100%nat.
Proof. unfold histogram. rewrite length_map. apply bucketYSets_length. Qed.

(** The histogram counts, for each bucket, the distinct vertical bands
    with a visible run over the bucket. *)
Lemma histogram_spec mapped pageWidth (b : Z) :
  0 < pageWidth -> (0 <= b <= 99)%Z ->
  hist_at (histogram mapped pageWidth) b = bandCount mapped pageWidth b.
Proof.
  intros Hp Hb. unfold hist_at, histogram, bandCount, bandsOver.
  assert (Hi : (Z.to_nat b < 100)%nat) by lia.
  change 0%Z with ((fun s : list Z => Z.of_nat (List.length s)) []).
  rewrite map_nth. f_equal. unfold bucketYSets.
  rewrite (nth_bucket_fold (bucketWidth pageWidth) (overBucket pageWidth b) (Z.to_nat b)).
  - rewrite nth_repeat. apply set_fold_length.
  - intros it. rewrite Z2Nat.id by lia. reflexivity.
  - now rewrite repeat_length.
Qed.

End HistogramSpec.

Section TwoColumns.

Import ColumnSplit Fixture.

Variable hist : list Z.
Variable thr : Z.

Lemma gapStep_dense b g :
  gapStart g = (-1)%Z -> (thr < hist_at hist b)%Z -> gapStep hist thr b g = g.
Proof.
  intros Hg Hd. unfold gapStep.
  replace (hist_at hist b <=? thr)%Z with false by (symmetry; apply Z.leb_gt; exact Hd).
  rewrite Hg. reflexivity.
Qed.

Lemma gapStep_inside b g :
  gapStart g <> (-1)%Z -> (hist_at hist b <= thr)%Z -> gapStep hist thr b g = g.
Proof.
  intros Hg Hd. unfold gapStep.
  replace (hist_at hist b <=? thr)%Z with true by (symmetry; apply Z.leb_le; exact Hd).
  replace (gapStart g =? -1)%Z with false by (symmetry; apply Z.eqb_neq; exact Hg).
  reflexivity.
Qed.

Lemma steps_dense n : forall b g,
  gapStart g = (-1)%Z ->
  (forall b', (b <= b' < b + Z.of_nat n)%Z -> (thr < hist_at hist b')%Z) ->
  Js.for_steps n b (gapStep hist thr) g = g.
Proof.
  induction n as [|n IH]; intros b g Hg Hd; cbn [Js.for_steps]; [reflexivity|].
  rewrite gapStep_dense by (try exact Hg; apply Hd; lia).
  apply IH; [exact Hg|]. intros b' Hb'. apply Hd. lia.
Qed.

Lemma steps_inside n : forall b g,
  gapStart g <> (-1)%Z ->
  (forall b', (b <= b' < b + Z.of_nat n)%Z -> (hist_at hist b' <= thr)%Z) ->
  Js.for_steps n b (gapStep hist thr) g = g.
Proof.
  induction n as [|n IH]; intros b g Hg Hd; cbn [Js.for_steps]; [reflexivity|].
  rewrite gapStep_inside by (try exact Hg; apply Hd; lia).
  apply IH; [exact Hg|]. intros b' Hb'. apply Hd. lia.
Qed.

Lemma for_steps_app {S : Type} (body : Z -> S -> S) n : forall m b s,
  Js.for_steps (n + m) b body s =
  Js.for_steps m (b + Z.of_nat n) body (Js.for_steps n b body s).
Proof.
  induction n as [|n IH]; intros m b s.
  - cbn [Js.for_steps Nat.add Z.of_nat]. now rewrite Z.add_0_r.
  - cbn [Js.for_steps Nat.add]. rewrite IH. f_equal. lia.
Qed.

(** Dense columns up to bucket 46 and from bucket 60, nothing between:
    the search reports the gap from bucket 47 to bucket 60. *)
Lemma searchGap_two_columns :
  (forall b, (30 <= b <= 46)%Z -> (thr < hist_at hist b)%Z) ->
  (forall b, (47 <= b <= 59)%Z -> (hist_at hist b <= thr)%Z) ->
  (forall b, (60 <= b <= 70)%Z -> (thr < hist_at hist b)%Z) ->
  searchGap hist thr = mkGap 47 60 13 (-1).
Proof.
  intros Hl Hg Hr. unfold searchGap, Js.for_range.
  change (Z.to_nat (maxB - minB + 1)) with (17 + (1 + (12 + (1 + 10))))%nat.
  unfold minB.
  assert (E1 : Js.for_steps 17 30 (gapStep hist thr) gap0 = gap0).
  { apply steps_dense; [reflexivity|]. intros b' Hb'. apply Hl. lia. }
  assert (E2 : Js.for_steps 1 47 (gapStep hist thr) gap0 = mkGap (-1) (-1) 0 47).
  { cbn [Js.for_steps]. unfold gapStep.
    replace (hist_at hist 47 <=? thr)%Z with true
      by (symmetry; apply Z.leb_le; apply Hg; lia).
    reflexivity. }
  assert (E3 : Js.for_steps 12 48 (gapStep hist thr) (mkGap (-1) (-1) 0 47)
               = mkGap (-1) (-1) 0 47).
  { apply steps_inside; [cbn [gapStart]; lia|]. intros b' Hb'. apply Hg. lia. }
  assert (E4 : Js.for_steps 1 60 (gapStep hist thr) (mkGap (-1) (-1) 0 47)
               = mkGap 47 60 13 (-1)).
  { cbn [Js.for_steps]. unfold gapStep.
    replace (hist_at hist 60 <=? thr)%Z with false
      by (symmetry; apply Z.leb_gt; apply Hr; lia).
    reflexivity. }
  assert (E5 : Js.for_steps 10 61 (gapStep hist thr) (mkGap 47 60 13 (-1))
               = mkGap 47 60 13 (-1)).
  { apply steps_dense; [reflexivity|]. intros b' Hb'. apply Hr. lia. }
  rewrite (for_steps_app _ 17). change (30 + Z.of_nat 17)%Z with 47%Z. rewrite E1.
  rewrite (for_steps_app _ 1). change (47 + Z.of_nat 1)%Z with 48%Z. rewrite E2.
  rewrite (for_steps_app _ 12). change (48 + Z.of_nat 12)%Z with 60%Z. rewrite E3.
  rewrite (for_steps_app _ 1). change (60 + Z.of_nat 1)%Z with 61%Z. rewrite E4.
  rewrite E5. reflexivity.
Qed.

(** Dense buckets all over the central band: no gap is found. *)
Lemma searchGap_uniform :
  (forall b, (30 <= b <= 70)%Z -> (thr < hist_at hist b)%Z) ->
  searchGap hist thr = gap0.
Proof.
  intros Hd. unfold searchGap, Js.for_range.
  rewrite steps_dense; [reflexivity | reflexivity |].
  intros b' Hb'. apply Hd. unfold minB, maxB in Hb'. lia.
Qed.

End TwoColumns.

Section ColumnFixture.

Import ColumnSplit Fixture.

Lemma fold_max_ge l : forall a x, (x = a \/ In x l) -> (x <= fold_left Z.max l a)%Z.
Proof.
  induction l as [|y l IH]; intros a x H; cbn [fold_left].
  - destruct H as [->|[]]. lia.
  - destruct H as [->|[->|H]].
    + etransitivity; [|apply IH; left; reflexivity]. lia.
    + etransitivity; [|apply IH; left; reflexivity]. lia.
    + apply IH. right. exact H.
Qed.

Lemma fold_max_in l : forall a, fold_left Z.max l a = a \/ In (fold_left Z.max l a) l.
Proof.
  induction l as [|y l IH]; intros a; cbn [fold_left]; [left; reflexivity|].
  destruct (IH (Z.max a y)) as [E|H].
  - rewrite E. destruct (Z.max_spec a y) as [[_ ->]|[_ ->]]; [right; left|left]; reflexivity.
  - right. right. exact H.
Qed.

Lemma fold_add_ge l : forall a, (forall x, In x l -> (0 <= x)%Z) -> (a <= fold_left Z.add l a)%Z.
Proof.
  induction l as [|y l IH]; intros a H; cbn [fold_left]; [lia|].
  etransitivity; [|apply IH; intros x Hx; apply H; right; exact Hx].
  specialize (H y (or_introl eq_refl)). lia.
Qed.

Lemma histogram_nonneg mapped pageWidth x :
  In x (histogram mapped pageWidth) -> (0 <= x)%Z.
Proof. unfold histogram. intros H. apply in_map_iff in H as (s & <- & _). lia. Qed.

Lemma hist_at_in mapped pageWidth b :
  (0 <= b <= 99)%Z ->
  In (hist_at (histogram mapped pageWidth) b) (histogram mapped pageWidth).
Proof.
  intros Hb. unfold hist_at. apply nth_In. rewrite histogram_length. lia.
Qed.

Lemma in_histogram mapped pageWidth x :
  In x (histogram mapped pageWidth) ->
  exists b, (0 <= b <= 99)%Z /\ hist_at (histogram mapped pageWidth) b = x.
Proof.
  intros H. apply (In_nth _ _ 0%Z) in H as (i & Hi & <-).
  rewrite histogram_length in Hi. exists (Z.of_nat i). split; [lia|].
  unfold hist_at. now rewrite Nat2Z.id.
Qed.

(** The sum of the buckets before [b] counts bucket 0; the sum of the
    buckets from [b] on counts bucket [b]. *)
Lemma leftContent_ge mapped pageWidth b :
  (0 < b)%Z ->
  (hist_at (histogram mapped pageWidth) 0
   <= Js.sum_list (Js.slice_to b (histogram mapped pageWidth)))%Z.
Proof.
  intros Hb. pose proof (histogram_length mapped pageWidth) as L.
  pose proof (histogram_nonneg mapped pageWidth) as N.
  unfold hist_at, Js.sum_list, Js.slice_to.
  destruct (histogram mapped pageWidth) as [|h rest]; [discriminate|].
  destruct (Z.to_nat b) as [|n] eqn:E; [lia|].
  cbn [firstn fold_left nth Z.to_nat Z.add]. apply fold_add_ge.
  intros x Hx. apply N. right. rewrite <- (firstn_skipn n rest). apply in_or_app. left. exact Hx.
Qed.

Lemma rightContent_ge mapped pageWidth b :
  (0 <= b <= 99)%Z ->
  (hist_at (histogram mapped pageWidth) b
   <= Js.sum_list (Js.slice_from b (histogram mapped pageWidth)))%Z.
Proof.
  intros Hb. pose proof (histogram_length mapped pageWidth) as L.
  pose proof (histogram_nonneg mapped pageWidth) as N.
  unfold hist_at, Js.sum_list, Js.slice_from.
  assert (Hn : (Z.to_nat b < List.length (histogram mapped pageWidth))%nat) by lia.
  revert Hn N. generalize (Z.to_nat b). generalize (histogram mapped pageWidth).
  induction l as [|h rest IH]; intros n Hn N; cbn [List.length] in Hn; [lia|].
  destruct n as [|n]; cbn [skipn nth fold_left Z.add].
  - apply fold_add_ge. intros x Hx. apply N. right. exact Hx.
  - apply IH; [lia|]. intros x Hx. apply N. right. exact Hx.
Qed.

Lemma bucketWidth_600 : bucketWidth 600 = 6.
Proof. vm_compute. reflexivity. Qed.

(** No band over a bucket that no visible run meets. *)
Lemma bandCount_empty mapped pageWidth b :
  (forall it, In it mapped -> overBucket pageWidth b it = false) ->
  bandCount mapped pageWidth b = 0%Z.
Proof.
  intros H. unfold bandCount, bandsOver. now rewrite (filter_none _ _ H).
Qed.

(** A bucket counts at most one band for each run of the page. *)
Lemma bandCount_le_length mapped pageWidth b :
  (bandCount mapped pageWidth b <= Z.of_nat (List.length mapped))%Z.
Proof.
  unfold bandCount, bandsOver. apply inj_le.
  set (ys := map yBand (filter (overBucket pageWidth b) mapped)).
  transitivity (List.length ys).
  - apply NoDup_incl_length; [apply NoDup_nodup | intros z Hz; now apply nodup_In in Hz].
  - unfold ys. rewrite length_map. apply filter_length_le.
Qed.

(** The rounded sum and the rounded quotient of a run that ends at or
    before x = 280 stay below bucket 47. *)
Lemma endBucket_left_column it :
  within 0 280 it -> (endBucket (bucketWidth 600) it <= 46)%Z.
Proof.
  intros [_ Hr]. rewrite bucketWidth_600. unfold endBucket, Js.Math_floor, Js.div, Js.add.
  set (s := left it + width it) in *.
  assert (Hs : Js.double s <= 280).
  { destruct (Qlt_le_dec 0 s) as [P|N].
    - apply (double_le_int s 280 P); [reflexivity | exact Hr].
    - pose proof (double_nonpos s N). lra. }
  set (ds := Js.double s) in *.
  assert (Hq : ds / 6 <= (280 # 6)).
  { unfold Qdiv. change (/ 6) with (1 # 6). lra. }
  assert (Hd : Js.double (ds / 6) < 47).
  { destruct (Qlt_le_dec 0 (ds / 6)) as [P|N].
    - destruct (double_near_pos (ds / 6) P) as [_ U]. lra.
    - pose proof (double_nonpos (ds / 6) N). lra. }
  apply (Qfloor_le_iff (Js.double (ds / 6)) 46) in Hd. lia.
Qed.

(** The rounded quotient of a run that starts at or after x = 360 is at
    least 60. *)
Lemma startBucket_right_column it :
  within 360 600 it -> (60 <= startBucket (bucketWidth 600) it)%Z.
Proof.
  intros [Hl _]. rewrite bucketWidth_600. unfold startBucket, Js.Math_floor, Js.div.
  assert (Hq : inject_Z 60 <= left it / 6).
  { change (inject_Z 60) with 60. unfold Qdiv. change (/ 6) with (1 # 6). lra. }
  assert (P : 0 < left it / 6) by (change (inject_Z 60) with 60 in Hq; lra).
  pose proof (double_ge_int (left it / 6) 60 P ltac:(discriminate) Hq) as H.
  apply Qfloor_ge_iff in H. lia.
Qed.

Lemma gap_buckets_empty mapped b :
  (forall it, In it mapped -> blank it = false -> within 0 280 it \/ within 360 600 it) ->
  (47 <= b <= 59)%Z -> bandCount mapped 600 b = 0%Z.
Proof.
  intros Hcols Hb. apply bandCount_empty. intros it Hit. unfold overBucket.
  destruct (blank it) eqn:B; cbn [negb andb]; [reflexivity|].
  destruct (Hcols it Hit B) as [H|H].
  - (* a run of the left column ends before bucket 47 starts *)
    pose proof (endBucket_left_column it H).
    replace (b <=? endBucket (bucketWidth 600) it)%Z with false
      by (symmetry; apply Z.leb_gt; lia).
    apply andb_false_r.
  - (* a run of the right column starts after bucket 59 ends *)
    pose proof (startBucket_right_column it H).
    replace (startBucket (bucketWidth 600) it <=? b)%Z with false
      by (symmetry; apply Z.leb_gt; lia).
    reflexivity.
Qed.

(** A visible run that lies over the left edge of a bucket is counted
    there, whatever the roundings. *)
Lemma left_edge_counted it b :
  blank it = false -> (0 <= b <= 99)%Z ->
  left it <= inject_Z (6 * b) -> inject_Z (6 * b) <= left it + width it ->
  overBucket 600 b it = true.
Proof.
  intros B Hb Hl Hr. unfold overBucket. rewrite B, bucketWidth_600. cbn [negb andb].
  assert (E6 : inject_Z (6 * b) == 6 * inject_Z b) by (rewrite inject_Z_mult; reflexivity).
  assert (Hb0 : 0 <= inject_Z b) by (change 0 with (inject_Z 0); rewrite <- Zle_Qle; lia).
  apply andb_true_iff. split; apply Z.leb_le.
  - unfold startBucket, Js.Math_floor, Js.div. apply Z.max_lub; [lia|].
    apply Qfloor_le_iff.
    assert (Hq : left it / 6 <= inject_Z b).
    { unfold Qdiv. change (/ 6) with (1 # 6). lra. }
    assert (Hd : Js.double (left it / 6) <= inject_Z b).
    { destruct (Qlt_le_dec 0 (left it / 6)) as [P|N].
      - apply (double_le_int _ b P); [lia | exact Hq].
      - pose proof (double_nonpos _ N). lra. }
    rewrite inject_Z_plus. change (inject_Z 1) with 1. lra.
  - unfold endBucket, Js.Math_floor, Js.div, Js.add, NUM_BUCKETS. apply Z.min_glb; [lia|].
    apply Qfloor_ge_iff.
    set (s := left it + width it) in *.
    destruct (Z.eq_dec b 0) as [->|Hn].
    + change (inject_Z 0) with 0.
      apply double_nonneg. unfold Qdiv. change (/ 6) with (1 # 6).
      assert (0 <= Js.double s) by (apply double_nonneg; change (inject_Z (6 * 0)) with 0 in Hr; exact Hr).
      lra.
    + assert (Hb1 : 1 <= inject_Z b) by (change 1 with (inject_Z 1); rewrite <- Zle_Qle; lia).
      assert (Ps : 0 < s) by lra.
      pose proof (double_ge_int s (6 * b) Ps ltac:(lia) Hr) as Hs.
      assert (Hq : inject_Z b <= Js.double s / 6).
      { unfold Qdiv. change (/ 6) with (1 # 6). lra. }
      apply double_ge_int; [lra | lia | exact Hq].
Qed.

Lemma nodup_length_incl (l l' : list Z) :
  incl l l' ->
  (List.length (nodup Z.eq_dec l) <= List.length (nodup Z.eq_dec l'))%nat.
Proof.
  intros H. apply NoDup_incl_length; [apply NoDup_nodup|].
  intros z Hz. apply nodup_In. apply H. now apply nodup_In in Hz.
Qed.

(** The bands over the left edge of a bucket are among those counted over
    the bucket, which are among the bands of the page. *)
Lemma edgeBands_le_bandCount mapped b :
  (0 <= b <= 99)%Z -> (edgeBands mapped b <= bandCount mapped 600 b)%Z.
Proof.
  intros Hb. unfold edgeBands, bandCount, bandsOver. apply inj_le. apply nodup_length_incl.
  intros z Hz. apply in_map_iff in Hz as (it & <- & Hit). apply in_map.
  apply filter_In in Hit as [Hin He]. apply filter_In. split; [exact Hin|].
  unfold overEdge in He. apply andb_true_iff in He as [He Hr].
  apply andb_true_iff in He as [Hv Hl]. apply negb_true_iff in Hv.
  apply Qle_bool_iff in Hl, Hr. now apply left_edge_counted.
Qed.

Lemma bandCount_le_pageBands mapped pageWidth b :
  (bandCount mapped pageWidth b <= pageBands mapped)%Z.
Proof.
  unfold pageBands, bandCount, bandsOver. apply inj_le. apply nodup_length_incl.
  intros z Hz. apply in_map_iff in Hz as (it & <- & Hit). apply in_map.
  apply filter_In in Hit as [Hin Ho]. apply filter_In. split; [exact Hin|].
  unfold overBucket in Ho. now apply andb_true_iff in Ho as [Hv _].
Qed.

(** Over a page of runs that span it, every bucket counts every band. *)
Lemma bandCount_spanning mapped b :
  (forall it, In it mapped -> blank it = false -> left it <= 0 /\ 600 <= left it + width it) ->
  (0 <= b <= 99)%Z -> bandCount mapped 600 b = pageBands mapped.
Proof.
  intros Hspan Hb. unfold bandCount, bandsOver, pageBands, visible. do 4 f_equal.
  apply filter_ext_in. intros it Hin.
  destruct (blank it) eqn:B; [unfold overBucket; now rewrite B|].
  destruct (Hspan it Hin B) as [Hl Hr]. cbn [negb].
  assert (H0 : 0 <= inject_Z (6 * b)) by (change 0 with (inject_Z 0); rewrite <- Zle_Qle; lia).
  assert (H6 : inject_Z (6 * b) <= 600)
    by (change 600 with (inject_Z 600); rewrite <- Zle_Qle; lia).
  apply left_edge_counted; [exact B | exact Hb | lra | lra].
Qed.

(** The literal [0.15] denotes a double just below 15/100. *)
Lemma literal_015 : 0 < Js.double (15 # 100) /\ Js.double (15 # 100) <= (15 # 100).
Proof. split; [reflexivity | unfold Qle; vm_compute; discriminate]. Qed.

(** The rounded product [maxCount * 0.15] is at most 15% of [maxCount]
    and a rounding error. *)
Lemma threshold_product (m : Z) :
  (0 < m)%Z ->
  Js.mul (inject_Z m) (Js.double (15 # 100))
  <= inject_Z m * (15 # 100) * (1 + (1 # 9007199254740992)).
Proof.
  intros Hm. destruct literal_015 as [D0 D1]. unfold Js.mul.
  set (d := Js.double (15 # 100)) in *.
  assert (M : 1 <= inject_Z m) by (change 1 with (inject_Z 1); rewrite <- Zle_Qle; lia).
  assert (P : 0 < inject_Z m * d) by (apply Qmult_lt_0_compat; lra).
  destruct (double_near_pos _ P) as [_ U].
  assert (Q1 : inject_Z m * d <= inject_Z m * (15 # 100))
    by (apply Qmult_le_l; lra).
  lra.
Qed.

(** A bucket with more than 15% of the bands of the densest bucket is
    above the threshold of empty buckets. *)
Lemma above_threshold (m c : Z) :
  (5 <= c)%Z -> (c < 4294967296)%Z -> (15 * m < 100 * c)%Z -> (emptyThreshold m < c)%Z.
Proof.
  intros H5 Hc H. unfold emptyThreshold, Js.Math_floor. apply Z.max_lub_lt; [lia|].
  assert (L : (Qfloor (Js.mul (inject_Z m) (Js.double (15 # 100))) <= c - 1)%Z); [|lia].
  apply Qfloor_le_iff. replace (c - 1 + 1)%Z with c by lia.
  assert (C5 : 5 <= inject_Z c) by (change 5 with (inject_Z 5); rewrite <- Zle_Qle; lia).
  destruct (Z_lt_le_dec 0 m) as [Hm|Hm].
  - pose proof (threshold_product m Hm) as T.
    assert (R : inject_Z (15 * m) <= inject_Z (100 * c - 1)) by (rewrite <- Zle_Qle; lia).
    unfold Z.sub in R. rewrite inject_Z_plus, !inject_Z_mult in R.
    change (inject_Z 15) with 15 in R. change (inject_Z 100) with 100 in R.
    change (inject_Z (- (1))) with (- (1)) in R.
    assert (B : inject_Z c <= 4294967296)
      by (change 4294967296 with (inject_Z 4294967296); rewrite <- Zle_Qle; lia).
    lra.
  - assert (N : inject_Z m * Js.double (15 # 100) <= 0).
    { destruct literal_015 as [D0 _].
      assert (M : inject_Z m <= 0) by (change 0 with (inject_Z 0); rewrite <- Zle_Qle; lia).
      setoid_replace (inject_Z m * Js.double (15 # 100))
        with (- ((- inject_Z m) * Js.double (15 # 100))) by ring.
      assert (0 <= (- inject_Z m) * Js.double (15 # 100))
        by (apply Qmult_le_0_compat; lra).
      lra. }
    pose proof (double_nonpos _ N) as D. unfold Js.mul. lra.
Qed.

(** Three bands or more are above the threshold they set themselves. *)
Lemma above_own_threshold (n : Z) : (3 <= n)%Z -> (emptyThreshold n < n)%Z.
Proof.
  intros Hn. unfold emptyThreshold, Js.Math_floor. apply Z.max_lub_lt; [lia|].
  assert (L : (Qfloor (Js.mul (inject_Z n) (Js.double (15 # 100))) <= n - 1)%Z); [|lia].
  apply Qfloor_le_iff. replace (n - 1 + 1)%Z with n by lia.
  pose proof (threshold_product n ltac:(lia)) as T.
  assert (N3 : 3 <= inject_Z n) by (change 3 with (inject_Z 3); rewrite <- Zle_Qle; lia).
  lra.
Qed.

End ColumnFixture.

Section ColumnPages.

Import ColumnSplit Fixture.

(** C4, as amended.  On a page of width 600 (an array of fewer than 2^32
  runs) whose visible runs lie within x in [0,280] or within [360,600],
  with at least 5 distinct vertical bands counted over every bucket of
  either column, each of these buckets holding more than 15% of the bands
  of any bucket of the page, [detectColumnSplit] returns the split
  X = 321, inside [300,340]; on runs with the same number [n >= 3] of
  bands over every bucket of the page it returns [null].  The bands
  counted over a bucket include those of every visible run that lies over
  the left edge of the bucket; so the split is 321 when, for some
  [c >= 5], runs of at least [c] distinct bands lie over the left edge of
  every bucket of either column and the page has fewer than [100 c / 15]
  distinct bands in all; and the result is [null] when every visible run
  spans the page from x = 0 to x = 600 and there are 3 bands or more. *)
Theorem detectColumnSplit_two_columns :
(forall mapped : list Item,
   (Z.of_nat (List.length mapped) < 4294967296)%Z ->
   twoColumnPage mapped ->
   (forall b b', (0 <= b <= 46 \/ 60 <= b <= 99)%Z -> (0 <= b' <= 99)%Z ->
                 (15 * bandCount mapped 600 b' < 100 * bandCount mapped 600 b)%Z) ->
   exists x, detectColumnSplit mapped 600 = Some x /\
             x == 321 /\ 300 <= x /\ x <= 340) /\
(forall (mapped : list Item) (n : Z),
   (3 <= n)%Z -> uniformPage mapped n -> detectColumnSplit mapped 600 = None) /\
(forall (mapped : list Item) (it : Item) (b : Z),
   In it mapped -> blank it = false -> (0 <= b <= 99)%Z ->
   left it <= inject_Z (6 * b) -> inject_Z (6 * b) <= left it + width it ->
   In (yBand it) (bandsOver mapped 600 b)) /\
(forall (mapped : list Item) (c : Z),
   (Z.of_nat (List.length mapped) < 4294967296)%Z ->
   (forall it, In it mapped -> blank it = false -> within 0 280 it \/ within 360 600 it) ->
   (5 <= c)%Z ->
   (forall b, (0 <= b <= 46 \/ 60 <= b <= 99)%Z -> (c <= edgeBands mapped b)%Z) ->
   (15 * pageBands mapped < 100 * c)%Z ->
   exists x, detectColumnSplit mapped 600 = Some x /\
             x == 321 /\ 300 <= x /\ x <= 340) /\
(forall mapped : list Item,
   (forall it, In it mapped -> blank it = false ->
               left it <= 0 /\ 600 <= left it + width it) ->
   (3 <= pageBands mapped)%Z ->
   detectColumnSplit mapped 600 = None).
Proof.
assert (Hp : 0 < 600) by reflexivity.
assert (Hcounted : forall mapped : list Item,
   (Z.of_nat (List.length mapped) < 4294967296)%Z ->
   twoColumnPage mapped ->
   (forall b b', (0 <= b <= 46 \/ 60 <= b <= 99)%Z -> (0 <= b' <= 99)%Z ->
                 (15 * bandCount mapped 600 b' < 100 * bandCount mapped 600 b)%Z) ->
   exists x, detectColumnSplit mapped 600 = Some x /\
             x == 321 /\ 300 <= x /\ x <= 340).
{ intros mapped Hlen [Hcols Hdense] Hratio.
  pose proof (fun b Hb => histogram_spec mapped 600 b Hp Hb) as Hspec.
  unfold detectColumnSplit.
  set (hist := histogram mapped 600) in *.
  set (maxCount := Js.max_list hist).
  assert (Hmax5 : (5 <= maxCount)%Z).
  { etransitivity; [apply (Hdense 0%Z); lia|]. rewrite <- Hspec by lia.
    apply fold_max_ge. right. apply hist_at_in. lia. }
  assert (Hthr : forall b, (0 <= b <= 46 \/ 60 <= b <= 99)%Z ->
                           (emptyThreshold maxCount < hist_at hist b)%Z).
  { intros b Hb. rewrite Hspec by lia. apply above_threshold; [now apply Hdense | |].
    - pose proof (bandCount_le_length mapped 600 b). lia.
    - destruct (fold_max_in hist 0%Z) as [E|Hin];
        [change (fold_left Z.max hist 0%Z) with maxCount in E; lia
        |change (fold_left Z.max hist 0%Z) with maxCount in Hin].
      apply in_histogram in Hin as (b' & Hb' & E). fold hist in E.
      rewrite <- E, Hspec by lia. now apply Hratio. }
  assert (Hgap : forall b, (47 <= b <= 59)%Z -> (hist_at hist b <= emptyThreshold maxCount)%Z).
  { intros b Hb. rewrite Hspec by lia. rewrite (gap_buckets_empty mapped b Hcols Hb).
    unfold emptyThreshold. lia. }
  replace (maxCount =? 0)%Z with false by (symmetry; apply Z.eqb_neq; lia).
  rewrite (searchGap_two_columns hist (emptyThreshold maxCount));
    [| intros; apply Hthr; lia | exact Hgap | intros; apply Hthr; lia].
  cbn [bestWidth bestStart bestEnd Z.ltb Z.compare Pos.compare Pos.compare_cont].
  assert (HL : (5 <= Js.sum_list (Js.slice_to 47 hist))%Z).
  { etransitivity; [|apply leftContent_ge; lia].
    unfold hist. rewrite Hspec by lia. apply Hdense. lia. }
  assert (HR : (5 <= Js.sum_list (Js.slice_from 60 hist))%Z).
  { etransitivity; [|apply rightContent_ge; lia].
    unfold hist. rewrite Hspec by lia. apply Hdense. lia. }
  replace (Js.sum_list (Js.slice_to 47 hist) <? 5)%Z with false
    by (symmetry; apply Z.ltb_ge; exact HL).
  replace (Js.sum_list (Js.slice_from 60 hist) <? 5)%Z with false
    by (symmetry; apply Z.ltb_ge; exact HR).
  cbn [orb]. eexists. split; [reflexivity|].
  repeat split; unfold Qle; vm_compute; congruence. }
assert (Huniform : forall (mapped : list Item) (n : Z),
   (3 <= n)%Z -> uniformPage mapped n -> detectColumnSplit mapped 600 = None).
{ intros mapped n Hn Huni.
  pose proof (fun b Hb => histogram_spec mapped 600 b Hp Hb) as Hspec.
  unfold detectColumnSplit.
  set (hist := histogram mapped 600) in *.
  set (maxCount := Js.max_list hist).
  assert (Hmax : maxCount = n).
  { destruct (fold_max_in hist 0%Z) as [E|Hin];
      [change (fold_left Z.max hist 0%Z) with maxCount in E
      |change (fold_left Z.max hist 0%Z) with maxCount in Hin].
    - assert (n <= maxCount)%Z; [|lia].
      rewrite <- (Huni 0%Z) by lia. rewrite <- Hspec by lia.
      apply fold_max_ge. right. apply hist_at_in. lia.
    - apply in_histogram in Hin as (b' & Hb' & E). fold hist in E.
      rewrite <- E, Hspec by lia. now apply Huni. }
  replace (maxCount =? 0)%Z with false by (symmetry; apply Z.eqb_neq; lia).
  rewrite searchGap_uniform; [reflexivity|].
  intros b Hb. rewrite Hspec, Huni, Hmax by lia.
  now apply above_own_threshold. }
split; [exact Hcounted|]. split; [exact Huniform|]. split; [|split].
- intros mapped it b Hin B Hb Hl Hr. unfold bandsOver.
  apply nodup_In. apply in_map. apply filter_In. split; [exact Hin|].
  now apply left_edge_counted.
- intros mapped c Hlen Hcols Hc Hedge Hall.
  assert (Hcount : forall b, (0 <= b <= 46 \/ 60 <= b <= 99)%Z ->
                             (c <= bandCount mapped 600 b)%Z).
  { intros b Hb. etransitivity; [apply (Hedge b Hb)|].
    apply edgeBands_le_bandCount. lia. }
  apply (Hcounted mapped Hlen).
  + split; [exact Hcols|]. intros b Hb. specialize (Hcount b Hb). lia.
  + intros b b' Hb Hb'. specialize (Hcount b Hb).
    pose proof (bandCount_le_pageBands mapped 600 b'). lia.
- intros mapped Hspan Hn. apply (Huniform mapped (pageBands mapped) Hn).
  intros b Hb. now apply bandCount_spanning.
Qed.

Lemma in_zrange lo n b : (lo <= b < lo + Z.of_nat n)%Z -> In b (zrange lo n).
Proof.
intros H. unfold zrange. apply in_map_iff. exists (Z.to_nat (b - lo)). split; [lia|].
apply in_seq. lia.
Qed.

Lemma withinb_spec lo hi it : withinb lo hi it = true -> within lo hi it.
Proof.
unfold withinb, within. rewrite andb_true_iff, !Qle_bool_iff. tauto.
Qed.

Lemma twoColumnPageb_spec mapped : twoColumnPageb mapped = true -> twoColumnPage mapped.
Proof.
unfold twoColumnPageb. rewrite andb_true_iff, !forallb_forall. intros [H1 H2]. split.
- intros it Hit B. specialize (H1 it Hit). rewrite B in H1. cbn [orb] in H1.
  apply orb_true_iff in H1 as [H1|H1]; [left|right]; now apply withinb_spec.
- intros b Hb. apply Z.leb_le. apply H2. apply in_or_app.
  destruct Hb as [Hb|Hb]; [left|right]; apply in_zrange; lia.
Qed.

Lemma forall_buckets (P : Z -> bool) :
forallb P (zrange 0 100) = true -> forall b, (0 <= b <= 99)%Z -> P b = true.
Proof.
intros H b Hb. rewrite forallb_forall in H. apply H. apply in_zrange. lia.
Qed.

(** C4 fails as stated: a page that meets its conditions, with 5 bands in
  the left column and 34 in the right one, is split at X = 270, outside
  [300,340]: the buckets of the left column count as empty, because 5 is
  not more than 15% of 34 rounded down, and the gap found runs from
  bucket 30 to bucket 60.  And two bands of runs that span the whole page
  are split at X = 300: no bucket holds more than the least threshold of
  2 bands, so the whole central band is one gap. *)
Lemma detectColumnSplit_uneven_columns :
(twoColumnPage unevenPage /\
 (forall b, (0 <= b <= 46 \/ 60 <= b <= 99)%Z -> (5 <= edgeBands unevenPage b)%Z) /\
 detectColumnSplit unevenPage 600 = Some 270 /\
 ~ (300 <= 270)) /\
(uniformPage twoBandPage 2 /\
 (forall it, In it twoBandPage -> left it <= 0 /\ 600 <= left it + width it) /\
 detectColumnSplit twoBandPage 600 = Some 300).
Proof.
split.
- split; [apply twoColumnPageb_spec; vm_compute; reflexivity|].
  split; [|split; [vm_compute; reflexivity|]].
  + intros b Hb. apply Z.leb_le.
    assert (H : (negb ((b <=? 46)%Z || (60 <=? b)%Z)
                 || (5 <=? edgeBands unevenPage b)%Z)%bool = true).
    { apply (forall_buckets
               (fun b => (negb ((b <=? 46)%Z || (60 <=? b)%Z)
                          || (5 <=? edgeBands unevenPage b)%Z)%bool));
        [vm_compute; reflexivity | lia]. }
    replace ((b <=? 46)%Z || (60 <=? b)%Z)%bool with true in H; [exact H|].
    symmetry. apply orb_true_iff.
    destruct Hb as [Hb|Hb]; [left | right]; apply Z.leb_le; lia.
  + intros H. vm_compute in H. apply H. reflexivity.
- split; [|split; [|vm_compute; reflexivity]].
  + intros b Hb. apply Z.eqb_eq.
    apply (forall_buckets (fun b => (bandCount twoBandPage 600 b =? 2)%Z));
      [vm_compute; reflexivity | exact Hb].
  + intros it [<-|[<-|[]]]; split; unfold Qle; vm_compute; discriminate.
Qed.

(** Two columns of five bands each are split at 321, by the bands the
  function counts and by the bands over the edges of the buckets; five
  bands of runs across the whole page are not split. *)
Lemma detectColumnSplit_two_columns_witness :
(exists x, detectColumnSplit evenPage 600 = Some x /\ x == 321 /\ 300 <= x /\ x <= 340) /\
detectColumnSplit fullWidthPage 600 = None /\
(pageBands evenPage = 5%Z /\
 exists x, detectColumnSplit evenPage 600 = Some x /\ x == 321 /\ 300 <= x /\ x <= 340) /\
detectColumnSplit evenPage 600 = Some 321.
Proof.
assert (Hpage : twoColumnPage evenPage)
  by (apply twoColumnPageb_spec; vm_compute; reflexivity).
split; [|split; [|split; [split|]]].
- apply (proj1 detectColumnSplit_two_columns evenPage); [vm_compute; reflexivity | exact Hpage |].
  intros b b' Hb Hb'.
  assert (H5 : (5 <= bandCount evenPage 600 b)%Z) by (apply (proj2 Hpage); exact Hb).
  assert (H5' : (bandCount evenPage 600 b' <= 5)%Z).
  { apply Z.leb_le.
    apply (forall_buckets (fun b => (bandCount evenPage 600 b <=? 5)%Z));
      [vm_compute; reflexivity | exact Hb']. }
  lia.
- apply (proj1 (proj2 detectColumnSplit_two_columns) fullWidthPage 5%Z); [lia|].
  intros b Hb. apply Z.eqb_eq.
  apply (forall_buckets (fun b => (bandCount fullWidthPage 600 b =? 5)%Z));
    [vm_compute; reflexivity | exact Hb].
- vm_compute. reflexivity.
- apply (proj1 (proj2 (proj2 (proj2 detectColumnSplit_two_columns))) evenPage 5%Z);
    [vm_compute; reflexivity | exact (proj1 Hpage) | lia | | vm_compute; reflexivity].
  intros b Hb. apply Z.leb_le.
  assert (H : (negb ((b <=? 46)%Z || (60 <=? b)%Z) || (5 <=? edgeBands evenPage b)%Z)%bool
              = true).
  { apply (forall_buckets
             (fun b => (negb ((b <=? 46)%Z || (60 <=? b)%Z)
                        || (5 <=? edgeBands evenPage b)%Z)%bool));
      [vm_compute; reflexivity | lia]. }
  replace ((b <=? 46)%Z || (60 <=? b)%Z)%bool with true in H; [exact H|].
  symmetry. apply orb_true_iff.
  destruct Hb as [Hb|Hb]; [left | right]; apply Z.leb_le; lia.
- vm_compute. reflexivity.
Defined.

End ColumnPages.

(** Two runs at the same rounded position: the later one is what remains. *)
Lemma dedupe_keeps_later_witness :
  exists (m : nat) (x : Item),
    (1 <= m)%nat /\
    nth_error [Fixture.run (102 # 10) 1 30; Fixture.run (104 # 10) 1 40] m = Some x /\
    blank x = false /\
    Dedup.posKey x = Dedup.posKey (Fixture.run (102 # 10) 1 30) /\
    (forall m' y, (m < m')%nat ->
       nth_error [Fixture.run (102 # 10) 1 30; Fixture.run (104 # 10) 1 40] m' = Some y ->
       blank y = false -> Dedup.posKey y <> Dedup.posKey (Fixture.run (102 # 10) 1 30)) /\
    filter (fun y => Dedup.key_eqb (Dedup.posKey y)
                       (Dedup.posKey (Fixture.run (102 # 10) 1 30)))
      (Dedup.dedupe [Fixture.run (102 # 10) 1 30; Fixture.run (104 # 10) 1 40]) = [x] /\
    ((forall m' y, (1 < m')%nat ->
        nth_error [Fixture.run (102 # 10) 1 30; Fixture.run (104 # 10) 1 40] m' = Some y ->
        blank y = false -> Dedup.posKey y <> Dedup.posKey (Fixture.run (102 # 10) 1 30)) ->
     x = Fixture.run (104 # 10) 1 40).
Proof.
  apply (dedupe_keeps_later
           [Fixture.run (102 # 10) 1 30; Fixture.run (104 # 10) 1 40] 0 1
           (Fixture.run (102 # 10) 1 30) (Fixture.run (104 # 10) 1 40)).
  - lia.
  - reflexivity.
  - reflexivity.
  - reflexivity.
  - reflexivity.
  - reflexivity.
Defined.

(** ** Line reconstruction after the de-duplication pass *)

Section LineReconstruction.

Import Layout.
Local Open Scope Q_scope.

Lemma insert_In {A : Type} (top left : A -> Q) (x y : A) (l : list A) :
  In y (insert top left x l) <-> y = x \/ In y l.
Proof.
  induction l as [|z l IH]; cbn [insert].
  - cbn [In]. intuition.
  - destruct (before top left x z); cbn [In] in *; [intuition|].
    rewrite IH. intuition.
Qed.

Lemma sort_In {A : Type} (top left : A -> Q) (y : A) (l : list A) :
  In y (sort top left l) <-> In y l.
Proof.
  unfold sort.
  assert (G : forall acc, In y (fold_left (fun sorted x => insert top left x sorted) l acc)
                          <-> In y acc \/ In y l).
  { induction l as [|x l IH]; intros acc; cbn [fold_left In]; [intuition|].
    rewrite IH, insert_In. intuition. }
  rewrite G. cbn [In]. intuition.
Qed.

Lemma concat_snoc {A : Type} (l : list (list A)) (x : list A) :
  List.concat (l ++ [x]) = (List.concat l ++ x)%list.
Proof. rewrite concat_app. cbn [List.concat]. now rewrite app_nil_r. Qed.

Lemma groupStep_collected st item y :
  In y (collected (groupStep st item)) <->
  In y (collected st) \/ (y = item /\ blank item = false).
Proof.
  destruct st as [done cur]. unfold groupStep.
  destruct (blank item) eqn:B.
  { intuition. discriminate. }
  destruct cur as [cur|].
  - destruct (Qlt_le_dec 3 _).
    + unfold collected; cbn [fst snd g_items]. rewrite map_app. cbn [map].
      rewrite concat_snoc,  !in_app_iff. cbn [In]. intuition.
    + destruct (Qlt_le_dec _ _).
      * unfold collected; cbn [fst snd g_items]. rewrite map_app. cbn [map].
        rewrite concat_snoc,  !in_app_iff. cbn [In]. intuition.
      * unfold collected; cbn [fst snd g_items].
        rewrite !in_app_iff. cbn [In]. intuition.
  - unfold collected; cbn [fst snd g_items]. rewrite !in_app_iff. cbn [In]. intuition.
Qed.

Lemma groupLoop_collected l : forall st y,
  In y (collected (fold_left groupStep l st)) <->
  In y (collected st) \/ (In y l /\ blank y = false).
Proof.
  induction l as [|x l IH]; intros st y; cbn [fold_left In]; [intuition|].
  rewrite IH, groupStep_collected. intuition; subst; intuition.
Qed.

Lemma groupColumn_items allLines colItems y :
  In y (List.concat (map g_items (groupColumn allLines colItems))) <->
  In y (List.concat (map g_items allLines)) \/ (In y colItems /\ blank y = false).
Proof.
  unfold groupColumn.
  pose proof (groupLoop_collected (sort top left colItems) (allLines, None) y) as H.
  destruct (fold_left groupStep _ _) as [done cur].
  unfold collected in H; cbn [fst snd] in H. rewrite app_nil_r in H.
  rewrite sort_In in H. rewrite <- H.
  destruct cur as [cur|].
  - rewrite map_app. cbn [map]. rewrite concat_snoc. reflexivity.
  - now rewrite app_nil_r.
Qed.

Lemma groupColumns_items cols : forall allLines y,
  In y (List.concat (map g_items (fold_left groupColumn cols allLines))) <->
  In y (List.concat (map g_items allLines)) \/ (In y (List.concat cols) /\ blank y = false).
Proof.
  induction cols as [|c cols IH]; intros allLines y; cbn [fold_left List.concat In]; [intuition|].
  rewrite IH, groupColumn_items, in_app_iff. intuition.
Qed.

Lemma columns_items splitX deduped y :
  blank y = false -> (In y (List.concat (columns splitX deduped)) <-> In y deduped).
Proof.
  intros B. destruct splitX as [x|]; cbn [columns].
  2:{ cbn [List.concat]. now rewrite app_nil_r. }
  set (l := filter _ deduped). set (r := filter _ deduped).
  assert (E : In y (List.concat (filter (fun c : list Item => match c with [] => false | _ => true end) [l; r]))
              <-> In y l \/ In y r).
  { cbn [filter]. destruct l, r; cbn [List.concat In]; rewrite ?in_app_iff; cbn [In]; intuition. }
  rewrite E. unfold l, r. rewrite !filter_In, B. cbn [negb andb].
  destruct (Qlt_le_dec (left y + width y / 2) x); intuition.
Qed.

Lemma dedupe_visible mapped y :
  In y (Dedup.dedupe mapped) -> In y mapped /\ blank y = false.
Proof.
  intros H. apply In_nth_error in H as [n Hn].
  destruct (dedupe_inv mapped) as [_ _ Hlast _].
  destruct (Hlast n y Hn) as (l1 & l2 & E & _).
  assert (Hy : In y (visible mapped)).
  { rewrite E. apply in_or_app. right. now left. }
  apply filter_In in Hy as [Hy By]. split; [exact Hy|]. now apply negb_true_iff.
Qed.

(** The lines of [groupIntoLines] hold the runs that the de-duplication
    pass kept, and no other: a run dropped there is in no line. *)
Lemma groupIntoLines_items items viewport styles y :
  In y (List.concat (map Session.l_pdfItems (groupIntoLines items viewport styles))) <->
  In y (Dedup.dedupe (map (mapItem viewport styles) items)).
Proof.
  unfold groupIntoLines. destruct items as [|i0 items]; [cbn; intuition|].
  set (mapped := map _ (i0 :: items)).
  cbv zeta.
  assert (E : forall ls, map Session.l_pdfItems (map (toLine viewport) ls) = map g_items ls).
  { intros ls. rewrite map_map. reflexivity. }
  rewrite E.
  assert (S : forall ls, In y (List.concat (map g_items (sort g_top g_left ls)))
                         <-> In y (List.concat (map g_items ls))).
  { intros ls. rewrite !in_concat. split; intros (l & Hl & Hy); exists l; split; try exact Hy.
    - apply in_map_iff in Hl as (g & <- & Hg). apply in_map. now apply sort_In in Hg.
    - apply in_map_iff in Hl as (g & <- & Hg). apply in_map. now apply sort_In. }
  rewrite S, groupColumns_items. cbn [map List.concat In].
  split.
  - intros [[]|[H B]]. now apply columns_items in H.
  - intros H. right. destruct (dedupe_visible _ _ H) as [_ B]. split; [|exact B].
    now apply columns_items.
Qed.

Lemma Forall_snoc {A : Type} (P : A -> Prop) (l : list A) (x : A) :
  Forall P l -> P x -> Forall P (l ++ [x]).
Proof. intros Hl Hx. apply Forall_app. split; [exact Hl | now constructor]. Qed.

Lemma groupStep_filled st item : lines_filled st -> lines_filled (groupStep st item).
Proof.
  destruct st as [done cur]. unfold groupStep, lines_filled. cbn [fst snd].
  intros [Hd Hc]. destruct (blank item); [now split|].
  destruct cur as [cur|]; cbn [fst snd].
  - destruct (Qlt_le_dec 3 _); cbn [fst snd g_items].
    + split; [now apply Forall_snoc | discriminate].
    + destruct (Qlt_le_dec _ _); cbn [fst snd g_items].
      * split; [now apply Forall_snoc | discriminate].
      * split; [exact Hd|]. intros E. now apply app_eq_nil in E as [_ E].
  - split; [exact Hd | discriminate].
Qed.

Lemma groupColumn_filled allLines colItems :
  Forall (fun g => g_items g <> []) allLines ->
  Forall (fun g => g_items g <> []) (groupColumn allLines colItems).
Proof.
  intros H. unfold groupColumn.
  assert (G : forall l st, lines_filled st -> lines_filled (fold_left groupStep l st)).
  { induction l as [|x l IH]; intros st Hst; [exact Hst|].
    cbn [fold_left]. apply IH. now apply groupStep_filled. }
  specialize (G (sort top left colItems) (allLines, None)).
  destruct (fold_left groupStep _ _) as [done cur].
  destruct G as [Hd Hc]; [now split|]. cbn [fst snd] in *.
  destruct cur as [cur|]; [now apply Forall_snoc | exact Hd].
Qed.

(** No line of [groupIntoLines] is empty: the minima and maxima of
    [toLine] are taken over at least one run. *)
Lemma groupIntoLines_filled items viewport styles line :
  In line (groupIntoLines items viewport styles) -> Session.l_pdfItems line <> [].
Proof.
  unfold groupIntoLines. destruct items as [|i0 items]; [intros []|].
  cbv zeta. intros H. apply in_map_iff in H as (g & <- & Hg).
  apply sort_In in Hg. cbn [toLine Session.l_pdfItems].
  revert g Hg. apply Forall_forall.
  generalize (columns (ColumnSplit.detectColumnSplit
                (Dedup.dedupe (map (mapItem viewport styles) (i0 :: items))) (pv_width viewport))
              (Dedup.dedupe (map (mapItem viewport styles) (i0 :: items)))).
  intros cols.
  assert (G : forall acc, Forall (fun g => g_items g <> []) acc ->
                          Forall (fun g => g_items g <> []) (fold_left groupColumn cols acc)).
  { induction cols as [|c cols IH]; intros acc Hacc; [exact Hacc|].
    cbn [fold_left]. apply IH. now apply groupColumn_filled. }
  apply G. constructor.
Qed.

(** On a page saved after an edit the covered run is in no line: the line
    at its position reads the replacement. *)
Lemma groupIntoLines_edited_page :
  map Session.l_text (groupIntoLines Scenario.editedPage Scenario.pageViewport [])
  = ["Goodbye"; "World"]%string.
Proof. vm_compute. reflexivity. Qed.

End LineReconstruction.

(** ** The foreground sampler *)

Section SamplerProofs.

Import Sampler.

Local Open Scope string_scope.

(** A colour channel printed by [toHex] is read back by [parseInt]. *)
Lemma parseInt16_hex2 (c : Z) : (0 <= c < 256)%Z -> Str.parseInt16 (Str.hex2 c) = Some c.
Proof.
  intros Hc.
  assert (H : forallb (fun n => match Str.parseInt16 (Str.hex2 (Z.of_nat n)) with
                                | Some v => (v =? Z.of_nat n)%Z
                                | None => false
                                end) (seq 0 256) = true) by (vm_compute; reflexivity).
  rewrite forallb_forall in H. specialize (H (Z.to_nat c)).
  rewrite Z2Nat.id in H by lia.
  destruct (Str.parseInt16 (Str.hex2 c)) as [v|]; [|discriminate H; apply in_seq; lia].
  f_equal. apply Z.eqb_eq. apply H. apply in_seq. lia.
Qed.

(** The three channels of a printed colour are where [bgLum] slices. *)
Lemma toHex_slices (r g b : Z) :
  Str.slice 1 3 (toHex (r, g, b)) = Str.hex2 r /\
  Str.slice 3 5 (toHex (r, g, b)) = Str.hex2 g /\
  Str.slice 5 7 (toHex (r, g, b)) = Str.hex2 b.
Proof. repeat split. Qed.

Lemma toHex_length (c : Color) : String.length (toHex c) = 7%nat.
Proof. destruct c as [[r g] b]. reflexivity. Qed.

End SamplerProofs.

(** ** Committing image edits *)

Section ImageProofs.

Import ImageEdit.

Local Open Scope string_scope.

Lemma toggleDelete_well_formed o : well_formed o -> well_formed (toggleDelete o).
Proof.
  unfold well_formed, toggleDelete. destruct (action o); cbn [action replaceSrc]; congruence.
Qed.

Lemma chooseReplacement_well_formed src o : well_formed (chooseReplacement src o).
Proof. unfold well_formed, chooseReplacement. cbn [action replaceSrc]. congruence. Qed.

Lemma dirty_region_listed overlays :
  (exists o, In o overlays /\ action o <> ActNone) ->
  filter (fun o => negb (is_none (action o))) overlays <> [].
Proof.
  intros (o & Ho & Hact) E.
  assert (H : In o (filter (fun o => negb (is_none (action o))) overlays)).
  { apply filter_In. split; [exact Ho|]. destruct (action o); [contradiction | reflexivity..]. }
  rewrite E in H. exact H.
Qed.

(** Regions without an action add nothing to the calls. *)
Lemma flat_map_changes lib overlays :
  flat_map (commitChange lib) (filter (fun o => negb (is_none (action o))) overlays)
  = flat_map (commitChange lib) overlays.
Proof.
  induction overlays as [|o rest IH]; [reflexivity|].
  cbn [filter flat_map]. destruct (action o) eqn:A; cbn [is_none negb flat_map].
  - unfold commitChange at 2. rewrite A. exact IH.
  - now rewrite IH.
  - now rewrite IH.
Qed.

(** C7 fails as stated: the retry is not with an alternate codec when the
    replacement is a JPEG.  For a region to be replaced by a file of type
    image/jpeg that does not embed, the commit draws the cover, calls
    [embedJpg], and calls [embedJpg] once more. *)
Lemma commitImageEdits_jpeg_retried_as_jpeg :
  commitImageEdits (mkPdfLib true true (fun _ _ => false))
    [mkOverlay 10 20 100 50 ActReplace (Some (mkReplaceSrc [255; 216]%Z "image/jpeg"))]
  = Saved [DrawRectangle 10 20 100 50; Embed Jpg [255; 216]%Z; Embed Jpg [255; 216]%Z] /\
  attempts [DrawRectangle 10 20 100 50; Embed Jpg [255; 216]%Z; Embed Jpg [255; 216]%Z]
  = [Jpg; Jpg].
Proof. split; reflexivity. Qed.

End ImageProofs.

(** C7, as amended.  With pdf-lib present, a document that loads and at
    least one region with an action, [commitImageEdits] makes the calls of
    each region one region after the other, whatever happens in the others:
    none for a region whose action is 'none'; only the cover rectangle of the
    region's geometry for 'delete'; for 'replace' the cover rectangle, then
    an attempt to embed (PNG when the file type contains "png", JPEG
    otherwise) and, when it fails, one retry, always with JPEG; the image is
    drawn when an attempt succeeds, and when both fail only the image draw of
    this region is missing. *)
Theorem commitImageEdits_regions :
  forall (lib : ImageEdit.PdfLib) (overlays : list ImageEdit.Overlay),
    ImageEdit.PDFLib_present lib = true ->
    ImageEdit.load_ok lib = true ->
    (exists o, In o overlays /\ ImageEdit.action o <> ImageEdit.ActNone) ->
    ImageEdit.commitImageEdits lib overlays
      = ImageEdit.Saved (flat_map (ImageEdit.commitChange lib) overlays) /\
    (forall o, ImageEdit.action o = ImageEdit.ActNone -> ImageEdit.commitChange lib o = []) /\
    (forall o, ImageEdit.action o = ImageEdit.ActDelete ->
               ImageEdit.commitChange lib o = [ImageEdit.cover o]) /\
    (forall o src,
       ImageEdit.action o = ImageEdit.ActReplace ->
       ImageEdit.replaceSrc o = Some src ->
       let first := if Str.includes (ImageEdit.src_type src) "png"
                    then ImageEdit.Png else ImageEdit.Jpg in
       let image codec :=
         ImageEdit.DrawImage codec (ImageEdit.src_bytes src) (ImageEdit.pdfX o)
           (ImageEdit.pdfY o) (ImageEdit.pdfW o) (ImageEdit.pdfH o) in
       ImageEdit.commitChange lib o =
       ImageEdit.cover o :: ImageEdit.Embed first (ImageEdit.src_bytes src) ::
         (if ImageEdit.embeds lib first (ImageEdit.src_bytes src) then [image first]
          else ImageEdit.Embed ImageEdit.Jpg (ImageEdit.src_bytes src) ::
                 (if ImageEdit.embeds lib ImageEdit.Jpg (ImageEdit.src_bytes src)
                  then [image ImageEdit.Jpg] else []))).
Proof.
  intros lib overlays Hlib Hload Hdirty. split; [|split; [|split]].
  - unfold ImageEdit.commitImageEdits.
    pose proof (dirty_region_listed overlays Hdirty) as Hne.
    destruct (filter _ overlays) as [|o rest] eqn:E; [contradiction|].
    rewrite Hlib, Hload. cbn [negb]. rewrite <- E, flat_map_changes. reflexivity.
  - intros o A. unfold ImageEdit.commitChange. now rewrite A.
  - intros o A. unfold ImageEdit.commitChange. now rewrite A.
  - intros o src A S first image. unfold ImageEdit.commitChange. rewrite A, S.
    unfold ImageEdit.embedReplacement. fold first.
    destruct (ImageEdit.embeds lib first (ImageEdit.src_bytes src)); [reflexivity|].
    destruct (ImageEdit.embeds lib ImageEdit.Jpg (ImageEdit.src_bytes src)); reflexivity.
Qed.

(** A page with an untouched region, a deleted one and a PNG replacement
    that embeds neither as PNG nor as JPEG, followed by a second deletion. *)
Lemma commitImageEdits_regions_witness :
  ImageEdit.commitImageEdits (ImageEdit.mkPdfLib true true (fun _ _ => false))
    [ImageEdit.mkOverlay 0 0 10 10 ImageEdit.ActNone None;
     ImageEdit.mkOverlay 20 0 10 10 ImageEdit.ActDelete None;
     ImageEdit.mkOverlay 40 0 10 10 ImageEdit.ActReplace
       (Some (ImageEdit.mkReplaceSrc [1; 2]%Z "image/png"));
     ImageEdit.mkOverlay 60 0 10 10 ImageEdit.ActDelete None]
  = ImageEdit.Saved
      [ImageEdit.DrawRectangle 20 0 10 10;
       ImageEdit.DrawRectangle 40 0 10 10;
       ImageEdit.Embed ImageEdit.Png [1; 2]%Z; ImageEdit.Embed ImageEdit.Jpg [1; 2]%Z;
       ImageEdit.DrawRectangle 60 0 10 10].
Proof.
  refine (proj1 (commitImageEdits_regions (ImageEdit.mkPdfLib true true (fun _ _ => false)) _
                   eq_refl eq_refl _)).
  eexists. split; [right; left; reflexivity|]. discriminate.
Defined.

(** ** Committing text edits: the runs of a line *)

Section RunProofs.

Import Session.

Local Open Scope string_scope.










End RunProofs.


(** ** The editing session *)

Section SessionProofs.

Import Session.

Local Open Scope string_scope.

Lemma map_get_set_same {V : Type} (k : Z) (v : V) (m : list (Z * V)) :
  map_get (map_set k v m) k = Some v.
Proof.
  induction m as [|[k' v'] m IH]; cbn [map_set map_get].
  - now rewrite Z.eqb_refl.
  - destruct (k' =? k)%Z eqn:E; cbn [map_get]; [now rewrite Z.eqb_refl|].
    now rewrite E.
Qed.

Lemma map_get_set_other {V : Type} (k k0 : Z) (v : V) (m : list (Z * V)) :
  k0 <> k -> map_get (map_set k v m) k0 = map_get m k0.
Proof.
  intros Hk. induction m as [|[k' v'] m IH]; cbn [map_set map_get].
  - replace (k =? k0)%Z with false by (symmetry; apply Z.eqb_neq; congruence). reflexivity.
  - destruct (k' =? k)%Z eqn:E; cbn [map_get].
    + apply Z.eqb_eq in E. subst k'.
      replace (k =? k0)%Z with false by (symmetry; apply Z.eqb_neq; congruence). reflexivity.
    + destruct (k' =? k0)%Z; [reflexivity | exact IH].
Qed.

Lemma allLines_app l1 l2 : allLines (l1 ++ l2) = (allLines l1 ++ allLines l2)%list.
Proof. unfold allLines. apply flat_map_app. Qed.

Lemma allLines_lines divs : allLines (map CLine divs) = divs.
Proof.
  unfold allLines. induction divs as [|d divs IH]; [reflexivity|].
  cbn [map flat_map app]. now rewrite IH.
Qed.

Lemma linesOfBlock_filter idx children :
  linesOfBlock idx children = filter (fun d => (d_blockIdx d =? idx)%Z) (allLines children).
Proof.
  unfold linesOfBlock, allLines.
  induction children as [|c rest IH]; [reflexivity|].
  destruct c as [i| |d]; simpl; try exact IH.
  destruct (d_blockIdx d =? idx)%Z; simpl; now rewrite IH.
Qed.

Lemma allLines_without_shields children :
  allLines (filter (fun c => negb (is_shield c)) children) = allLines children.
Proof.
  unfold allLines.
  induction children as [|c rest IH]; [reflexivity|].
  destruct c as [i| |d]; simpl; try exact IH. now rewrite IH.
Qed.

Lemma allLines_without_block idx children :
  allLines (filter (fun c => negb (in_block idx c)) children)
  = filter (fun d => negb (d_blockIdx d =? idx)%Z) (allLines children).
Proof.
  unfold allLines.
  induction children as [|c rest IH]; [reflexivity|].
  destruct c as [i| |d]; simpl; try exact IH.
  destruct (d_blockIdx d =? idx)%Z; simpl; [exact IH | now rewrite IH].
Qed.

(** When all overlay lines belong to block [idx], the lines of the block
    are all of them, and none is left once they are removed. *)
Lemma filter_all {A : Type} (f : A -> bool) (l : list A) :
  (forall x, In x l -> f x = true) -> filter f l = l.
Proof.
  induction l as [|x l IH]; intros H; [reflexivity|].
  cbn [filter]. rewrite (H x (or_introl eq_refl)). f_equal.
  apply IH. intros y Hy. apply H. right. exact Hy.
Qed.

Lemma markDirty_block d : d_blockIdx (markDirty d) = d_blockIdx d.
Proof. reflexivity. Qed.

Lemma createLine_block paraIdx li line saved sampled :
  d_blockIdx (createLine paraIdx li line saved sampled) = paraIdx.
Proof. unfold createLine. destruct saved as [sv|]; [destruct (sv_dirty sv)|]; reflexivity. Qed.

Lemma createLine_line paraIdx li line saved sampled :
  d_lineIdx (createLine paraIdx li line saved sampled) = li.
Proof. unfold createLine. destruct saved as [sv|]; [destruct (sv_dirty sv)|]; reflexivity. Qed.

Lemma createLines_block canvas paraIdx para savedEdits :
  forall li d, In d (createLines canvas paraIdx li para savedEdits) -> d_blockIdx d = paraIdx.
Proof.
  induction para as [|line rest IH]; intros li d H; cbn [createLines] in H; [destruct H|].
  destruct H as [<-|H]; [apply createLine_block | exact (IH _ _ H)].
Qed.

Lemma at_index_nonneg {A : Type} (l : list A) i x : at_index l i = Some x -> (0 <= i)%Z.
Proof.
  unfold at_index. destruct (i <? 0)%Z eqn:E; [discriminate|]. intros _.
  now apply Z.ltb_ge.
Qed.

(** *** Deactivation, field by field *)

Section Deactivation.

Variable s : State.
Variable children : list Child.
Hypothesis Hcontainer : editContainer s = Some children.
Hypothesis Hactive : (0 <= _activeBlockIdx s)%Z.

Let idx := _activeBlockIdx s.
Let blockLines := linesOfBlock idx (filter (fun c => negb (is_shield c)) children).

Lemma deactivateBlock_unfold :
  deactivateBlock s =
  mkState (active s)
    (Some (filter (fun c => negb (in_block idx c))
             (filter (fun c => negb (is_shield c)) children)))
    (toolbar s) (currentViewport s) (currentPageNum s) (_pdfCanvas s) None
    (_paragraphData s) (-1)
    (update_zone idx (zone_show (existsb lineDirty blockLines))
       (map (zone_pointer "") (_blockZones s)))
    (if existsb lineDirty blockLines then map_set idx (map saveLine blockLines) (_editedBlocks s)
     else _editedBlocks s)
    None (undoStack s) (redoStack s) (customFont s)
    (effects s ++ map (fun d => LineRemoved (d_blockIdx d) (d_lineIdx d)) blockLines
       ++ (if existsb lineDirty blockLines then [StoreSet idx] else []))%list.
Proof.
  unfold deactivateBlock. rewrite Hcontainer.
  replace (_activeBlockIdx s <? 0)%Z with false by (symmetry; apply Z.ltb_ge; exact Hactive).
  reflexivity.
Qed.

Lemma blockLines_all :
  single_active s -> blockLines = allLines children.
Proof.
  intros Hinv. unfold single_active in Hinv. rewrite Hcontainer in Hinv.
  unfold blockLines. rewrite linesOfBlock_filter, allLines_without_shields.
  apply filter_all. intros d Hd. apply Z.eqb_eq. apply (Hinv d Hd).
Qed.

Lemma deactivateBlock_no_lines :
  single_active s ->
  allLines (filter (fun c => negb (in_block idx c))
              (filter (fun c => negb (is_shield c)) children)) = [].
Proof.
  intros Hinv. unfold single_active in Hinv. rewrite Hcontainer in Hinv.
  rewrite allLines_without_block, allLines_without_shields.
  apply filter_none. intros d Hd. apply negb_false_iff, Z.eqb_eq. apply (Hinv d Hd).
Qed.

End Deactivation.

Lemma deactivateBlock_single_active s : single_active s -> single_active (deactivateBlock s).
Proof.
  intros Hinv. destruct (editContainer s) as [children|] eqn:C.
  - destruct (Z.lt_ge_cases (_activeBlockIdx s) 0) as [Hneg|Hpos].
    + unfold deactivateBlock. rewrite C.
      replace (_activeBlockIdx s <? 0)%Z with true by (symmetry; apply Z.ltb_lt; exact Hneg).
      exact Hinv.
    + rewrite (deactivateBlock_unfold s children C Hpos). unfold single_active.
      cbn [editContainer]. rewrite (deactivateBlock_no_lines s children C Hinv).
      intros d [].
  - unfold deactivateBlock. rewrite C. exact Hinv.
Qed.

(** What [openBlock] does to a state without overlay lines. *)
Lemma openBlock_unfold paraIdx s1 para children :
  at_index (_paragraphData s1) paraIdx = Some para ->
  editContainer s1 = Some children ->
  let divs := createLines (_pdfCanvas s1) paraIdx 0 para (map_get (_editedBlocks s1) paraIdx) in
  editContainer (openBlock paraIdx s1) = Some (children ++ [CShield] ++ map CLine divs)%list /\
  effects (openBlock paraIdx s1)
  = (effects s1 ++ map (fun d => LineAppended (d_blockIdx d) (d_lineIdx d)) divs)%list.
Proof.
  intros Hpara Hc divs. unfold openBlock. rewrite Hpara, Hc. split; reflexivity.
Qed.

Lemma openBlock_fields paraIdx s1 :
  _activeBlockIdx (openBlock paraIdx s1) = paraIdx /\
  _editedBlocks (openBlock paraIdx s1) = _editedBlocks s1 /\
  undoStack (openBlock paraIdx s1) = undoStack s1 /\
  redoStack (openBlock paraIdx s1) = redoStack s1.
Proof.
  unfold openBlock.
  destruct (at_index (_paragraphData s1) paraIdx); [destruct (editContainer s1)|];
    repeat split.
Qed.

Lemma openBlock_no_paragraph paraIdx s1 :
  at_index (_paragraphData s1) paraIdx = None ->
  editContainer (openBlock paraIdx s1) = editContainer s1 /\
  effects (openBlock paraIdx s1) = effects s1.
Proof. intros H. unfold openBlock. rewrite H. split; reflexivity. Qed.

Lemma openBlock_no_container paraIdx s1 :
  editContainer s1 = None ->
  editContainer (openBlock paraIdx s1) = None.
Proof.
  intros H. unfold openBlock. rewrite H.
  destruct (at_index (_paragraphData s1) paraIdx); cbn [editContainer];
    try rewrite H; reflexivity.
Qed.

(** Opening a block in a state without overlay lines leaves only the lines
    of that block. *)
Lemma openBlock_single_active paraIdx s1 :
  (forall children, editContainer s1 = Some children -> allLines children = []) ->
  single_active (openBlock paraIdx s1).
Proof.
  intros Hnone. unfold single_active.
  destruct (editContainer s1) as [children|] eqn:C.
  - destruct (at_index (_paragraphData s1) paraIdx) as [para|] eqn:Hp.
    + destruct (openBlock_unfold paraIdx s1 para children Hp C) as [-> _].
      destruct (openBlock_fields paraIdx s1) as (-> & _).
      intros d Hd. rewrite !allLines_app, (Hnone children eq_refl), allLines_lines in Hd.
      cbn [allLines flat_map app] in Hd.
      split; [eapply createLines_block; exact Hd | eapply at_index_nonneg; exact Hp].
    + destruct (openBlock_no_paragraph paraIdx s1 Hp) as [-> _]. rewrite C.
      intros d Hd. rewrite (Hnone children eq_refl) in Hd. destruct Hd.
  - now rewrite (openBlock_no_container paraIdx s1 C).
Qed.

End SessionProofs.

Section StoreProofs.

Import Session.

Local Open Scope string_scope.

Lemma truthy_str_spec (a : string) : Js.truthy_str a = true <-> a <> "".
Proof. destruct a; cbn; split; congruence. Qed.

Lemma str_neqb_spec (a b : string) : negb (Str.eqb a b) = true <-> a <> b.
Proof.
  unfold Str.eqb. destruct (String.eqb_spec a b) as [E|E]; cbn; split; congruence.
Qed.

Lemma bool_neqb_spec (a b : bool) : negb (Bool.eqb a b) = true <-> a <> b.
Proof. destruct a, b; cbn; split; congruence. Qed.

Lemma Qneqb_spec (a b : Q) : negb (Qeq_bool a b) = true <-> ~ a == b.
Proof.
  destruct (Qeq_bool a b) eqn:E; cbn.
  - apply Qeq_bool_iff in E. split; [discriminate | intros H; contradiction].
  - split; [|reflexivity]. intros _ H. apply Qeq_bool_iff in H. congruence.
Qed.

(** The dirty flag that [deactivateBlock] computes for a line. *)
Lemma lineDirty_spec (d : LineDiv) :
  lineDirty d = true <->
  Dom.textContent (childNodes d) <> d_original d \/
  ~ d_fontSizeOverride d == 0 \/
  d_colorOverride d <> "" \/
  d_fontFamilyOverride d <> "" \/
  d_bold d <> d_initialBold d \/
  d_italic d <> d_initialItalic d \/
  Edit.normalizeInlineHtml (Dom.innerHTML (childNodes d)) <> d_originalHtml d \/
  dirtyClass d = true.
Proof.
  unfold lineDirty, hasFormatChange, hasTextChange, hasInlineFormatChange.
  rewrite !orb_true_iff, !str_neqb_spec, !bool_neqb_spec, !truthy_str_spec, Qneqb_spec.
  tauto.
Qed.

Lemma saveLine_persisted (d : LineDiv) : persisted d (saveLine d).
Proof.
  unfold persisted, saveLine. cbn [sv_text sv_html sv_runs sv_dirty sv_fontSizeOverride
    sv_colorOverride sv_fontFamilyOverride sv_fontNameOverride sv_bold sv_italic
    sv_matchedColor sv_bgColor sv_cssFont sv_originalHtml sv_pdfX sv_pdfY sv_pdfFontSize
    sv_pdfLineWidth sv_fontName sv_screenWidth sv_screenHeight].
  repeat match goal with |- _ /\ _ => split end; try reflexivity.
  - apply lineDirty_spec.
  - destruct (Bool.eqb (d_bold d) (d_initialBold d)); reflexivity.
  - destruct (Bool.eqb (d_italic d) (d_initialItalic d)); reflexivity.
Qed.

Lemma saveLines_persisted (l : list LineDiv) : Forall2 persisted l (map saveLine l).
Proof. induction l; constructor; [apply saveLine_persisted | assumption]. Qed.

Lemma saveLines_dirty (l : list LineDiv) :
  existsb sv_dirty (map saveLine l) = existsb lineDirty l.
Proof. induction l as [|d l IH]; cbn [map existsb]; [reflexivity|]. now rewrite IH. Qed.

Lemma createLine_overlay paraIdx li line saved sampled :
  overlayOf paraIdx li line saved (createLine paraIdx li line saved sampled).
Proof.
  unfold overlayOf, createLine.
  destruct saved as [sv|]; [destruct (sv_dirty sv)|];
    repeat match goal with |- _ /\ _ => split end; try reflexivity; discriminate.
Qed.

Lemma createLines_length canvas paraIdx para savedEdits :
  forall li, List.length (createLines canvas paraIdx li para savedEdits) = List.length para.
Proof.
  induction para as [|line rest IH]; intros li; cbn [createLines List.length]; [reflexivity|].
  now rewrite IH.
Qed.

Lemma createLines_overlays canvas paraIdx para savedEdits :
  forall li k line d,
    nth_error para k = Some line ->
    nth_error (createLines canvas paraIdx li para savedEdits) k = Some d ->
    overlayOf paraIdx (li + k) line
      (match savedEdits with Some l => nth_error l (li + k) | None => None end) d.
Proof.
  induction para as [|line0 rest IH]; intros li k line d Hl Hd; [destruct k; discriminate|].
  cbn [createLines] in Hd. destruct k as [|k]; cbn [nth_error] in Hl, Hd.
  - injection Hl as <-. injection Hd as <-. rewrite Nat.add_0_r. apply createLine_overlay.
  - replace (li + S k)%nat with (S li + k)%nat by lia. now apply IH.
Qed.

End StoreProofs.

(** C1. When [activateBlock(B)] is invoked while another block A is active
    (all overlay lines being A's), A is deactivated first: its lines are
    removed and, if one of them is dirty, the state of each of them (text,
    markup, runs, overrides, colours, geometry and dirty flag) is set in
    [_editedBlocks] under A, the other entries of the store staying as
    they are; only then are the lines of B created and appended, one for
    each line of paragraph B, in order.  Afterwards B is the active block
    and every overlay line is one of B's. *)
Theorem activateBlock_deactivates_first :
  forall (s : Session.State) (children : list Session.Child) (A B : Z),
    Session.editContainer s = Some children ->
    Session._activeBlockIdx s = A -> (0 <= A)%Z -> B <> A ->
    Session.single_active s ->
    let linesA := Session.allLines children in
    let s1 := Session.deactivateBlock s in
    let s2 := Session.activateBlock B s in
    s2 = Session.openBlock B s1 /\
    Session._activeBlockIdx s1 = (-1)%Z /\
    (exists ch1, Session.editContainer s1 = Some ch1 /\ Session.allLines ch1 = []) /\
    (exists saved,
       Forall2 Session.persisted linesA saved /\
       (if existsb Session.sv_dirty saved
        then Session.map_get (Session._editedBlocks s1) A = Some saved
        else Session._editedBlocks s1 = Session._editedBlocks s) /\
       (forall k, k <> A ->
          Session.map_get (Session._editedBlocks s1) k
          = Session.map_get (Session._editedBlocks s) k) /\
       Session.effects s1
       = (Session.effects s
          ++ map (fun d => Session.LineRemoved A (Session.d_lineIdx d)) linesA
          ++ (if existsb Session.sv_dirty saved then [Session.StoreSet A] else []))%list) /\
    Session._activeBlockIdx s2 = B /\
    Session._editedBlocks s2 = Session._editedBlocks s1 /\
    (exists created ch2,
       Session.effects s2
       = (Session.effects s1
          ++ map (fun d => Session.LineAppended B (Session.d_lineIdx d)) created)%list /\
       Session.editContainer s2 = Some ch2 /\
       Session.allLines ch2 = created /\
       (forall d, In d created -> Session.d_blockIdx d = B) /\
       match Session.at_index (Session._paragraphData s) B with
       | Some para =>
           created = Session.createLines (Session._pdfCanvas s) B 0 para
                       (Session.map_get (Session._editedBlocks s1) B) /\
           List.length created = List.length para /\
           forall k line d,
             nth_error para k = Some line -> nth_error created k = Some d ->
             Session.overlayOf B k line
               (match Session.map_get (Session._editedBlocks s1) B with
                | Some l => nth_error l k
                | None => None
                end) d
       | None => created = []
       end) /\
    Session.single_active s2.
Proof.
  intros s children A B Hc HA Hpos HB Hinv linesA s1 s2.
  assert (Hpos' : (0 <= Session._activeBlockIdx s)%Z) by (rewrite HA; exact Hpos).
  pose proof (deactivateBlock_unfold s children Hc Hpos') as Hs1.
  pose proof (blockLines_all s children Hc Hinv) as Hlines.
  pose proof (deactivateBlock_no_lines s children Hc Hinv) as Hnone.
  rewrite Hlines, HA in Hs1. fold linesA in Hs1. fold s1 in Hs1.
  rewrite HA in Hnone.
  assert (Hblock : forall d, In d linesA -> Session.d_blockIdx d = A).
  { intros d Hd. unfold Session.single_active in Hinv. rewrite Hc in Hinv.
    rewrite <- HA. apply (Hinv d Hd). }
  assert (Hs2 : s2 = Session.openBlock B s1).
  { unfold s2, Session.activateBlock. rewrite HA.
    replace (B =? A)%Z with false by (symmetry; apply Z.eqb_neq; exact HB).
    replace (A >=? 0)%Z with true by (symmetry; apply Z.geb_le; lia).
    reflexivity. }
  assert (Hch1 : Session.editContainer s1
                 = Some (filter (fun c => negb (Session.in_block A c))
                           (filter (fun c => negb (Session.is_shield c)) children)))
    by (rewrite Hs1; reflexivity).
  assert (Hpd : Session._paragraphData s1 = Session._paragraphData s)
    by (rewrite Hs1; reflexivity).
  assert (Hcv : Session._pdfCanvas s1 = Session._pdfCanvas s)
    by (rewrite Hs1; reflexivity).
  split; [exact Hs2|].
  split; [rewrite Hs1; reflexivity|].
  split; [eexists; split; [exact Hch1 | exact Hnone]|].
  split.
  { exists (map Session.saveLine linesA).
    split; [apply saveLines_persisted|]. rewrite saveLines_dirty.
    split; [|split].
    - rewrite Hs1. cbn [Session._editedBlocks].
      destruct (existsb Session.lineDirty linesA); [|reflexivity].
      apply map_get_set_same.
    - intros k Hk. rewrite Hs1. cbn [Session._editedBlocks].
      destruct (existsb Session.lineDirty linesA); [|reflexivity].
      now apply map_get_set_other.
    - rewrite Hs1. cbn [Session.effects]. do 2 f_equal.
      apply map_ext_in. intros d Hd. now rewrite (Hblock d Hd). }
  rewrite Hs2.
  destruct (openBlock_fields B s1) as (HB2 & He2 & _).
  split; [exact HB2|]. split; [exact He2|].
  split.
  - rewrite <- Hpd, <- Hcv.
    destruct (Session.at_index (Session._paragraphData s1) B) as [para|] eqn:Hp.
    + destruct (openBlock_unfold B s1 para _ Hp Hch1) as [Hc2 Hef2].
      eexists. eexists. split; [|split; [exact Hc2|split; [|split; [|split; [|split]]]]].
      * rewrite Hef2. f_equal. apply map_ext_in. intros d Hd.
        now rewrite (createLines_block _ _ _ _ _ _ Hd).
      * rewrite !allLines_app, Hnone, allLines_lines. reflexivity.
      * intros d Hd. eapply createLines_block. exact Hd.
      * reflexivity.
      * apply createLines_length.
      * intros k line d Hl Hd.
        exact (createLines_overlays _ _ _ _ 0%nat k line d Hl Hd).
    + destruct (openBlock_no_paragraph B s1 Hp) as [Hc2 Hef2].
      exists [], (filter (fun c => negb (Session.in_block A c))
                    (filter (fun c => negb (Session.is_shield c)) children)).
      split; [rewrite Hef2; cbn [map]; now rewrite app_nil_r|].
      split; [now rewrite Hc2|]. split; [exact Hnone|]. split; [intros d []|reflexivity].
  - apply openBlock_single_active. intros ch E. rewrite Hch1 in E. injection E as <-.
    exact Hnone.
Qed.

Section SessionInvariant.

Import Session.

Local Open Scope string_scope.

Lemma no_lines_when_idle s children :
  single_active s -> editContainer s = Some children -> (_activeBlockIdx s < 0)%Z ->
  allLines children = [].
Proof.
  intros Hinv Hc Hidle. unfold single_active in Hinv. rewrite Hc in Hinv.
  destruct (allLines children) as [|d rest]; [reflexivity|].
  destruct (Hinv d (or_introl eq_refl)). lia.
Qed.

(** The state [activateBlock] and [commitTextEdits] continue from has no
    overlay line. *)
Lemma deactivated_no_lines s :
  single_active s ->
  let s1 := if (_activeBlockIdx s >=? 0)%Z then deactivateBlock s else s in
  forall children, editContainer s1 = Some children -> allLines children = [].
Proof.
  intros Hinv s1 ch1 E. unfold s1 in E.
  destruct (_activeBlockIdx s >=? 0)%Z eqn:G.
  - apply Z.geb_le in G.
    destruct (editContainer s) as [children|] eqn:C.
    + rewrite (deactivateBlock_unfold s children C G) in E. cbn [editContainer] in E.
      injection E as <-. apply (deactivateBlock_no_lines s children C Hinv).
    + unfold deactivateBlock in E. rewrite C in E. congruence.
  - apply (no_lines_when_idle s ch1 Hinv E).
    destruct (Z.geb_spec (_activeBlockIdx s) 0); [discriminate | lia].
Qed.

Lemma activateBlock_single_active B s : single_active s -> single_active (activateBlock B s).
Proof.
  intros Hinv. unfold activateBlock.
  destruct (B =? _activeBlockIdx s)%Z; [exact Hinv|].
  apply openBlock_single_active. apply (deactivated_no_lines s Hinv).
Qed.

Lemma exitTextEditMode_single_active s : single_active s -> single_active (exitTextEditMode s).
Proof.
  intros Hinv. unfold exitTextEditMode. destruct (active s); cbn [negb]; [exact I | exact Hinv].
Qed.

Lemma allLines_zones (l : list nat) : allLines (map CZone l) = [].
Proof. unfold allLines. induction l as [|i l IH]; [reflexivity | exact IH]. Qed.

Lemma enterTextEditMode_single_active pageNum viewport container pdfCanvas lines s :
  single_active s -> allLines container = [] ->
  single_active (snd (enterTextEditMode pageNum viewport container pdfCanvas lines s)).
Proof.
  intros Hinv Hcont. unfold enterTextEditMode.
  pose proof (exitTextEditMode_single_active s Hinv) as Hexit.
  destruct lines as [|line rest]; cbn [snd].
  - destruct (active s); [exact Hexit | exact Hinv].
  - unfold single_active. cbn [editContainer].
    intros d Hd. rewrite allLines_app, Hcont, allLines_zones in Hd. destruct Hd.
Qed.

Lemma in_replace_div b li d' children :
  forall d0, In d0 (allLines (replace_div b li d' children)) ->
             d0 = d' \/ In d0 (allLines children).
Proof.
  unfold allLines.
  induction children as [|c rest IH]; intros d0 H; [destruct H|].
  destruct c as [i| |d]; cbn [replace_div flat_map app] in *.
  - apply IH. exact H.
  - apply IH. exact H.
  - destruct (is_div b li d); cbn [flat_map app In] in *.
    + destruct H as [<-|H]; [left; reflexivity | right; right; exact H].
    + destruct H as [<-|H]; [right; left; reflexivity|].
      destruct (IH d0 H) as [->|H']; [left; reflexivity | right; right; exact H'].
Qed.

Lemma find_div_in b li children d :
  find_div b li children = Some d -> In d (allLines children).
Proof.
  unfold allLines.
  induction children as [|c rest IH]; intros H; [discriminate|].
  destruct c as [i| |d0]; cbn [find_div flat_map app] in *; try (apply IH; exact H).
  destruct (is_div b li d0).
  - injection H as <-. left. reflexivity.
  - right. apply IH. exact H.
Qed.

Lemma onInput_single_active b li nodes s : single_active s -> single_active (onInput b li nodes s).
Proof.
  intros Hinv. unfold onInput.
  destruct (editContainer s) as [children|] eqn:C; [|exact Hinv].
  destruct (find_div b li children) as [d|] eqn:F; [|exact Hinv].
  unfold single_active, set_overlay. cbn [editContainer _activeBlockIdx].
  unfold single_active in Hinv. rewrite C in Hinv.
  intros d0 Hd0. apply in_replace_div in Hd0 as [->|Hd0]; [|exact (Hinv d0 Hd0)].
  apply (Hinv d). eapply find_div_in. exact F.
Qed.

Lemma onColor_single_active value s : single_active s -> single_active (onColor value s).
Proof.
  intros Hinv. unfold onColor.
  destruct (editContainer s) as [children|] eqn:C; [|exact Hinv].
  destruct (_focusedLine s) as [[b li]|]; [|exact Hinv].
  destruct (find_div b li children) as [d|] eqn:F; [|exact Hinv].
  unfold single_active, set_overlay. cbn [editContainer _activeBlockIdx].
  unfold single_active in Hinv. rewrite C in Hinv.
  intros d0 Hd0. apply in_replace_div in Hd0 as [->|Hd0]; [|exact (Hinv d0 Hd0)].
  apply (Hinv d). eapply find_div_in. exact F.
Qed.

Lemma single_active_initial : single_active initial.
Proof. exact I. Qed.

(** The sessions of the scenarios are states the editor reaches. *)
Lemma twoBlocks_single_active : single_active Scenario.twoBlocks.
Proof.
  apply enterTextEditMode_single_active; [apply single_active_initial | reflexivity].
Qed.

Lemma editing_single_active : single_active Scenario.editing.
Proof.
  apply onInput_single_active, activateBlock_single_active, twoBlocks_single_active.
Qed.

Lemma editingRich_single_active : single_active Scenario.editingRich.
Proof.
  apply onInput_single_active, activateBlock_single_active, twoBlocks_single_active.
Qed.

End SessionInvariant.

(** The line of block 0 edited to "Goodbye World", then block 1 clicked:
    the line is removed and its state stored, dirty, before the line of
    block 1 is appended; the overlay then holds the line of block 1
    only. *)
Lemma activateBlock_deactivates_first_witness :
  Session.activateBlock 1 Scenario.editing
  = Session.openBlock 1 (Session.deactivateBlock Scenario.editing) /\
  (exists sv,
     Session.map_get (Session._editedBlocks (Session.activateBlock 1 Scenario.editing)) 0
     = Some [sv] /\
     Session.sv_text sv = "Goodbye World"%string /\
     Session.sv_html sv = "Goodbye World"%string /\
     Session.sv_runs sv = [Edit.mkRun "Goodbye World" false false] /\
     Session.sv_dirty sv = true /\
     Session.sv_pdfX sv == 72 /\ Session.sv_pdfY sv == 600) /\
  Session.effects (Session.activateBlock 1 Scenario.editing)
  = [Session.LineAppended 0 0; Session.LineRemoved 0 0; Session.StoreSet 0;
     Session.LineAppended 1 0] /\
  (exists d ch2,
     Session.editContainer (Session.activateBlock 1 Scenario.editing) = Some ch2 /\
     Session.allLines ch2 = [d] /\
     Session.d_blockIdx d = 1%Z /\ Session.d_lineIdx d = 0%nat /\
     Session.d_original d = "Second paragraph"%string /\
     Session.childNodes d = [Dom.Text "Second paragraph"]) /\
  Session.single_active (Session.activateBlock 1 Scenario.editing).
Proof.
  destruct (activateBlock_deactivates_first Scenario.editing _ 0%Z 1%Z
              eq_refl eq_refl (Z.le_refl 0) (Z.neq_sym _ _ (Z.lt_neq 0 1 Z.lt_0_1))
              editing_single_active)
    as (H1 & _ & _ & _ & _ & _ & _ & H9).
  split; [exact H1|].
  split; [vm_compute; eexists; repeat split|].
  split; [reflexivity|].
  split; [vm_compute; eexists; eexists; repeat split | exact H9].
Defined.

(** ** Activation without edits *)

Section NoOp.
Import Session.
Local Open Scope string_scope.

(** The overlay of an untouched line whose markup survives the DOM shows no
    change. *)
Lemma createLine_clean paraIdx li line sampled :
  round_trips line -> lineDirty (createLine paraIdx li line None sampled) = false.
Proof.
  intros [Htext Hhtml]. unfold createLine, lineDirty, hasFormatChange, hasTextChange,
    hasInlineFormatChange.
  cbn [dirtyClass childNodes d_original d_originalHtml d_fontSizeOverride d_colorOverride
       d_fontFamilyOverride d_bold d_italic d_initialBold d_initialItalic Js.or_str
       Js.truthy_str].
  rewrite Htext, Hhtml. unfold Str.eqb. rewrite !String.eqb_refl, !Bool.eqb_reflx.
  reflexivity.
Qed.

Lemma createLines_clean canvas paraIdx para :
  Forall round_trips para ->
  forall li, existsb lineDirty (createLines canvas paraIdx li para None) = false.
Proof.
  induction 1 as [|line rest Hline Hrest IH]; intros li; [reflexivity|].
  cbn [createLines existsb]. rewrite createLine_clean by exact Hline. apply IH.
Qed.

(** Activating a block never edited before, of lines whose markup survives
    the DOM, and deactivating it at once leaves no line dirty and the store
    as it was. *)
Lemma noop_activation_clean s children B para :
  editContainer s = Some children ->
  single_active s ->
  (_activeBlockIdx s < 0)%Z ->
  at_index (_paragraphData s) B = Some para ->
  map_get (_editedBlocks s) B = None ->
  Forall round_trips para ->
  _editedBlocks (deactivateBlock (activateBlock B s)) = _editedBlocks s /\
  (forall ch, editContainer (activateBlock B s) = Some ch ->
              existsb lineDirty (allLines ch) = false).
Proof.
  intros Hc Hinv Hidle Hpara Hfresh Hrt.
  pose proof (at_index_nonneg _ _ _ Hpara) as HB.
  assert (Hact : activateBlock B s = openBlock B s).
  { unfold activateBlock.
    replace (B =? _activeBlockIdx s)%Z with false by (symmetry; apply Z.eqb_neq; lia).
    replace (_activeBlockIdx s >=? 0)%Z with false; [reflexivity|].
    symmetry. destruct (Z.geb_spec (_activeBlockIdx s) 0); [lia | reflexivity]. }
  destruct (openBlock_unfold B s para children Hpara Hc) as [Hc2 _].
  destruct (openBlock_fields B s) as (Hidx2 & Hst2 & _).
  rewrite Hfresh in Hc2.
  pose proof (no_lines_when_idle s children Hinv Hc Hidle) as Hnone.
  assert (Hlines : allLines (children ++ [CShield]
                               ++ map CLine (createLines (_pdfCanvas s) B 0 para None))
                   = createLines (_pdfCanvas s) B 0 para None).
  { rewrite !allLines_app, Hnone, allLines_lines. reflexivity. }
  rewrite Hact. split.
  - assert (Hpos : (0 <= _activeBlockIdx (openBlock B s))%Z) by (rewrite Hidx2; exact HB).
    rewrite (deactivateBlock_unfold _ _ Hc2 Hpos). cbn [_editedBlocks].
    assert (Hinv2 : single_active (openBlock B s)).
    { apply openBlock_single_active. intros ch E. rewrite Hc in E. injection E as <-.
      exact Hnone. }
    rewrite (blockLines_all _ _ Hc2 Hinv2).
    rewrite Hlines. rewrite (createLines_clean _ _ _ Hrt 0%nat). exact Hst2.
  - intros ch E. rewrite Hc2 in E. injection E as <-.
    exact (eq_trans (f_equal (existsb lineDirty) Hlines)
             (createLines_clean _ _ _ Hrt 0%nat)).
Qed.

End NoOp.

(** Both blocks of the two-paragraph page are left clean by an activation
    without edits. *)
Lemma noop_activation_plain_text :
  Session._editedBlocks
    (Session.deactivateBlock (Session.activateBlock 0 Scenario.twoBlocks)) = [].
Proof.
  refine (proj1 (noop_activation_clean Scenario.twoBlocks _ 0%Z _ eq_refl
                   twoBlocks_single_active _ eq_refl eq_refl _)).
  - reflexivity.
  - repeat constructor.
Qed.

(** C6 fails on the code for a line whose text contains a double quote
    (or U+00A0).  The page has one line, [Say "hi"]; nothing is in the
    store.  The block is activated and deactivated at once, with no event in
    between.  The overlay was filled from the line's [initialHtml], in which
    [escapeHtml] wrote the quotes as [&quot;]; [innerHTML] reads the text
    back with plain quotes, the comparison with [originalHtml] takes that for
    an inline format change, and the line is saved as dirty under block 0. *)
Theorem noop_activation_of_quoted_line :
  Session._editedBlocks Scenario.quoted = [] /\
  Session._editedBlocks (Session.activateBlock 0 Scenario.quoted) = [] /\
  exists sv,
    Session._editedBlocks
      (Session.deactivateBlock (Session.activateBlock 0 Scenario.quoted)) = [(0%Z, [sv])] /\
    Session.sv_dirty sv = true /\
    Session.sv_text sv
    = ("Say " ++ Str.of_char Str.c_quot ++ "hi" ++ Str.of_char Str.c_quot)%string /\
    Session.sv_html sv
    = ("Say " ++ Str.of_char Str.c_quot ++ "hi" ++ Str.of_char Str.c_quot)%string /\
    Session.sv_originalHtml sv = "Say &quot;hi&quot;"%string.
Proof.
  split; [reflexivity|]. split; [reflexivity|].
  eexists. split; [vm_compute; reflexivity|]. repeat split.
Qed.

(** C8 fails as stated: after a commit that saved, the record of the
    committed block is still in the store, still dirty. *)
Lemma commitTextEdits_keeps_records :
  exists s' ops sv,
    Session.commitTextEdits Scenario.lib Scenario.editing = (s', Session.Saved ops) /\
    Session._editedBlocks s' = [(0%Z, [sv])] /\
    Session.sv_dirty sv = true /\
    Session.sv_text sv = "Goodbye World"%string.
Proof.
  eexists. eexists. eexists. split; [vm_compute; reflexivity|]. repeat split.
Qed.

Section CommitStore.
Import Session.
Local Open Scope string_scope.

Lemma commitTextEdits_state lib s :
  fst (commitTextEdits lib s)
  = if (_activeBlockIdx s >=? 0)%Z then deactivateBlock s else s.
Proof.
  unfold commitTextEdits. destruct (editContainer s) as [children|] eqn:C.
  - destruct (collectChanges _ _); [reflexivity|].
    destruct (negb (PDFLib_present lib)); [reflexivity|].
    destruct (negb (load_ok lib)); [reflexivity|].
    destruct (drawChanges _ _ _ _); reflexivity.
  - cbn [fst]. unfold deactivateBlock. rewrite C. destruct (_ >=? _)%Z; reflexivity.
Qed.

Lemma changeOfSaved_dirty sv c : In c (changeOfSaved sv) -> sv_dirty sv = true.
Proof.
  unfold changeOfSaved. destruct (sv_dirty sv); cbn [negb]; [reflexivity | intros []].
Qed.

Lemma exitTextEditMode_clears s :
  active s = true ->
  _editedBlocks (exitTextEditMode s) = [] /\
  undoStack (exitTextEditMode s) = [] /\
  redoStack (exitTextEditMode s) = [] /\
  _activeBlockIdx (exitTextEditMode s) = (-1)%Z /\
  editContainer (exitTextEditMode s) = None.
Proof. intros H. unfold exitTextEditMode. rewrite H. repeat split. Qed.

Lemma deactivateBlock_active s : active (deactivateBlock s) = active s.
Proof.
  unfold deactivateBlock. destruct (editContainer s); [|reflexivity].
  destruct (_ <? _)%Z; reflexivity.
Qed.

End CommitStore.

(** C8, as amended.  [commitTextEdits] changes the session only by
    deactivating the active block: the store afterwards is the store after
    that deactivation, and nothing is removed from it.  When the commit
    saved (in a session where the overlay lines are those of the active
    block) the store still holds a dirty line.  The store is emptied by
    [exitTextEditMode], which the host's [handleCommitTextEdits] runs after
    every commit. *)
Theorem commitTextEdits_leaves_store :
  forall (lib : Session.PdfLib) (s : Session.State),
    Session._editedBlocks (fst (Session.commitTextEdits lib s))
    = Session._editedBlocks
        (if (Session._activeBlockIdx s >=? 0)%Z then Session.deactivateBlock s else s) /\
    (forall ops,
       Session.single_active s ->
       snd (Session.commitTextEdits lib s) = Session.Saved ops ->
       exists k savedLines sv,
         In (k, savedLines) (Session._editedBlocks (fst (Session.commitTextEdits lib s))) /\
         In sv savedLines /\ Session.sv_dirty sv = true) /\
    (Session.active s = true ->
     Session._editedBlocks (fst (Session.handleCommitTextEdits lib s)) = [] /\
     snd (Session.handleCommitTextEdits lib s) = snd (Session.commitTextEdits lib s)).
Proof.
  intros lib s. split; [now rewrite commitTextEdits_state|]. split.
  - intros ops Hinv Hsaved. rewrite commitTextEdits_state.
    pose proof (deactivated_no_lines s Hinv) as Hnone. cbv zeta in Hnone.
    unfold Session.commitTextEdits in Hsaved.
    destruct (Session.editContainer s) as [children|] eqn:C; [|discriminate].
    set (s1 := if (Session._activeBlockIdx s >=? 0)%Z then Session.deactivateBlock s else s) in *.
    destruct (Session.collectChanges _ (Session._editedBlocks s1)) as [|c changes] eqn:Ch;
      [discriminate|].
    assert (Hin : In c (Session.collectChanges
                          (match Session.editContainer s1 with Some c0 => c0 | None => [] end)
                          (Session._editedBlocks s1))) by (rewrite Ch; left; reflexivity).
    unfold Session.collectChanges in Hin.
    assert (Hdom : flat_map Session.changeOfDiv
                     (Session.allLines
                        (match Session.editContainer s1 with Some c0 => c0 | None => [] end))
                   = []).
    { destruct (Session.editContainer s1) as [ch1|] eqn:C1; [|reflexivity].
      now rewrite (Hnone ch1 eq_refl). }
    rewrite Hdom in Hin. cbn [app] in Hin.
    apply in_flat_map in Hin as ([k savedLines] & Hk & Hc). cbn [snd] in Hc.
    apply in_flat_map in Hc as (sv & Hsv & Hc).
    exists k, savedLines, sv. split; [exact Hk|]. split; [exact Hsv|].
    eapply changeOfSaved_dirty. exact Hc.
  - intros Hact. unfold Session.handleCommitTextEdits. rewrite Hact. cbn [negb].
    destruct (Session.commitTextEdits lib s) as [s1 out] eqn:E. cbn [fst snd].
    split; [|reflexivity].
    apply exitTextEditMode_clears.
    assert (Hs1 : s1 = fst (Session.commitTextEdits lib s)) by now rewrite E.
    rewrite Hs1, commitTextEdits_state.
    destruct (_ >=? _)%Z; [now rewrite deactivateBlock_active | exact Hact].
Qed.

(** The commit of the edited first block, run by the host. *)
Lemma commitTextEdits_leaves_store_witness :
  (exists k savedLines sv,
     In (k, savedLines)
        (Session._editedBlocks (fst (Session.commitTextEdits Scenario.lib Scenario.editing))) /\
     In sv savedLines /\ Session.sv_dirty sv = true) /\
  Session._editedBlocks (fst (Session.handleCommitTextEdits Scenario.lib Scenario.editing)) = [].
Proof.
  split.
  - refine (proj1 (proj2 (commitTextEdits_leaves_store Scenario.lib Scenario.editing))
              _ editing_single_active _).
    vm_compute. reflexivity.
  - apply (proj2 (proj2 (commitTextEdits_leaves_store Scenario.lib Scenario.editing))).
    reflexivity.
Defined.

(** C9 fails as stated: the undo stack outlives its block, and leaving the
    mode empties the store as well.  With the first block edited, activating
    the second one leaves on the undo stack the snapshot of the line of
    block 0, while block 1 is the active one; leaving the mode then resets
    the store, which held the record of block 0. *)
Lemma undo_stack_survives_block_switch :
  (exists snap,
     Session.undoStack (Session.activateBlock 1 Scenario.editing) = [snap] /\
     Session.sn_block snap = 0%Z /\
     Session._activeBlockIdx (Session.activateBlock 1 Scenario.editing) = 1%Z) /\
  (exists saved,
     Session._editedBlocks (Session.activateBlock 1 Scenario.editing) = [(0%Z, saved)] /\
     Session._editedBlocks
       (Session.exitTextEditMode (Session.activateBlock 1 Scenario.editing)) = []).
Proof.
  split.
  - eexists. split; [vm_compute; reflexivity|]. split; reflexivity.
  - eexists. split; [vm_compute; reflexivity|]. reflexivity.
Qed.

Section UndoScope.
Import Session.

Lemma deactivateBlock_stacks s :
  undoStack (deactivateBlock s) = undoStack s /\ redoStack (deactivateBlock s) = redoStack s.
Proof.
  unfold deactivateBlock. destruct (editContainer s); [|split; reflexivity].
  destruct (_ <? _)%Z; split; reflexivity.
Qed.

Lemma deactivateBlock_store_other s k :
  k <> _activeBlockIdx s ->
  map_get (_editedBlocks (deactivateBlock s)) k = map_get (_editedBlocks s) k.
Proof.
  intros Hk. unfold deactivateBlock. destruct (editContainer s); [|reflexivity].
  destruct (_ <? _)%Z; [reflexivity|]. cbn [_editedBlocks].
  destruct (existsb _ _); [|reflexivity]. now apply map_get_set_other.
Qed.

End UndoScope.

(** C9, as amended.  The undo and redo stacks belong to the session, not to
    the active block: deactivating a block and activating another one leave
    both stacks as they are, and change the store only at the block that is
    deactivated.  Entering the mode empties both stacks, and leaving the mode
    empties both stacks together with the store. *)
Theorem undo_stacks_session_scoped :
  forall s : Session.State,
    (Session.undoStack (Session.deactivateBlock s) = Session.undoStack s /\
     Session.redoStack (Session.deactivateBlock s) = Session.redoStack s) /\
    (forall B,
       Session.undoStack (Session.activateBlock B s) = Session.undoStack s /\
       Session.redoStack (Session.activateBlock B s) = Session.redoStack s /\
       forall k, k <> Session._activeBlockIdx s ->
                 Session.map_get (Session._editedBlocks (Session.activateBlock B s)) k
                 = Session.map_get (Session._editedBlocks s) k) /\
    (Session.active s = true ->
     Session.undoStack (Session.exitTextEditMode s) = [] /\
     Session.redoStack (Session.exitTextEditMode s) = [] /\
     Session._editedBlocks (Session.exitTextEditMode s) = []) /\
    (forall pageNum viewport container pdfCanvas line lines,
       let s' := snd (Session.enterTextEditMode pageNum viewport container pdfCanvas
                        (line :: lines) s) in
       Session.undoStack s' = [] /\ Session.redoStack s' = [] /\
       Session._editedBlocks s' = []).
Proof.
  intros s. split; [apply deactivateBlock_stacks|]. split; [|split].
  - intros B. unfold Session.activateBlock.
    destruct (B =? Session._activeBlockIdx s)%Z; [repeat split|].
    destruct (openBlock_fields B
                (if (Session._activeBlockIdx s >=? 0)%Z then Session.deactivateBlock s else s))
      as (_ & -> & -> & ->).
    destruct (Session._activeBlockIdx s >=? 0)%Z; [|repeat split].
    destruct (deactivateBlock_stacks s) as [-> ->]. repeat split.
    intros k Hk. now apply deactivateBlock_store_other.
  - intros Hact. destruct (exitTextEditMode_clears s Hact) as (H1 & H2 & H3 & _).
    repeat split; assumption.
  - intros pageNum viewport container pdfCanvas line lines s'. repeat split.
Qed.

(** Switching from the edited first block to the second keeps the undo
    stack; leaving the mode empties stacks and store. *)
Lemma undo_stacks_session_scoped_witness :
  Session.undoStack (Session.activateBlock 1 Scenario.editing)
  = Session.undoStack Scenario.editing /\
  Session.map_get (Session._editedBlocks (Session.activateBlock 0 (Session.activateBlock 1 Scenario.editing))) 0
  = Session.map_get (Session._editedBlocks (Session.activateBlock 1 Scenario.editing)) 0 /\
  Session._editedBlocks (Session.exitTextEditMode (Session.activateBlock 1 Scenario.editing)) = [].
Proof.
  split; [|split].
  - apply (proj1 (proj2 (undo_stacks_session_scoped Scenario.editing)) 1%Z).
  - apply (proj2 (proj2 (proj1 (proj2 (undo_stacks_session_scoped
                                         (Session.activateBlock 1 Scenario.editing))) 0%Z))).
    vm_compute. discriminate.
  - apply (proj1 (proj2 (proj2 (undo_stacks_session_scoped
                                  (Session.activateBlock 1 Scenario.editing))))).
    reflexivity.
Defined.


(** ** At most one active block, whatever happens *)

Section Always.

Import Session.

Lemma commitTextEdits_single_active lib s :
  single_active s -> single_active (fst (commitTextEdits lib s)).
Proof.
  intros Hinv. rewrite commitTextEdits_state.
  destruct (_ >=? _)%Z; [now apply deactivateBlock_single_active | exact Hinv].
Qed.

Lemma handleCommitTextEdits_single_active lib s :
  single_active s -> single_active (fst (handleCommitTextEdits lib s)).
Proof.
  intros Hinv. unfold handleCommitTextEdits. destruct (active s); cbn [negb fst];
    [|exact Hinv].
  pose proof (commitTextEdits_single_active lib s Hinv) as H.
  destruct (commitTextEdits lib s) as [s1 out]. cbn [fst] in *.
  now apply exitTextEditMode_single_active.
Qed.

Lemma handle_single_active s e : single_active s -> single_active (handle s e).
Proof.
  intros Hinv. destruct e as [pageNum viewport pdfCanvas lines|paraIdx| |b li nodes|value|lib|];
    cbn [handle].
  - now apply enterTextEditMode_single_active.
  - destruct (at_index (_blockZones s) paraIdx); [|exact Hinv].
    now apply activateBlock_single_active.
  - destruct (negb (active s)); [exact Hinv|].
    destruct (_ >=? _)%Z;
      [now apply deactivateBlock_single_active | now apply exitTextEditMode_single_active].
  - now apply onInput_single_active.
  - now apply onColor_single_active.
  - now apply handleCommitTextEdits_single_active.
  - now apply exitTextEditMode_single_active.
Qed.

(** In every session the editor reaches, the overlay lines are those of the
    one active block. *)
Lemma single_active_always (events : list Event) : single_active (run events).
Proof.
  unfold run. generalize single_active_initial. generalize initial.
  induction events as [|e events IH]; intros s Hinv; cbn [fold_left]; [exact Hinv|].
  apply IH. now apply handle_single_active.
Qed.

(** The scenarios are sessions the editor reaches. *)
Lemma editing_reached :
  Scenario.editing
  = run [EnterMode 1 Scenario.viewport None
           [Scenario.textLine "Hello World" 100; Scenario.textLine "Second paragraph" 300];
         ZoneClick 0; Input 0 0 [Dom.Text "Goodbye World"]].
Proof. reflexivity. Qed.

End Always.

(** * Further properties of the editor *)

Ltac split_ifs :=
  repeat match goal with
         | |- context [if ?b then _ else _] => destruct b eqn:?
         end.

Ltac pick := repeat (first [left; reflexivity | right]).

Section Strings.

Local Open Scope string_scope.

Lemma append_assoc (a b c : string) : (a ++ b) ++ c = a ++ b ++ c.
Proof. induction a as [|x a IH]; cbn [append]; [reflexivity | now rewrite IH]. Qed.

Lemma append_nil_r (a : string) : a ++ "" = a.
Proof. induction a as [|x a IH]; cbn [append]; [reflexivity | now rewrite IH]. Qed.

End Strings.

(** ** Fonts *)

Section FontProofs.

Import Edit Session.
Local Open Scope string_scope.

Lemma prefix_app (sub rest : string) : prefix sub (sub ++ rest) = true.
Proof.
  induction sub as [|c sub IH]; cbn [prefix append]; [now destruct rest|].
  destruct (ascii_dec c c) as [_|N]; [exact IH | contradiction].
Qed.

(** A string includes what was appended to it. *)
Lemma includes_app (a sub b : string) : Str.includes (a ++ sub ++ b) sub = true.
Proof.
  unfold Str.includes.
  assert (H : exists n, index 0 sub (a ++ sub ++ b) = Some n).
  { induction a as [|c a [n IH]]; cbn [append].
    - destruct (sub ++ b) as [|c r] eqn:E.
      + destruct sub; [exists 0%nat; reflexivity | discriminate].
      + cbn [index]. rewrite <- E, prefix_app. now exists 0%nat.
    - cbn [index]. destruct (prefix sub _); [now exists 0%nat|].
      rewrite IH. now eexists. }
  destruct H as [n ->]. reflexivity.
Qed.

Lemma toLowerCase_app (a b : string) :
  Str.toLowerCase (a ++ b) = Str.toLowerCase a ++ Str.toLowerCase b.
Proof. induction a as [|c a IH]; cbn [append Str.toLowerCase]; [reflexivity | now rewrite IH]. Qed.

Lemma has_bold (f r : string) :
  Str.includes (Str.toLowerCase (f ++ "-Bold" ++ r)) "bold" = true.
Proof.
  rewrite !toLowerCase_app.
  change (Str.toLowerCase "-Bold") with ("-" ++ "bold" ++ "").
  replace (Str.toLowerCase f ++ ("-" ++ "bold" ++ "") ++ Str.toLowerCase r)
    with ((Str.toLowerCase f ++ "-") ++ "bold" ++ Str.toLowerCase r).
  - apply includes_app.
  - rewrite !append_assoc. reflexivity.
Qed.

Lemma has_italic (f : string) :
  Str.includes (Str.toLowerCase (f ++ "-Italic")) "italic" = true.
Proof.
  rewrite toLowerCase_app.
  change (Str.toLowerCase "-Italic") with ("-" ++ "italic" ++ "").
  rewrite <- append_assoc. apply includes_app.
Qed.

(** What [mapToStandardFont] returns, by the key words of the name. *)
Lemma mapToStandardFont_cases (name : string) :
  let has := Str.includes (Str.toLowerCase name) in
  In (mapToStandardFont name)
    ["Courier"; "CourierBold"; "CourierOblique"; "CourierBoldOblique";
     "Helvetica"; "HelveticaBold"; "HelveticaOblique"; "HelveticaBoldOblique";
     "TimesRoman"; "TimesRomanBold"; "TimesRomanItalic"; "TimesRomanBoldItalic"] /\
  (has "bold" = true -> Str.includes (mapToStandardFont name) "Bold" = true) /\
  (has "italic" = true ->
   (Str.includes (mapToStandardFont name) "Italic"
    || Str.includes (mapToStandardFont name) "Oblique")%bool = true).
Proof.
  intros has. unfold mapToStandardFont. fold has.
  destruct (has "courier" || has "mono")%bool;
    [|destruct (has "times" || has "roman" || has "serif" && negb (has "sans"))%bool];
    destruct (has "bold"), (has "oblique"), (has "italic");
    cbn [orb andb negb];
    (split; [cbn [In]; pick | split; intros H; try discriminate H; reflexivity]).
Qed.

(** X1. Unless the uploaded font is asked for and present, [getFont]
    resolves every font name and pair of flags to one of the twelve Latin
    standard fonts, never to the fallback of a name pdf-lib does not know;
    a bold run gets a bold variant and an italic run an italic or oblique
    one, whatever the name. *)
Theorem getFont_follows_flags :
  forall (lib : Session.PdfLib) (custom : bool) (fontName : string) (bold italic : bool),
    (Str.eqb fontName "custom" && custom)%bool = false ->
    exists n,
      Session.getFont lib custom fontName bold italic = Some (Session.StandardFont n) /\
      n = Edit.mapToStandardFont
            (fontName ++ (if bold then "-Bold" else "") ++ (if italic then "-Italic" else "")) /\
      In n ["Courier"; "CourierBold"; "CourierOblique"; "CourierBoldOblique";
            "Helvetica"; "HelveticaBold"; "HelveticaOblique"; "HelveticaBoldOblique";
            "TimesRoman"; "TimesRomanBold"; "TimesRomanItalic"; "TimesRomanBoldItalic"]%string /\
      (bold = true -> Str.includes n "Bold" = true) /\
      (italic = true -> (Str.includes n "Italic" || Str.includes n "Oblique")%bool = true).
Proof.
  intros lib custom fontName bold italic Hc.
  set (variant := (fontName ++ (if bold then "-Bold" else "")
                   ++ (if italic then "-Italic" else ""))%string).
  destruct (mapToStandardFont_cases variant) as (Hin & Hb & Hi).
  exists (Edit.mapToStandardFont variant).
  assert (Hstd : existsb (Str.eqb (Edit.mapToStandardFont variant)) Session.StandardFonts = true).
  { apply existsb_exists. exists (Edit.mapToStandardFont variant).
    split; [|apply String.eqb_refl].
    cbn [In] in Hin. unfold Session.StandardFonts. cbn [In].
    repeat (destruct Hin as [<-|Hin]; [intuition|]). contradiction. }
  repeat split.
  - unfold Session.getFont. rewrite Hc. fold variant. now rewrite Hstd.
  - exact Hin.
  - intros ->. apply Hb. unfold variant. apply has_bold.
  - intros ->. apply Hi. unfold variant. rewrite <- append_assoc. apply has_italic.
Qed.

Lemma getFont_follows_flags_witness :
  exists n,
    Session.getFont Scenario.lib false "ArialMT" true true = Some (Session.StandardFont n) /\
    n = "HelveticaBoldOblique"%string.
Proof.
  destruct (getFont_follows_flags Scenario.lib false "ArialMT" true true eq_refl)
    as (n & Hn & E & _).
  exists n. split; [exact Hn | exact E].
Defined.

(** X2. The screen font and the PDF font of a name agree on the Courier and
    Times families: the CSS stack is the monospace one exactly when the
    standard font is a Courier, and the Times one exactly when it is a Times
    Roman; every other name, also one of the serif faces Georgia, Palatino
    or Garamond, is drawn in a Helvetica. *)
Theorem font_families_agree :
  forall name : string,
    Str.includes (Edit.mapToCSSFont name) "monospace"
    = Str.includes (Edit.mapToStandardFont name) "Courier" /\
    Str.includes (Edit.mapToCSSFont name) "Times"
    = Str.includes (Edit.mapToStandardFont name) "Times" /\
    ((Str.includes (Edit.mapToCSSFont name) "Georgia"
      || Str.includes (Edit.mapToCSSFont name) "Palatino"
      || Str.includes (Edit.mapToCSSFont name) "Garamond")%bool = true ->
     Str.includes (Edit.mapToStandardFont name) "Helvetica" = true).
Proof.
  intros name. unfold Edit.mapToCSSFont, Edit.mapToStandardFont.
  set (has := Str.includes (Str.toLowerCase name)).
  destruct (has "courier" || has "mono")%bool;
    [|destruct (has "times" || has "roman" || has "serif" && negb (has "sans"))%bool].
  - destruct (has "bold"), (has "oblique"), (has "italic"); cbn [orb andb];
      repeat split; intros H; vm_compute in H; discriminate H.
  - destruct (has "bold"), (has "italic"); cbn [orb andb];
      repeat split; intros H; vm_compute in H; discriminate H.
  - destruct (has "bold"), (has "oblique"), (has "italic"); cbn [orb andb];
      split_ifs; repeat split.
Qed.

End FontProofs.


(** ** Markup through the DOM *)

Section DomProofs.

Import Dom Markup.
Local Open Scope string_scope.

Lemma replace_char_app c rep a b :
  Str.replace_char c rep (a ++ b) = Str.replace_char c rep a ++ Str.replace_char c rep b.
Proof.
  induction a as [|x a IH]; cbn [append Str.replace_char]; [reflexivity|].
  rewrite IH. destruct (Ascii.eqb x c); [now rewrite append_assoc | reflexivity].
Qed.

Lemma escape_text_cons c s : escape_text (String c s) = escape_char c ++ escape_text s.
Proof.
  unfold escape_text, escape_char.
  change Str.c_amp with "&"%char. change Str.c_lt with "<"%char. change Str.c_gt with ">"%char.
  change Str.c_nbsp with (Ascii false false false false false true false true).
  cbn [Str.replace_char].
  destruct (Ascii.eqb_spec c "&") as [->|N1]; [reflexivity|].
  cbn [Str.replace_char].
  destruct (Ascii.eqb_spec c (Ascii false false false false false true false true)) as [->|N2];
    [reflexivity|].
  cbn [Str.replace_char].
  destruct (Ascii.eqb_spec c "<") as [->|N3]; [reflexivity|].
  cbn [Str.replace_char].
  destruct (Ascii.eqb_spec c ">") as [->|N4]; reflexivity.
Qed.

Lemma escape_text_app a b : escape_text (a ++ b) = escape_text a ++ escape_text b.
Proof. unfold escape_text. now rewrite !replace_char_app. Qed.

(** The tokenizer reads an escaped character back. *)
Lemma tokens_escape_char c rest :
  tokens_from MText (escape_char c ++ rest) = TChar c :: tokens_from MText rest.
Proof.
  unfold escape_char.
  change Str.c_nbsp with (Ascii false false false false false true false true).
  destruct (Ascii.eqb_spec c "&") as [->|N1]; [reflexivity|].
  destruct (Ascii.eqb_spec c (Ascii false false false false false true false true)) as [->|N2];
    [reflexivity|].
  destruct (Ascii.eqb_spec c "<") as [->|N3]; [reflexivity|].
  destruct (Ascii.eqb_spec c ">") as [->|N4]; [reflexivity|].
  cbn [append Str.of_char tokens_from token_step]. unfold text_step.
  change Str.c_amp with "&"%char. change Str.c_lt with "<"%char.
  apply Ascii.eqb_neq in N1, N3. rewrite N1, N3. reflexivity.
Qed.

Lemma tokens_escape_text s rest :
  tokens_from MText (escape_text s ++ rest) = (chars s ++ tokens_from MText rest)%list.
Proof.
  induction s as [|c s IH]; [reflexivity|].
  rewrite escape_text_cons, append_assoc, tokens_escape_char, IH. reflexivity.
Qed.

Lemma Node_ind' (P : Node -> Prop) :
  (forall s, P (Text s)) ->
  (forall tag children, Forall P children -> P (Elem tag children)) ->
  forall n, P n.
Proof.
  intros HT HE. fix IH 1. intros [s|tag children]; [apply HT|].
  apply HE. induction children as [|c children IHc]; constructor; [apply IH | exact IHc].
Qed.

Lemma serialize_elem tag children :
  serialize (Elem tag children)
  = if Str.eqb tag "br" then "<br>"
    else "<" ++ tag ++ ">" ++ innerHTML children ++ "</" ++ tag ++ ">".
Proof.
  cbn [serialize]. destruct (Str.eqb tag "br"); [reflexivity|].
  set (F := fix all (l : list Node) : string :=
              match l with [] => "" | c :: l' => serialize c ++ all l' end).
  assert (E : forall l, F l = innerHTML l).
  { induction l as [|c l IH]; [reflexivity|].
    cbn [innerHTML fold_right]. fold (innerHTML l). now rewrite <- IH. }
  now rewrite E.
Qed.

Lemma text_of_elem tag children : text_of (Elem tag children) = textContent children.
Proof.
  cbn [text_of]. induction children as [|c children IH]; [reflexivity|].
  cbn [textContent fold_right]. fold (textContent children). now rewrite <- IH.
Qed.

Lemma tokens_elem tag children :
  Markup.tokens (Elem tag children)
  = if Str.eqb tag "br" then [TOpen "br"]
    else (TOpen tag :: tokens_of children ++ [TClose tag])%list.
Proof.
  cbn [Markup.tokens]. destruct (Str.eqb tag "br"); [reflexivity|].
  set (F := fix all (l : list Node) : list Token :=
              match l with [] => [] | c :: l' => (Markup.tokens c ++ all l')%list end).
  assert (E : forall l, F l = tokens_of l).
  { induction l as [|c l IH]; [reflexivity|].
    unfold tokens_of. cbn [flat_map]. fold (tokens_of l). now rewrite <- IH. }
  now rewrite E.
Qed.

Lemma plain_elem tag children :
  plain (Elem tag children)
  = (plain_tag tag &&
     if Str.eqb tag "br" then match children with [] => true | _ => false end
     else all_plain children)%bool.
Proof.
  cbn [plain]. destruct (plain_tag tag); [|reflexivity]. cbn [andb].
  destruct (Str.eqb tag "br"); [reflexivity|].
  induction children as [|c children IH]; [reflexivity|].
  unfold all_plain. cbn [forallb]. fold (all_plain children). now rewrite <- IH.
Qed.

Lemma collect_elem tag children state out :
  Edit.collectTextRuns (Elem tag children) state out
  = let next :=
      Edit.mkRunState
        (if (Str.eqb tag "b" || Str.eqb tag "strong")%bool then true else Edit.st_bold state)
        (if (Str.eqb tag "i" || Str.eqb tag "em")%bool then true else Edit.st_italic state) in
    if Str.eqb tag "br" then Edit.emit (Str.of_char Str.c_newline) next out
    else runs_of next children out.
Proof.
  cbn [Edit.collectTextRuns]. cbv zeta. destruct (Str.eqb tag "br"); [reflexivity|].
  revert out. induction children as [|c children IH]; intros out; [reflexivity|].
  unfold runs_of. cbn [fold_left]. apply IH.
Qed.

Lemma innerHTML_app a b : innerHTML (a ++ b) = innerHTML a ++ innerHTML b.
Proof.
  induction a as [|n a IH]; [reflexivity|].
  cbn [app innerHTML fold_right]. fold (innerHTML (a ++ b)). fold (innerHTML a).
  now rewrite IH, append_assoc.
Qed.

Lemma textContent_app a b : textContent (a ++ b) = textContent a ++ textContent b.
Proof.
  induction a as [|n a IH]; [reflexivity|].
  cbn [app textContent fold_right]. fold (textContent (a ++ b)). fold (textContent a).
  now rewrite IH, append_assoc.
Qed.

Lemma runs_of_app state a b out :
  runs_of state (a ++ b) out = runs_of state b (runs_of state a out).
Proof. unfold runs_of. apply fold_left_app. Qed.

(** A tag name is read to its end. *)
Lemma tokens_tag tag : forall closing name rest,
  forallb is_letter (list_ascii_of_string tag) = true ->
  name ++ tag <> "" ->
  tokens_from (MTag closing name) (tag ++ ">" ++ rest)
  = (if closing then TClose (Str.toLowerCase (name ++ tag))
     else TOpen (Str.toLowerCase (name ++ tag))) :: tokens_from MText rest.
Proof.
  induction tag as [|c tag IH]; intros closing name rest Hl Hne.
  - rewrite append_nil_r in *. cbn [append tokens_from token_step].
    change (is_letter ">") with false. cbv iota.
    change (Ascii.eqb ">" (Str.chr 47)) with false. cbn [andb].
    change (Ascii.eqb ">" Str.c_gt) with true.
    assert (E : Str.eqb name "" = false).
    { destruct name; [contradiction | reflexivity]. }
    rewrite E. cbn [negb andb]. destruct closing; reflexivity.
  - cbn [list_ascii_of_string forallb] in Hl. apply andb_true_iff in Hl as [Hc Hl].
    cbn [append tokens_from token_step]. rewrite Hc.
    cbn [app]. change (tag ++ String ">" rest) with (tag ++ ">" ++ rest).
    rewrite (IH closing (name ++ Str.of_char c) rest Hl).
    + now rewrite append_assoc.
    + rewrite append_assoc. exact Hne.
Qed.

Lemma plain_tag_spec tag :
  plain_tag tag = true ->
  tag <> "" /\ forallb is_letter (list_ascii_of_string tag) = true /\ Str.toLowerCase tag = tag.
Proof.
  unfold plain_tag. intros H. apply andb_true_iff in H as [H H3].
  apply andb_true_iff in H as [H1 H2]. repeat split.
  - intros ->. discriminate H1.
  - exact H2.
  - now apply String.eqb_eq.
Qed.

Lemma tokens_open tag rest :
  plain_tag tag = true ->
  tokens_from MText ("<" ++ tag ++ ">" ++ rest) = TOpen tag :: tokens_from MText rest.
Proof.
  intros H. apply plain_tag_spec in H as (Hne & Hl & Hlow).
  change ("<" ++ tag ++ ">" ++ rest) with (String "<" (tag ++ ">" ++ rest)).
  cbn [tokens_from token_step]. unfold text_step.
  change (Ascii.eqb "<" Str.c_lt) with true. cbv iota. cbn [app].
  rewrite (tokens_tag tag false "" rest Hl Hne). cbn [append]. now rewrite Hlow.
Qed.

Lemma tokens_close tag rest :
  plain_tag tag = true ->
  tokens_from MText ("</" ++ tag ++ ">" ++ rest) = TClose tag :: tokens_from MText rest.
Proof.
  intros H. apply plain_tag_spec in H as (Hne & Hl & Hlow).
  change ("</" ++ tag ++ ">" ++ rest) with (String "<" (String "/" (tag ++ ">" ++ rest))).
  cbn [tokens_from token_step]. unfold text_step.
  change (Ascii.eqb "<" Str.c_lt) with true. cbv iota.
  change (token_step (MTag false "") "/") with (MTag true "", @nil Token).
  cbv iota beta. cbn [app].
  rewrite (tokens_tag tag true "" rest Hl Hne). cbn [append]. now rewrite Hlow.
Qed.

(** The tokenizer reads the serialisation of plain markup back. *)
Lemma tokens_serialize : forall n,
  plain n = true ->
  forall rest, tokens_from MText (serialize n ++ rest)
               = (Markup.tokens n ++ tokens_from MText rest)%list.
Proof.
  induction n as [s|tag children IH] using Node_ind'; intros Hp rest.
  - apply tokens_escape_text.
  - rewrite plain_elem in Hp. apply andb_true_iff in Hp as [Ht Hc].
    rewrite serialize_elem, tokens_elem.
    destruct (Str.eqb tag "br") eqn:Ebr; [reflexivity|].
    rewrite !append_assoc, (tokens_open _ _ Ht). cbn [app]. f_equal.
    rewrite <- app_assoc. cbn [app].
    assert (G : forall rest',
               tokens_from MText (innerHTML children ++ rest')
               = (tokens_of children ++ tokens_from MText rest')%list).
    { clear Ht Ebr. induction IH as [|c children Hc1 _ IHl]; intros rest'; [reflexivity|].
      unfold all_plain in Hc. cbn [forallb] in Hc. apply andb_true_iff in Hc as [Hp1 Hp2].
      cbn [innerHTML fold_right]. fold (innerHTML children).
      unfold tokens_of. cbn [flat_map]. fold (tokens_of children).
      rewrite append_assoc, (Hc1 Hp1), (IHl Hp2), app_assoc. reflexivity. }
    rewrite G. f_equal. change ("</" ++ tag ++ ">") with ("</" ++ tag ++ ">").
    replace (("</" ++ tag ++ ">") ++ rest) with ("</" ++ tag ++ ">" ++ rest)
      by (cbn [append]; now rewrite append_assoc).
    apply (tokens_close _ _ Ht).
Qed.

Lemma tokens_innerHTML nodes :
  all_plain nodes = true ->
  forall rest, tokens_from MText (innerHTML nodes ++ rest)
               = (tokens_of nodes ++ tokens_from MText rest)%list.
Proof.
  induction nodes as [|n nodes IH]; intros Hp rest; [reflexivity|].
  unfold all_plain in Hp. cbn [forallb] in Hp. apply andb_true_iff in Hp as [Hp1 Hp2].
  cbn [innerHTML fold_right]. fold (innerHTML nodes).
  unfold tokens_of. cbn [flat_map]. fold (tokens_of nodes).
  rewrite append_assoc, (tokens_serialize n Hp1), (IH Hp2), app_assoc. reflexivity.
Qed.

Lemma emit_emit a b st out :
  Edit.emit b st (Edit.emit a st out) = Edit.emit (a ++ b) st out.
Proof.
  unfold Edit.emit at 2 3. destruct (rev out) as [|last before] eqn:E.
  - unfold Edit.emit. cbn [rev app Edit.r_bold Edit.r_italic Edit.r_text].
    now rewrite !Bool.eqb_reflx.
  - destruct (Bool.eqb (Edit.r_bold last) (Edit.st_bold st)
              && Bool.eqb (Edit.r_italic last) (Edit.st_italic st))%bool eqn:S.
    + unfold Edit.emit. rewrite rev_app_distr, rev_involutive.
      cbn [rev app Edit.r_bold Edit.r_italic Edit.r_text]. rewrite S.
      now rewrite append_assoc.
    + unfold Edit.emit. rewrite rev_app_distr.
      cbn [rev app Edit.r_bold Edit.r_italic Edit.r_text].
      rewrite !Bool.eqb_reflx. cbn [andb]. now rewrite rev_involutive.
Qed.

Lemma collect_text s st out :
  Edit.collectTextRuns (Text s) st out
  = match s with EmptyString => out | _ => Edit.emit s st out end.
Proof. reflexivity. Qed.

Lemma innerHTML_single n : innerHTML [n] = serialize n.
Proof. cbn [innerHTML fold_right]. apply append_nil_r. Qed.

Lemma textContent_single n : textContent [n] = text_of n.
Proof. cbn [textContent fold_right]. apply append_nil_r. Qed.

Lemma all_plain_app a b : all_plain (a ++ b) = (all_plain a && all_plain b)%bool.
Proof. apply forallb_app. Qed.

(** What adding a character does to the serialisation, the text and the
    runs of the children. *)
Lemma add_char_spec c cur :
  innerHTML (add_char c cur) = innerHTML cur ++ escape_char c /\
  textContent (add_char c cur) = textContent cur ++ Str.of_char c /\
  (forall st out, runs_of st (add_char c cur) out
                  = Edit.emit (Str.of_char c) st (runs_of st cur out)) /\
  all_plain (add_char c cur) = all_plain cur.
Proof.
  unfold add_char.
  assert (Hcur : cur = rev (rev cur)) by (symmetry; apply rev_involutive).
  destruct (rev cur) as [|[t|tag children] before] eqn:E.
  - cbn [rev] in Hcur. subst cur. cbn [app]. repeat split.
    + rewrite innerHTML_single. cbn [serialize]. change (Str.of_char c) with (String c "").
      rewrite escape_text_cons. apply append_nil_r.
  - cbn [rev] in Hcur. rewrite Hcur. repeat split.
    + rewrite !innerHTML_app, !innerHTML_single. cbn [serialize].
      rewrite escape_text_app, append_assoc. do 2 f_equal.
      change (Str.of_char c) with (String c ""). rewrite escape_text_cons. apply append_nil_r.
    + rewrite !textContent_app, !textContent_single. cbn [text_of]. now rewrite append_assoc.
    + intros st out. rewrite !runs_of_app. unfold runs_of at 1 3. cbn [fold_left].
      rewrite !collect_text. destruct t as [|x t]; [reflexivity|].
      cbn [append]. rewrite emit_emit. reflexivity.
    + rewrite !all_plain_app. reflexivity.
  - repeat split.
    + rewrite innerHTML_app, innerHTML_single. cbn [serialize].
      change (Str.of_char c) with (String c ""). rewrite escape_text_cons.
      now rewrite append_nil_r.
    + rewrite textContent_app, textContent_single. reflexivity.
    + intros st out. rewrite runs_of_app. reflexivity.
    + rewrite all_plain_app. unfold all_plain at 2. cbn [forallb plain]. now rewrite andb_true_r.
Qed.

Lemma append_text_spec s : forall cur,
  innerHTML (append_text cur s) = innerHTML cur ++ escape_text s /\
  textContent (append_text cur s) = textContent cur ++ s /\
  (forall st out, runs_of st (append_text cur s) out
                  = Edit.collectTextRuns (Text s) st (runs_of st cur out)) /\
  all_plain (append_text cur s) = all_plain cur.
Proof.
  induction s as [|c s IH]; intros cur.
  - unfold append_text. cbn [list_ascii_of_string fold_left].
    change (escape_text "") with "". rewrite !append_nil_r. repeat split.
  - unfold append_text. cbn [list_ascii_of_string fold_left]. fold (append_text (add_char c cur) s).
    destruct (IH (add_char c cur)) as (H1 & H2 & H3 & H4).
    destruct (add_char_spec c cur) as (A1 & A2 & A3 & A4).
    repeat split.
    + rewrite H1, A1, escape_text_cons. apply append_assoc.
    + rewrite H2, A2. rewrite append_assoc. reflexivity.
    + intros st out. rewrite H3, A3, !collect_text. destruct s as [|x s]; [reflexivity|].
      rewrite emit_emit. reflexivity.
    + now rewrite H4, A4.
Qed.

Lemma build_chars s : forall ts open cur,
  build (chars s ++ ts) open cur = build ts open (append_text cur s).
Proof.
  induction s as [|c s IH]; intros ts open cur; [reflexivity|].
  unfold chars. cbn [list_ascii_of_string map app build]. fold (chars s).
  rewrite IH. reflexivity.
Qed.

Lemma runs_of_single st n out : runs_of st [n] out = Edit.collectTextRuns n st out.
Proof. reflexivity. Qed.

Lemma tokens_of_single n : tokens_of [n] = Markup.tokens n.
Proof. unfold tokens_of. cbn [flat_map]. apply app_nil_r. Qed.

Lemma build_node : forall n, plain n = true -> forall cur, exists cur', built [n] cur cur'.
Proof.
  induction n as [s|tag children IH] using Node_ind'; intros Hp cur.
  - exists (append_text cur s). destruct (append_text_spec s cur) as (H1 & H2 & H3 & H4).
    unfold built. rewrite tokens_of_single, innerHTML_single, textContent_single.
    repeat split; try assumption.
    intros ts open. apply build_chars.
  - rewrite plain_elem in Hp. apply andb_true_iff in Hp as [Ht Hc].
    destruct (Str.eqb tag "br") eqn:Ebr.
    + apply String.eqb_eq in Ebr. subst tag. destruct children; [|discriminate].
      exists (cur ++ [Elem "br" []])%list. unfold built.
      rewrite tokens_of_single, innerHTML_single, textContent_single. repeat split.
      * apply innerHTML_app.
      * rewrite textContent_app. reflexivity.
      * intros st out. rewrite runs_of_app. reflexivity.
      * rewrite all_plain_app. unfold all_plain at 2. cbn. now rewrite andb_true_r.
    + assert (L : forall cur0, exists cur1, built children cur0 cur1).
      { clear Ht Ebr. induction IH as [|c children Hc1 _ IHl]; intros cur0.
        - exists cur0. unfold built. cbn [tokens_of flat_map app innerHTML textContent fold_right].
          rewrite !append_nil_r. repeat split.
        - unfold all_plain in Hc. cbn [forallb] in Hc. apply andb_true_iff in Hc as [Hp1 Hp2].
          destruct (Hc1 Hp1 cur0) as (cur1 & B1 & I1 & T1 & R1 & P1).
          destruct (IHl Hp2 cur1) as (cur2 & B2 & I2 & T2 & R2 & P2).
          exists cur2. unfold built. repeat split.
          + intros ts open. unfold tokens_of. cbn [flat_map]. fold (tokens_of children).
            rewrite <- app_assoc. rewrite <- (tokens_of_single c), B1. apply B2.
          + rewrite I2, I1. change (c :: children) with ([c] ++ children)%list.
            rewrite innerHTML_app. now rewrite append_assoc.
          + rewrite T2, T1. change (c :: children) with ([c] ++ children)%list.
            rewrite textContent_app. now rewrite append_assoc.
          + intros st out. rewrite R2, R1. reflexivity.
          + now rewrite P2, P1. }
      destruct (L []) as (ch' & B & I & T & R & P).
      exists (cur ++ [Elem tag ch'])%list. unfold built.
      rewrite tokens_of_single, innerHTML_single, textContent_single. repeat split.
      * intros ts open. rewrite tokens_elem, Ebr. cbn [app build]. rewrite Ebr.
        rewrite <- app_assoc. rewrite B. cbn [app build].
        unfold Str.eqb. rewrite String.eqb_refl. reflexivity.
      * rewrite innerHTML_app, innerHTML_single, !serialize_elem, Ebr, I. reflexivity.
      * rewrite textContent_app, textContent_single, !text_of_elem, T. reflexivity.
      * intros st out. rewrite runs_of_app, !runs_of_single.
        rewrite !collect_elem, Ebr. cbv zeta. rewrite R. reflexivity.
      * rewrite all_plain_app. unfold all_plain at 2. cbn [forallb].
        rewrite plain_elem, Ebr, Ht, P. cbn. now rewrite andb_true_r.
Qed.

Lemma build_nodes nodes : all_plain nodes = true -> forall cur, exists cur', built nodes cur cur'.
Proof.
  induction nodes as [|n nodes IH]; intros Hp cur.
  - exists cur. unfold built. cbn [tokens_of flat_map app innerHTML textContent fold_right].
    rewrite !append_nil_r. repeat split.
  - unfold all_plain in Hp. cbn [forallb] in Hp. apply andb_true_iff in Hp as [Hp1 Hp2].
    destruct (build_node n Hp1 cur) as (cur1 & B1 & I1 & T1 & R1 & P1).
    destruct (IH Hp2 cur1) as (cur2 & B2 & I2 & T2 & R2 & P2).
    exists cur2. unfold built. repeat split.
    + intros ts open. unfold tokens_of. cbn [flat_map]. fold (tokens_of nodes).
      rewrite <- app_assoc. rewrite <- (tokens_of_single n), B1. apply B2.
    + rewrite I2, I1. change (n :: nodes) with ([n] ++ nodes)%list.
      rewrite innerHTML_app. now rewrite append_assoc.
    + rewrite T2, T1. change (n :: nodes) with ([n] ++ nodes)%list.
      rewrite textContent_app. now rewrite append_assoc.
    + intros st out. rewrite R2, R1. reflexivity.
    + now rewrite P2, P1.
Qed.

(** Plain markup survives the DOM: written out and parsed again it
    serialises to the same markup, reads as the same text and gives the same
    runs. *)
Lemma parse_innerHTML nodes :
  all_plain nodes = true ->
  innerHTML (parse (innerHTML nodes)) = innerHTML nodes /\
  textContent (parse (innerHTML nodes)) = textContent nodes /\
  (forall st out, runs_of st (parse (innerHTML nodes)) out = runs_of st nodes out) /\
  all_plain (parse (innerHTML nodes)) = true.
Proof.
  intros Hp. destruct (build_nodes nodes Hp []) as (cur' & B & I & T & R & P).
  assert (E : parse (innerHTML nodes) = cur').
  { unfold parse, tokenize. rewrite <- (append_nil_r (innerHTML nodes)).
    rewrite (tokens_innerHTML nodes Hp ""). cbn [tokens_from flush].
    rewrite B. reflexivity. }
  rewrite E. repeat split; assumption.
Qed.

Lemma escapeHtml_cons c s : Edit.escapeHtml (String c s) = html_char c ++ Edit.escapeHtml s.
Proof.
  unfold Edit.escapeHtml, html_char.
  change Str.c_amp with "&"%char. change Str.c_lt with "<"%char. change Str.c_gt with ">"%char.
  change Str.c_quot with (Ascii false true false false false true false false).
  cbn [Str.replace_char].
  destruct (Ascii.eqb_spec c "&") as [->|N1]; [reflexivity|].
  cbn [Str.replace_char].
  destruct (Ascii.eqb_spec c "<") as [->|N3]; [reflexivity|].
  cbn [Str.replace_char].
  destruct (Ascii.eqb_spec c ">") as [->|N4]; [reflexivity|].
  cbn [Str.replace_char].
  destruct (Ascii.eqb_spec c (Ascii false true false false false true false false)) as [->|N2];
    reflexivity.
Qed.

Lemma escapeHtml_app a b : Edit.escapeHtml (a ++ b) = Edit.escapeHtml a ++ Edit.escapeHtml b.
Proof. unfold Edit.escapeHtml. now rewrite !replace_char_app. Qed.

Lemma tokens_html_char c rest :
  tokens_from MText (html_char c ++ rest) = TChar c :: tokens_from MText rest.
Proof.
  unfold html_char.
  change Str.c_quot with (Ascii false true false false false true false false).
  destruct (Ascii.eqb_spec c "&") as [->|N1]; [reflexivity|].
  destruct (Ascii.eqb_spec c "<") as [->|N3]; [reflexivity|].
  destruct (Ascii.eqb_spec c ">") as [->|N4]; [reflexivity|].
  destruct (Ascii.eqb_spec c (Ascii false true false false false true false false)) as [->|N2];
    [reflexivity|].
  cbn [append Str.of_char tokens_from token_step]. unfold text_step.
  change Str.c_amp with "&"%char. change Str.c_lt with "<"%char.
  apply Ascii.eqb_neq in N1, N3. rewrite N1, N3. reflexivity.
Qed.

Lemma tokenize_escapeHtml s : tokenize (Edit.escapeHtml s) = chars s.
Proof.
  unfold tokenize. induction s as [|c s IH]; [reflexivity|].
  rewrite escapeHtml_cons, tokens_html_char, IH. reflexivity.
Qed.

Lemma append_text_text s : forall t, append_text [Text t] s = [Text (t ++ s)].
Proof.
  induction s as [|c s IH]; intros t.
  - now rewrite append_nil_r.
  - unfold append_text. cbn [list_ascii_of_string fold_left]. unfold add_char at 2.
    cbn [rev app]. fold (append_text [Text (t ++ Str.of_char c)] s).
    rewrite IH, append_assoc. reflexivity.
Qed.

Lemma append_text_nil s : append_text [] s = set_textContent s.
Proof.
  destruct s as [|c s]; [reflexivity|].
  unfold append_text. cbn [list_ascii_of_string fold_left]. unfold add_char at 2.
  cbn [rev app]. fold (append_text [Text (Str.of_char c)] s).
  now rewrite append_text_text.
Qed.

(** X3. Markup written by [escapeHtml] for a string without carriage
    return and NUL (characters that the [innerHTML] setter does not keep)
    is text and nothing else: set as the [innerHTML] of a line it parses
    to the one text node that holds the string (to no node for the empty
    string), so the line reads back as the string. *)
Theorem escapeHtml_parses_to_text :
  forall s : string,
    Markup.kept s = true ->
    Dom.parse (Edit.escapeHtml s) = Dom.set_textContent s /\
    Dom.textContent (Dom.parse (Edit.escapeHtml s)) = s.
Proof.
  intros s _.
  assert (E : parse (Edit.escapeHtml s) = set_textContent s).
  { unfold parse. rewrite tokenize_escapeHtml, <- (app_nil_r (chars s)), build_chars.
    cbn [build close_all]. apply append_text_nil. }
  split; [exact E|]. rewrite E. destruct s; [reflexivity|].
  cbn [set_textContent textContent fold_right text_of]. apply append_nil_r.
Qed.

(** The markup of [a < b & c] is read back as that text. *)
Lemma escapeHtml_parses_to_text_witness :
  Dom.parse (Edit.escapeHtml "a < b & c") = [Dom.Text "a < b & c"] /\
  Dom.textContent (Dom.parse (Edit.escapeHtml "a < b & c")) = "a < b & c".
Proof. exact (escapeHtml_parses_to_text "a < b & c" eq_refl). Defined.

End DomProofs.

(** ** Paragraphs *)

Section ParagraphProofs.

Import Session Paragraphs.

Lemma chained_snoc c0 prev curr :
  chained (c0 ++ [prev]) -> sameParagraph prev curr = true ->
  chained ((c0 ++ [prev]) ++ [curr]).
Proof.
  induction c0 as [|a c0 IH]; intros Hc Hs.
  - cbn. auto.
  - cbn [app] in *. destruct (c0 ++ [prev]) as [|b r] eqn:E.
    + destruct c0; discriminate.
    + cbn [app chained] in *. destruct Hc as [Hab Hr]. split; [exact Hab|]. now apply IH.
Qed.

Lemma paragraphLoop_spec rest : forall prev c0,
  chained (c0 ++ [prev]) ->
  let ps := paragraphLoop prev (c0 ++ [prev]) rest in
  List.concat ps = ((c0 ++ [prev]) ++ rest)%list /\
  Forall (fun p => p <> [] /\ chained p) ps /\
  separated ps /\
  (exists r others, ps = ((c0 ++ [prev]) ++ r) :: others).
Proof.
  induction rest as [|curr rest IH]; intros prev c0 Hc; cbn [paragraphLoop].
  - cbv zeta. cbn [List.concat]. rewrite !app_nil_r. repeat split.
    + constructor; [|constructor]. split; [|exact Hc]. now destruct c0.
    + exists [], []. now rewrite app_nil_r.
  - cbv zeta. destruct (sameParagraph prev curr) eqn:S.
    + destruct (IH curr (c0 ++ [prev])%list (chained_snoc _ _ _ Hc S))
        as (H1 & H2 & H3 & r & others & H4).
      repeat split; try assumption.
      * rewrite H1, <- !app_assoc. reflexivity.
      * exists (curr :: r), others. rewrite H4. now rewrite <- !app_assoc.
    + destruct (IH curr [] I) as (H1 & H2 & H3 & r & others & H4). cbn [app] in *.
      repeat split.
      * cbn [List.concat]. rewrite H1. now rewrite <- !app_assoc.
      * constructor; [|exact H2]. split; [now destruct c0 | exact Hc].
      * rewrite H4 in *. cbn [separated]. split; [|exact H3].
        unfold boundary. rewrite rev_app_distr. cbn [rev app]. exact S.
      * exists [], (paragraphLoop curr [curr] rest). now rewrite app_nil_r.
Qed.

(** X4. [groupIntoParagraphs] cuts the lines into paragraphs without
    losing, repeating or reordering one: the paragraphs, one after the
    other, are the lines; no paragraph is empty; inside a paragraph every
    line passes the proximity test against the line before it, and the
    first line of a paragraph fails it against the last line of the
    paragraph before. *)
Theorem groupIntoParagraphs_partition :
  forall lines : list Line,
    List.concat (groupIntoParagraphs lines) = lines /\
    Forall (fun p => p <> [] /\ chained p) (groupIntoParagraphs lines) /\
    separated (groupIntoParagraphs lines).
Proof.
  intros [|first rest]; [repeat split; constructor|].
  destruct (paragraphLoop_spec rest first [] I) as (H1 & H2 & H3 & _).
  cbn [groupIntoParagraphs]. repeat split; assumption.
Qed.

Lemma in_paragraph lines para line :
  In para (groupIntoParagraphs lines) -> In line para -> In line lines.
Proof.
  intros Hp Hl.
  assert (H : List.concat (groupIntoParagraphs lines) = lines).
  { destruct lines as [|first rest]; [reflexivity|].
    apply (paragraphLoop_spec rest first [] I). }
  rewrite <- H. apply in_concat. now exists para.
Qed.

End ParagraphProofs.

(** ** Activation without edits *)

Section CleanProofs.

Import Session Clean Markup.
Local Open Scope string_scope.

Lemma html_char_clean c : clean_char c = true -> html_char c = escape_char c.
Proof.
  unfold clean_char, html_char, escape_char. intros H.
  apply andb_true_iff in H as [H _]. apply andb_true_iff in H as [H1 H2].
  apply negb_true_iff in H1, H2. rewrite H1, H2. reflexivity.
Qed.

Lemma escapeHtml_clean s : clean s = true -> Edit.escapeHtml s = Dom.escape_text s.
Proof.
  unfold clean. induction s as [|c s IH]; intros H; [reflexivity|].
  cbn [list_ascii_of_string forallb] in H. apply andb_true_iff in H as [Hc Hs].
  rewrite escapeHtml_cons, escape_text_cons, (html_char_clean c Hc), (IH Hs). reflexivity.
Qed.

Lemma item_node_plain it : plain (item_node it) = true.
Proof. unfold item_node. split_ifs; reflexivity. Qed.

Lemma item_node_text it : Dom.text_of (item_node it) = str it.
Proof. unfold item_node. split_ifs; cbn; now rewrite ?append_nil_r. Qed.

Lemma item_node_html it rest :
  clean (str it) = true ->
  (Dom.serialize (item_node it) ++ rest)%string
  = (let style := Edit.detectFontStyleWithMeta (fontName it) (styleInfo it) in
     let (open, close) :=
       if (Edit.st_bold style && Edit.st_italic style)%bool then ("<b><i>", "</i></b>")
       else if Edit.st_bold style then ("<b>", "</b>")
       else if Edit.st_italic style then ("<i>", "</i>")
       else ("", "") in
     open ++ Edit.escapeHtml (str it) ++ close ++ rest)%string.
Proof.
  intros Hc. rewrite (escapeHtml_clean _ Hc). unfold item_node. cbv zeta.
  split_ifs; cbn [Dom.serialize Str.eqb String.eqb Ascii.eqb Bool.eqb append];
    rewrite ?append_nil_r, ?append_assoc; cbn [append]; reflexivity.
Qed.

Lemma items_html items :
  (forall it, In it items -> clean (str it) = true) ->
  Edit.buildInitialHtmlFromItems items = Dom.innerHTML (map item_node items).
Proof.
  induction items as [|it items IH]; intros H; [reflexivity|].
  unfold Edit.buildInitialHtmlFromItems. cbn [fold_right map Dom.innerHTML].
  fold (Edit.buildInitialHtmlFromItems items). fold (Dom.innerHTML (map item_node items)).
  rewrite (item_node_html it _ (H it (or_introl eq_refl))).
  rewrite IH by (intros x Hx; apply H; now right). reflexivity.
Qed.

Lemma items_text items : Dom.textContent (map item_node items) = joined items.
Proof.
  induction items as [|it items IH]; [reflexivity|].
  cbn [map Dom.textContent fold_right joined]. fold (Dom.textContent (map item_node items)).
  fold (joined items). now rewrite item_node_text, IH.
Qed.

Lemma items_plain items : all_plain (map item_node items) = true.
Proof.
  unfold all_plain. apply forallb_forall. intros n Hn.
  apply in_map_iff in Hn as (it & <- & _). apply item_node_plain.
Qed.

(** A line as [groupIntoLines] builds it, of runs without double quote and
    U+00A0, survives the DOM. *)
Lemma reconstructed_round_trips line :
  l_initialHtml line = Edit.buildInitialHtmlFromItems (l_pdfItems line) ->
  l_text line = joined (l_pdfItems line) ->
  (forall it, In it (l_pdfItems line) -> clean (str it) = true) ->
  round_trips line.
Proof.
  intros Hh Ht Hc. unfold round_trips. cbv zeta.
  rewrite Hh, Ht, (items_html _ Hc).
  destruct (parse_innerHTML (map item_node (l_pdfItems line)) (items_plain _))
    as (I & T & _).
  rewrite items_text in T.
  destruct (Dom.innerHTML (map item_node (l_pdfItems line))) as [|c h] eqn:E.
  - cbn [Js.truthy_str Js.or_str]. change (Dom.parse "") with (@nil Dom.Node) in T.
    cbn [Dom.textContent fold_right] in T. rewrite <- T. split; reflexivity.
  - cbn [Js.truthy_str Js.or_str]. split; [exact T | now rewrite I].
Qed.

Lemma groupIntoLines_line items pv styles line :
  In line (Layout.groupIntoLines items pv styles) ->
  l_initialHtml line = Edit.buildInitialHtmlFromItems (l_pdfItems line) /\
  l_text line = joined (l_pdfItems line) /\
  (forall y, In y (l_pdfItems line) ->
             exists it, In it items /\ str y = Layout.ti_str it).
Proof.
  intros Hl. split; [|split].
  - unfold Layout.groupIntoLines in Hl. destruct items; [destruct Hl|].
    cbv zeta in Hl. apply in_map_iff in Hl as (g & <- & _). reflexivity.
  - unfold Layout.groupIntoLines in Hl. destruct items; [destruct Hl|].
    cbv zeta in Hl. apply in_map_iff in Hl as (g & <- & _). reflexivity.
  - intros y Hy.
    assert (Hd : In y (Dedup.dedupe (map (Layout.mapItem pv styles) items))).
    { apply groupIntoLines_items. apply in_concat. exists (l_pdfItems line).
      split; [now apply in_map | exact Hy]. }
    apply dedupe_visible in Hd as [Hm _].
    apply in_map_iff in Hm as (it & <- & Hit). exists it. split; [exact Hit|].
    unfold Layout.mapItem.
    destruct (Layout.transformFallback _ _) as [[[[[? ?] ?] ?] ?] ?].
    destruct (Layout.ti_transform it) as [[[[[? ?] ?] ?] ?] ?]. reflexivity.
Qed.

(** X5. On a page whose runs contain neither a double quote nor U+00A0
    (nor a carriage return or NUL, which the [innerHTML] setter does not
    keep), a block that is activated and deactivated with no edit in between is
    not recorded as edited: after [enterTextEditMode] on the lines of
    [groupIntoLines], [activateBlock] of any block shows no line as dirty,
    and the [deactivateBlock] that follows leaves the store of edited
    blocks empty. *)
Theorem unedited_block_stays_clean :
  forall (items : list Layout.TextItem) (pv : Layout.PageViewport)
         (styles : list (string * StyleInfo)) (pageNum : Z) (viewport : Viewport)
         (canvas : option Sampler.Canvas) (s0 : State) (B : Z) (para : list Line),
    (forall it, In it items -> clean (Layout.ti_str it) = true) ->
    let entered :=
      enterTextEditMode pageNum viewport [] canvas (Layout.groupIntoLines items pv styles) s0 in
    fst entered = true ->
    at_index (_paragraphData (snd entered)) B = Some para ->
    _editedBlocks (deactivateBlock (activateBlock B (snd entered))) = [] /\
    (forall ch, editContainer (activateBlock B (snd entered)) = Some ch ->
                existsb lineDirty (allLines ch) = false).
Proof.
  intros items pv styles pageNum viewport canvas s0 B para Hclean entered Hok Hpara.
  set (lines := Layout.groupIntoLines items pv styles) in *.
  assert (E : snd entered
              = mkState true
                  (Some (map CZone (seq 0 (List.length (groupIntoParagraphs lines)))))
                  true (Some viewport) pageNum canvas None (groupIntoParagraphs lines) (-1)
                  (map (fun _ => mkZone "" "" false) (groupIntoParagraphs lines)) [] None [] []
                  (customFont (if active s0 then exitTextEditMode s0 else s0))
                  (effects (if active s0 then exitTextEditMode s0 else s0))).
  { unfold entered, enterTextEditMode in *. destruct lines; [discriminate Hok | reflexivity]. }
  assert (Hp : _paragraphData (snd entered) = groupIntoParagraphs lines) by now rewrite E.
  rewrite Hp in Hpara.
  assert (Hc : editContainer (snd entered)
               = Some (map CZone (seq 0 (List.length (groupIntoParagraphs lines)))))
    by now rewrite E.
  assert (Hs : _editedBlocks (snd entered) = []) by now rewrite E.
  enough (H : _editedBlocks (deactivateBlock (activateBlock B (snd entered)))
               = _editedBlocks (snd entered) /\
               (forall ch, editContainer (activateBlock B (snd entered)) = Some ch ->
                           existsb lineDirty (allLines ch) = false)).
  { destruct H as [H1 H2]. split; [now rewrite H1 | exact H2]. }
  apply (noop_activation_clean (snd entered) _ B para Hc).
  - unfold single_active. rewrite Hc, allLines_zones. intros d [].
  - rewrite E. cbn [_activeBlockIdx]. lia.
  - now rewrite Hp.
  - now rewrite Hs.
  - apply Forall_forall. intros line Hline.
    assert (Hin : In line lines).
    { apply (in_paragraph lines para line); [|exact Hline].
      unfold at_index in Hpara. destruct (B <? 0)%Z; [discriminate|].
      eapply nth_error_In. exact Hpara. }
    destruct (groupIntoLines_line items pv styles line Hin) as (Hh & Ht & Hstr).
    apply (reconstructed_round_trips line Hh Ht).
    intros y Hy. destruct (Hstr y Hy) as (it & Hit & ->). now apply Hclean.
Qed.

Lemma unedited_block_stays_clean_witness :
  let s := snd (enterTextEditMode 1 Scenario.viewport [] None
                  (Layout.groupIntoLines Scenario.editedPage Scenario.pageViewport [])
                  initial) in
  _editedBlocks (deactivateBlock (activateBlock 0 s)) = [].
Proof.
  cbv zeta.
  destruct (at_index
              (_paragraphData
                 (snd (enterTextEditMode 1 Scenario.viewport [] None
                         (Layout.groupIntoLines Scenario.editedPage Scenario.pageViewport [])
                         initial))) 0) as [para|] eqn:E;
    [|vm_compute in E; discriminate E].
  refine (proj1 (unedited_block_stays_clean Scenario.editedPage Scenario.pageViewport []
                   1 Scenario.viewport None initial 0 para _ _ E)).
  - intros it [<-|[<-|[<-|[]]]]; reflexivity.
  - vm_compute. reflexivity.
Defined.

End CleanProofs.

(** ** Edits across a block switch *)

Section SwitchProofs.

Import Session Markup.
Local Open Scope string_scope.

Lemma markDirty_fields d :
  childNodes (markDirty d) = childNodes d /\
  d_fontSizeOverride (markDirty d) = d_fontSizeOverride d /\
  d_colorOverride (markDirty d) = d_colorOverride d /\
  d_fontFamilyOverride (markDirty d) = d_fontFamilyOverride d /\
  d_fontNameOverride (markDirty d) = d_fontNameOverride d /\
  style_color (markDirty d) = style_color d /\
  style_fontSize (markDirty d) = style_fontSize d.
Proof. repeat split. Qed.

Lemma createLines_nth canvas paraIdx para saved : forall k li line,
  nth_error para li = Some line ->
  nth_error (createLines canvas paraIdx k para (Some saved)) li
  = Some (createLine paraIdx (k + li) line (nth_error saved (k + li))
            (preSample canvas line (nth_error saved (k + li)))).
Proof.
  induction para as [|l para IH]; intros k li line H; [destruct li; discriminate|].
  destruct li as [|li]; cbn [nth_error createLines] in *.
  - injection H as <-. now rewrite Nat.add_0_r.
  - rewrite (IH (S k) li line H). now rewrite Nat.add_succ_r.
Qed.

(** The overlay [createLine] rebuilds from the record [saveLine] made of a
    line. *)
Lemma saved_line_restores :
  forall (d : LineDiv) (paraIdx : Z) (li : nat) (line : Line) (sampled : string * string),
    let d' := createLine paraIdx li line (Some (saveLine d)) sampled in
    (all_plain (childNodes d) = true ->
     Dom.innerHTML (childNodes d) <> "" ->
     Dom.innerHTML (childNodes d') = Dom.innerHTML (childNodes d) /\
     Dom.textContent (childNodes d') = Dom.textContent (childNodes d) /\
     (forall st out, runs_of st (childNodes d') out = runs_of st (childNodes d) out)) /\
    (d_fontSizeOverride d' = d_fontSizeOverride d /\
     d_colorOverride d' = d_colorOverride d /\
     d_fontFamilyOverride d' = d_fontFamilyOverride d /\
     d_fontNameOverride d' = d_fontNameOverride d /\
     style_color d' = Js.or_str (d_colorOverride d) (fst sampled) /\
     style_fontSize d' = Js.or_num (d_fontSizeOverride d) (l_fontSize line)) /\
    (Dom.innerHTML (childNodes d) = "" ->
     l_initialHtml line <> "" ->
     childNodes d' = Dom.parse (l_initialHtml line)).
Proof.
  intros d paraIdx li line sampled d'.
  assert (Hn : childNodes d'
               = if Js.truthy_str (Dom.innerHTML (childNodes d))
                 then Dom.parse (Dom.innerHTML (childNodes d))
                 else if Js.truthy_str (l_initialHtml line) then Dom.parse (l_initialHtml line)
                      else Dom.set_textContent (Dom.textContent (childNodes d))).
  { unfold d', createLine. cbn [saveLine sv_dirty sv_html sv_text].
    destruct (lineDirty d); reflexivity. }
  split; [|split].
  - intros Hp Hne. rewrite Hn.
    destruct (Dom.innerHTML (childNodes d)) as [|c h] eqn:E; [contradiction|].
    cbn [Js.truthy_str]. rewrite <- E.
    destruct (parse_innerHTML (childNodes d) Hp) as (I & T & R & _).
    repeat split; assumption.
  - unfold d', createLine.
    cbn [saveLine sv_dirty sv_fontSizeOverride sv_colorOverride sv_fontFamilyOverride
         sv_fontNameOverride].
    destruct (lineDirty d); repeat split.
  - intros He Hi. rewrite Hn, He. cbn [Js.truthy_str].
    destruct (l_initialHtml line); [contradiction | reflexivity].
Qed.

(** The overlay of a dirty block after [deactivateBlock] and
    [activateBlock] of the same block: one line per line of the paragraph,
    rebuilt from the record of the line that was at its place. *)
Lemma switch_back_lines s children A para :
  editContainer s = Some children ->
  single_active s ->
  _activeBlockIdx s = A ->
  at_index (_paragraphData s) A = Some para ->
  existsb lineDirty (allLines children) = true ->
  exists ch',
    editContainer (activateBlock A (deactivateBlock s)) = Some ch' /\
    allLines ch'
    = createLines (_pdfCanvas s) A 0 para (Some (map saveLine (allLines children))).
Proof.
  intros Hc Hinv HA Hpara Hdirty.
  pose proof (at_index_nonneg _ _ _ Hpara) as Hpos.
  assert (Hpos' : (0 <= _activeBlockIdx s)%Z) by (rewrite HA; exact Hpos).
  pose proof (deactivateBlock_unfold s children Hc Hpos') as Hd.
  rewrite (blockLines_all s children Hc Hinv), Hdirty, HA in Hd.
  set (children2 := filter (fun c => negb (in_block A c))
                      (filter (fun c => negb (is_shield c)) children)) in *.
  assert (Hnone : allLines children2 = []).
  { pose proof (deactivateBlock_no_lines s children Hc Hinv) as H. now rewrite HA in H. }
  assert (Hact : activateBlock A (deactivateBlock s) = openBlock A (deactivateBlock s)).
  { unfold activateBlock. rewrite Hd. cbn [_activeBlockIdx].
    replace (A =? -1)%Z with false by (symmetry; apply Z.eqb_neq; lia). reflexivity. }
  rewrite Hact.
  destruct (openBlock_unfold A (deactivateBlock s) para children2) as [Hc2 _].
  { rewrite Hd. exact Hpara. }
  { rewrite Hd. reflexivity. }
  rewrite Hd in Hc2 at 2 3. cbn [_pdfCanvas _editedBlocks] in Hc2.
  rewrite map_get_set_same in Hc2.
  eexists. split; [exact Hc2|].
  rewrite !allLines_app, Hnone, allLines_lines. reflexivity.
Qed.

(** X6. An edited line survives the switch to another block and back.
    When a block with a dirty line is deactivated and activated again, the
    overlay has a line for every line of the paragraph, and that line has
    the size, colour and font overrides of the line that was at its place,
    and (for attribute-free markup that is not empty) its markup, its text
    and its formatting runs.  A line whose text was deleted altogether is
    the exception: its saved markup is empty, and the overlay is filled
    from the original markup of the line again. *)
Theorem edits_survive_block_switch :
  forall (s : State) (children : list Child) (A : Z) (para : list Line),
    editContainer s = Some children ->
    single_active s ->
    _activeBlockIdx s = A ->
    at_index (_paragraphData s) A = Some para ->
    existsb lineDirty (allLines children) = true ->
    exists ch',
      editContainer (activateBlock A (deactivateBlock s)) = Some ch' /\
      forall (li : nat) (line : Line) (d : LineDiv),
        nth_error para li = Some line ->
        nth_error (allLines children) li = Some d ->
        exists d',
          nth_error (allLines ch') li = Some d' /\
          d_fontSizeOverride d' = d_fontSizeOverride d /\
          d_colorOverride d' = d_colorOverride d /\
          d_fontFamilyOverride d' = d_fontFamilyOverride d /\
          d_fontNameOverride d' = d_fontNameOverride d /\
          (all_plain (childNodes d) = true ->
           Dom.innerHTML (childNodes d) <> "" ->
           Dom.innerHTML (childNodes d') = Dom.innerHTML (childNodes d) /\
           Dom.textContent (childNodes d') = Dom.textContent (childNodes d) /\
           Edit.extractRunsFromDiv (d_bold d) (d_italic d) (childNodes d')
           = Edit.extractRunsFromDiv (d_bold d) (d_italic d) (childNodes d)) /\
          (Dom.innerHTML (childNodes d) = "" ->
           l_initialHtml line <> "" ->
           childNodes d' = Dom.parse (l_initialHtml line)).
Proof.
  intros s children A para Hc Hinv HA Hpara Hdirty.
  destruct (switch_back_lines s children A para Hc Hinv HA Hpara Hdirty) as (ch' & Hc' & Hl).
  exists ch'. split; [exact Hc'|].
  intros li line d Hline Hd.
  rewrite Hl, (createLines_nth _ _ _ _ 0%nat li line Hline). cbn [Nat.add].
  rewrite (map_nth_error saveLine _ _ Hd).
  eexists. split; [reflexivity|].
  destruct (saved_line_restores d A li line
              (preSample (_pdfCanvas s) line (Some (saveLine d)))) as (H1 & H2 & H3).
  destruct H2 as (F1 & F2 & F3 & F4 & _).
  repeat split; try assumption.
  - now apply H1.
  - now apply H1.
  - unfold Edit.extractRunsFromDiv. f_equal. apply (proj2 (proj2 (H1 H H0))).
Qed.

Lemma edits_survive_block_switch_witness :
  exists ch',
    editContainer (activateBlock 0 (deactivateBlock Scenario.editing)) = Some ch' /\
    exists d', nth_error (allLines ch') 0 = Some d' /\
               Dom.textContent (childNodes d') = "Goodbye World".
Proof.
  destruct (editContainer Scenario.editing) as [children|] eqn:Hc;
    [|vm_compute in Hc; discriminate Hc].
  destruct (at_index (_paragraphData Scenario.editing) 0) as [para|] eqn:Hp;
    [|vm_compute in Hp; discriminate Hp].
  assert (Hinv : single_active Scenario.editing) by exact editing_single_active.
  assert (Hd : existsb lineDirty (allLines children) = true).
  { vm_compute in Hc. injection Hc as <-. vm_compute. reflexivity. }
  destruct (edits_survive_block_switch Scenario.editing children 0 para Hc Hinv eq_refl Hp Hd)
    as (ch' & Hc' & H).
  exists ch'. split; [exact Hc'|].
  destruct (nth_error para 0) as [line|] eqn:Hl;
    [|vm_compute in Hp; injection Hp as <-; discriminate Hl].
  destruct (nth_error (allLines children) 0) as [d|] eqn:Hd0;
    [|vm_compute in Hc; injection Hc as <-; discriminate Hd0].
  destruct (H 0%nat line d Hl Hd0) as (d' & Hd' & _ & _ & _ & _ & Hm & _).
  exists d'. split; [exact Hd'|].
  vm_compute in Hc. injection Hc as <-. vm_compute in Hd0. injection Hd0 as <-.
  destruct Hm as (_ & T & _); [reflexivity | discriminate |].
  rewrite T. reflexivity.
Defined.

End SwitchProofs.

(** ** Formatting runs *)

Section RunsProofs.

Import Edit Markup Runs.
Local Open Scope string_scope.

Lemma texts_app a b : texts (a ++ b)%list = texts a ++ texts b.
Proof.
  induction a as [|r a IH]; [reflexivity|].
  cbn [app texts fold_right]. fold (texts (a ++ b)%list). fold (texts a).
  now rewrite IH, append_assoc.
Qed.

Lemma alternating_snoc before last r :
  alternating (before ++ [last])%list -> same_style last r = false ->
  alternating ((before ++ [last]) ++ [r])%list.
Proof.
  induction before as [|a before IH]; intros Ha Hs.
  - cbn. auto.
  - cbn [app] in *. destruct (before ++ [last])%list as [|b rest] eqn:E.
    + destruct before; discriminate.
    + cbn [app alternating] in *. destruct Ha as [Hab Hr]. split; [exact Hab|]. now apply IH.
Qed.

Lemma alternating_last before last last' :
  alternating (before ++ [last])%list ->
  r_bold last' = r_bold last -> r_italic last' = r_italic last ->
  alternating (before ++ [last'])%list.
Proof.
  induction before as [|a before IH]; intros Ha Hb Hi; [exact I|].
  cbn [app] in *. destruct before as [|b before].
  - cbn [app alternating] in *. destruct Ha as [Hab _]. split; [|exact I].
    unfold same_style in *. now rewrite Hb, Hi.
  - cbn [app alternating] in *. destruct Ha as [Hab Hr]. split; [exact Hab|].
    now apply IH.
Qed.

(** What [emit] does to the text and the shape of [out]. *)
Lemma emit_spec text st out :
  text <> "" -> maximal out ->
  texts (emit text st out) = texts out ++ text /\ maximal (emit text st out).
Proof.
  intros Hne [Hf Ha]. unfold emit.
  assert (Hout : out = rev (rev out)) by (symmetry; apply rev_involutive).
  destruct (rev out) as [|last before] eqn:E.
  - cbn [rev] in Hout. subst out. split; [cbn; now rewrite append_nil_r|].
    split; [|exact I]. constructor; [exact Hne | constructor].
  - cbn [rev] in Hout.
    destruct (Bool.eqb (r_bold last) (st_bold st)
              && Bool.eqb (r_italic last) (st_italic st))%bool eqn:S.
    + rewrite Hout in *. split.
      * rewrite !texts_app. cbn [texts fold_right r_text]. rewrite !append_nil_r.
        now rewrite append_assoc.
      * split.
        -- apply Forall_app in Hf as [Hf1 Hf2]. apply Forall_app. split; [exact Hf1|].
           constructor; [|constructor]. cbn [r_text]. inversion Hf2 as [|? ? Hl _]; subst.
           destruct (r_text last); [contradiction | discriminate].
        -- now apply (alternating_last _ last).
    + split.
      * rewrite texts_app. cbn [texts fold_right r_text]. now rewrite append_nil_r.
      * split.
        -- apply Forall_app. split; [exact Hf|]. constructor; [exact Hne | constructor].
        -- rewrite Hout in *. apply alternating_snoc; [exact Ha|].
           unfold same_style. cbn [r_bold r_italic]. exact S.
Qed.

Lemma break_text_elem tag children :
  break_text (Dom.Elem tag children)
  = if Str.eqb tag "br" then Str.of_char Str.c_newline else break_texts children.
Proof.
  cbn [break_text]. destruct (Str.eqb tag "br"); [reflexivity|].
  induction children as [|c children IH]; [reflexivity|].
  cbn [break_texts fold_right]. fold (break_texts children). now rewrite <- IH.
Qed.

(** [collectTextRuns] adds the text of the node and keeps the shape. *)
Lemma collectTextRuns_spec : forall n st out,
  maximal out ->
  texts (collectTextRuns n st out) = texts out ++ break_text n /\
  maximal (collectTextRuns n st out).
Proof.
  induction n as [s|tag children IH] using Node_ind'; intros st out Hm.
  - rewrite collect_text. cbn [break_text]. destruct s as [|c s].
    + now rewrite append_nil_r.
    + apply emit_spec; [discriminate | exact Hm].
  - rewrite collect_elem, break_text_elem. cbv zeta.
    destruct (Str.eqb tag "br").
    + apply emit_spec; [discriminate | exact Hm].
    + set (next := mkRunState _ _). clearbody next. revert out Hm.
      induction IH as [|c children Hc _ IHl]; intros out Hm.
      * cbn [runs_of fold_left break_texts fold_right]. now rewrite append_nil_r.
      * change (runs_of next (c :: children) out)
          with (runs_of next children (collectTextRuns c next out)).
        destruct (Hc next out Hm) as [T1 M1].
        destruct (IHl _ M1) as [T2 M2]. split; [|exact M2].
        rewrite T2, T1. cbn [break_texts fold_right]. fold (break_texts children).
        now rewrite append_assoc.
Qed.

Lemma filter_all_true {A : Type} (f : A -> bool) (l : list A) :
  Forall (fun x => f x = true) l -> filter f l = l.
Proof.
  induction 1 as [|x l Hx _ IH]; [reflexivity|]. cbn [filter]. now rewrite Hx, IH.
Qed.

(** X7. The formatting runs [extractRunsFromDiv] returns for a line are
    its text cut at the changes of style: together, in order, they spell
    the text of the line (a [br] element read as a line feed); no run is
    empty; and no two neighbours have the same bold and italic flags, so a
    stretch of one style is one run. *)
Theorem extractRunsFromDiv_runs :
  forall (bold italic : bool) (childNodes : list Dom.Node),
    let runs := extractRunsFromDiv bold italic childNodes in
    texts runs = break_texts childNodes /\
    Forall (fun r => r_text r <> "") runs /\
    alternating runs.
Proof.
  intros bold italic childNodes runs.
  assert (G : forall nodes out, maximal out ->
                texts (runs_of (mkRunState bold italic) nodes out)
                = texts out ++ break_texts nodes /\
                maximal (runs_of (mkRunState bold italic) nodes out)).
  { induction nodes as [|n nodes IH]; intros out Hm.
    - cbn [runs_of fold_left break_texts fold_right]. now rewrite append_nil_r.
    - change (runs_of (mkRunState bold italic) (n :: nodes) out)
        with (runs_of (mkRunState bold italic) nodes
                (collectTextRuns n (mkRunState bold italic) out)).
      destruct (collectTextRuns_spec n (mkRunState bold italic) out Hm) as [T1 M1].
      destruct (IH _ M1) as [T2 M2]. split; [|exact M2].
      rewrite T2, T1. cbn [break_texts fold_right]. fold (break_texts nodes).
      now rewrite append_assoc. }
  destruct (G childNodes []) as [T [Hf Ha]]; [split; [constructor | exact I]|].
  assert (E : runs = runs_of (mkRunState bold italic) childNodes []).
  { unfold runs, extractRunsFromDiv. cbv zeta. apply filter_all_true.
    eapply Forall_impl; [|exact Hf]. intros r Hr. cbv beta in *.
    destruct (r_text r); [contradiction | reflexivity]. }
  rewrite E. repeat split; assumption.
Qed.

End RunsProofs.

(** ** The gap search of the column detection *)

Section GapSearchProofs.

Import ColumnSplit GapSearch.

Lemma search_inv_init hist thr : search_inv hist thr minB gap0.
Proof.
  unfold search_inv, gap0. cbn [gapStart bestWidth Z.eqb]. repeat split.
  - now left.
  - now left.
  - lia.
  - intros a c Ha Hac Hc _. lia.
Qed.

Lemma search_inv_step hist thr b g :
  (minB <= b)%Z -> search_inv hist thr b g -> search_inv hist thr (b + 1) (gapStep hist thr b g).
Proof.
  intros Hb (Hrun & Hbest & Hw & Hmax). unfold gapStep.
  assert (HminB : minB = 30%Z) by reflexivity.
  destruct (hist_at hist b <=? thr)%Z eqn:L.
  - apply Z.leb_le in L. fold (low hist thr b) in L.
    destruct (gapStart g =? -1)%Z eqn:E.
    + unfold search_inv. cbn [bestWidth bestStart bestEnd gapStart].
      replace (b =? -1)%Z with false by (symmetry; apply Z.eqb_neq; lia).
      repeat split.
      * lia.
      * lia.
      * intros k Hk. now replace k with b by lia.
      * destruct Hrun as [->|Hn]; [now left | right].
        intros H. apply Hn. exact H.
      * destruct Hbest as [H|H]; [now left | right; repeat split; try lia; apply H].
      * exact Hw.
      * intros a c Ha Hac Hc Hlow.
        destruct (Z.eq_dec c (b + 1)) as [->|Hne].
        -- destruct (Z.eq_dec a b) as [->|Hab]; [right; lia|].
           exfalso. destruct Hrun as [->|Hn]; [lia|]. apply Hn. apply Hlow. lia.
        -- apply Z.eqb_eq in E. destruct (Hmax a c Ha Hac ltac:(lia) Hlow) as [H|[H _]];
             [now left | contradiction].
    + unfold search_inv. rewrite E. destruct Hrun as (Hg & Hlow & Hstart).
      repeat split.
      * lia.
      * lia.
      * intros k Hk. destruct (Z.eq_dec k b) as [->|]; [exact L | apply Hlow; lia].
      * exact Hstart.
      * destruct Hbest as [H|H]; [now left | right; repeat split; try lia; apply H].
      * exact Hw.
      * intros a c Ha Hac Hc Hl.
        destruct (Z.eq_dec c (b + 1)) as [->|Hne].
        -- destruct (Z_lt_le_dec a (gapStart g)) as [Hlt|Hge].
           ++ exfalso. destruct Hstart as [Hs|Hn]; [lia|]. apply Hn. apply Hl. lia.
           ++ right. apply Z.eqb_neq in E. split; [exact E | exact Hge].
        -- apply (Hmax a c Ha Hac); [lia | exact Hl].
  - apply Z.leb_gt in L.
    assert (Hnl : ~ low hist thr b) by (unfold low; lia).
    assert (Hc' : forall a c, (a < c)%Z -> (c <= b + 1)%Z -> low_run hist thr a c -> (c <= b)%Z).
    { intros a c Hac Hc Hl. destruct (Z.eq_dec c (b + 1)) as [->|]; [|lia].
      exfalso. apply Hnl. apply Hl. lia. }
    destruct (gapStart g =? -1)%Z eqn:E; cbn [negb].
    + unfold search_inv. rewrite E. repeat split.
      * right. now replace (b + 1 - 1)%Z with b by lia.
      * destruct Hbest as [H|H]; [now left | right; repeat split; try lia; apply H].
      * exact Hw.
      * intros a c Ha Hac Hc Hl. apply (Hmax a c Ha Hac); [|exact Hl].
        now apply (Hc' a c).
    + destruct Hrun as (Hg & Hlow & Hstart).
      destruct (b - gapStart g >? bestWidth g)%Z eqn:W.
      * apply Z.gtb_lt in W. unfold search_inv.
        cbn [bestWidth bestStart bestEnd gapStart Z.eqb]. repeat split.
        -- right. now replace (b + 1 - 1)%Z with b by lia.
        -- right. repeat split; try lia. exact Hlow.
        -- lia.
        -- intros a c Ha Hac Hc Hl. left.
           pose proof (Hc' a c Hac Hc Hl) as Hcb.
           destruct (Hmax a c Ha Hac Hcb Hl) as [H|[_ H]]; lia.
      * assert (W' : (b - gapStart g <= bestWidth g)%Z).
        { destruct (Z.gtb_spec (b - gapStart g) (bestWidth g)); [discriminate | lia]. }
        unfold search_inv. cbn [bestWidth bestStart bestEnd gapStart Z.eqb]. repeat split.
        -- right. now replace (b + 1 - 1)%Z with b by lia.
        -- destruct Hbest as [H|H]; [now left | right; repeat split; try lia; apply H].
        -- exact Hw.
        -- intros a c Ha Hac Hc Hl. left.
           pose proof (Hc' a c Hac Hc Hl) as Hcb.
           destruct (Hmax a c Ha Hac Hcb Hl) as [H|[_ H]]; lia.
Qed.

(** The gap the search reports is a run of empty buckets between buckets 30
    and 70, and no run of empty buckets between them is wider. *)
Lemma searchGap_widest hist thr :
  let g := searchGap hist thr in
  (bestWidth g = 0 \/
   (bestWidth g = bestEnd g - bestStart g /\ minB <= bestStart g /\
    bestStart g < bestEnd g /\ bestEnd g <= maxB /\
    low_run hist thr (bestStart g) (bestEnd g)))%Z /\
  (forall a c, (minB <= a)%Z -> (a < c)%Z -> (c <= maxB)%Z -> low_run hist thr a c ->
               (c - a <= bestWidth g)%Z).
Proof.
  cbv zeta. unfold searchGap.
  assert (H : search_inv hist thr (maxB + 1) (Js.for_range minB maxB (gapStep hist thr) gap0)).
  { apply (for_range_invariant (gapStep hist thr) (search_inv hist thr)).
    - unfold minB, maxB; lia.
    - apply search_inv_init.
    - intros b' s' Hb HP. apply search_inv_step; [lia | exact HP]. }
  set (g := Js.for_range minB maxB (gapStep hist thr) gap0) in *.
  destruct H as (Hrun & Hbest & Hw & Hmax). unfold gapClose.
  assert (HminB : minB = 30%Z) by reflexivity.
  assert (HmaxB : maxB = 70%Z) by reflexivity.
  destruct (gapStart g =? -1)%Z eqn:E; cbn [negb].
  - split.
    + destruct Hbest as [H|H]; [now left | right; repeat split; try lia; apply H].
    + intros a c Ha Hac Hc Hl. apply Z.eqb_eq in E.
      destruct (Hmax a c Ha Hac ltac:(lia) Hl) as [H|[H _]]; [exact H | contradiction].
  - destruct Hrun as (Hg & Hlow & Hstart).
    destruct (maxB - gapStart g >? bestWidth g)%Z eqn:W;
      cbn [bestWidth bestStart bestEnd gapStart].
    + apply Z.gtb_lt in W. split.
      * right. repeat split; try lia. intros k Hk. apply Hlow. lia.
      * intros a c Ha Hac Hc Hl.
        destruct (Hmax a c Ha Hac ltac:(lia) Hl) as [H|[_ H]]; lia.
    + assert (W' : (maxB - gapStart g <= bestWidth g)%Z).
      { destruct (Z.gtb_spec (maxB - gapStart g) (bestWidth g)); [discriminate | lia]. }
      split.
      * destruct Hbest as [H|H]; [now left | right; repeat split; try lia; apply H].
      * intros a c Ha Hac Hc Hl.
        destruct (Hmax a c Ha Hac ltac:(lia) Hl) as [H|[_ H]]; lia.
Qed.

(** X8. A split that [detectColumnSplit] returns is the centre of a gap
    between the columns: of a run of at least 3 consecutive buckets between
    buckets 30 and 70, each with no more distinct vertical bands of text
    over it than the threshold (2, or 15% of the count of the densest
    bucket when that is more); no run of such buckets between buckets 30
    and 70 is wider; and the bucket counts on either side of the gap add up
    to at least 5. *)
Theorem detectColumnSplit_widest_gap :
  forall (mapped : list Item) (pageWidth x : Q),
    0 < pageWidth ->
    detectColumnSplit mapped pageWidth = Some x ->
    let thr := emptyThreshold (Js.max_list (histogram mapped pageWidth)) in
    exists bs be : Z,
      (30 <= bs)%Z /\ (bs + 3 <= be)%Z /\ (be <= 70)%Z /\
      x = Js.mul (Js.div (inject_Z (bs + be)) 2) (bucketWidth pageWidth) /\
      (forall b, (bs <= b < be)%Z -> (Fixture.bandCount mapped pageWidth b <= thr)%Z) /\
      (forall a c, (30 <= a)%Z -> (a < c)%Z -> (c <= 70)%Z ->
         (forall b, (a <= b < c)%Z -> (Fixture.bandCount mapped pageWidth b <= thr)%Z) ->
         (c - a <= be - bs)%Z) /\
      (5 <= Js.sum_list (Js.slice_to bs (histogram mapped pageWidth)))%Z /\
      (5 <= Js.sum_list (Js.slice_from be (histogram mapped pageWidth)))%Z.
Proof.
  intros mapped pageWidth x Hp H thr. unfold detectColumnSplit in H.
  fold thr in H.
  destruct (Js.max_list (histogram mapped pageWidth) =? 0)%Z; [discriminate|].
  destruct (searchGap_widest (histogram mapped pageWidth) thr) as [Hbest Hmax].
  set (g := searchGap (histogram mapped pageWidth) thr) in *.
  destruct (bestWidth g <? 3)%Z eqn:W; [discriminate|]. apply Z.ltb_ge in W.
  destruct (Js.sum_list (Js.slice_to (bestStart g) (histogram mapped pageWidth)) <? 5)%Z eqn:L;
    [discriminate|].
  destruct (Js.sum_list (Js.slice_from (bestEnd g) (histogram mapped pageWidth)) <? 5)%Z eqn:R;
    [discriminate|].
  cbn [orb] in H. injection H as <-.
  apply Z.ltb_ge in L, R.
  assert (HminB : minB = 30%Z) by reflexivity.
  assert (HmaxB : maxB = 70%Z) by reflexivity.
  destruct Hbest as [Hz|(Hw & H1 & H2 & H3 & Hlow)]; [lia|].
  exists (bestStart g), (bestEnd g). repeat split; try lia.
  - intros b Hb. rewrite <- (histogram_spec mapped pageWidth b Hp) by lia.
    apply Hlow. exact Hb.
  - intros a c Ha Hac Hc Hl. rewrite <- Hw. apply Hmax; try lia.
    intros k Hk. unfold low. rewrite (histogram_spec mapped pageWidth k Hp) by lia.
    now apply Hl.
Qed.

(** On the page 540 wide the gap runs from bucket 47 to bucket 59, where
    the right column starts, and the split is 53 buckets from the left. *)
Lemma detectColumnSplit_widest_gap_witness :
  (exists bs be : Z,
     (30 <= bs)%Z /\ (bs + 3 <= be)%Z /\ (be <= 70)%Z /\
     detectColumnSplit offsetPage 540
     = Some (Js.mul (Js.div (inject_Z (bs + be)) 2) (bucketWidth 540))) /\
  detectColumnSplit offsetPage 540
  = Some (Js.mul (Js.div (inject_Z (47 + 59)) 2) (bucketWidth 540)) /\
  startBucket (bucketWidth 540) (Fixture.run 324 0 200) = 59%Z.
Proof.
  split; [|split; vm_compute; reflexivity].
  destruct (detectColumnSplit offsetPage 540) as [x|] eqn:E;
    [|vm_compute in E; discriminate E].
  destruct (detectColumnSplit_widest_gap offsetPage 540 x eq_refl E)
    as (bs & be & H1 & H2 & H3 & H4 & _).
  exists bs, be. repeat split; try assumption. now rewrite H4.
Defined.

End GapSearchProofs.

(** ** De-duplication: one run per position *)

Section DedupOnce.

Import Dedup.

Lemma dedupe_keys_distinct mapped : NoDup (map posKey (dedupe mapped)).
Proof.
  destruct (dedupe_inv mapped) as [_ Hidx _ _]. unfold dedupe.
  set (d := fst (fold_left step mapped ([], []))) in *.
  apply NoDup_nth_error. intros i j Hi E.
  rewrite length_map in Hi.
  destruct (nth_error d i) as [y|] eqn:Yi; [|apply nth_error_None in Yi; lia].
  rewrite !nth_error_map, Yi in E. cbn [option_map] in E.
  destruct (nth_error d j) as [z|] eqn:Zj; [|discriminate E].
  cbn [option_map] in E.
  assert (E' : posKey y = posKey z) by congruence.
  apply Hidx in Yi, Zj. rewrite E' in Yi. congruence.
Qed.

(** The loop leaves a list of visible runs at distinct positions as it
    is. *)
Lemma dedupe_fold_distinct l : forall p seen,
  (forall k n, seen_get seen k = Some n -> In k (map posKey p)) ->
  (forall y, In y l -> blank y = false) ->
  NoDup (map posKey (p ++ l)) ->
  fst (fold_left step l (p, seen)) = p ++ l.
Proof.
  induction l as [|it l IH]; intros p seen Hseen Hvis Hnd; cbn [fold_left].
  - now rewrite app_nil_r.
  - unfold step at 2. rewrite (Hvis it (or_introl eq_refl)).
    destruct (seen_get seen (posKey it)) as [n|] eqn:G.
    + exfalso. apply Hseen in G. rewrite map_app in Hnd. cbn [map] in Hnd.
      apply NoDup_remove_2 in Hnd. apply Hnd. apply in_or_app. now left.
    + replace (p ++ it :: l) with ((p ++ [it]) ++ l) in * by now rewrite <- app_assoc.
      apply IH.
      * intros k n Hk. rewrite seen_get_app in Hk. rewrite map_app. apply in_or_app.
        destruct (seen_get seen k) as [i|] eqn:Gk.
        -- left. eapply Hseen. exact Gk.
        -- right. destruct (key_eqb (posKey it) k) eqn:K; [|discriminate].
           apply key_eqb_eq in K. subst k. now left.
      * intros y Hy. apply Hvis. now right.
      * exact Hnd.
Qed.

(** X9. After the de-duplication pass of [groupIntoLines] no two runs
    share a rounded position, every run kept is a visible run of the input
    and every visible run of the input has a run at its position; a list of
    visible runs at distinct positions passes unchanged, so the pass applied
    to its own result changes nothing. *)
Theorem dedupe_once :
  forall mapped : list Item,
    NoDup (map posKey (dedupe mapped)) /\
    (forall y, In y (dedupe mapped) -> In y mapped /\ blank y = false) /\
    (forall z, In z mapped -> blank z = false ->
               exists y, In y (dedupe mapped) /\ posKey y = posKey z) /\
    (forallb (fun y => negb (blank y)) mapped = true -> NoDup (map posKey mapped) ->
     dedupe mapped = mapped) /\
    dedupe (dedupe mapped) = dedupe mapped.
Proof.
  intros mapped.
  assert (Hfix : forall l, (forall y, In y l -> blank y = false) -> NoDup (map posKey l) ->
                           dedupe l = l).
  { intros l Hv Hn. unfold dedupe.
    apply (dedupe_fold_distinct l [] []); [intros k n H; discriminate H | exact Hv | exact Hn]. }
  split; [apply dedupe_keys_distinct|]. split; [apply dedupe_visible|]. split; [|split].
  - intros z Hz Bz. destruct (dedupe_inv mapped) as [_ _ _ Hcov].
    destruct (Hcov z) as (n & y & Hn & Ky).
    { apply filter_In. split; [exact Hz | now rewrite Bz]. }
    exists y. split; [eapply nth_error_In; exact Hn | exact Ky].
  - intros Hv Hn. apply Hfix; [|exact Hn].
    intros y Hy. rewrite forallb_forall in Hv. apply negb_true_iff. now apply Hv.
  - apply Hfix; [|apply dedupe_keys_distinct].
    intros y Hy. now apply dedupe_visible in Hy.
Qed.

End DedupOnce.

(** ** Lines: the runs and their order *)

From Stdlib Require Import Sorted.

Section LineOrderProofs.

Import Layout LineOrder.
Local Open Scope Q_scope.

Lemma insert_perm {A : Type} (top left : A -> Q) (x : A) (l : list A) :
  Permutation (insert top left x l) (x :: l).
Proof.
  induction l as [|y l IH]; cbn [insert]; [reflexivity|].
  destruct (before top left x y); [reflexivity|].
  rewrite IH. apply perm_swap.
Qed.

Lemma sort_perm {A : Type} (top left : A -> Q) (l : list A) :
  Permutation (sort top left l) l.
Proof.
  unfold sort.
  assert (G : forall acc, Permutation (fold_left (fun sorted x => insert top left x sorted) l acc)
                            (acc ++ l)).
  { induction l as [|x l IH]; intros acc; cbn [fold_left].
    - now rewrite app_nil_r.
    - rewrite IH, insert_perm. apply Permutation_middle. }
  apply (G []).
Qed.




(** The runs the grouping loop has collected. *)
Lemma groupStep_collects st item :
  collected (groupStep st item)
  = (collected st ++ (if blank item then [] else [item]))%list.
Proof.
  destruct st as [done cur]. unfold groupStep.
  destruct (blank item); [now rewrite app_nil_r|].
  destruct cur as [cur|].
  - destruct (Qlt_le_dec 3 _).
    + unfold collected; cbn [fst snd g_items]. rewrite map_app. cbn [map].
      rewrite concat_snoc. reflexivity.
    + destruct (Qlt_le_dec _ _).
      * unfold collected; cbn [fst snd g_items]. rewrite map_app. cbn [map].
        rewrite concat_snoc. reflexivity.
      * unfold collected; cbn [fst snd g_items]. now rewrite app_assoc.
  - unfold collected; cbn [fst snd g_items]. now rewrite app_nil_r.
Qed.

Lemma groupLoop_collects l : forall st,
  collected (fold_left groupStep l st) = (collected st ++ visible l)%list.
Proof.
  induction l as [|x l IH]; intros st; cbn [fold_left].
  - unfold visible. cbn [filter]. now rewrite app_nil_r.
  - rewrite IH, groupStep_collects. unfold visible. cbn [filter].
    destruct (blank x); cbn [negb]; [now rewrite app_nil_r|].
    now rewrite <- app_assoc.
Qed.

Lemma groupColumn_collects allLines colItems :
  List.concat (map g_items (groupColumn allLines colItems))
  = (List.concat (map g_items allLines) ++ visible (sort top left colItems))%list.
Proof.
  unfold groupColumn.
  pose proof (groupLoop_collects (sort top left colItems) (allLines, None)) as H.
  destruct (fold_left groupStep _ _) as [done cur].
  unfold collected in H; cbn [fst snd] in H. rewrite app_nil_r in H.
  rewrite <- H. destruct cur as [cur|].
  - rewrite map_app. cbn [map]. now rewrite concat_snoc.
  - now rewrite app_nil_r.
Qed.

Lemma groupColumns_collects cols : forall allLines,
  List.concat (map g_items (fold_left groupColumn cols allLines))
  = (List.concat (map g_items allLines)
     ++ flat_map (fun col => visible (sort top left col)) cols)%list.
Proof.
  induction cols as [|c cols IH]; intros allLines; cbn [fold_left flat_map].
  - now rewrite app_nil_r.
  - rewrite IH, groupColumn_collects. now rewrite <- app_assoc.
Qed.

Lemma visible_perm l l' : Permutation l l' -> Permutation (visible l) (visible l').
Proof.
  unfold visible. induction 1 as [|x l l' _ IH|x y l|l l' l'' _ IH1 _ IH2].
  - reflexivity.
  - cbn [filter]. destruct (negb (blank x)); [now constructor | exact IH].
  - cbn [filter]. destruct (negb (blank x)), (negb (blank y)); try reflexivity.
    apply perm_swap.
  - now transitivity (filter (fun it => negb (blank it)) l').
Qed.

Lemma visible_all_visible l : (forall y, In y l -> blank y = false) -> visible l = l.
Proof.
  intros H. unfold visible. apply filter_all_true. apply Forall_forall.
  intros y Hy. now rewrite (H y Hy).
Qed.

Lemma filter_split {A : Type} (p q : A -> bool) (l : list A) :
  Permutation (filter (fun x => p x && q x)%bool l ++ filter (fun x => p x && negb (q x))%bool l)
    (filter p l).
Proof.
  induction l as [|x l IH]; [reflexivity|].
  cbn [filter]. destruct (p x), (q x); cbn [andb negb app].
  - now constructor.
  - rewrite <- Permutation_middle. now constructor.
  - exact IH.
  - exact IH.
Qed.

Lemma columns_perm splitX deduped :
  (forall y, In y deduped -> blank y = false) ->
  Permutation (flat_map (fun col => visible (sort top left col)) (columns splitX deduped))
    deduped.
Proof.
  intros Hv.
  assert (S : forall col, (forall y, In y col -> blank y = false) ->
                          Permutation (visible (sort top left col)) col).
  { intros col Hc. rewrite (visible_perm _ _ (sort_perm top left col)).
    now rewrite visible_all_visible. }
  destruct splitX as [x|]; cbn [columns].
  2:{ cbn [flat_map]. rewrite app_nil_r. now apply S. }
  set (l := filter _ deduped). set (r := filter _ deduped).
  assert (Hl : forall y, In y l -> blank y = false).
  { intros y Hy. apply filter_In in Hy as [Hy _]. now apply Hv. }
  assert (Hr : forall y, In y r -> blank y = false).
  { intros y Hy. apply filter_In in Hy as [Hy _]. now apply Hv. }
  assert (E : Permutation
                (flat_map (fun col => visible (sort top left col))
                   (filter (fun c : list Item => match c with [] => false | _ => true end) [l; r]))
                (l ++ r)).
  { cbn [filter]. destruct l as [|a l'] eqn:El, r as [|b r'] eqn:Er; cbn [flat_map app].
    - reflexivity.
    - rewrite app_nil_r. apply S. exact Hr.
    - rewrite !app_nil_r. apply S. exact Hl.
    - rewrite app_nil_r. change (a :: l' ++ b :: r')%list with ((a :: l') ++ (b :: r'))%list.
      apply Permutation_app; apply S; assumption. }
  rewrite E. unfold l, r.
  rewrite (filter_split (fun it => negb (blank it))
             (fun it => if Qlt_le_dec (left it + width it / 2) x then true else false)).
  fold (visible deduped). now rewrite visible_all_visible.
Qed.

(** X10. [groupIntoLines] puts every run that the de-duplication pass
    kept into exactly one line, once, and no other run: the runs of its
    lines, taken together, are a rearrangement of the runs kept.  No line
    is without runs, and the text of a line is the text of its runs in
    their order. *)
Theorem groupIntoLines_runs :
  forall (items : list TextItem) (viewport : PageViewport)
         (styles : list (string * StyleInfo)),
    Permutation
      (List.concat (map Session.l_pdfItems (groupIntoLines items viewport styles)))
      (Dedup.dedupe (map (mapItem viewport styles) items)) /\
    (forall line, In line (groupIntoLines items viewport styles) ->
                  Session.l_pdfItems line <> [] /\
                  Session.l_text line = Clean.joined (Session.l_pdfItems line)).
Proof.
  intros items viewport styles. split.
  - unfold groupIntoLines. destruct items as [|i0 items]; [reflexivity|].
    cbv zeta. set (deduped := Dedup.dedupe _).
    rewrite map_map. cbn [toLine Session.l_pdfItems].
    change (map (fun x : GroupLine => g_items x)) with (map g_items).
    rewrite <- !flat_map_concat_map.
    rewrite (Permutation_flat_map g_items (sort_perm g_top g_left _)).
    rewrite flat_map_concat_map, groupColumns_collects. cbn [map List.concat app].
    apply columns_perm. intros y Hy. now apply dedupe_visible in Hy.
  - intros line Hl. split; [now apply (groupIntoLines_filled items viewport styles)|].
    now apply (groupIntoLines_line items viewport styles line).
Qed.









End LineOrderProofs.

(** ** The colour the samplers pick *)

Section FrequencyProofs.

Import Sampler Frequency.
Local Open Scope string_scope.

Lemma color_eqb_eq (a b : Color) : color_eqb a b = true <-> a = b.
Proof.
  destruct a as [[r1 g1] b1], b as [[r2 g2] b2]. unfold color_eqb.
  rewrite !andb_true_iff, !Z.eqb_eq. split; [intros [[-> ->] ->]; reflexivity|].
  intros E. injection E as -> -> ->. repeat split.
Qed.

Lemma color_eqb_refl (a : Color) : color_eqb a a = true.
Proof. now apply color_eqb_eq. Qed.

Lemma count_of_bump key counts k :
  count_of (bump key counts) k
  = (count_of counts k + if color_eqb key k then 1 else 0)%Z.
Proof.
  induction counts as [|[k0 n] rest IH]; cbn [bump count_of].
  - destruct (color_eqb key k); lia.
  - destruct (color_eqb k0 key) eqn:E; cbn [count_of].
    + apply color_eqb_eq in E. subst k0. destruct (color_eqb key k); lia.
    + destruct (color_eqb k0 k) eqn:E2; [|exact IH].
      apply color_eqb_eq in E2. subst k0.
      destruct (color_eqb key k) eqn:E3; [|lia].
      apply color_eqb_eq in E3. subst key. rewrite color_eqb_refl in E. discriminate E.
Qed.

Lemma bump_keys key counts :
  NoDup (map fst counts) -> Forall (fun e => (1 <= snd e)%Z) counts ->
  NoDup (map fst (bump key counts)) /\ Forall (fun e => (1 <= snd e)%Z) (bump key counts) /\
  (forall k, In k (map fst (bump key counts)) -> k = key \/ In k (map fst counts)).
Proof.
  induction counts as [|[k0 n] rest IH]; intros Hn Hp; cbn [bump].
  - repeat split.
    + repeat constructor. intros [].
    + repeat constructor. cbn. lia.
    + intros k [<-|[]]. now left.
  - inversion Hn as [|? ? Hk0 Hn']; subst. inversion Hp as [|? ? Hp0 Hp']; subst.
    destruct (color_eqb k0 key) eqn:E.
    + repeat split.
      * exact Hn.
      * constructor; [cbn [snd] in *; lia | exact Hp'].
      * intros k Hk. now right.
    + destruct (IH Hn' Hp') as (I1 & I2 & I3). repeat split.
      * cbn [map fst]. constructor; [|exact I1]. intros Hin.
        destruct (I3 _ Hin) as [->|H]; [|contradiction].
        now rewrite color_eqb_refl in E.
      * constructor; assumption.
      * intros k [<-|Hk]; [right; now left|].
        destruct (I3 _ Hk) as [->|H]; [now left | right; now right].
Qed.

Lemma histogram_of_spec keys :
  NoDup (map fst (histogram_of keys)) /\
  Forall (fun e => (1 <= snd e)%Z) (histogram_of keys) /\
  (forall k, count_of (histogram_of keys) k = occurrences k keys).
Proof.
  unfold histogram_of.
  assert (G : forall acc, NoDup (map fst acc) -> Forall (fun e => (1 <= snd e)%Z) acc ->
            NoDup (map fst (fold_left (fun counts k => bump k counts) keys acc)) /\
            Forall (fun e => (1 <= snd e)%Z) (fold_left (fun counts k => bump k counts) keys acc) /\
            (forall k, count_of (fold_left (fun counts k => bump k counts) keys acc) k
                       = (count_of acc k + occurrences k keys)%Z)).
  { induction keys as [|key keys IH]; intros acc Hn Hp; cbn [fold_left].
    - repeat split; try assumption. intros k. unfold occurrences. cbn. lia.
    - destruct (bump_keys key acc Hn Hp) as (B1 & B2 & _).
      destruct (IH _ B1 B2) as (I1 & I2 & I3). repeat split; try assumption.
      intros k. rewrite I3, count_of_bump. unfold occurrences. cbn [filter].
      destruct (color_eqb key k); cbn [List.length]; lia. }
  destruct (G [] (NoDup_nil _) (Forall_nil _)) as (G1 & G2 & G3).
  repeat split; assumption.
Qed.

Lemma count_of_entry counts k n :
  NoDup (map fst counts) -> In (k, n) counts -> count_of counts k = n.
Proof.
  induction counts as [|[k0 n0] rest IH]; intros Hn Hin; [destruct Hin|].
  inversion Hn as [|? ? Hk0 Hn']; subst. cbn [count_of].
  destruct Hin as [E|Hin].
  - injection E as -> ->. now rewrite color_eqb_refl.
  - destruct (color_eqb k0 k) eqn:E; [|now apply IH].
    apply color_eqb_eq in E. subst k0. exfalso. apply Hk0.
    apply in_map_iff. now exists (k, n).
Qed.

Lemma count_of_absent counts k :
  (forall n, ~ In (k, n) counts) -> count_of counts k = 0%Z.
Proof.
  induction counts as [|[k0 n0] rest IH]; intros H; [reflexivity|].
  cbn [count_of]. destruct (color_eqb k0 k) eqn:E.
  - apply color_eqb_eq in E. subst k0. exfalso. apply (H n0). now left.
  - apply IH. intros n Hin. apply (H n). now right.
Qed.

Lemma classic_entry (counts : list (Color * Z)) (k : Color) :
  (exists n, In (k, n) counts) \/ (forall n, ~ In (k, n) counts).
Proof.
  induction counts as [|[k0 n0] rest IH]; [right; intros n []|].
  destruct (color_eqb k0 k) eqn:E.
  - apply color_eqb_eq in E. subst k0. left. exists n0. now left.
  - destruct IH as [[n Hin]|Hno]; [left; exists n; now right|].
    right. intros n [H|H]; [|now apply (Hno n)].
    injection H as -> _. rewrite color_eqb_refl in E. discriminate E.
Qed.

Lemma scan_spec counts :
  Forall (fun e => (1 <= snd e)%Z) counts ->
  scan_inv counts (fold_left scan_step counts (0%Z, None)).
Proof.
  assert (G : forall rest seen acc,
            Forall (fun e => (1 <= snd e)%Z) rest ->
            scan_inv seen acc -> scan_inv (seen ++ rest) (fold_left scan_step rest acc)).
  { induction rest as [|[k n] rest IH]; intros seen acc Hp Hinv; cbn [fold_left].
    - now rewrite app_nil_r.
    - inversion Hp as [|? ? Hp0 Hp']; subst. cbn [snd] in Hp0.
      replace (seen ++ (k, n) :: rest)%list with ((seen ++ [(k, n)]) ++ rest)%list
        by now rewrite <- app_assoc.
      apply IH; [exact Hp'|].
      destruct Hinv as (H0 & Hmax & Hbest). unfold scan_step. cbn [fst snd].
      destruct (n >? fst acc)%Z eqn:W.
      + apply Z.gtb_lt in W. unfold scan_inv. cbn [fst snd]. repeat split.
        * lia.
        * intros k' m Hin. apply in_app_or in Hin as [Hin|[E|[]]].
          -- apply Hmax in Hin. lia.
          -- injection E as <- <-. lia.
        * apply in_or_app. right. now left.
      + assert (W' : (n <= fst acc)%Z).
        { destruct (Z.gtb_spec n (fst acc)); [discriminate | lia]. }
        unfold scan_inv. repeat split.
        * exact H0.
        * intros k' m Hin. apply in_app_or in Hin as [Hin|[E|[]]].
          -- now apply Hmax in Hin.
          -- injection E as <- <-. exact W'.
        * destruct (snd acc) as [best|].
          -- apply in_or_app. now left.
          -- destruct Hbest as [_ Hz]. exfalso. lia. }
  intros Hp. apply (G counts [] (0%Z, None) Hp).
  unfold scan_inv. cbn. repeat split; [lia | intros k m []].
Qed.

(** The scan over the histogram of [keys] picks a key that no other key
    outnumbers. *)
Lemma mostFrequent_spec keys default :
  picked keys default
    (match mostFrequent (histogram_of keys) with
     | None => default
     | Some best => toHex best
     end).
Proof.
  destruct (histogram_of_spec keys) as (Hn & Hp & Hc).
  pose proof (scan_spec (histogram_of keys) Hp) as (H0 & Hmax & Hbest).
  unfold mostFrequent. fold scan_step.
  set (acc := fold_left scan_step (histogram_of keys) (0%Z, None)) in *.
  destruct keys as [|k0 keys']; cbn [picked].
  - unfold acc. reflexivity.
  - set (keys := k0 :: keys') in *.
    assert (Hk0 : (1 <= occurrences k0 keys)%Z).
    { unfold occurrences, keys. cbn [filter]. rewrite color_eqb_refl. cbn [List.length]. lia. }
    destruct (snd acc) as [best|] eqn:B.
    + assert (Eb : occurrences best keys = fst acc).
      { rewrite <- Hc. now apply count_of_entry. }
      assert (Hall : forall k, (occurrences k keys <= occurrences best keys)%Z).
      { intros k. rewrite Eb, <- Hc.
        destruct (Z.eq_dec (count_of (histogram_of keys) k) 0) as [->|Hnz]; [exact H0|].
        assert (Hex : exists n, In (k, n) (histogram_of keys)).
        { destruct (classic_entry (histogram_of keys) k) as [Hex|Hno]; [exact Hex|].
          exfalso. apply Hnz. now apply count_of_absent. }
        destruct Hex as [n Hin]. rewrite (count_of_entry _ _ _ Hn Hin).
        now apply (Hmax k n). }
      exists best. repeat split; [|exact Hall].
      assert (Hpos : (1 <= occurrences best keys)%Z).
      { specialize (Hall k0). lia. }
      unfold occurrences in Hpos.
      destruct (filter (fun k => color_eqb k best) keys) as [|x l] eqn:F; [cbn in Hpos; lia|].
      assert (Hx : In x (filter (fun k => color_eqb k best) keys)) by (rewrite F; now left).
      apply filter_In in Hx as [Hx Ex]. apply color_eqb_eq in Ex. now subst x.
    + exfalso. destruct Hbest as [Hbest _]. rewrite <- Hc in Hk0. rewrite Hbest in Hk0.
      cbn in Hk0. lia.
Qed.

Lemma lightCounts_histogram data :
  lightCounts data = histogram_of (map colorKey (filter is_light (pixels data))).
Proof.
  unfold lightCounts, histogram_of. generalize (@nil (Color * Z)).
  induction (pixels data) as [|p l IH]; intros acc; [reflexivity|].
  cbn [fold_left filter]. unfold is_light at 1.
  destruct (Qlt_le_dec _ 150); cbn [map fold_left]; apply IH.
Qed.

Lemma colorCounts_histogram threshold data :
  colorCounts threshold data
  = histogram_of (map colorKey (filter (fun p => negb (skipped threshold p)) (pixels data))).
Proof.
  unfold colorCounts, histogram_of. generalize (@nil (Color * Z)).
  induction (pixels data) as [|p l IH]; intros acc; [reflexivity|].
  cbn [fold_left filter].
  destruct (skipped threshold p); cbn [negb map fold_left]; apply IH.
Qed.

(** The pixels that [sampleTextColor] does not skip, for a threshold that
    is a number, are the dark pixels for it. *)
Lemma skipped_qualifies (t : Q) (p : Pixel) : negb (skipped (Some t) p) = qualifies t p.
Proof.
  unfold skipped, above, qualifies. rewrite negb_orb. f_equal.
  - rewrite Z.leb_antisym. reflexivity.
  - destruct (Qlt_le_dec t _) as [L|L]; cbn [negb].
    + symmetry. destruct (Qle_bool _ t) eqn:E; [|reflexivity].
      apply Qle_bool_iff in E. exfalso. apply (Qlt_not_le _ _ L E).
    + symmetry. apply Qle_bool_iff. exact L.
Qed.

(** The threshold for a background colour as the samplers print it. *)
Lemma skipThreshold_toHex (r g b : Z) :
  (0 <= r < 256)%Z -> (0 <= g < 256)%Z -> (0 <= b < 256)%Z ->
  skipThreshold (toHex (r, g, b)) = Some (Js.sub (luminance r g b) 40).
Proof.
  intros Hr Hg Hb. unfold skipThreshold, bgLum.
  rewrite toHex_length. cbn [Nat.eqb].
  destruct (toHex_slices r g b) as (-> & -> & ->).
  rewrite !parseInt16_hex2 by assumption. reflexivity.
Qed.

(** C5. For a background colour [#rrggbb], [sampleTextColor] returns the
    colour picked from the histogram of exactly the opaque pixels whose
    luminance does not exceed luminance(background) - 40 (the most
    frequent of their quantised colours), so a pixel whose luminance
    exceeds that threshold is not counted; and it returns #000000 when no
    pixel of the region qualifies.  For the background #969696, of
    luminance 150, the threshold is 110: the result is picked among the
    opaque pixels of luminance at most 110, and a pixel of luminance 130
    is not one of them. *)
Theorem sampleTextColor_threshold :
  (forall (canvas : option Canvas) (x y width height : Q) (r g b : Z) (data : list Z),
     (0 <= r < 256)%Z -> (0 <= g < 256)%Z -> (0 <= b < 256)%Z ->
     readRegion canvas x y width height = Some data ->
     picked (map colorKey (filter (qualifies (Js.sub (luminance r g b) 40)) (pixels data)))
       "#000000" (sampleTextColor canvas x y width height (toHex (r, g, b)))) /\
  (forall (canvas : option Canvas) (x y width height : Q) (r g b : Z),
     (0 <= r < 256)%Z -> (0 <= g < 256)%Z -> (0 <= b < 256)%Z ->
     (forall data p, readRegion canvas x y width height = Some data ->
                     In p (pixels data) ->
                     qualifies (Js.sub (luminance r g b) 40) p = false) ->
     sampleTextColor canvas x y width height (toHex (r, g, b)) = "#000000") /\
  (luminance 150 150 150 == 150 /\
   toHex (150, 150, 150)%Z = "#969696" /\
   Js.sub (luminance 150 150 150) 40 == 110 /\
   luminance 130 130 130 == 130 /\
   forall a, qualifies 110 (mkPixel 130 130 130 a) = false) /\
  (forall (canvas : option Canvas) (x y width height : Q) (data : list Z),
     readRegion canvas x y width height = Some data ->
     picked (map colorKey (filter (qualifies 110) (pixels data)))
       "#000000" (sampleTextColor canvas x y width height "#969696")).
Proof.
  assert (G : forall (canvas : option Canvas) (x y width height : Q) (r g b : Z) (data : list Z),
     (0 <= r < 256)%Z -> (0 <= g < 256)%Z -> (0 <= b < 256)%Z ->
     readRegion canvas x y width height = Some data ->
     picked (map colorKey (filter (qualifies (Js.sub (luminance r g b) 40)) (pixels data)))
       "#000000" (sampleTextColor canvas x y width height (toHex (r, g, b)))).
  { intros canvas x y width height r g b data Hr Hg Hb Hd.
    unfold sampleTextColor. rewrite Hd, skipThreshold_toHex by assumption.
    rewrite colorCounts_histogram.
    rewrite (filter_ext _ _ (skipped_qualifies (Js.sub (luminance r g b) 40))).
    apply mostFrequent_spec. }
  split; [exact G|]. split; [|split].
  - intros canvas x y width height r g b Hr Hg Hb Hnone.
    destruct (readRegion canvas x y width height) as [data|] eqn:Hd.
    + pose proof (G canvas x y width height r g b data Hr Hg Hb Hd) as P.
      rewrite (filter_none _ _ (fun p Hp => Hnone data p eq_refl Hp)) in P. exact P.
    + unfold sampleTextColor. now rewrite Hd.
  - split; [reflexivity|]. split; [reflexivity|]. split; [reflexivity|].
    split; [reflexivity|].
    intros a. unfold qualifies. cbn [px_r px_g px_b].
    replace (Qle_bool (luminance 130 130 130) 110) with false by (vm_compute; reflexivity).
    apply andb_false_r.
  - intros canvas x y width height data Hd.
    exact (G canvas x y width height 150%Z 150%Z 150%Z data
             ltac:(lia) ltac:(lia) ltac:(lia) Hd).
Qed.

(** On the mid-grey cell the background and the anti-aliased edge are not
    counted: the colour picked is that of the one dark pixel. *)
Lemma sampleTextColor_threshold_witness :
  picked [(8, 8, 8)%Z] "#000000" (sampleTextColor (Some greyCell) 0 0 6 1 "#969696") /\
  sampleTextColor (Some greyCell) 0 0 6 1 "#969696" = "#080808".
Proof.
  split; [|vm_compute; reflexivity].
  exact (proj1 sampleTextColor_threshold (Some greyCell) 0 0 6 1 150%Z 150%Z 150%Z
           [150; 150; 150; 255; 150; 150; 150; 255; 150; 150; 150; 255;
            130; 130; 130; 255; 130; 130; 130; 255; 10; 10; 10; 255]%Z
           ltac:(lia) ltac:(lia) ltac:(lia) eq_refl).
Defined.

(** X12. Both samplers return the colour that most of the pixels they
    count have, after quantisation to steps of 4: [sampleBackgroundColor]
    among the pixels of luminance 150 or more, [sampleTextColor] among the
    opaque pixels whose luminance does not exceed the threshold; no other
    colour is counted more often than the one returned.  When the region
    cannot be read (no canvas, no context, an empty region, a failing
    [getImageData]) or no pixel is counted, they return white and black. *)
Theorem samplers_pick_most_frequent :
  forall (canvas : option Canvas) (x y width height : Q) (bgHex : string),
    match readRegion canvas x y width height with
    | None =>
        sampleBackgroundColor canvas x y width height = "#ffffff" /\
        sampleTextColor canvas x y width height bgHex = "#000000"
    | Some data =>
        picked (map colorKey (filter is_light (pixels data))) "#ffffff"
          (sampleBackgroundColor canvas x y width height) /\
        picked (map colorKey
                  (filter (fun p => negb (skipped (skipThreshold bgHex) p)) (pixels data)))
          "#000000" (sampleTextColor canvas x y width height bgHex)
    end.
Proof.
  intros canvas x y width height bgHex.
  unfold sampleBackgroundColor, sampleTextColor.
  destruct (readRegion canvas x y width height) as [data|]; [|split; reflexivity].
  rewrite lightCounts_histogram, colorCounts_histogram.
  split; apply mostFrequent_spec.
Qed.

(** The pixel (7, 251, 5), of luminance just below 150 in doubles, is not
    counted as background: nothing is counted and the result is white. *)
Lemma samplers_pick_most_frequent_witness :
  luminance 7 251 5 < 150 /\
  picked [] "#ffffff" (sampleBackgroundColor (Some nearLight) 0 0 1 1) /\
  sampleBackgroundColor (Some nearLight) 0 0 1 1 = "#ffffff".
Proof.
  split; [reflexivity|]. split; [|vm_compute; reflexivity].
  pose proof (samplers_pick_most_frequent (Some nearLight) 0 0 1 1 "#ffffff") as H.
  assert (E : readRegion (Some nearLight) 0 0 1 1 = Some [7; 251; 5; 255]%Z)
    by (vm_compute; reflexivity).
  rewrite E in H. destruct H as [H _]. exact H.
Defined.

Lemma pixels_channels : forall n data p,
  (List.length data <= n)%nat -> In p (pixels data) ->
  In (px_r p) data /\ In (px_g p) data /\ In (px_b p) data.
Proof.
  induction n as [|n IH]; intros data p Hn Hp.
  - destruct data; [destruct Hp | cbn in Hn; lia].
  - destruct data as [|r [|g [|b [|a rest]]]]; try (destruct Hp).
    + subst p. cbn [px_r px_g px_b]. repeat split; cbn; auto.
    + destruct (IH rest p) as (H1 & H2 & H3); [cbn in Hn; lia | assumption|].
      repeat split; do 4 right; assumption.
Qed.

Lemma quantize_byte c : (0 <= c < 256)%Z -> (0 <= quantize c < 256)%Z.
Proof.
  intros H. unfold quantize. rewrite Z.shiftl_mul_pow2, Z.shiftr_div_pow2 by lia.
  change (2 ^ 2)%Z with 4%Z. pose proof (Z.mul_div_le c 4 ltac:(lia)).
  pose proof (Z.div_pos c 4 ltac:(lia) ltac:(lia)). lia.
Qed.

Lemma unit_range_byte c : (0 <= c < 256)%Z -> Session.unit_range (inject_Z c / 255) = true.
Proof.
  intros H. unfold Session.unit_range.
  assert (H0 : 0 <= inject_Z c) by (change 0 with (inject_Z 0); rewrite <- Zle_Qle; lia).
  assert (H1 : inject_Z c <= 255) by (change 255 with (inject_Z 255); rewrite <- Zle_Qle; lia).
  assert (E : inject_Z c / 255 == inject_Z c * (1 # 255)) by reflexivity.
  destruct (Qlt_le_dec (inject_Z c / 255) 0) as [L|L]; [rewrite E in L; exfalso; lra|].
  destruct (Qlt_le_dec 1 (inject_Z c / 255)) as [U|U]; [rewrite E in U; exfalso; lra|].
  reflexivity.
Qed.

Lemma hexColor_toHex r g b :
  (0 <= r < 256)%Z -> (0 <= g < 256)%Z -> (0 <= b < 256)%Z ->
  Session.hexColor (toHex (r, g, b))
  = Some (inject_Z r / 255, inject_Z g / 255, inject_Z b / 255) /\
  bgLum (toHex (r, g, b)) = Some (luminance r g b).
Proof.
  intros Hr Hg Hb. unfold Session.hexColor, bgLum.
  destruct (toHex_slices r g b) as (-> & -> & ->).
  rewrite toHex_length, !parseInt16_hex2 by assumption. cbn [Nat.eqb].
  unfold Session.rgb. rewrite !unit_range_byte by assumption. split; reflexivity.
Qed.

(** A colour picked among the pixels of a canvas, or a default, is a
    colour of six hexadecimal digits. *)
Lemma picked_parses data (keep : Pixel -> bool) default result :
  Forall (fun c => 0 <= c < 256)%Z data ->
  picked (map colorKey (filter keep (pixels data))) default result ->
  result = default \/
  exists r g b, (0 <= r < 256)%Z /\ (0 <= g < 256)%Z /\ (0 <= b < 256)%Z /\
                result = toHex (r, g, b).
Proof.
  intros Hbytes Hp. unfold picked in Hp.
  destruct (map colorKey (filter keep (pixels data))) as [|k0 ks] eqn:K; [now left|].
  destruct Hp as (best & Hin & -> & _). right. rewrite <- K in Hin.
  apply in_map_iff in Hin as (p & <- & Hp). apply filter_In in Hp as [Hp _].
  destruct (pixels_channels _ data p (Nat.le_refl _) Hp) as (Hr & Hg & Hb).
  rewrite Forall_forall in Hbytes.
  exists (quantize (px_r p)), (quantize (px_g p)), (quantize (px_b p)).
  repeat split; try (apply quantize_byte; now apply Hbytes).
Qed.

(** X13. The colours the samplers return are always colours the commit
    can read: a [#] and six hexadecimal digits, which [hexColor] turns
    into an RGB colour within range (so [PDFLib.rgb] does not throw on the
    sampled background or text colour), and the background colour always
    has a luminance for [sampleTextColor] (never NaN); this for a canvas
    whose image data are bytes, as those of a canvas are. *)
Theorem sampled_colours_parse :
  forall (canvas : option Canvas) (x y width height : Q) (bgHex : string),
    (forall cv sx sy sw sh data,
       canvas = Some cv -> cv_getImageData cv sx sy sw sh = Some data ->
       Forall (fun c => 0 <= c < 256)%Z data) ->
    let bg := sampleBackgroundColor canvas x y width height in
    let fg := sampleTextColor canvas x y width height bgHex in
    (exists c, Session.hexColor bg = Some c) /\
    (exists c, Session.hexColor fg = Some c) /\
    (exists l, bgLum bg = Some l) /\
    String.length bg = 7%nat /\ String.length fg = 7%nat.
Proof.
  intros canvas x y width height bgHex Hbytes bg fg.
  assert (H : match readRegion canvas x y width height with
              | None => bg = "#ffffff" /\ fg = "#000000"
              | Some data =>
                  picked (map colorKey (filter is_light (pixels data))) "#ffffff" bg /\
                  picked (map colorKey
                            (filter (fun p => negb (skipped (skipThreshold bgHex) p))
                               (pixels data))) "#000000" fg
              end).
  { unfold bg, fg, sampleBackgroundColor, sampleTextColor.
    destruct (readRegion canvas x y width height) as [data|]; [|split; reflexivity].
    rewrite lightCounts_histogram, colorCounts_histogram.
    split; apply mostFrequent_spec. }
  assert (Hb : bg = "#ffffff" \/
               exists r g b, (0 <= r < 256)%Z /\ (0 <= g < 256)%Z /\ (0 <= b < 256)%Z /\
                             bg = toHex (r, g, b)).
  { destruct (readRegion canvas x y width height) as [data|] eqn:R; [|left; apply H].
    apply (picked_parses data is_light); [|apply H].
    unfold readRegion in R. destruct canvas as [cv|]; [|discriminate].
    destruct (negb (cv_context cv)); [discriminate|].
    destruct (_ || _)%bool; [discriminate|]. eapply Hbytes; [reflexivity | exact R]. }
  assert (Hf : fg = "#000000" \/
               exists r g b, (0 <= r < 256)%Z /\ (0 <= g < 256)%Z /\ (0 <= b < 256)%Z /\
                             fg = toHex (r, g, b)).
  { destruct (readRegion canvas x y width height) as [data|] eqn:R; [|left; apply H].
    apply (picked_parses data (fun p => negb (skipped (skipThreshold bgHex) p))); [|apply H].
    unfold readRegion in R. destruct canvas as [cv|]; [|discriminate].
    destruct (negb (cv_context cv)); [discriminate|].
    destruct (_ || _)%bool; [discriminate|]. eapply Hbytes; [reflexivity | exact R]. }
  clear H.
  destruct Hb as [->|(r & g & b & Hr & Hg & Hbl & ->)];
    destruct Hf as [->|(r' & g' & b' & Hr' & Hg' & Hb' & ->)];
    try destruct (hexColor_toHex r g b Hr Hg Hbl) as [E1 E2];
    try destruct (hexColor_toHex r' g' b' Hr' Hg' Hb') as [E3 E4];
    rewrite ?E1, ?E2, ?E3, ?E4, ?toHex_length;
    repeat split; try reflexivity; eexists; reflexivity.
Qed.

Lemma sampled_colours_parse_witness :
  exists c, Session.hexColor (sampleBackgroundColor (Some twoPixels) 0 0 2 1) = Some c.
Proof.
  refine (proj1 (sampled_colours_parse (Some twoPixels) 0 0 2 1 "" _)).
  intros cv sx sy sw sh data E H. injection E as <-. cbn in H. injection H as <-.
  repeat constructor; lia.
Defined.

End FrequencyProofs.

(** ** The states a session reaches *)

Section ReachProofs.

Import Session Reach.
Local Open Scope string_scope.

Lemma update_zone_length i f zones : List.length (update_zone i f zones) = List.length zones.
Proof. unfold update_zone. destruct (i <? 0)%Z; [reflexivity | apply update_nth_length]. Qed.

Lemma activate_zones_length paraIdx zones :
  forall i, List.length (activate_zones paraIdx i zones) = List.length zones.
Proof.
  induction zones as [|z zones IH]; intros i; cbn [activate_zones List.length]; auto.
Qed.

Lemma map_set_keys {V : Type} (k : Z) (v : V) (m : list (Z * V)) :
  NoDup (map fst m) ->
  NoDup (map fst (map_set k v m)) /\
  (forall k', In k' (map fst (map_set k v m)) -> k' = k \/ In k' (map fst m)).
Proof.
  induction m as [|[k0 v0] m IH]; intros Hn; cbn [map_set].
  - split; [repeat constructor; intros [] | intros k' [<-|[]]; now left].
  - inversion Hn as [|? ? Hk0 Hn']; subst. destruct (k0 =? k)%Z eqn:E.
    + apply Z.eqb_eq in E. subst k0. split; [exact Hn | intros k' H; now right].
    + destruct (IH Hn') as [I1 I2]. split.
      * cbn [map fst]. constructor; [|exact I1]. intros Hin.
        destruct (I2 _ Hin) as [->|H]; [|contradiction].
        rewrite Z.eqb_refl in E. discriminate E.
      * intros k' [<-|Hk]; [right; now left|].
        destruct (I2 _ Hk) as [->|H]; [now left | right; now right].
Qed.

Lemma push_capped_length snap stack :
  (List.length stack <= MAX_UNDO)%nat -> (List.length (push_capped snap stack) <= MAX_UNDO)%nat.
Proof.
  intros H. unfold push_capped.
  destruct (Nat.ltb_spec MAX_UNDO (List.length (stack ++ [snap]))) as [L|L]; [|exact L].
  rewrite length_app in L. cbn [List.length] in L.
  destruct stack as [|x stack]; cbn [app tl]; [cbn in L; unfold MAX_UNDO in L; lia|].
  rewrite length_app. cbn [List.length] in *. lia.
Qed.

Lemma deactivateBlock_shape s : shape s -> shape (deactivateBlock s).
Proof.
  intros (Hmode & Hu & Hur & Hn). unfold deactivateBlock.
  destruct (editContainer s) as [children|] eqn:C; [|repeat split; assumption].
  destruct (_activeBlockIdx s <? 0)%Z eqn:N; [repeat split; assumption|].
  destruct Hmode as [Hi|He]; [destruct Hi as (_ & Hc & _); congruence|].
  destruct He as (Ha & _ & Ht & Hv & Hz & Hp & _).
  unfold shape. cbn [undoStack redoStack _editedBlocks]. repeat split; try assumption.
  - right. unfold editing.
    cbn [active editContainer toolbar currentViewport _blockZones _paragraphData _activeBlockIdx].
    repeat split; try assumption.
    + now eexists.
    + now rewrite update_zone_length, length_map.
    + lia.
  - destruct (existsb lineDirty _); [|exact Hn]. now apply map_set_keys.
Qed.

Lemma openBlock_shape paraIdx s1 :
  shape s1 -> editing s1 -> (-1 <= paraIdx)%Z -> shape (openBlock paraIdx s1).
Proof.
  intros (_ & Hu & Hur & Hn) He Hidx.
  destruct He as (Ha & [children C] & Ht & Hv & Hz & Hp & _).
  unfold openBlock. rewrite C.
  destruct (at_index (_paragraphData s1) paraIdx) as [para|].
  - unfold shape. cbn [undoStack redoStack _editedBlocks]. repeat split; try assumption.
    right. unfold editing.
    cbn [active editContainer toolbar currentViewport _blockZones _paragraphData _activeBlockIdx].
    repeat split; try assumption.
    + now eexists.
    + now rewrite activate_zones_length.
  - unfold shape. cbn [undoStack redoStack _editedBlocks]. repeat split; try assumption.
    right. unfold editing.
    cbn [active editContainer toolbar currentViewport _blockZones _paragraphData _activeBlockIdx].
    repeat split; try assumption. now eexists.
Qed.

Lemma deactivateBlock_editing s : editing s -> editing (deactivateBlock s).
Proof.
  intros He. unfold deactivateBlock.
  destruct (editContainer s) as [children|] eqn:C; [|exact He].
  destruct (_activeBlockIdx s <? 0)%Z eqn:N; [exact He|].
  destruct He as (Ha & _ & Ht & Hv & Hz & Hp & _). unfold editing.
  cbn [active editContainer toolbar currentViewport _blockZones _paragraphData _activeBlockIdx].
  repeat split; try assumption.
  - now eexists.
  - now rewrite update_zone_length, length_map.
  - lia.
Qed.

Lemma activateBlock_shape paraIdx s :
  shape s -> editing s -> (-1 <= paraIdx)%Z -> shape (activateBlock paraIdx s).
Proof.
  intros Hs He Hidx. unfold activateBlock.
  destruct (paraIdx =? _activeBlockIdx s)%Z; [exact Hs|].
  destruct (_activeBlockIdx s >=? 0)%Z.
  - apply openBlock_shape; [now apply deactivateBlock_shape | now apply deactivateBlock_editing
                           | exact Hidx].
  - now apply openBlock_shape.
Qed.

Lemma exitTextEditMode_idle s : active s = true -> idle (exitTextEditMode s).
Proof. intros H. unfold exitTextEditMode. rewrite H. cbn [negb]. repeat split. Qed.

Lemma idle_shape s : idle s -> shape s.
Proof.
  intros Hi. pose proof Hi as (_ & _ & _ & _ & _ & _ & _ & _ & _ & Hs & _ & Hu & Hr).
  unfold shape. rewrite Hu, Hr, Hs. repeat split.
  - now left.
  - cbn. unfold MAX_UNDO. lia.
  - cbn. unfold MAX_UNDO. lia.
  - constructor.
Qed.

Lemma exitTextEditMode_shape s : shape s -> shape (exitTextEditMode s).
Proof.
  intros Hs. destruct (active s) eqn:A.
  - apply idle_shape. now apply exitTextEditMode_idle.
  - unfold exitTextEditMode. now rewrite A.
Qed.

Lemma paragraphLoop_nonempty rest : forall prev currentPara,
  paragraphLoop prev currentPara rest <> [].
Proof.
  induction rest as [|curr rest IH]; intros prev currentPara; cbn [paragraphLoop].
  - discriminate.
  - destruct (sameParagraph prev curr); [apply IH | discriminate].
Qed.

Lemma enterTextEditMode_shape pageNum viewport container pdfCanvas lines s :
  shape s -> shape (snd (enterTextEditMode pageNum viewport container pdfCanvas lines s)).
Proof.
  intros Hs. unfold enterTextEditMode.
  assert (H0 : idle (if active s then exitTextEditMode s else s)).
  { destruct (active s) eqn:A; [now apply exitTextEditMode_idle|].
    destruct Hs as ([Hi|He] & _); [exact Hi|]. destruct He as (Ha & _). congruence. }
  destruct lines as [|line rest]; cbn [snd].
  - apply idle_shape. destruct H0 as (? & ? & ? & ? & ? & ? & ? & ? & ? & ? & ? & ? & ?).
    repeat split; assumption.
  - unfold shape. cbn [undoStack redoStack _editedBlocks]. repeat split.
    + right. unfold editing.
      cbn [active editContainer toolbar currentViewport _blockZones _paragraphData
           _activeBlockIdx].
      repeat split; try (now eexists); try lia.
      * now rewrite length_map.
      * cbn [groupIntoParagraphs]. apply paragraphLoop_nonempty.
    + cbn. unfold MAX_UNDO. lia.
    + cbn. unfold MAX_UNDO. lia.
    + constructor.
Qed.

Lemma set_overlay_shape children undo redo s :
  shape s -> editContainer s <> None ->
  (List.length undo <= MAX_UNDO)%nat ->
  (List.length undo + List.length redo <= MAX_UNDO)%nat ->
  shape (set_overlay children undo redo s).
Proof.
  intros (Hmode & _ & _ & Hn) Hc Hu Hur.
  destruct Hmode as [Hi|He]; [destruct Hi as (_ & Hc' & _); contradiction|].
  destruct He as (Ha & _ & Ht & Hv & Hz & Hp & Hidx).
  unfold shape, set_overlay. cbn [undoStack redoStack _editedBlocks]. repeat split; try assumption.
  right. unfold editing.
  cbn [active editContainer toolbar currentViewport _blockZones _paragraphData _activeBlockIdx].
  repeat split; try assumption. now eexists.
Qed.

Lemma onInput_shape b li nodes s : shape s -> shape (onInput b li nodes s).
Proof.
  intros Hs. unfold onInput.
  destruct (editContainer s) as [children|] eqn:C; [|exact Hs].
  destruct (find_div b li children) as [d|]; [|exact Hs].
  pose proof Hs as (_ & Hu & Hur & _).
  apply set_overlay_shape; [exact Hs | congruence | |].
  - destruct (snapshotTaken d); [exact Hu | now apply push_capped_length].
  - destruct (snapshotTaken d); [exact Hur|].
    cbn [List.length]. rewrite Nat.add_0_r. now apply push_capped_length.
Qed.

Lemma onColor_shape value s : shape s -> shape (onColor value s).
Proof.
  intros Hs. unfold onColor.
  destruct (editContainer s) as [children|] eqn:C; [|exact Hs].
  destruct (_focusedLine s) as [[b li]|]; [|exact Hs].
  destruct (find_div b li children) as [d|]; [|exact Hs].
  pose proof Hs as (_ & Hu & _).
  apply set_overlay_shape; [exact Hs | congruence | |].
  - now apply push_capped_length.
  - cbn [List.length]. rewrite Nat.add_0_r. now apply push_capped_length.
Qed.

Lemma handle_shape s e : shape s -> shape (handle s e).
Proof.
  intros Hs. destruct e as [pageNum viewport pdfCanvas lines|paraIdx| |b li nodes|value|lib|];
    cbn [handle].
  - now apply enterTextEditMode_shape.
  - destruct (at_index (_blockZones s) paraIdx) as [z|] eqn:Z; [|exact Hs].
    pose proof (at_index_nonneg _ _ _ Z) as Hpos.
    apply activateBlock_shape; [exact Hs | | lia].
    destruct Hs as ([Hi|He] & _); [|exact He].
    destruct Hi as (_ & _ & _ & _ & _ & _ & _ & _ & Hz & _). rewrite Hz in Z.
    unfold at_index in Z. destruct (paraIdx <? 0)%Z; [discriminate|].
    destruct (Z.to_nat paraIdx); discriminate.
  - destruct (negb (active s)); [exact Hs|].
    destruct (_ >=? _)%Z; [now apply deactivateBlock_shape | now apply exitTextEditMode_shape].
  - now apply onInput_shape.
  - now apply onColor_shape.
  - unfold handleCommitTextEdits. destruct (active s) eqn:A; cbn [negb fst]; [|exact Hs].
    pose proof (commitTextEdits_state lib s) as E.
    destruct (commitTextEdits lib s) as [s1 out]. cbn [fst] in *. subst s1.
    apply exitTextEditMode_shape.
    destruct (_ >=? _)%Z; [now apply deactivateBlock_shape | exact Hs].
  - now apply exitTextEditMode_shape.
Qed.

Lemma run_shape events : shape (run events).
Proof.
  unfold run.
  assert (H0 : shape initial) by (apply idle_shape; repeat split).
  revert H0. generalize initial.
  induction events as [|e events IH]; intros s Hs; cbn [fold_left]; [exact Hs|].
  apply IH. now apply handle_shape.
Qed.

(** X14. Over every session (entering the mode, clicks on zones, typing,
    colour picks, Escape, Apply, Cancel) the editor is in one of two
    conditions.  Off: no container, toolbar, viewport, page number, focused
    line, paragraphs, zones, stored edits, canvas snapshot or undo history
    is left.  On: it has its container, toolbar and viewport, at least one
    paragraph, and exactly one click zone per paragraph. *)
Theorem session_on_or_off :
  forall events : list Event,
    if active (run events) then editing (run events) else idle (run events).
Proof.
  intros events. destruct (run_shape events) as ([Hi|He] & _).
  - pose proof Hi as (Ha & _). rewrite Ha. exact Hi.
  - pose proof He as (Ha & _). rewrite Ha. exact He.
Qed.

(** X15. The mode can always be left: after Apply (whatever the commit
    does: nothing to save, a saved document, or an exception), after Cancel,
    and after pressing Escape twice, the editor is off and nothing of the
    session is left. *)
Theorem leaving_always_works :
  forall (events : list Event) (lib : PdfLib),
    idle (handle (run events) (ApplyEdits lib)) /\
    idle (handle (run events) CancelEdits) /\
    idle (handle (handle (run events) Escape) Escape).
Proof.
  intros events lib. pose proof (run_shape events) as Hs.
  set (s := run events) in *.
  assert (Hoff : active s = false -> idle s).
  { intros A. destruct Hs as ([Hi|He] & _); [exact Hi|]. destruct He as (Ha & _). congruence. }
  destruct (active s) eqn:A.
  - split; [|split].
    + cbn [handle]. unfold handleCommitTextEdits. rewrite A. cbn [negb].
      pose proof (commitTextEdits_state lib s) as E.
      destruct (commitTextEdits lib s) as [s1 out]. cbn [fst] in *. subst s1.
      apply exitTextEditMode_idle.
      destruct (_ >=? _)%Z; [now rewrite deactivateBlock_active | exact A].
    + cbn [handle]. now apply exitTextEditMode_idle.
    + cbn [handle]. rewrite A. cbn [negb].
      destruct (_activeBlockIdx s >=? 0)%Z eqn:I.
      * rewrite deactivateBlock_active, A. cbn [negb].
        destruct Hs as ([Hi|He] & _); [destruct Hi as (Ha & _); congruence|].
        destruct He as (_ & [children C] & _).
        assert (Hidx : _activeBlockIdx (deactivateBlock s) = (-1)%Z).
        { rewrite (deactivateBlock_unfold s children C); [reflexivity|].
          apply Z.geb_le in I. lia. }
        rewrite Hidx. cbn [Z.geb Z.compare]. apply exitTextEditMode_idle.
        now rewrite deactivateBlock_active.
      * pose proof (exitTextEditMode_idle s A) as Hi. pose proof Hi as (Ha & _).
        rewrite Ha. exact Hi.
  - specialize (Hoff eq_refl). split; [|split].
    + cbn [handle]. unfold handleCommitTextEdits. rewrite A. exact Hoff.
    + cbn [handle]. unfold exitTextEditMode. rewrite A. exact Hoff.
    + cbn [handle]. rewrite A. cbn [negb]. rewrite A. exact Hoff.
Qed.

(** X16. [hasTextEditChanges] only sees the block that is open.  When
    Escape closes the open block, [hasTextEditChanges] answers false
    afterwards; and if it answered true before, the store then holds a
    dirty record for that block, which a commit would still draw. *)
Theorem closed_block_hides_changes :
  forall events : list Event,
    let s := run events in
    active s = true ->
    (0 <= _activeBlockIdx s)%Z ->
    hasTextEditChanges (handle s Escape) = false /\
    (hasTextEditChanges s = true ->
     exists savedLines sv,
       map_get (_editedBlocks (handle s Escape)) (_activeBlockIdx s) = Some savedLines /\
       In sv savedLines /\ sv_dirty sv = true /\
       changeOfSaved sv <> []).
Proof.
  intros events s A I.
  pose proof (run_shape events) as Hs. pose proof (single_active_always events) as Hinv.
  fold s in Hs, Hinv.
  destruct Hs as ([Hi|He] & _); [destruct Hi as (Ha & _); congruence|].
  destruct He as (_ & [children C] & _).
  assert (E : handle s Escape = deactivateBlock s).
  { cbn [handle]. rewrite A. cbn [negb].
    destruct (_activeBlockIdx s >=? 0)%Z eqn:G; [reflexivity|].
    rewrite Z.geb_leb in G. apply Z.leb_gt in G. lia. }
  rewrite E, (deactivateBlock_unfold s children C I).
  rewrite (blockLines_all s children C Hinv).
  split.
  - unfold hasTextEditChanges. cbn [editContainer].
    now rewrite (deactivateBlock_no_lines s children C Hinv).
  - unfold hasTextEditChanges. rewrite C. intros Hd.
    apply Nat.ltb_lt in Hd.
    destruct (filter dirtyClass (allLines children)) as [|d rest] eqn:F;
      [cbn in Hd; lia|].
    assert (Hin : In d (filter dirtyClass (allLines children))) by (rewrite F; now left).
    apply filter_In in Hin. destruct Hin as [Hin Hdirty].
    assert (Hl : lineDirty d = true) by (unfold lineDirty; rewrite Hdirty; apply orb_true_r).
    assert (Hex : existsb lineDirty (allLines children) = true)
      by (apply existsb_exists; now exists d).
    cbn [_editedBlocks]. rewrite Hex, map_get_set_same.
    exists (map saveLine (allLines children)), (saveLine d).
    split; [reflexivity|]. split; [now apply in_map|]. split; [exact Hl|].
    unfold changeOfSaved. replace (sv_dirty (saveLine d)) with true by (symmetry; exact Hl).
    discriminate.
Qed.

Lemma closed_block_hides_changes_witness :
  hasTextEditChanges Scenario.editing = true /\
  hasTextEditChanges (handle Scenario.editing Escape) = false.
Proof.
  split; [vm_compute; reflexivity|].
  pose proof (closed_block_hides_changes
                [EnterMode 1 Scenario.viewport None
                   [Scenario.textLine "Hello World" 100;
                    Scenario.textLine "Second paragraph" 300];
                 ZoneClick 0; Input 0 0 [Dom.Text "Goodbye World"]]) as H.
  cbv zeta in H. rewrite <- editing_reached in H.
  destruct H as [H _]; [reflexivity | vm_compute; discriminate | exact H].
Defined.

End ReachProofs.

(** ** Image regions and the image mode *)

Section ImageRegionProofs.

Import Images.
Local Open Scope Q_scope.

Lemma scan_app vt a b st : scan vt (a ++ b) st = scan vt b (scan vt a st).
Proof. unfold scan. apply fold_left_app. Qed.

Lemma paint_ok vt c name img : In img (paint vt c name) -> region_ok vt img.
Proof.
  destruct c as [[[[[c0 c1] c2] c3] c4] c5]. destruct vt as [[[[[vt0 vt1] vt2] vt3] vt4] vt5].
  unfold paint, below, region_ok.
  destruct (Qlt_le_dec (Js.or_num (Qabs c0) (Qabs c2)) 10) as [L|L]; cbn [orb]; [intros []|].
  destruct (Qlt_le_dec (Js.or_num (Qabs c3) (Qabs c1)) 10) as [L'|L']; [intros []|].
  intros [<-|[]]. cbn [pdfW pdfH width height left top pdfX pdfY]. repeat split; assumption.
Qed.

Lemma paint_length vt c name : (List.length (paint vt c name) <= 1)%nat.
Proof.
  destruct c as [[[[[c0 c1] c2] c3] c4] c5]. destruct vt as [[[[[vt0 vt1] vt2] vt3] vt4] vt5].
  unfold paint. destruct (_ || _)%bool; cbn; lia.
Qed.

Lemma scan_regions vt ops : forall st,
  Forall (region_ok vt) (images st) ->
  Forall (region_ok vt) (images (scan vt ops st)) /\
  (List.length (images (scan vt ops st)) <= List.length (images st) + paints ops)%nat.
Proof.
  induction ops as [|op ops IH]; intros st Hst.
  - split; [exact Hst|]. cbn. lia.
  - change (scan vt (op :: ops) st) with (scan vt ops (step vt st op)).
    assert (Hstep : Forall (region_ok vt) (images (step vt st op)) /\
                    (List.length (images (step vt st op))
                     <= List.length (images st) + paints [op])%nat).
    { destruct op as [| |m|name|]; cbn [step paints filter List.length images].
      - split; [exact Hst | lia].
      - destruct (ctmStack st); cbn [images]; (split; [exact Hst | lia]).
      - split; [exact Hst | lia].
      - split.
        + apply Forall_app. split; [exact Hst|].
          apply Forall_forall. intros img. apply paint_ok.
        + rewrite length_app. pose proof (paint_length vt (ctm st) name). lia.
      - split; [exact Hst | lia]. }
    destruct Hstep as [H1 H2]. destruct (IH _ H1) as [I1 I2]. split; [exact I1|].
    assert (P : paints (op :: ops) = (paints [op] + paints ops)%nat).
    { unfold paints. change (op :: ops) with ([op] ++ ops)%list.
      now rewrite filter_app, length_app. }
    lia.
Qed.

Lemma extract_regions pdfjsLib vt ops img :
  In img (extractImagePositions pdfjsLib vt ops) -> region_ok vt img.
Proof.
  unfold extractImagePositions. destruct pdfjsLib; cbn [negb]; [|intros []].
  destruct (scan_regions vt ops (mkScan identity [] [])) as [H1 _]; [constructor|].
  apply (proj1 (Forall_forall _ _) H1).
Qed.

(** X17. Every image region [extractImagePositions] reports is at
    least 10 units wide and high in PDF space (smaller paints are left
    out), its screen box is the PDF box scaled by the viewport, with its
    lower left corner at the viewport image of the PDF anchor; there are at
    most as many regions as paint operators, and none when pdf.js is
    missing. *)
Theorem extractImagePositions_regions :
  forall (pdfjsLib : bool) (vt : Matrix) (ops : list Op),
    let found := extractImagePositions pdfjsLib vt ops in
    (forall img, In img found ->
       let '(vt0, vt1, vt2, vt3, vt4, vt5) := vt in
       10 <= pdfW img /\ 10 <= pdfH img /\
       width img = pdfW img * Qabs vt0 /\
       height img = pdfH img * Qabs vt3 /\
       left img = vt0 * pdfX img + vt2 * pdfY img + vt4 /\
       top img = vt1 * pdfX img + vt3 * pdfY img + vt5 - height img) /\
    (List.length found <= paints ops)%nat /\
    (pdfjsLib = false -> found = []).
Proof.
  intros pdfjsLib vt ops found. subst found. unfold extractImagePositions.
  destruct pdfjsLib; cbn [negb].
  - destruct (scan_regions vt ops (mkScan identity [] [])) as [H1 H2];
      [constructor|].
    split; [|split].
    + intros img Hin. apply (proj1 (Forall_forall _ _) H1 img Hin).
    + cbn [images List.length] in H2. lia.
    + discriminate.
  - split; [intros img []|]. split; [cbn; lia | reflexivity].
Qed.

Lemma scan_nested vt body : forall st base inner d d',
  ctmStack st = (inner ++ base)%list ->
  List.length inner = d ->
  depth_after d body = Some d' ->
  exists inner' found,
    ctmStack (scan vt body st) = (inner' ++ base)%list /\
    List.length inner' = d' /\
    images (scan vt body st) = (images st ++ found)%list.
Proof.
  induction body as [|op body IH]; intros st base inner d d' Hs Hl Hd.
  - cbn in Hd. injection Hd as <-. exists inner, []. cbn [scan fold_left].
    rewrite app_nil_r. auto.
  - change (scan vt (op :: body) st) with (scan vt body (step vt st op)).
    destruct op as [| |m|name|]; cbn [depth_after] in Hd.
    + destruct (IH (step vt st save) base (ctm st :: inner) (Datatypes.S d) d')
        as (inner' & found & H1 & H2 & H3);
        [cbn [step ctmStack]; now rewrite Hs | cbn; now rewrite Hl | exact Hd |].
      exists inner', found. auto.
    + destruct d as [|d]; [discriminate Hd|].
      destruct inner as [|m inner]; [discriminate Hl|].
      assert (E : step vt st restore = mkScan m (inner ++ base) (images st))
        by (cbn [step]; now rewrite Hs).
      rewrite E.
      destruct (IH (mkScan m (inner ++ base) (images st)) base inner d d')
        as (inner' & found & H1 & H2 & H3);
        [reflexivity | cbn in Hl; lia | exact Hd |].
      exists inner', found. auto.
    + destruct (IH (step vt st (transform m)) base inner d d')
        as (inner' & found & H1 & H2 & H3); [exact Hs | exact Hl | exact Hd |].
      exists inner', found. auto.
    + destruct (IH (step vt st (paintImage name)) base inner d d')
        as (inner' & found & H1 & H2 & H3); [exact Hs | exact Hl | exact Hd |].
      exists inner', (paint vt (ctm st) name ++ found)%list.
      repeat split; [exact H1 | exact H2 |]. rewrite H3. cbn [step images].
      now rewrite app_assoc.
    + destruct (IH (step vt st other) base inner d d')
        as (inner' & found & H1 & H2 & H3); [exact Hs | exact Hl | exact Hd |].
      exists inner', found. auto.
Qed.

Lemma group_restores vt body st :
  balanced body = true ->
  exists found,
    scan vt (save :: body ++ [restore]) st
    = mkScan (ctm st) (ctmStack st) (images st ++ found).
Proof.
  intros Hb.
  assert (Hd : depth_after 0 body = Some O).
  { unfold balanced in Hb. destruct (depth_after 0 body) as [[|n]|]; congruence. }
  destruct (scan_nested vt body (step vt st save) (ctm st :: ctmStack st) [] 0%nat 0%nat)
    as (inner' & found & H1 & H2 & H3); [reflexivity | reflexivity | exact Hd |].
  destruct inner' as [|x inner']; [|discriminate H2]. cbn [app] in H1.
  exists found.
  change (save :: body ++ [restore])%list with ([save] ++ body ++ [restore])%list.
  rewrite !scan_app. change (scan vt [save] st) with (step vt st save).
  set (mid := scan vt body (step vt st save)) in *.
  change (scan vt [restore] mid) with (step vt mid restore).
  cbn [step]. rewrite H1, H3. reflexivity.
Qed.

Lemma scan_images vt ops : forall c stack imgs,
  images (scan vt ops (mkScan c stack imgs))
  = (imgs ++ images (scan vt ops (mkScan c stack [])))%list.
Proof.
  induction ops as [|op ops IH]; intros c stack imgs.
  - cbn. now rewrite app_nil_r.
  - change (scan vt (op :: ops) ?st) with (scan vt ops (step vt st op)).
    destruct op as [| |m|name|]; cbn [step ctm ctmStack images].
    + apply IH.
    + destruct stack as [|m rest]; apply IH.
    + apply IH.
    + rewrite IH. rewrite (IH c stack ([] ++ paint vt c name)%list).
      cbn [app]. now rewrite app_assoc.
    + apply IH.
Qed.

(** X18. A [save] ... [restore] group whose inner operators are
    balanced leaves the regions found before and after it as they are
    without the group: the transforms inside it only reach the images
    painted inside it.  A [restore] that has nothing to restore is
    ignored. *)
Theorem save_restore_group :
  forall (vt : Matrix) (pre body post : list Op),
    balanced body = true ->
    (exists found after,
       extractImagePositions true vt (pre ++ save :: body ++ restore :: post)
       = (extractImagePositions true vt pre ++ found ++ after)%list /\
       extractImagePositions true vt (pre ++ post)
       = (extractImagePositions true vt pre ++ after)%list) /\
    extractImagePositions true vt (restore :: post) = extractImagePositions true vt post.
Proof.
  intros vt pre body post Hb. split; [|reflexivity].
  unfold extractImagePositions. cbn [negb].
  set (st := scan vt pre (mkScan identity [] [])).
  destruct (group_restores vt body st Hb) as [found Hg].
  exists found, (images (scan vt post (mkScan (ctm st) (ctmStack st) []))).
  split.
  - replace (pre ++ save :: body ++ restore :: post)%list
      with (pre ++ (save :: body ++ [restore]) ++ post)%list
      by (cbn [app]; now rewrite <- app_assoc).
    rewrite !scan_app. fold st. rewrite Hg, scan_images. now rewrite app_assoc.
  - rewrite scan_app. fold st. rewrite <- scan_images. now destruct st.
Qed.

Lemma save_restore_group_witness :
  exists found after,
    extractImagePositions true (1, 0, 0, 1, 0, 0)
      ([] ++ save :: [transform (200, 0, 0, 100, 50, 60); paintImage "img_1"]
          ++ restore :: [paintImage "img_2"])
    = (extractImagePositions true (1, 0, 0, 1, 0, 0) [] ++ found ++ after)%list /\
    extractImagePositions true (1, 0, 0, 1, 0, 0) ([] ++ [paintImage "img_2"])
    = (extractImagePositions true (1, 0, 0, 1, 0, 0) [] ++ after)%list.
Proof.
  apply (save_restore_group (1, 0, 0, 1, 0, 0) []
           [transform (200, 0, 0, 100, 50, 60); paintImage "img_1"] [paintImage "img_2"]).
  reflexivity.
Defined.

End ImageRegionProofs.

Section ImageModeProofs.

Import ImageEdit ImageMode.

Lemma update_nth_Forall {A : Type} (P : A -> Prop) (f : A -> A) (l : list A) :
  (forall x, P x -> P (f x)) -> forall i, Forall P l -> Forall P (Js.update_nth i f l).
Proof.
  intros Hf. induction l as [|x l IH]; intros i H; destruct i; cbn [Js.update_nth];
    try exact H; inversion H; subst; constructor; auto.
Qed.

Lemma toggleDelete_ok o : overlay_ok o -> overlay_ok (toggleDelete o).
Proof.
  intros (Hw & Hh & Hr). unfold toggleDelete, overlay_ok.
  destruct (action o) eqn:A; cbn [pdfW pdfH action replaceSrc]; repeat split;
    try assumption; try discriminate; try congruence.
  - intros H. apply Hr in H. discriminate H.
Qed.

Lemma chooseReplacement_ok src o : overlay_ok o -> overlay_ok (chooseReplacement src o).
Proof.
  intros (Hw & Hh & _). unfold chooseReplacement, overlay_ok.
  cbn [pdfW pdfH action replaceSrc]. repeat split; try assumption; discriminate.
Qed.

Lemma entry_ok vt img : Images.region_ok vt img -> overlay_ok (entry img).
Proof.
  destruct vt as [[[[[vt0 vt1] vt2] vt3] vt4] vt5]. intros (Hw & Hh & _).
  unfold overlay_ok, entry. cbn [pdfW pdfH action replaceSrc].
  repeat split; try assumption; try discriminate. intros H. now contradiction H.
Qed.

Lemma exitImageEditMode_ok s : mode_ok s -> mode_ok (exitImageEditMode s).
Proof.
  intros H. unfold exitImageEditMode. destruct (imageActive s) eqn:A; cbn [negb]; [|exact H].
  unfold mode_ok. cbn [imageActive imageContainer imageOverlays]. repeat split. constructor.
Qed.

Lemma handle_ok s e : mode_ok s -> mode_ok (handle s e).
Proof.
  intros Hs. destruct e as [pageNum viewport pdfjsLib ops|i|i src|]; cbn [handle].
  - unfold enterImageEditMode.
    pose proof (extract_regions pdfjsLib (Layout.pv_transform viewport) ops) as Hreg.
    destruct (Images.extractImagePositions pdfjsLib (Layout.pv_transform viewport) ops)
      as [|img images]; cbn [snd].
    + destruct (imageActive s); [now apply exitImageEditMode_ok | exact Hs].
    + unfold mode_ok. cbn [imageActive imageContainer imageOverlays toolbar currentViewport].
      repeat split; try discriminate.
      apply Forall_forall. intros o Ho. apply in_map_iff in Ho.
      destruct Ho as (im & <- & Hin). apply (entry_ok (Layout.pv_transform viewport)).
      apply Hreg. exact Hin.
  - destruct Hs as [Hm Hf]. unfold mode_ok, with_overlays.
    cbn [imageActive imageContainer imageOverlays toolbar currentViewport]. split.
    + destruct (imageActive s).
      * destruct Hm as (H1 & H2 & H3 & H4). repeat split; try assumption.
        intros E. apply H3. apply length_zero_iff_nil.
        rewrite <- (update_nth_length toggleDelete _ i), E. reflexivity.
      * destruct Hm as (H1 & H2). split; [exact H1|]. rewrite H2. now destruct i.
    + apply update_nth_Forall; [apply toggleDelete_ok | exact Hf].
  - destruct Hs as [Hm Hf]. unfold mode_ok, with_overlays.
    cbn [imageActive imageContainer imageOverlays toolbar currentViewport]. split.
    + destruct (imageActive s).
      * destruct Hm as (H1 & H2 & H3 & H4). repeat split; try assumption.
        intros E. apply H3. apply length_zero_iff_nil.
        rewrite <- (update_nth_length (chooseReplacement src) _ i), E. reflexivity.
      * destruct Hm as (H1 & H2). split; [exact H1|]. rewrite H2. now destruct i.
    + apply update_nth_Forall; [apply chooseReplacement_ok | exact Hf].
  - now apply exitImageEditMode_ok.
Qed.

Lemma run_ok events : mode_ok (run events).
Proof.
  unfold run.
  assert (H0 : mode_ok initial) by (split; [split; reflexivity | constructor]).
  revert H0. generalize initial.
  induction events as [|e events IH]; intros s Hs; cbn [fold_left]; [exact Hs|].
  apply IH. now apply handle_ok.
Qed.

(** X19. Over every session of the image mode (entering, leaving,
    Delete clicks, files chosen for Replace): when the mode is off no
    overlay is left and nothing is pending; when it is on there is at least
    one overlay; every overlay covers a region at least 10 by 10 PDF units,
    and holds a replacement file exactly when its action is replace. *)
Theorem image_session_shape :
  forall events : list Event,
    let s := run events in
    (imageActive s = false -> imageOverlays s = [] /\ hasImageEditChanges s = false) /\
    (imageActive s = true -> imageOverlays s <> [] /\ toolbar s = true) /\
    (forall o, In o (imageOverlays s) ->
       (10 <= pdfW o)%Q /\ (10 <= pdfH o)%Q /\
       (action o = ActReplace <-> replaceSrc o <> None)).
Proof.
  intros events s. destruct (run_ok events) as [Hm Hf]. fold s in Hm, Hf.
  split; [|split].
  - intros A. rewrite A in Hm. destruct Hm as [_ Ho]. split; [exact Ho|].
    unfold hasImageEditChanges. now rewrite Ho.
  - intros A. rewrite A in Hm. destruct Hm as (_ & Ht & Ho & _). now split.
  - intros o Ho. exact (proj1 (Forall_forall _ _) Hf o Ho).
Qed.

Lemma image_session_shape_witness :
  imageOverlays (run [Enter 1 Scenario.pageViewport true
                        [Images.transform (200, 0, 0, 100, 50, 60);
                         Images.paintImage "img_1"];
                      Exit]) = [].
Proof.
  apply (image_session_shape
           [Enter 1 Scenario.pageViewport true
              [Images.transform (200, 0, 0, 100, 50, 60); Images.paintImage "img_1"];
            Exit]).
  reflexivity.
Defined.

Lemma pending_listed overlays :
  filter (fun o => negb (is_none (action o))) overlays = [] <->
  existsb (fun o => negb (is_none (action o))) overlays = false.
Proof.
  induction overlays as [|o overlays IH]; cbn [filter existsb]; [tauto|].
  destruct (negb (is_none (action o))); cbn [orb]; [|exact IH].
  split; discriminate.
Qed.

(** X20. [commitImageEdits] returns null exactly when
    [hasImageEditChanges] is false or pdf-lib is missing; and right after
    the mode is entered there are no changes. *)
Theorem commit_null_iff_no_changes :
  forall (lib : PdfLib) (s : State),
    (commitImageEdits lib (imageOverlays s) = Null <->
     hasImageEditChanges s = false \/ PDFLib_present lib = false) /\
    (forall pageNum viewport pdfjsLib ops,
       fst (enterImageEditMode pageNum viewport pdfjsLib ops s) = true ->
       hasImageEditChanges (snd (enterImageEditMode pageNum viewport pdfjsLib ops s)) = false).
Proof.
  intros lib s. split.
  - unfold commitImageEdits, hasImageEditChanges.
    pose proof (pending_listed (imageOverlays s)) as P.
    destruct (filter _ (imageOverlays s)) as [|o rest] eqn:F.
    + split; [intros _; left; now apply P | reflexivity].
    + destruct (existsb _ (imageOverlays s)) eqn:E;
        [|pose proof (proj2 P eq_refl) as X; discriminate X].
      destruct (PDFLib_present lib); cbn [negb].
      * destruct (load_ok lib); cbn [negb]; split; try discriminate;
          intros [H|H]; discriminate H.
      * split; [intros _; now right | reflexivity].
  - intros pageNum viewport pdfjsLib ops. unfold enterImageEditMode.
    destruct (Images.extractImagePositions pdfjsLib (Layout.pv_transform viewport) ops)
      as [|img images]; cbn [fst snd]; [discriminate|]. intros _.
    unfold hasImageEditChanges. cbn [imageOverlays].
    apply pending_listed. set (l := img :: images). clearbody l.
    induction l as [|x l IH]; cbn [map filter]; [reflexivity | exact IH].
Qed.

(** X21. Clicking Delete twice gives an overlay back as it was,
    unless it held a replacement: then the replacement is gone, and the
    overlay is left with no action. *)
Theorem delete_twice :
  forall o : Overlay,
    (action o = ActReplace <-> replaceSrc o <> None) ->
    (action o <> ActReplace -> toggleDelete (toggleDelete o) = o) /\
    (action o = ActReplace ->
     toggleDelete (toggleDelete o)
     = mkOverlay (pdfX o) (pdfY o) (pdfW o) (pdfH o) ActNone None).
Proof.
  intros o Hr. destruct o as [x y w h a r]. cbn [action replaceSrc] in Hr.
  assert (Hnone : a <> ActReplace -> r = None).
  { intros Ha. destruct r as [src|]; [|reflexivity].
    exfalso. apply Ha. apply Hr. discriminate. }
  split.
  - intros Ha. cbn [action] in Ha. rewrite (Hnone Ha).
    destruct a; [reflexivity | reflexivity | contradiction].
  - cbn [action]. intros ->. reflexivity.
Qed.

Lemma delete_twice_witness :
  toggleDelete (toggleDelete (mkOverlay 50 60 200 100 ActDelete None))
  = mkOverlay 50 60 200 100 ActDelete None.
Proof.
  apply (delete_twice (mkOverlay 50 60 200 100 ActDelete None)).
  - cbn [action replaceSrc]. split; [discriminate | intros H; now contradiction H].
  - discriminate.
Defined.

End ImageModeProofs.

Section HostProofs.

Import Host.
Local Open Scope string_scope.

(** X22. A click on a button that carries a class of the text
    toolbar runs the text handler, whatever other classes it has; both
    buttons of the image toolbar carry one.  So the click listener never
    runs [handleCommitImageEdits] or [handleCancelImageEdits] for them, and
    with the text mode off the handlers it runs return without changing
    anything. *)
Theorem image_toolbar_runs_text_handlers :
  forall (attr : string) (lib : Session.PdfLib) (s : Session.State),
    In attr imageToolbarButtons ->
    Session.active s = false ->
    (exists h, onPageContainerClick (classList attr) = Some h /\
               runTextHandler h lib s = Some s) /\
    (forall classes,
       onPageContainerClick classes = Some HandleCommitImageEdits \/
       onPageContainerClick classes = Some HandleCancelImageEdits ->
       contains classes "text-edit-commit" = false /\
       contains classes "text-edit-cancel" = false).
Proof.
  intros attr lib s Hin Hoff. split.
  - destruct Hin as [<-|[<-|[]]].
    + exists HandleCommitTextEdits. split; [reflexivity|].
      cbn [runTextHandler]. unfold Session.handleCommitTextEdits. now rewrite Hoff.
    + exists HandleCancelTextEdits. split; [reflexivity|].
      cbn [runTextHandler]. unfold Session.exitTextEditMode. now rewrite Hoff.
  - intros classes H. unfold onPageContainerClick in H.
    destruct (contains classes "text-edit-commit"); [destruct H; discriminate|].
    destruct (contains classes "text-edit-cancel"); [destruct H; discriminate|].
    split; reflexivity.
Qed.

Lemma image_toolbar_runs_text_handlers_witness :
  exists h, onPageContainerClick (classList "image-edit-commit-btn text-edit-commit") = Some h /\
            runTextHandler h Scenario.lib Session.initial = Some Session.initial.
Proof.
  apply (image_toolbar_runs_text_handlers "image-edit-commit-btn text-edit-commit"
           Scenario.lib Session.initial).
  - now left.
  - reflexivity.
Defined.

End HostProofs.

(** ** Undo and redo *)

Section UndoProofs.

Import Session Undo.
Local Open Scope string_scope.

Lemma pop_snoc stack x : pop (stack ++ [x]) = Some (x, stack).
Proof. unfold pop. rewrite rev_app_distr. cbn [rev app]. now rewrite rev_involutive. Qed.

Lemma pop_nil : pop [] = None.
Proof. reflexivity. Qed.

Lemma pop_length stack e rest :
  pop stack = Some (e, rest) -> List.length stack = Datatypes.S (List.length rest).
Proof.
  unfold pop. intros H. destruct (rev stack) as [|x r] eqn:R; [discriminate H|].
  injection H as <- <-. rewrite <- (rev_involutive stack), R. cbn [rev].
  rewrite length_app, !length_rev. cbn [List.length]. lia.
Qed.

Lemma push_capped_top x stack :
  exists kept, push_capped x stack = (kept ++ [x])%list /\
               (List.length kept <= List.length stack)%nat /\
               ((List.length stack < MAX_UNDO)%nat -> kept = stack).
Proof.
  unfold push_capped.
  destruct (Nat.ltb_spec MAX_UNDO (List.length (stack ++ [x]))) as [L|L].
  - rewrite length_app in L. cbn [List.length] in L.
    destruct stack as [|y stack]; [cbn in L; unfold MAX_UNDO in L; lia|].
    exists stack. cbn [app tl List.length]. repeat split; [lia|].
    cbn [List.length] in L. lia.
  - exists stack. repeat split; lia.
Qed.

Lemma push_capped_bound x stack :
  (List.length stack <= MAX_UNDO)%nat -> (List.length (push_capped x stack) <= MAX_UNDO)%nat.
Proof.
  intros H. unfold push_capped.
  destruct (Nat.ltb_spec MAX_UNDO (List.length (stack ++ [x]))) as [L|L]; [|exact L].
  rewrite length_app in L. cbn [List.length] in L.
  destruct stack as [|y stack]; cbn [app tl]; [cbn in L; unfold MAX_UNDO in L; lia|].
  rewrite length_app. cbn [List.length] in *. lia.
Qed.

Lemma nth_error_update {A : Type} (f : A -> A) (l : list A) : forall i x,
  nth_error l i = Some x -> nth_error (Js.update_nth i f l) i = Some (f x).
Proof.
  induction l as [|y l IH]; intros [|i] x H; cbn in *; try discriminate.
  - now injection H as ->.
  - now apply IH.
Qed.

Lemma nth_error_set {A : Type} (y : A) (l : list A) i x :
  nth_error l i = Some x -> nth_error (Js.update_nth i (fun _ => y) l) i = Some y.
Proof. apply (nth_error_update (fun _ => y)). Qed.

Lemma restore_look sn d :
  Dom.innerHTML (Dom.parse (sn_html sn)) = sn_html sn ->
  Dom.textContent (Dom.parse (sn_html sn)) = sn_text sn ->
  sn_block sn = d_blockIdx d -> sn_line sn = d_lineIdx d ->
  captureSnapshot (restoreSnapshot sn d) = sn.
Proof.
  intros Hh Ht Hb Hl. unfold restoreSnapshot, markDirty, with_dirtyClass, rebuild,
    captureSnapshot.
  cbn [childNodes d_blockIdx d_lineIdx d_bold d_italic d_fontSizeOverride d_colorOverride
       d_fontFamilyOverride d_fontNameOverride style_fontWeight style_fontStyle
       style_fontSize style_fontFamily style_color].
  rewrite Hh, Ht, <- Hb, <- Hl. now destruct sn.
Qed.

Lemma capture_restores d d' :
  Markup.all_plain (childNodes d) = true ->
  d_blockIdx d' = d_blockIdx d -> d_lineIdx d' = d_lineIdx d ->
  captureSnapshot (restoreSnapshot (captureSnapshot d) d') = captureSnapshot d.
Proof.
  intros Hp Hb Hl. destruct (parse_innerHTML (childNodes d) Hp) as (H1 & H2 & _ & H4).
  apply restore_look; cbn [captureSnapshot sn_html sn_text sn_block sn_line];
    auto.
Qed.

Lemma markDirty_look d :
  captureSnapshot (markDirty d) = captureSnapshot d /\
  d_blockIdx (markDirty d) = d_blockIdx d /\ d_lineIdx (markDirty d) = d_lineIdx d /\
  childNodes (markDirty d) = childNodes d /\ snapshotTaken (markDirty d) = snapshotTaken d.
Proof. repeat split. Qed.

Lemma restore_idx sn d :
  d_blockIdx (restoreSnapshot sn d) = d_blockIdx d /\
  d_lineIdx (restoreSnapshot sn d) = d_lineIdx d /\
  childNodes (restoreSnapshot sn d) = Dom.parse (sn_html sn).
Proof. repeat split. Qed.

(** X23. Undo takes a formatting change back and redo brings it
    again.  After a toolbar change of a line (whatever it did to the
    line), undo gives the line the markup, text, overrides and inline
    styles it had before, and takes the snapshot off the undo stack; redo
    then gives it those of after the change, and the two stacks are as
    they were after the change.  (Markup without attributes.) *)
Theorem undo_redo_round_trip :
  forall (st : State) (r : Ref) (d d' : LineDiv),
    nth_error (divs st) r = Some d ->
    Markup.all_plain (childNodes d) = true ->
    Markup.all_plain (childNodes d') = true ->
    d_blockIdx d' = d_blockIdx d ->
    d_lineIdx d' = d_lineIdx d ->
    let changed := onFormat r d' st in
    let undone := performUndo changed in
    let redone := performRedo undone in
    (exists d1, nth_error (divs undone) r = Some d1 /\ same_look d1 d) /\
    undoStack changed = (undoStack undone ++ [mkEntry r (captureSnapshot d)])%list /\
    redoStack undone = [mkEntry r (captureSnapshot d')] /\
    (exists d2, nth_error (divs redone) r = Some d2 /\ same_look d2 d') /\
    undoStack redone = undoStack changed /\
    redoStack redone = redoStack changed.
Proof.
  intros st r d d' Hd Hp Hp' Hb Hl changed undone redone.
  destruct (push_capped_top (mkEntry r (captureSnapshot d)) (undoStack st))
    as (kept & Hk & _).
  assert (Hc : changed
               = mkState (Js.update_nth r (fun _ => markDirty d') (divs st))
                   (kept ++ [mkEntry r (captureSnapshot d)]) []).
  { subst changed. unfold onFormat, pushUndo. rewrite Hd. cbn [divs undoStack redoStack].
    now rewrite Hk. }
  assert (Hd' : nth_error (Js.update_nth r (fun _ => markDirty d') (divs st)) r
                = Some (markDirty d'))
    by (apply (nth_error_update (fun _ => markDirty d') (divs st) r d Hd)).
  set (d1 := restoreSnapshot (captureSnapshot d) (markDirty d')).
  assert (Hu : undone
               = mkState (Js.update_nth r (restoreSnapshot (captureSnapshot d))
                            (Js.update_nth r (fun _ => markDirty d') (divs st)))
                   kept [mkEntry r (captureSnapshot d')]).
  { subst undone. rewrite Hc. unfold performUndo. cbn [undoStack divs redoStack].
    rewrite pop_snoc. cbn [div captured]. rewrite Hd'. reflexivity. }
  assert (Hd1 : nth_error (divs undone) r = Some d1).
  { rewrite Hu. cbn [divs]. apply (nth_error_update _ _ r (markDirty d') Hd'). }
  assert (L1 : captureSnapshot d1 = captureSnapshot d)
    by (apply capture_restores; assumption).
  set (d2 := restoreSnapshot (captureSnapshot d') d1).
  assert (Hr : redone
               = mkState (Js.update_nth r (restoreSnapshot (captureSnapshot d')) (divs undone))
                   (kept ++ [mkEntry r (captureSnapshot d)]) []).
  { subst redone. unfold performRedo.
    rewrite Hu at 1. cbn [redoStack]. change [mkEntry r (captureSnapshot d')]
      with ([] ++ [mkEntry r (captureSnapshot d')])%list.
    rewrite pop_snoc. cbn [div captured]. rewrite Hd1. rewrite L1.
    rewrite Hu. reflexivity. }
  split; [|split; [|split; [|split; [|split]]]].
  - exists d1. split; [exact Hd1 | exact L1].
  - rewrite Hc, Hu. reflexivity.
  - rewrite Hu. reflexivity.
  - exists d2. split.
    + rewrite Hr. cbn [divs]. apply (nth_error_update _ _ r d1 Hd1).
    + apply capture_restores; [exact Hp' | |]; subst d1; cbn; congruence.
  - rewrite Hr, Hc. reflexivity.
  - rewrite Hr, Hc. reflexivity.
Qed.

Lemma undo_redo_round_trip_witness :
  let d := createLine 0 0 (Scenario.textLine "Hello World" 100) None ("#000000", "#ffffff") in
  exists d1,
    nth_error (divs (performUndo (onFormat O (with_color "#ff0000" d) (mkState [d] [] [])))) O
    = Some d1 /\
    same_look d1 d.
Proof.
  intros d.
  destruct (undo_redo_round_trip (mkState [d] [] []) O d (with_color "#ff0000" d))
    as (H & _); try reflexivity.
  exact H.
Defined.

Lemma typing_keeps_snapshot r more : forall st d0 e kept,
  nth_error (divs st) r = Some d0 ->
  snapshotTaken d0 = true ->
  undoStack st = (kept ++ [e])%list ->
  let typed := fold_left (fun s n => onInput r n s) more st in
  undoStack typed = (kept ++ [e])%list /\
  exists dk, nth_error (divs typed) r = Some dk.
Proof.
  induction more as [|n more IH]; intros st d0 e kept Hd Ht Hu; cbn [fold_left].
  - split; [exact Hu | now exists d0].
  - apply (IH (onInput r n st)
             (markDirty (with_lastText (Dom.textContent n) true (with_childNodes n d0))) e kept).
    + unfold onInput. rewrite Hd. cbn [divs].
      apply (nth_error_set _ (divs st) r d0 Hd).
    + reflexivity.
    + unfold onInput. rewrite Hd, Ht. cbn [undoStack]. exact Hu.
Qed.

(** X24. Undo after typing gives the line the markup and the text it had
    right after the first input since it got the focus: the input listener
    takes its one snapshot when the browser has already changed the line,
    and [restoreSnapshot] sets the markup of the snapshot.  (Markup without
    attributes.) *)
Theorem undo_keeps_first_input :
  forall (st : State) (r : Ref) (d : LineDiv) (nodes : list Dom.Node)
         (more : list (list Dom.Node)),
    nth_error (divs st) r = Some d ->
    snapshotTaken d = false ->
    Markup.all_plain nodes = true ->
    let typed := fold_left (fun s n => onInput r n s) more (onInput r nodes st) in
    exists d1,
      nth_error (divs (performUndo typed)) r = Some d1 /\
      Dom.innerHTML (childNodes d1) = Dom.innerHTML nodes /\
      Dom.textContent (childNodes d1) = Dom.textContent nodes.
Proof.
  intros st r d nodes more Hd Ht Hp typed.
  set (e := mkEntry r
              (with_text (Js.or_str (match d_lastText d with Some t => t | None => "" end)
                            (d_original d))
                 (captureSnapshot (with_childNodes nodes d)))).
  destruct (push_capped_top e (undoStack st)) as (kept & Hk & _).
  set (d0 := markDirty (with_lastText (Dom.textContent nodes) true (with_childNodes nodes d))).
  assert (H0 : nth_error (divs (onInput r nodes st)) r = Some d0).
  { unfold onInput. rewrite Hd. cbn [divs]. apply (nth_error_set _ (divs st) r d Hd). }
  assert (H1 : undoStack (onInput r nodes st) = (kept ++ [e])%list).
  { unfold onInput. rewrite Hd, Ht. cbn [undoStack]. exact Hk. }
  destruct (typing_keeps_snapshot r more (onInput r nodes st) d0 e kept H0 eq_refl H1)
    as (Hu & dk & Hdk).
  fold typed in Hu, Hdk.
  exists (restoreSnapshot (captured e) dk). split.
  - unfold performUndo. rewrite Hu, pop_snoc. cbn [div e]. rewrite Hdk. cbn [divs].
    apply (nth_error_update _ _ r dk Hdk).
  - destruct (parse_innerHTML nodes Hp) as (P1 & P2 & _). split; assumption.
Qed.

Lemma undo_keeps_first_input_witness :
  let d := createLine 0 0 (Scenario.textLine "Hello World" 100) None ("#000000", "#ffffff") in
  exists d1,
    nth_error
      (divs (performUndo
               (fold_left (fun s n => onInput O n s) [[Dom.Text "Goodbye"]]
                  (onInput O [Dom.Text "G"] (mkState [d] [] [])))))
      O = Some d1 /\
    Dom.innerHTML (childNodes d1) = Dom.innerHTML [Dom.Text "G"] /\
    Dom.textContent (childNodes d1) = Dom.textContent [Dom.Text "G"].
Proof.
  intros d.
  apply (undo_keeps_first_input (mkState [d] [] []) O d [Dom.Text "G"] [[Dom.Text "Goodbye"]]);
    reflexivity.
Defined.

Lemma handle_bounded st e :
  (List.length (undoStack st) + List.length (redoStack st) <= MAX_UNDO)%nat ->
  (List.length (undoStack (handle st e)) + List.length (redoStack (handle st e))
   <= MAX_UNDO)%nat.
Proof.
  intros H.
  assert (Hpush : forall x, (List.length (push_capped x (undoStack st)) + 0 <= MAX_UNDO)%nat).
  { intros x. pose proof (push_capped_bound x (undoStack st)). lia. }
  destruct e as [d|r|r nodes|r d'| |]; cbn [handle].
  - exact H.
  - exact H.
  - unfold onInput. destruct (nth_error (divs st) r) as [d|]; [|exact H].
    cbn [undoStack redoStack]. destruct (snapshotTaken d); [exact H | apply Hpush].
  - unfold onFormat, pushUndo. destruct (nth_error (divs st) r) as [d|];
      cbn [undoStack redoStack]; [apply Hpush | exact H].
  - unfold performUndo. destruct (pop (undoStack st)) as [[e rest]|] eqn:P; [|exact H].
    destruct (nth_error (divs st) (div e)) as [d|]; [|exact H].
    cbn [undoStack redoStack]. rewrite length_app. cbn [List.length].
    apply pop_length in P. lia.
  - unfold performRedo. destruct (pop (redoStack st)) as [[e rest]|] eqn:P; [|exact H].
    destruct (nth_error (divs st) (div e)) as [d|]; [|exact H].
    cbn [undoStack redoStack]. rewrite length_app. cbn [List.length].
    apply pop_length in P. lia.
Qed.

(** X25. Over every sequence of typing, toolbar changes, undo and
    redo the two stacks hold at most [MAX_UNDO] = 50 snapshots together (so
    redo, which pushes without a cap, never exceeds it either); a new
    change empties the redo stack; undo and redo on an empty stack do
    nothing. *)
Theorem history_bounded :
  forall events : list Event,
    let st := run events in
    Nat.le (List.length (undoStack st) + List.length (redoStack st)) 50 /\
    (forall r d d',
       nth_error (divs st) r = Some d -> redoStack (handle st (Format r d')) = []) /\
    (undoStack st = [] -> handle st UndoClick = st) /\
    (redoStack st = [] -> handle st RedoClick = st).
Proof.
  intros events st. split; [|split; [|split]].
  - subst st. unfold run.
    assert (H0 : (List.length (undoStack (mkState [] [] []))
                  + List.length (redoStack (mkState [] [] [])) <= MAX_UNDO)%nat)
      by (cbn; unfold MAX_UNDO; lia).
    revert H0. generalize (mkState [] [] []).
    induction events as [|e events IH]; intros s Hs; cbn [fold_left]; [exact Hs|].
    apply IH. now apply handle_bounded.
  - intros r d d' Hd. cbn [handle]. unfold onFormat, pushUndo. now rewrite Hd.
  - intros E. cbn [handle]. unfold performUndo. now rewrite E.
  - intros E. cbn [handle]. unfold performRedo. now rewrite E.
Qed.

End UndoProofs.

(** ** The cover rectangle *)

Section CoverProofs.

Import Session.
Local Open Scope Q_scope.

(** X26. The rectangle a commit draws over a changed line starts one
    unit left of the line and, when the line's PDF width is known, ends
    three units right of it; it reaches from at least 18% of the font size
    under the baseline to at least 94% of the font size over it, and is at
    least 1.08 font sizes high. *)
Theorem coverRectangle_covers :
  forall (scale : Q) (c : Change) (coverColor : Rgb),
    exists x y w h,
      coverRectangle scale c coverColor = DrawRectangle x y w h coverColor /\
      x = c_pdfX c - 1 /\
      (0 < c_pdfLineWidth c -> w = c_pdfLineWidth c + 4) /\
      y <= c_pdfY c - c_pdfFontSize c * (18 # 100) /\
      c_pdfY c + c_pdfFontSize c * (94 # 100) <= y + h /\
      c_pdfFontSize c * (108 # 100) <= h.
Proof.
  intros scale c coverColor. unfold coverRectangle.
  set (fs := c_pdfFontSize c).
  set (H := Qmax (c_screenHeight c / scale) fs).
  assert (HH : fs <= H) by apply Q.le_max_r.
  do 4 eexists. split; [reflexivity|]. split; [reflexivity|]. split; [|split; [|split]].
  - intros Hw. destruct (Qlt_le_dec 0 (c_pdfLineWidth c)) as [L|L]; [reflexivity|].
    exfalso. apply (Qlt_irrefl 0). now apply (Qlt_le_trans _ (c_pdfLineWidth c)).
  - pose proof (Q.le_max_l (fs * (18 # 100)) (H * (18 # 100))). lra.
  - pose proof (Q.le_max_r (fs * (108 # 100)) (H * (112 # 100))) as H1.
    assert (H2 : Qmax (fs * (18 # 100)) (H * (18 # 100)) <= H * (18 # 100)).
    { apply Q.max_lub; lra. }
    lra.
  - apply Q.le_max_l.
Qed.

End CoverProofs.

(** ** The eyedropper *)

Section EyedropperProofs.

Import Sampler Eyedropper.
Local Open Scope string_scope.

(** X27. A colour picked from the canvas is the colour of the pixel
    under the pointer, written so that the commit can read it back: the
    commit's colour parser gives exactly the three channels over 255.
    Nothing is picked outside the canvas, without a canvas, or when the
    pixel cannot be read.  (For image data that are bytes, as those of a
    canvas are.) *)
Theorem samplePixelColor_parses :
  forall (canvas : option Canvas) (x y : Q),
    (forall cv sx sy sw sh data,
       canvas = Some cv -> cv_getImageData cv sx sy sw sh = Some data ->
       Forall (fun c => 0 <= c < 256)%Z data) ->
    match samplePixelColor canvas x y with
    | Some hex =>
        exists cv r g b rest,
          canvas = Some cv /\
          (0 <= Js.Math_round x < cv_width cv)%Z /\
          (0 <= Js.Math_round y < cv_height cv)%Z /\
          cv_getImageData cv (Js.Math_round x) (Js.Math_round y) 1 1
          = Some (r :: g :: b :: rest) /\
          Session.hexColor hex = Some (inject_Z r / 255, inject_Z g / 255, inject_Z b / 255)%Q /\
          String.length hex = 7%nat
    | None =>
        forall cv, canvas = Some cv -> cv_context cv = true ->
          (0 <= Js.Math_round x < cv_width cv)%Z ->
          (0 <= Js.Math_round y < cv_height cv)%Z ->
          match cv_getImageData cv (Js.Math_round x) (Js.Math_round y) 1 1 with
          | Some data => (List.length data < 3)%nat
          | None => True
          end
    end.
Proof.
  intros canvas x y Hbytes. unfold samplePixelColor.
  destruct canvas as [cv|]; [|intros cv E; discriminate E].
  destruct (cv_context cv) eqn:C; cbn [negb]; [|intros cv' E; injection E as <-; congruence].
  set (px := Js.Math_round x). set (py := Js.Math_round y).
  destruct ((px <? 0) || (py <? 0) || (px >=? cv_width cv) || (py >=? cv_height cv))%Z%bool
    eqn:B.
  - intros cv' E _ Hx Hy. injection E as <-. exfalso.
    rewrite !orb_true_iff, !Z.ltb_lt, !Z.geb_leb, !Z.leb_le in B. lia.
  - rewrite !orb_false_iff, !Z.ltb_ge, !Z.geb_leb, !Z.leb_gt in B.
    destruct (cv_getImageData cv px py 1 1) as [data|] eqn:G.
    + pose proof (Hbytes cv px py 1%Z 1%Z data eq_refl G) as Hd.
      destruct data as [|r [|g [|b rest]]].
      * intros cv' E _ _ _. injection E as <-. rewrite G. cbn. lia.
      * intros cv' E _ _ _. injection E as <-. rewrite G. cbn. lia.
      * intros cv' E _ _ _. injection E as <-. rewrite G. cbn. lia.
      * exists cv, r, g, b, rest.
        inversion Hd as [|? ? Hr Hd1]; subst. inversion Hd1 as [|? ? Hg Hd2]; subst.
        inversion Hd2 as [|? ? Hb Hd3]; subst.
        split; [reflexivity|]. split; [fold px; lia|]. split; [fold py; lia|].
        split; [exact G|].
        split; [apply (proj1 (hexColor_toHex r g b Hr Hg Hb)) | reflexivity].
    + intros cv' E _ _ _. injection E as <-. now rewrite G.
Qed.

Lemma samplePixelColor_parses_witness :
  match samplePixelColor (Some Frequency.twoPixels) 0 0 with
  | Some hex => Session.hexColor hex <> None
  | None => False
  end.
Proof.
  assert (Hb : forall cv sx sy sw sh data,
             Some Frequency.twoPixels = Some cv -> cv_getImageData cv sx sy sw sh = Some data ->
             Forall (fun c => 0 <= c < 256)%Z data).
  { intros cv sx sy sw sh data E H. injection E as <-. cbn in H. injection H as <-.
    repeat constructor; lia. }
  pose proof (samplePixelColor_parses (Some Frequency.twoPixels) 0 0 Hb) as H.
  destruct (samplePixelColor (Some Frequency.twoPixels) 0 0) as [hex|] eqn:E.
  - destruct H as (cv & r & g & b & rest & _ & _ & _ & _ & H & _). rewrite H. discriminate.
  - vm_compute in E. discriminate E.
Defined.

End EyedropperProofs.
